(** * Spec IR generator: a shallow embedding of the orchestration core

    The development follows the TypeScript sources of the proof of concept:

    - [Js]            the string primitives of the host language the code uses;
    - [Prompts]       [parseReviewResult] (llm/prompts/reviewer-prompts.ts);
    - [RateLimiter]   [isRateLimitError], [parseRateLimitHeaders],
                      [calculateBackoffDelay] (llm/rate-limiter.ts);
    - [Gateway]       [callAnthropic], [callOpenAI], [LLMClient.generate];
    - [Spec]          artifact and agent types (types/spec.types.ts);
    - [Agent]         [BaseAgent.execute], [generateWithFeedbackCycle];
    - [Pipeline]      [Pipeline.execute] and the resume entry of the orchestrator;
    - [Storage]       [saveState], [loadState], [clearState] (utils/storage.ts);
    - [Scenario]      concrete responses, scripts and checkpoints.

    The outside world is a parameter: the provider's responses, the model's
    answers, the random numbers and the clock are functions of the number
    of calls made so far, and every property is proved for all of them.
    Definitions come first; the properties are proved in the second half. *)

From Stdlib Require Import List ZArith NArith QArith Qminmax Qpower Lia Lqa.
From Stdlib Require Import String Ascii Bool DecimalString.
From stdpp Require Import gmap strings.
Import ListNotations.

Local Open Scope Z_scope.

(* ===================================================================== *)
(** ** Host-language strings *)
(* ===================================================================== *)

Module Js.

(** A JavaScript string is a sequence of UTF-16 code units. *)
Definition str := list N.

(** A literal of the source text (ASCII only in this code base). *)
Definition lit (s : string) : str :=
  List.map N_of_ascii (list_ascii_of_string s).

(** WhiteSpace and LineTerminator code points, the ones [trim] strips. *)
Definition isWhiteSpace (c : N) : bool :=
  let c := Z.of_N c in
  ((9 <=? c) && (c <=? 13)) || (c =? 32) || (c =? 160) || (c =? 5760)
  || ((8192 <=? c) && (c <=? 8202)) || (c =? 8232) || (c =? 8233)
  || (c =? 8239) || (c =? 8287) || (c =? 12288) || (c =? 65279).

(** [\d] and [\w] of the regular expressions in the sources. *)
Definition isDigit (c : N) : bool :=
  let c := Z.of_N c in (48 <=? c) && (c <=? 57).

Definition isWordChar (c : N) : bool :=
  let c := Z.of_N c in
  ((48 <=? c) && (c <=? 57)) || ((65 <=? c) && (c <=? 90))
  || ((97 <=? c) && (c <=? 122)) || (c =? 95).

Fixpoint dropWhile (p : N -> bool) (s : str) : str :=
  match s with
  | [] => []
  | c :: s' => if p c then dropWhile p s' else s
  end.

Fixpoint takeWhile (p : N -> bool) (s : str) : str :=
  match s with
  | [] => []
  | c :: s' => if p c then c :: takeWhile p s' else []
  end.

Definition trimStart (s : str) : str := dropWhile isWhiteSpace s.
Definition trimEnd (s : str) : str := rev (dropWhile isWhiteSpace (rev s)).

(** [s.trim()] *)
Definition trim (s : str) : str := trimEnd (trimStart s).

(** [s.startsWith(p)] *)
Fixpoint startsWith (s p : str) : bool :=
  match p, s with
  | [], _ => true
  | _ :: _, [] => false
  | a :: p', c :: s' => N.eqb a c && startsWith s' p'
  end.

(** [s.endsWith(p)] *)
Definition endsWith (s p : str) : bool := startsWith (rev s) (rev p).

(** [s.includes(p)] *)
Fixpoint includes (s p : str) : bool :=
  startsWith s p ||
  match s with
  | [] => false
  | _ :: s' => includes s' p
  end.

(** [s.replace(pat, repl)] with a string pattern: the first occurrence only
    (the replacement texts of the sources hold no [$] pattern). *)
Fixpoint replace (s pat repl : str) : str :=
  if startsWith s pat then repl ++ skipn (length pat) s
  else match s with
       | [] => []
       | c :: s' => c :: replace s' pat repl
       end.

(** [a || b] on strings: the empty string is the only falsy one. *)
Definition orElse (a b : str) : str :=
  match a with
  | [] => b
  | _ :: _ => a
  end.

Definition truthy (a : str) : bool :=
  match a with
  | [] => false
  | _ :: _ => true
  end.

(** Number to string, as a template literal renders an integer. *)
Definition ofZ (z : Z) : str := lit (NilZero.string_of_int (Z.to_int z)).

(** ASCII case folding. What the sources look for after [toLowerCase], or
    match under the [i] flag, are ASCII keywords without the letter k; on
    those the full case mapping finds the same occurrences. *)
Definition toLowerChar (c : N) : N :=
  if (65 <=? Z.of_N c) && (Z.of_N c <=? 90) then (c + 32)%N else c.

Definition toLowerCase (s : str) : str := List.map toLowerChar s.

(** [parseInt(s, 10)]: leading white space, an optional sign, then the
    longest run of decimal digits; [None] stands for NaN. *)
Definition digitsValue (ds : str) : Z :=
  fold_left (fun acc d => acc * 10 + (Z.of_N d - 48)) ds 0.

Definition parseInt (s : str) : option Z :=
  let s := trimStart s in
  let '(neg, body) :=
    match s with
    | 45%N :: r => (true, r)
    | 43%N :: r => (false, r)
    | _ => (false, s)
    end in
  match takeWhile isDigit body with
  | [] => None
  | ds => Some (if neg then - digitsValue ds else digitsValue ds)
  end.

(** One optional line feed, the [\n?] of the fence patterns. *)
Definition dropOptNewline (s : str) : str :=
  match s with
  | 10%N :: s' => s'
  | _ => s
  end.

Definition dropLast (n : nat) (s : str) : str := firstn (length s - n) s.

End Js.

(* ===================================================================== *)
(** ** Reviewer prompts: classification of the reviewer's answer *)
(* ===================================================================== *)

Module Prompts.

Record ReviewResult := mkReview { approved : bool; feedback : Js.str }.

Definition APPROVED : Js.str := Js.lit "APPROVED".
Definition NEEDS_REVISION : Js.str := Js.lit "NEEDS_REVISION".

Definition noSpecificFeedback : Js.str :=
  Js.lit "Reviewer requested changes but did not provide specific feedback.".
Definition unableToParse : Js.str :=
  Js.lit "Unable to parse reviewer response.".

(** reviewer-prompts.ts, [parseReviewResult]. *)
Definition parseReviewResult (response : Js.str) : ReviewResult :=
  let trimmed := Js.trim response in
  if Js.startsWith trimmed APPROVED then
    {| approved := true; feedback := [] |}
  else if Js.startsWith trimmed NEEDS_REVISION then
    let feedback := Js.trim (Js.replace trimmed NEEDS_REVISION []) in
    {| approved := false; feedback := Js.orElse feedback noSpecificFeedback |}
  else
    {| approved := false; feedback := Js.orElse trimmed unableToParse |}.

End Prompts.

(* ===================================================================== *)
(** ** Rate limiter *)
(* ===================================================================== *)

Module RateLimiter.

(** The rate-limit headers of a response, as [headers.get] returns them. *)
Record Headers := mkHeaders {
  retry_after : option Js.str;
  x_ratelimit_remaining_requests : option Js.str;
  x_ratelimit_limit_requests : option Js.str;
  x_ratelimit_remaining_tokens : option Js.str;
  x_ratelimit_limit_tokens : option Js.str
}.

(** A number field: [None] is NaN. An optional field adds one more [option]. *)
Record RateLimitInfo := mkInfo {
  isRateLimited : bool;
  retryAfterMs : option Z;
  requestsRemaining : option (option Z);
  requestsLimit : option (option Z);
  tokensRemaining : option (option Z);
  tokensLimit : option (option Z)
}.

Definition headerTruthy (h : option Js.str) : bool :=
  match h with
  | Some v => Js.truthy v
  | None => false
  end.

Definition optParseInt (h : option Js.str) : option (option Z) :=
  match h with
  | Some v => if Js.truthy v then Some (Js.parseInt v) else None
  | None => None
  end.

(** [parseRateLimitHeaders]; both providers read the same header names. *)
Definition parseRateLimitHeaders (headers : Headers) : RateLimitInfo :=
  {| isRateLimited :=
       match retry_after headers with Some _ => true | None => false end
       || match x_ratelimit_remaining_requests headers with
          | Some v => bool_decide (v = Js.lit "0")
          | None => false
          end;
     retryAfterMs :=
       match retry_after headers with
       | Some v =>
           if Js.truthy v then option_map (fun n => n * 1000) (Js.parseInt v)
           else Some 0
       | None => Some 0
       end;
     requestsRemaining := optParseInt (x_ratelimit_remaining_requests headers);
     requestsLimit := optParseInt (x_ratelimit_limit_requests headers);
     tokensRemaining := optParseInt (x_ratelimit_remaining_tokens headers);
     tokensLimit := optParseInt (x_ratelimit_limit_tokens headers) |}.

(** [isRateLimitError(status, errorMessage?)] *)
Definition isRateLimitError (status : Z) (errorMessage : option Js.str) : bool :=
  if status =? 429 then true
  else if status =? 529 then true
  else match errorMessage with
       | Some m =>
           if Js.truthy m then
             let lowerMessage := Js.toLowerCase m in
             Js.includes lowerMessage (Js.lit "rate limit")
             || Js.includes lowerMessage (Js.lit "rate_limit")
             || Js.includes lowerMessage (Js.lit "too many requests")
             || Js.includes lowerMessage (Js.lit "overloaded")
           else false
       | None => false
       end.

(** [calculateBackoffDelay(attempt, baseDelayMs, maxDelayMs, retryAfterMs?)].
    Delays are numbers of milliseconds, taken here as exact rationals (so
    without the rounding, and the overflow past 2^1023, of the doubles);
    [random] is the value that [Math.random()] returns, in [0, 1). An absent
    or NaN [retryAfterMs] is [None]. *)
Definition exponentialDelay (attempt : Z) (baseDelayMs : Q) : Q :=
  (baseDelayMs * 2 ^ (attempt - 1))%Q.

Definition jitter (attempt : Z) (baseDelayMs random : Q) : Q :=
  (exponentialDelay attempt baseDelayMs * (2 # 10) * (random * 2 - 1))%Q.

Definition positiveHint (retryAfterMs : option Q) : option Q :=
  match retryAfterMs with
  | Some h => if Qlt_le_dec 0 h then Some h else None
  | None => None
  end.

Definition calculateBackoffDelay
    (attempt : Z) (baseDelayMs maxDelayMs : Q) (retryAfterMs : option Q)
    (random : Q) : Q :=
  match positiveHint retryAfterMs with
  | Some h => Qmin (h + 500) maxDelayMs
  | None =>
      Qmin (exponentialDelay attempt baseDelayMs
            + jitter attempt baseDelayMs random) maxDelayMs
  end.

(** The capture of [/(\d+)\s*seconds?/i] in a message: the digits of the
    leftmost place where digits, optional white space and the word follow
    one another. *)
Definition secondsHere (s : Js.str) : option Js.str :=
  match Js.takeWhile Js.isDigit s with
  | [] => None
  | ds =>
      let rest := Js.dropWhile Js.isWhiteSpace (Js.dropWhile Js.isDigit s) in
      if Js.startsWith (Js.toLowerCase rest) (Js.lit "second") then Some ds
      else None
  end.

Fixpoint matchSeconds (s : Js.str) : option Js.str :=
  match secondsHere s with
  | Some ds => Some ds
  | None =>
      match s with
      | [] => None
      | _ :: s' => matchSeconds s'
      end
  end.

End RateLimiter.

(* ===================================================================== *)
(** ** Effects: state, exceptions and an event trace *)
(* ===================================================================== *)

(** An asynchronous function of the sources either resolves or rejects with
    an [Error]; it reads and writes the state [S] it shares with its callers
    and leaves a trace of the calls it makes to the outside ([E]). *)
Module Eff.

Inductive Res (A : Type) : Type :=
| Ok (a : A)
| Throw (message : Js.str).
Arguments Ok {A} a.
Arguments Throw {A} message.

Record Out (S E A : Type) : Type := mkOut {
  result : Res A;
  final : S;
  emitted : list E
}.
Arguments mkOut {S E A} result final emitted.
Arguments result {S E A} o.
Arguments final {S E A} o.
Arguments emitted {S E A} o.

Definition M (S E A : Type) : Type := S -> Out S E A.

Definition ret {S E A} (a : A) : M S E A := fun s => mkOut (Ok a) s [].

Definition bind {S E A B} (m : M S E A) (k : A -> M S E B) : M S E B :=
  fun s =>
    let o := m s in
    match result o with
    | Ok a =>
        let o' := k a (final o) in
        mkOut (result o') (final o') (emitted o ++ emitted o')
    | Throw e => mkOut (Throw e) (final o) (emitted o)
    end.

#[global] Instance M_ret {S E} : MRet (M S E) := @ret S E.
#[global] Instance M_bind {S E} : MBind (M S E) := fun A B k m => bind m k.

Definition throw {S E A} (message : Js.str) : M S E A :=
  fun s => mkOut (Throw message) s [].

Definition emit {S E} (e : E) : M S E unit := fun s => mkOut (Ok tt) s [e].

Definition get {S E} : M S E S := fun s => mkOut (Ok s) s [].

Definition modify {S E} (f : S -> S) : M S E unit :=
  fun s => mkOut (Ok tt) (f s) [].

(** [try { m } catch (error) { ... }]: the outcome of [m] as a value. *)
Definition attempt {S E A} (m : M S E A) : M S E (Res A) :=
  fun s => let o := m s in mkOut (Ok (result o)) (final o) (emitted o).

End Eff.

Import Eff.

(* ===================================================================== *)
(** ** Model identifiers, requests and responses (types/llm.types.ts) *)
(* ===================================================================== *)

Module Llm.

Inductive ModelType := claude_sonnet_4_5 | claude_opus_4_5 | chatgpt_5_2.

Inductive ModelProvider := anthropic | openai.

#[global] Instance ModelType_eq_dec : EqDecision ModelType.
Proof. solve_decision. Defined.
#[global] Instance ModelProvider_eq_dec : EqDecision ModelProvider.
Proof. solve_decision. Defined.

Definition modelName (m : ModelType) : Js.str :=
  match m with
  | claude_sonnet_4_5 => Js.lit "claude-sonnet-4-5"
  | claude_opus_4_5 => Js.lit "claude-opus-4-5"
  | chatgpt_5_2 => Js.lit "chatgpt-5-2"
  end.

Definition getModelProvider (m : ModelType) : ModelProvider :=
  if Js.startsWith (modelName m) (Js.lit "claude") then anthropic else openai.

Record LLMRequest := mkRequest {
  systemPrompt : Js.str;
  userMessage : Js.str;
  model : ModelType;
  maxTokens : option Z;
  temperature : option Q
}.

(** Token usage is reported by the providers and never read by the core. *)
Record LLMResponse := mkResponse {
  content : Js.str;
  responseModel : ModelType
}.

Record APIKeys := mkKeys {
  anthropicKey : option Js.str;
  openaiKey : option Js.str
}.

End Llm.

(* ===================================================================== *)
(** ** Gateway: provider calls with retry (llm/anthropic.ts, llm/openai.ts,
       llm/llm-client.ts) *)
(* ===================================================================== *)

Module Gateway.
Import Llm RateLimiter.

(** [RATE_LIMIT_CONFIG], the same in both provider modules. *)
Definition maxRetries : Z := 5.
Definition baseDelayMs : Q := 2000.
Definition maxDelayMs : Q := 120000.

(** What the code reads of an HTTP response. [errorMessage] is
    [errorData.error?.message] of a JSON error body, [bodyText] the text a
    success body carries; either is [None] when the body has no such part. *)
Record Response := mkHttp {
  status : Z;
  statusText : Js.str;
  headers : Headers;
  errorMessage : option Js.str;
  bodyText : option Js.str
}.

Definition ok (r : Response) : bool := (200 <=? status r) && (status r <=? 299).

(** [fetch] resolves with a response or rejects (transport failure). *)
Inductive FetchResult :=
| Responds (r : Response)
| Rejects (message : Js.str).

(** The network as the gateway sees it: how many requests were sent and how
    many random numbers were drawn so far. *)
Record Net := mkNet { fetches : nat; randoms : nat }.

Inductive Event :=
| Fetch (p : ModelProvider) (attempt : Z)
| RateLimitWait (p : ModelProvider) (delayMs : Q) (attempt : Z)
| Sleep (delayMs : Q).

Definition providerName (p : ModelProvider) : Js.str :=
  match p with
  | anthropic => Js.lit "Anthropic"
  | openai => Js.lit "OpenAI"
  end.

(** [getAnthropicModelId] and [getOpenAIModelId]: [None] is the [default]
    branch, which throws. *)
Definition getModelId (p : ModelProvider) (m : ModelType) : option Js.str :=
  match p, m with
  | anthropic, claude_sonnet_4_5 => Some (Js.lit "claude-sonnet-4-5")
  | anthropic, claude_opus_4_5 => Some (Js.lit "claude-opus-4-5-20251101")
  | openai, chatgpt_5_2 => Some (Js.lit "gpt-5.2")
  | _, _ => None
  end.

Definition rateLimitExceeded (p : ModelProvider) (attempt : Z) : Js.str :=
  providerName p ++ Js.lit " rate limit exceeded after " ++ Js.ofZ attempt
  ++ Js.lit " attempts. Please wait and try again.".

Definition apiError (p : ModelProvider) (st : Z) (message : Js.str) : Js.str :=
  providerName p ++ Js.lit " API error: " ++ Js.ofZ st ++ Js.lit " - " ++ message.

Definition maxRetriesExceeded (p : ModelProvider) : Js.str :=
  Js.lit "Max retries exceeded for " ++ providerName p ++ Js.lit " API call".

Definition unsupportedModel (p : ModelProvider) (m : ModelType) : Js.str :=
  Js.lit "Unsupported " ++ providerName p ++ Js.lit " model: " ++ modelName m.

(** The engine's message for [data.content.filter] on a body without
    [content]. *)
Definition noContentError : Js.str :=
  Js.lit "Cannot read properties of undefined (reading 'filter')".

(** The retry delay the rate-limit branch settles on: the header value,
    overridden by a number of seconds found in the error message. *)
Definition extractRetryAfterMs (r : Response) : option Z :=
  let fromHeaders := retryAfterMs (parseRateLimitHeaders (headers r)) in
  match errorMessage r with
  | Some m =>
      if Js.truthy m then
        match matchSeconds m with
        | Some digits => option_map (fun n => n * 1000) (Js.parseInt digits)
        | None => fromHeaders
        end
      else fromHeaders
  | None => fromHeaders
  end.

Section Calls.

(** The outside world: the outcome of the n-th request sent and the n-th
    value of [Math.random()]. *)
Variable fetch : nat -> FetchResult.
Variable random : nat -> Q.

Definition G := M Net Event.

Definition doFetch (p : ModelProvider) (attempt : Z) : G Response :=
  fun s =>
    let s' := {| fetches := S (fetches s); randoms := randoms s |} in
    match fetch (fetches s) with
    | Responds r => mkOut (Ok r) s' [Fetch p attempt]
    | Rejects e => mkOut (Throw e) s' [Fetch p attempt]
    end.

(** [calculateBackoffDelay] draws a random number only without a positive
    retry hint. *)
Definition backoffDelay (attempt : Z) (hint : option Q) : G Q :=
  fun s =>
    match positiveHint hint with
    | Some _ =>
        mkOut (Ok (calculateBackoffDelay attempt baseDelayMs maxDelayMs hint 0)) s []
    | None =>
        mkOut (Ok (calculateBackoffDelay attempt baseDelayMs maxDelayMs hint
                     (random (randoms s))))
              {| fetches := fetches s; randoms := S (randoms s) |} []
    end.

Definition sleep (delayMs : Q) : G unit := emit (Sleep delayMs).

Definition extractContent (p : ModelProvider) (r : Response) : G Js.str :=
  match p, bodyText r with
  | _, Some text => ret text
  | anthropic, None => throw noContentError
  | openai, None => ret []
  end.

(** The loop [for (attempt = 1; attempt <= maxRetries; attempt++)] of
    [callAnthropic] and [callOpenAI]; [remaining] counts the iterations
    left, [maxRetries - attempt + 1]. *)
Fixpoint attempts (p : ModelProvider) (request : LLMRequest)
    (remaining : nat) (attempt : Z) : G LLMResponse :=
  match remaining with
  | O => throw (maxRetriesExceeded p)
  | S remaining' =>
      response ← doFetch p attempt;
      if isRateLimitError (status response) None then
        let retryAfterMs := extractRetryAfterMs response in
        if attempt <? maxRetries then
          delayMs ← backoffDelay attempt (option_map inject_Z retryAfterMs);
          emit (RateLimitWait p delayMs attempt);;
          sleep delayMs;;
          attempts p request remaining' (attempt + 1)
        else throw (rateLimitExceeded p attempt)
      else if negb (ok response) then
        let message :=
          Js.orElse (default [] (errorMessage response)) (statusText response) in
        if (status response =? 401) || (status response =? 403) then
          throw (apiError p (status response) message)
        else if (500 <=? status response) && (attempt <? maxRetries) then
          delayMs ← backoffDelay attempt None;
          sleep delayMs;;
          attempts p request remaining' (attempt + 1)
        else throw (apiError p (status response) message)
      else
        text ← extractContent p response;
        ret {| content := text; responseModel := model request |}
  end.

Definition callProvider (p : ModelProvider) (request : LLMRequest) : G LLMResponse :=
  match getModelId p (model request) with
  | None => throw (unsupportedModel p (model request))
  | Some _ => attempts p request (Z.to_nat maxRetries) 1
  end.

Definition callAnthropic : LLMRequest -> G LLMResponse := callProvider anthropic.
Definition callOpenAI : LLMRequest -> G LLMResponse := callProvider openai.

Definition keyTruthy (k : option Js.str) : bool :=
  match k with
  | Some v => Js.truthy v
  | None => false
  end.

(** [LLMClient.generate] *)
Definition generate (apiKeys : APIKeys) (request : LLMRequest) : G LLMResponse :=
  match getModelProvider (model request) with
  | anthropic =>
      if keyTruthy (anthropicKey apiKeys) then callAnthropic request
      else throw (Js.lit "Anthropic API key is required for Claude models")
  | openai =>
      if keyTruthy (openaiKey apiKeys) then callOpenAI request
      else throw (Js.lit "OpenAI API key is required for ChatGPT models")
  end.

(** [LLMClient.validateApiKeys] *)
Definition validateApiKeys (apiKeys : APIKeys) (executorModel reviewerModel : ModelType)
    : list Js.str :=
  let needs p :=
    bool_decide (getModelProvider executorModel = p)
    || bool_decide (getModelProvider reviewerModel = p) in
  (if needs anthropic && negb (keyTruthy (anthropicKey apiKeys))
   then [Js.lit "Anthropic API key is required for Claude models"] else [])
  ++ (if needs openai && negb (keyTruthy (openaiKey apiKeys))
      then [Js.lit "OpenAI API key is required for ChatGPT models"] else []).

End Calls.

(** Reading a trace: the requests sent and the waits between them. *)
Definition isFetch (e : Event) : bool :=
  match e with
  | Fetch _ _ => true
  | _ => false
  end.

Definition isWait (e : Event) : bool :=
  match e with
  | Fetch _ _ => false
  | _ => true
  end.

Definition attemptsMade (trace : list Event) : nat := length (List.filter isFetch trace).

(** The responses that make the code wait and send the request again. *)
Definition isAuthStatus (st : Z) : bool := (st =? 401) || (st =? 403).

Definition isServerFailure (st : Z) : bool :=
  (500 <=? st) && negb (isRateLimitError st None).

Definition isRetryable (r : Response) : bool :=
  isRateLimitError (status r) None || isServerFailure (status r).

(** The error a retryable response surfaces at the last attempt. *)
Definition terminalError (p : ModelProvider) (r : Response) : Js.str :=
  if isRateLimitError (status r) None then rateLimitExceeded p maxRetries
  else apiError p (status r)
         (Js.orElse (default [] (errorMessage r)) (statusText r)).

(** An error message names the number of attempts when it tells it the
    way the rate-limit error does: the numeral, then the word. *)
Definition namesAttemptCount (message : Js.str) (n : Z) : bool :=
  Js.includes message (Js.ofZ n ++ Js.lit " attempts").

End Gateway.

(* ===================================================================== *)
(** ** Artifacts and agents (types/spec.types.ts, types/agent.types.ts) *)
(* ===================================================================== *)

Module Spec.

Inductive IRType :=
| contract | module | infrastructure | data | decisions | tasks
| types | interface | function | events | tests | pipeline.

Inductive AgentType := product | architect | scrum | developer | tester | devops.

#[global] Instance IRType_eq_dec : EqDecision IRType.
Proof. solve_decision. Defined.
#[global] Instance AgentType_eq_dec : EqDecision AgentType.
Proof. solve_decision. Defined.

Definition irTypeName (t : IRType) : Js.str :=
  Js.lit match t with
         | contract => "contract" | module => "module"
         | infrastructure => "infrastructure" | data => "data"
         | decisions => "decisions" | tasks => "tasks" | types => "types"
         | interface => "interface" | function => "function"
         | events => "events" | tests => "tests" | pipeline => "pipeline"
         end.

(** A [Date] is kept as its time value, in milliseconds. *)
Record SpecArtifact := mkArtifact {
  irType : IRType;
  fileName : Js.str;
  filePath : Js.str;
  content : Js.str;
  version : Js.str;
  createdBy : AgentType;
  createdAt : Z
}.

Definition AGENT_ORDER : list AgentType :=
  [product; architect; scrum; developer; tester; devops].

Definition AGENT_OUTPUTS (a : AgentType) : list IRType :=
  match a with
  | product => [contract]
  | architect => [module; infrastructure; data; decisions]
  | scrum => [tasks]
  | developer => [types; events; interface; function]
  | tester => [tests]
  | devops => [pipeline]
  end.

(** [getIRTypeFileName(irType)] and [getIRTypeFilePath(irType)], called
    without a component name. *)
Definition getIRTypeFileName (t : IRType) : Js.str := irTypeName t ++ Js.lit ".spec".

Definition getIRTypeFilePath (t : IRType) : Js.str :=
  match t with
  | interface => Js.lit "interfaces/" ++ getIRTypeFileName t
  | function => Js.lit "functions/" ++ getIRTypeFileName t
  | _ => getIRTypeFileName t
  end.

Record FeedbackEntry := mkEntry {
  cycle : Z;
  artifactType : IRType;
  reviewerFeedback : Js.str;
  executorResponse : Js.str;
  timestamp : Z
}.

(** [artifact] is declared non-null and returned through [artifact!]. *)
Record FeedbackCycleResult := mkCycleResult {
  artifact : option SpecArtifact;
  cyclesUsed : Z;
  approved : bool;
  feedbackHistory : list FeedbackEntry
}.

Record AgentResult := mkAgentResult {
  artifacts : list (option SpecArtifact);
  success : bool;
  error : option Js.str
}.

(** [Map<IRType, SpecArtifact>]: keys in insertion order; [set] on a key
    already there keeps its place. *)
Definition ArtifactMap := list (IRType * option SpecArtifact).

Fixpoint mapSet (k : IRType) (v : option SpecArtifact) (m : ArtifactMap) : ArtifactMap :=
  match m with
  | [] => [(k, v)]
  | (k', v') :: m' =>
      if decide (k = k') then (k, v) :: m' else (k', v') :: mapSet k v m'
  end.

Definition mapKeys (m : ArtifactMap) : list IRType := List.map fst m.
Definition mapValues (m : ArtifactMap) : list (option SpecArtifact) := List.map snd m.

(** A map is consistent when it files every artifact under its type. *)
Definition consistent (m : ArtifactMap) : Prop :=
  Forall (fun kv => exists a, snd kv = Some a /\ irType a = fst kv) m.

End Spec.

(* ===================================================================== *)
(** ** Agents: the feedback cycle (agents/base-agent.ts) *)
(* ===================================================================== *)

Module Agent.
Import Spec.

(** The subclasses differ by [getOutputIRTypes] only. The lists of
    ArchitectAgent, ScrumAgent, DeveloperAgent and DevOpsAgent are those of
    their classes; product-agent.ts and tester-agent.ts are not among the
    sources at hand, and the lists of these two agents are read off
    [AGENT_OUTPUTS] (which [PIPELINE_STAGES] repeats). *)
Definition getOutputIRTypes (a : AgentType) : list IRType :=
  match a with
  | architect => [module; infrastructure; data; decisions]
  | scrum => [tasks]
  | developer => [types; events; interface; function]
  | devops => [pipeline]
  | product | tester => AGENT_OUTPUTS a
  end.

(** [replace(/^```spec\n?/, '')] on a text that starts with the fence. *)
Definition stripSpecFence (s : Js.str) : Js.str := Js.dropOptNewline (skipn 7 s).

(** [replace(/^```\w*\n?/, '')] on a text that starts with three backticks. *)
Definition stripOpeningFence (s : Js.str) : Js.str :=
  Js.dropOptNewline (Js.dropWhile Js.isWordChar (skipn 3 s)).

(** [replace(/\n?```$/, '')] on a text that ends with three backticks. *)
Definition stripClosingFence (s : Js.str) : Js.str :=
  let body := Js.dropLast 3 s in
  if Js.endsWith body [10%N] then Js.dropLast 1 body else body.

Definition cleanSpecContent (content : Js.str) : Js.str :=
  let cleaned := Js.trim content in
  let cleaned :=
    if Js.startsWith cleaned (Js.lit "```spec") then stripSpecFence cleaned
    else if Js.startsWith cleaned (Js.lit "```") then stripOpeningFence cleaned
    else cleaned in
  let cleaned :=
    if Js.endsWith cleaned (Js.lit "```") then stripClosingFence cleaned
    else cleaned in
  Js.trim cleaned.

(** The object literal that [generateWithFeedbackCycle] assigns to
    [artifact] in each cycle. *)
Definition newArtifact (agent : AgentType) (t : IRType) (content : Js.str)
    (created : Z) : SpecArtifact :=
  {| irType := t;
     fileName := irTypeName t ++ Js.lit ".spec.ir";
     filePath := getIRTypeFilePath t;
     content := content;
     version := Js.lit "1.0.0";
     createdBy := agent;
     createdAt := created |}.

Inductive Role := Executor | Reviewer.

#[global] Instance Role_eq_dec : EqDecision Role.
Proof. solve_decision. Defined.

(** What a run does to the outside. [Call] is one [llmClient.generate]:
    the role of the request, the artifact it is about, the cycle, and the
    context and feedback the prompt is built from. The other events are
    the callbacks, observers that are taken to return; [onProgress] carries
    status text only and is left out. *)
Inductive Event :=
| StageStart (stage : nat) (agent : AgentType)
| ArtifactStart (t : IRType)
| FeedbackCycle (cycle maxCycles : Z)
| Call (role : Role) (agent : AgentType) (t : IRType) (cycle : Z)
       (context : ArtifactMap) (history : list FeedbackEntry)
| ArtifactComplete (a : option SpecArtifact)
| StageComplete (stage : nat) (agent : AgentType) (produced : list (option SpecArtifact))
| Error (message : Js.str).

(** The state of a run: the number of model calls made so far and the
    [previousArtifacts] map of the [AgentContext], the one part of the
    context that the agents and the pipeline share and update (the module
    name and the user's prompt only feed the prompt texts). *)
Record Run := mkRun { calls : nat; previousArtifacts : ArtifactMap }.

Section Agents.

(** The outcome of the n-th call of [llmClient.generate] (the content of
    the response, or the error it rejects with) and the clock after n
    calls. *)
Variable llm : nat -> Res Js.str.
Variable clock : nat -> Z.
Variable maxFeedbackCycles : Z.

Definition A := M Run Event.

Definition llmGenerate (role : Role) (agent : AgentType) (t : IRType) (cycle : Z)
    (history : list FeedbackEntry) : A Js.str :=
  fun s =>
    mkOut (llm (calls s))
          {| calls := S (calls s); previousArtifacts := previousArtifacts s |}
          [Call role agent t cycle (previousArtifacts s) history].

Definition now : A Z := fun s => mkOut (Ok (clock (calls s))) s [].

Definition setPrevious (t : IRType) (a : option SpecArtifact) : A unit :=
  modify (fun s => {| calls := calls s;
                      previousArtifacts := mapSet t a (previousArtifacts s) |}).

(** The loop [for (cycle = 1; cycle <= maxFeedbackCycles; cycle++)];
    [remaining] counts the iterations left. *)
Fixpoint cycles (agent : AgentType) (t : IRType) (remaining : nat) (cycle : Z)
    (history : list FeedbackEntry) (artifact : option SpecArtifact)
    : A FeedbackCycleResult :=
  match remaining with
  | O =>
      ret {| artifact := artifact; cyclesUsed := maxFeedbackCycles;
             approved := false; feedbackHistory := history |}
  | S remaining' =>
      emit (FeedbackCycle cycle maxFeedbackCycles);;
      executorResponse ← llmGenerate Executor agent t cycle history;
      let content := cleanSpecContent executorResponse in
      created ← now;
      let artifact := newArtifact agent t content created in
      reviewerResponse ← llmGenerate Reviewer agent t cycle history;
      let reviewResult := Prompts.parseReviewResult reviewerResponse in
      if Prompts.approved reviewResult then
        ret {| artifact := Some artifact; cyclesUsed := cycle;
               approved := true; feedbackHistory := history |}
      else
        stamped ← now;
        cycles agent t remaining' (cycle + 1)
               (history ++ [{| cycle := cycle; artifactType := t;
                               reviewerFeedback := Prompts.feedback reviewResult;
                               executorResponse := content;
                               timestamp := stamped |}])
               (Some artifact)
  end.

Definition generateWithFeedbackCycle (agent : AgentType) (t : IRType)
    : A FeedbackCycleResult :=
  cycles agent t (Z.to_nat maxFeedbackCycles) 1 [] None.

(** [execute]: the loop [for (const irType of irTypes)] inside the [try];
    [made] is the array [artifacts], which the [catch] branch returns as it
    stands. *)
Fixpoint produce (agent : AgentType) (irTypes : list IRType)
    (made : list (option SpecArtifact)) : A AgentResult :=
  match irTypes with
  | [] => ret {| artifacts := made; success := true; error := None |}
  | t :: rest =>
      emit (ArtifactStart t);;
      outcome ← attempt (generateWithFeedbackCycle agent t);
      match outcome with
      | Throw message =>
          ret {| artifacts := made; success := false; error := Some message |}
      | Ok result =>
          emit (ArtifactComplete (artifact result));;
          setPrevious t (artifact result);;
          produce agent rest (made ++ [artifact result])
      end
  end.

Definition execute (agent : AgentType) : A AgentResult :=
  produce agent (getOutputIRTypes agent) [].

(** One complete cycle, as it shows from outside: the state after its two
    calls, its events, the artifact it makes of the executor's answer [g]
    and the entry it files when the reviewer's answer [r] rejects it. *)
Definition afterCycle (s : Run) : Run :=
  {| calls := S (S (calls s)); previousArtifacts := previousArtifacts s |}.

Definition cycleEvents (agent : AgentType) (t : IRType) (cycle : Z)
    (history : list FeedbackEntry) (s : Run) : list Event :=
  [FeedbackCycle cycle maxFeedbackCycles;
   Call Executor agent t cycle (previousArtifacts s) history;
   Call Reviewer agent t cycle (previousArtifacts s) history].

Definition cycleArtifact (agent : AgentType) (t : IRType) (g : Js.str) (s : Run)
    : SpecArtifact :=
  newArtifact agent t (cleanSpecContent g) (clock (S (calls s))).

Definition cycleEntry (t : IRType) (cycle : Z) (g r : Js.str) (s : Run)
    : FeedbackEntry :=
  {| cycle := cycle; artifactType := t;
     reviewerFeedback := Prompts.feedback (Prompts.parseReviewResult r);
     executorResponse := cleanSpecContent g;
     timestamp := clock (S (S (calls s))) |}.

End Agents.

(** Reading a trace: the model calls of a role, and the artifact types the
    executor calls are about, in the order of the calls. *)
Definition isCall (role : Role) (e : Event) : bool :=
  match e, role with
  | Call Executor _ _ _ _ _, Executor => true
  | Call Reviewer _ _ _ _ _, Reviewer => true
  | _, _ => false
  end.

Definition callsOf (role : Role) (trace : list Event) : nat :=
  length (List.filter (isCall role) trace).

Definition generateCalls : list Event -> nat := callsOf Executor.
Definition reviewCalls : list Event -> nat := callsOf Reviewer.

Definition targets (trace : list Event) : list IRType :=
  flat_map (fun e => match e with
                     | Call Executor _ t _ _ _ => [t]
                     | _ => []
                     end) trace.

(** The events of a feedback cycle are about its artifact type and read
    the context as it was when the cycle started. *)
Definition cycleEvent (t : IRType) (context : ArtifactMap) (e : Event) : Prop :=
  match e with
  | FeedbackCycle _ _ => True
  | Call _ _ t' _ context' _ => t' = t /\ context' = context
  | _ => False
  end.

(** A call is fresh when the artifact it is about is not yet in the
    context the prompt is built from. *)
Definition freshCall (e : Event) : Prop :=
  match e with
  | Call _ _ t _ context _ => t ∉ mapKeys context
  | _ => True
  end.

(** An entry of an artifact list is typed [t] when it is [null] or an
    artifact of type [t]. *)
Definition typed (t : IRType) (v : option SpecArtifact) : Prop :=
  forall a, v = Some a -> irType a = t.

(** The state in which the next artifact of a stage is produced. *)
Definition filed (t : IRType) (v : option SpecArtifact) (s : Run) : Run :=
  {| calls := calls s; previousArtifacts := mapSet t v (previousArtifacts s) |}.

(** Every call of the model returns a response. *)
Definition alwaysResponds (llm : nat -> Res Js.str) : Prop :=
  forall c, exists answer, llm c = Ok answer.

(** The types of the artifacts of a list, [null] entries aside. *)
Definition typesOf (l : list (option SpecArtifact)) : list IRType :=
  flat_map (fun v => match v with
                     | Some a => [irType a]
                     | None => []
                     end) l.

(** What the model does from call [c] on, as far as one cycle goes: the
    executor answers [g] and the reviewer rejects it, or approves it. *)
Definition rejectsAt (llm : nat -> Res Js.str) (c : nat) (g : Js.str) : Prop :=
  llm c = Ok g
  /\ exists r, llm (S c) = Ok r
              /\ Prompts.approved (Prompts.parseReviewResult r) = false.

Definition approvesAt (llm : nat -> Res Js.str) (c : nat) (g : Js.str) : Prop :=
  llm c = Ok g
  /\ exists r, llm (S c) = Ok r
              /\ Prompts.approved (Prompts.parseReviewResult r) = true.

(** The reviewer approves on cycle [k] of a feedback cycle that starts at
    call [c]: it rejects the first [k - 1] generations and approves the
    k-th, [g]. *)
Definition approvesOnCycle (llm : nat -> Res Js.str) (c k : nat) (g : Js.str) : Prop :=
  (forall j, (j < k - 1)%nat -> exists g', rejectsAt llm (c + 2 * j) g')
  /\ approvesAt llm (c + 2 * (k - 1)) g.

(** The reviewer rejects all of the [n] generations from call [c] on, the
    last of which is [g]. *)
Definition rejectsAllCycles (llm : nat -> Res Js.str) (c n : nat) (g : Js.str) : Prop :=
  (forall j, (j < n - 1)%nat -> exists g', rejectsAt llm (c + 2 * j) g')
  /\ rejectsAt llm (c + 2 * (n - 1)) g.

End Agent.

(* ===================================================================== *)
(** ** Pipeline (orchestration/pipeline.ts) and the resume entry of the
       orchestrator (orchestration/orchestrator.ts) *)
(* ===================================================================== *)

Module Pipeline.
Import Spec Agent.

Record PipelineResult := mkPipelineResult {
  success : bool;
  artifacts : list (option SpecArtifact);
  error : option Js.str
}.

(** The engine's message for [artifact.irType] on [null]. *)
Definition nullIrTypeError : Js.str :=
  Js.lit "Cannot read properties of null (reading 'irType')".

(** [for (const artifact of result.artifacts)]: push, then [set]. The
    boolean tells whether the loop ran to its end; it stops where
    [artifact.irType] is read on [null], after the push. *)
Fixpoint collect (produced all : list (option SpecArtifact)) (m : ArtifactMap)
    : list (option SpecArtifact) * ArtifactMap * bool :=
  match produced with
  | [] => (all, m, true)
  | None :: _ => (all ++ [None], m, false)
  | Some a :: rest => collect rest (all ++ [Some a]) (mapSet (irType a) (Some a) m)
  end.

(** The state the loop over the produced artifacts leaves. *)
Definition collected (produced all : list (option SpecArtifact)) (s : Run) : Run :=
  {| calls := calls s;
     previousArtifacts := (collect produced all (previousArtifacts s)).1.2 |}.

Section Pipelines.

Variable llm : nat -> Res Js.str.
Variable clock : nat -> Z.
Variable maxFeedbackCycles : Z.

(** The loop [for (i = startFromStage; i < AGENT_ORDER.length; i++)] over
    the agents from [startFromStage] on. The [catch] of its body gets what
    [agent.execute] throws and the read of [irType] on [null]. *)
Fixpoint stages (agents : list AgentType) (i : nat)
    (allArtifacts : list (option SpecArtifact)) : A PipelineResult :=
  match agents with
  | [] => ret {| success := true; artifacts := allArtifacts; error := None |}
  | agentType :: rest =>
      let stage := (i + 1)%nat in
      emit (StageStart stage agentType);;
      outcome ← attempt (Agent.execute llm clock maxFeedbackCycles agentType);
      match outcome with
      | Throw message =>
          emit (Error message);;
          ret {| success := false; artifacts := allArtifacts;
                 error := Some message |}
      | Ok result =>
          if negb (Spec.success result) then
            emit (Error (Js.orElse (default [] (Spec.error result))
                                   (Js.lit "Agent execution failed")));;
            ret {| success := false; artifacts := allArtifacts;
                   error := Spec.error result |}
          else
            s ← get;
            let '(allArtifacts', m, completed) :=
              collect (Spec.artifacts result) allArtifacts (previousArtifacts s) in
            modify (fun s => {| calls := calls s; previousArtifacts := m |});;
            if completed then
              emit (StageComplete stage agentType (Spec.artifacts result));;
              stages rest (S i) allArtifacts'
            else
              emit (Error nullIrTypeError);;
              ret {| success := false; artifacts := allArtifacts';
                     error := Some nullIrTypeError |}
      end
  end.

(** [Pipeline.execute(userPrompt, moduleName, startFromStage,
    existingArtifacts)]; the two texts only feed the prompts. *)
Definition execute (startFromStage : nat) (existingArtifacts : option ArtifactMap)
    : A PipelineResult :=
  let previous := default [] existingArtifacts in
  modify (fun s => {| calls := calls s; previousArtifacts := previous |});;
  stages (skipn startFromStage AGENT_ORDER) startFromStage (mapValues previous).

(** [Orchestrator.run] from the point where the keys are validated: the
    map of the persisted artifacts is rebuilt and the pipeline runs from
    [progress.currentStage]. *)
Definition previousArtifactsOf (persisted : list SpecArtifact) : ArtifactMap :=
  fold_left (fun m a => mapSet (irType a) (Some a) m) persisted [].

Definition resume (startFromStage : nat) (persisted : list SpecArtifact)
    : A PipelineResult :=
  execute startFromStage (Some (previousArtifactsOf persisted)).

End Pipelines.

(** The declared types of the stages from index [n] on, and of the stages
    before it. *)
Definition outputsFrom (n : nat) : list IRType :=
  flat_map getOutputIRTypes (skipn n AGENT_ORDER).

Definition outputsBefore (n : nat) : list IRType :=
  flat_map getOutputIRTypes (firstn n AGENT_ORDER).

(** The first declared type of stage [n] that no persisted artifact has. *)
Definition firstMissing (n : nat) (persisted : list SpecArtifact) : option IRType :=
  match nth_error AGENT_ORDER n with
  | Some agent =>
      hd_error (List.filter (fun t => negb (bool_decide (t ∈ List.map irType persisted)))
                            (getOutputIRTypes agent))
  | None => None
  end.

(** The artifact list a run ends with. *)
Definition finalArtifacts (out : Out Run Event PipelineResult) : list (option SpecArtifact) :=
  match result out with
  | Ok pr => artifacts pr
  | Throw _ => []
  end.

End Pipeline.

(* ===================================================================== *)
(** ** Checkpoints (utils/storage.ts, types/orchestration.types.ts) *)
(* ===================================================================== *)

Module Storage.
Import Spec.

Inductive OrchestrationState := idle | running | paused | complete | error.

Record OrchestrationConfig := mkConfig {
  prompt : Js.str;
  executorModel : Llm.ModelType;
  reviewerModel : Llm.ModelType;
  apiKeys : Llm.APIKeys;
  maxFeedbackCycles : Z
}.

(** [Omit<OrchestrationConfig, 'apiKeys'>] *)
Record ConfigWithoutKeys := mkPersistedConfig {
  persistedPrompt : Js.str;
  persistedExecutorModel : Llm.ModelType;
  persistedReviewerModel : Llm.ModelType;
  persistedMaxFeedbackCycles : Z
}.

Record OrchestrationProgress := mkProgress {
  state : OrchestrationState;
  currentStage : nat;
  totalStages : nat;
  currentAgent : option AgentType;
  currentArtifact : option IRType;
  currentFeedbackCycle : Z;
  progressMaxFeedbackCycles : Z;
  completedArtifacts : list Js.str;
  statusMessage : Js.str;
  progressError : option Js.str
}.

(** [JSON.stringify] writes a [Date] as its ISO text and [new Date(text)]
    reads it back; the text is kept as the time value it denotes. *)
Inductive IsoText := Iso (timeValue : Z).

Definition toISOString (t : Z) : IsoText := Iso t.
Definition newDate (text : IsoText) : Z := let 'Iso t := text in t.

(** An artifact as [JSON.parse] returns it: [createdAt] is a text. *)
Record ParsedArtifact := mkParsed {
  parsedIrType : IRType;
  parsedFileName : Js.str;
  parsedFilePath : Js.str;
  parsedContent : Js.str;
  parsedVersion : Js.str;
  parsedCreatedBy : AgentType;
  parsedCreatedAt : IsoText
}.

Definition artifactToJSON (a : SpecArtifact) : ParsedArtifact :=
  {| parsedIrType := irType a; parsedFileName := fileName a;
     parsedFilePath := filePath a; parsedContent := content a;
     parsedVersion := version a; parsedCreatedBy := createdBy a;
     parsedCreatedAt := toISOString (createdAt a) |}.

(** [artifact.createdAt = new Date(artifact.createdAt)] *)
Definition restoreDate (a : ParsedArtifact) : SpecArtifact :=
  {| irType := parsedIrType a; fileName := parsedFileName a;
     filePath := parsedFilePath a; content := parsedContent a;
     version := parsedVersion a; createdBy := parsedCreatedBy a;
     createdAt := newDate (parsedCreatedAt a) |}.

(** [localStorage] at the four keys of [STORAGE_KEYS]; [None] is a key that
    is not set ([getItem] returns [null]). [JSON.stringify] and
    [JSON.parse] are the host's: a JSON text is kept as the value it
    encodes, the module name as the string it is. [setItem] is taken to
    succeed. *)
Record LocalStorage := mkStorage {
  CONFIG : option ConfigWithoutKeys;
  PROGRESS : option OrchestrationProgress;
  ARTIFACTS : option (list ParsedArtifact);
  MODULE_NAME : option Js.str
}.

Definition emptyStorage : LocalStorage := mkStorage None None None None.

Record PersistedState := mkPersisted {
  config : ConfigWithoutKeys;
  progress : OrchestrationProgress;
  artifacts : list SpecArtifact;
  moduleName : Js.str;
  timestamp : Z
}.

Definition saveState (config : OrchestrationConfig) (progress : OrchestrationProgress)
    (artifacts : list SpecArtifact) (moduleName : Js.str) (ls : LocalStorage)
    : LocalStorage :=
  let configWithoutKeys :=
    {| persistedPrompt := prompt config;
       persistedExecutorModel := executorModel config;
       persistedReviewerModel := reviewerModel config;
       persistedMaxFeedbackCycles := maxFeedbackCycles config |} in
  let ls := mkStorage (Some configWithoutKeys) (PROGRESS ls) (ARTIFACTS ls) (MODULE_NAME ls) in
  let ls := mkStorage (CONFIG ls) (Some progress) (ARTIFACTS ls) (MODULE_NAME ls) in
  let ls := mkStorage (CONFIG ls) (PROGRESS ls) (Some (List.map artifactToJSON artifacts))
                      (MODULE_NAME ls) in
  mkStorage (CONFIG ls) (PROGRESS ls) (ARTIFACTS ls) (Some moduleName).

(** [loadState]; a JSON text is never the empty string, so of the four
    tests [!configStr || !progressStr || !artifactsStr || !moduleName] only
    the last can fail on a key that is set. *)
Definition loadState (dateNow : Z) (ls : LocalStorage) : option PersistedState :=
  match CONFIG ls, PROGRESS ls, ARTIFACTS ls, MODULE_NAME ls with
  | Some configStr, Some progressStr, Some artifactsStr, Some moduleName =>
      if negb (Js.truthy moduleName) then None
      else Some {| config := configStr;
                   progress := progressStr;
                   artifacts := List.map restoreDate artifactsStr;
                   moduleName := moduleName;
                   timestamp := dateNow |}
  | _, _, _, _ => None
  end.

Definition clearState (ls : LocalStorage) : LocalStorage := emptyStorage.

Definition hasPersistedState (ls : LocalStorage) : bool :=
  match CONFIG ls, PROGRESS ls with
  | Some _, Some _ => true
  | _, _ => false
  end.

End Storage.

(* ===================================================================== *)
(** ** Concrete responses, requests and scripts used in the examples *)
(* ===================================================================== *)

Module Scenario.
Import Llm RateLimiter Gateway.

Definition noHeaders : Headers := mkHeaders None None None None None.

Definition unauthorized : Response :=
  {| status := 401; statusText := Js.lit "Unauthorized"; headers := noHeaders;
     errorMessage := Some (Js.lit "invalid x-api-key"); bodyText := None |}.

Definition overloaded : Response :=
  {| status := 529; statusText := []; headers := noHeaders;
     errorMessage := Some (Js.lit "Overloaded"); bodyText := None |}.

Definition unavailable : Response :=
  {| status := 503; statusText := Js.lit "Service Unavailable"; headers := noHeaders;
     errorMessage := None; bodyText := None |}.

Definition always (r : Response) : nat -> FetchResult := fun _ => Responds r.

Definition noJitter : nat -> Q := fun _ => 1 # 2.

Definition toClaude : LLMRequest := mkRequest [] [] claude_opus_4_5 (Some 8192) None.
Definition toChatGpt : LLMRequest := mkRequest [] [] chatgpt_5_2 (Some 2048) None.


(** A script of model answers: the n-th call gets the n-th entry, and a
    call past the end of the script is rejected. *)
Definition script (answers : list Js.str) : nat -> Res Js.str :=
  fun n => match nth_error answers n with
           | Some a => Ok a
           | None => Throw (Js.lit "Failed to fetch")
           end.

Definition draft (n : Z) : Js.str :=
  Js.lit "```spec" ++ [10%N] ++ Js.lit "ir::data v" ++ Js.ofZ n ++ [10%N] ++ Js.lit "```".

Definition needsRevision : Js.str := Js.lit "NEEDS_REVISION: entities are missing".
Definition approvedAnswer : Js.str := Js.lit "APPROVED".

(** Two rejections, then an approval. *)
Definition thirdTimeLucky : nat -> Res Js.str :=
  script [draft 1; needsRevision; draft 2; needsRevision; draft 3; approvedAnswer].

(** A reviewer that never approves, and one that always does. *)
Definition neverApproved : nat -> Res Js.str :=
  fun n => if Nat.even n then Ok (draft (Z.of_nat n)) else Ok needsRevision.

Definition alwaysApproved : nat -> Res Js.str :=
  fun n => if Nat.even n then Ok (draft (Z.of_nat n)) else Ok approvedAnswer.

Definition wallClock : nat -> Z := fun n => 1767225600000 + 1000 * Z.of_nat n.

(** A checkpoint of a run whose module name came out empty, as
    [extractModuleName] makes it for a prompt such as "build a ??? system":
    the captured name holds no letter or digit. *)
Definition anonymousConfig : Storage.OrchestrationConfig :=
  {| Storage.prompt := Js.lit "build a ??? system";
     Storage.executorModel := claude_sonnet_4_5;
     Storage.reviewerModel := chatgpt_5_2;
     Storage.apiKeys := mkKeys (Some (Js.lit "sk-ant-1")) (Some (Js.lit "sk-2"));
     Storage.maxFeedbackCycles := 3 |}.

Definition interruptedProgress : Storage.OrchestrationProgress :=
  {| Storage.state := Storage.error;
     Storage.currentStage := 2;
     Storage.totalStages := 6;
     Storage.currentAgent := Some Spec.architect;
     Storage.currentArtifact := Some Spec.infrastructure;
     Storage.currentFeedbackCycle := 1;
     Storage.progressMaxFeedbackCycles := 3;
     Storage.completedArtifacts := [Js.lit "contract.spec.ir"];
     Storage.statusMessage := Js.lit "Feedback cycle 1/3";
     Storage.progressError := Some (Js.lit "Failed to fetch") |}.

(** A resume point: stage index 1, the architect stage, with the contract
    and the module artifact persisted. *)
Definition persistedContract : Spec.SpecArtifact :=
  Agent.newArtifact Spec.product Spec.contract (Js.lit "ir::contract v0") 1767225000000.

Definition persistedModule : Spec.SpecArtifact :=
  Agent.newArtifact Spec.architect Spec.module (Js.lit "ir::module v0") 1767225100000.

Definition resumedAtArchitect : Out Agent.Run Agent.Event Pipeline.PipelineResult :=
  Pipeline.resume alwaysApproved wallClock 3 1 [persistedContract; persistedModule]
                  (Agent.mkRun 0 []).

End Scenario.

(* ===================================================================== *)
(** ** The numbers of the backoff delay *)
(* ===================================================================== *)

Module Doubles.

(** [Number.MAX_VALUE], the largest finite double. A product beyond it is
    [Infinity] in the code, and [calculateBackoffDelay] may then return
    NaN; the rationals of module [RateLimiter] stand for the doubles of a
    call whose exponential delay stays below it. *)
Definition MAX_VALUE : Q := inject_Z ((2 ^ 53 - 1) * 2 ^ 971).

(** A [retryAfterMs] that [calculateBackoffDelay] does not follow: absent
    or NaN, zero, or negative. *)
Definition noPositiveHint (retryAfterMs : option Q) : Prop :=
  retryAfterMs = None \/ exists h, retryAfterMs = Some h /\ (h <= 0)%Q.

End Doubles.

(* ===================================================================== *)
(** ** Reading the trace of a provider call *)
(* ===================================================================== *)

Module Waits.
Import Gateway.

(** The delays of the [sleep] calls of a trace, in order. *)
Definition sleeps (trace : list Event) : list Q :=
  flat_map (fun e => match e with
                     | Sleep d => [d]
                     | _ => []
                     end) trace.

(** The delays announced through [onRateLimitWait], in order. *)
Definition announced (trace : list Event) : list Q :=
  flat_map (fun e => match e with
                     | RateLimitWait _ d _ => [d]
                     | _ => []
                     end) trace.

(** The retry hint [calculateBackoffDelay] is called with after a response:
    the extracted delay in the rate-limit branch, none in the branch of the
    server failures. *)
Definition hintOf (r : Response) : option Q :=
  if RateLimiter.isRateLimitError (status r) None
  then option_map inject_Z (extractRetryAfterMs r)
  else None.

(** A failure response that the loop does not answer with a retry at any
    attempt: not a success, not a rate limit, not a server failure. *)
Definition isFinalFailure (r : Response) : bool :=
  negb (ok r) && negb (isRetryable r).

(** The state after one more request. *)
Definition sent (s : Net) : Net :=
  {| fetches := S (fetches s); randoms := randoms s |}.

(** What the loop does between a retryable response and its next request:
    the rate-limit branch announces the wait, both branches sleep. *)
Definition waitEvents (p : Llm.ModelProvider) (r : Response) (attempt : Z) (d : Q)
    : list Event :=
  if RateLimiter.isRateLimitError (status r) None
  then [RateLimitWait p d attempt; Sleep d]
  else [Sleep d].

(** The responses the network gives to the requests number [n], [n + 1],
    ..., [n + k - 1] are all retryable. *)
Definition retryableFrom (fetch : nat -> FetchResult) (n k : nat) : Prop :=
  forall i, (i < k)%nat ->
    exists r, fetch (n + i)%nat = Responds r /\ isRetryable r = true.

(** [Math.random()] returns a number in [0, 1). *)
Definition unitRandom (random : nat -> Q) : Prop :=
  forall i, (0 <= random i)%Q /\ (random i < 1)%Q.

(** The whole time a trace spends asleep. *)
Definition totalSleep (trace : list Event) : Q :=
  fold_right Qplus 0%Q (sleeps trace).

(** The error message of a response holds no number of seconds. *)
Definition noSecondsInMessage (r : Response) : Prop :=
  forall m, errorMessage r = Some m -> RateLimiter.matchSeconds m = None.

(** The key [generate] reads for a provider. *)
Definition keyFor (apiKeys : Llm.APIKeys) (p : Llm.ModelProvider) : option Js.str :=
  match p with
  | Llm.anthropic => Llm.anthropicKey apiKeys
  | Llm.openai => Llm.openaiKey apiKeys
  end.

(** The message of the error [generate] and [validateApiKeys] name a
    missing key with. *)
Definition keyRequired (p : Llm.ModelProvider) : Js.str :=
  match p with
  | Llm.anthropic => Js.lit "Anthropic API key is required for Claude models"
  | Llm.openai => Js.lit "OpenAI API key is required for ChatGPT models"
  end.

End Waits.


(* ===================================================================== *)
(** ** Reading the trace of a run *)
(* ===================================================================== *)

Module Runs.
Import Spec Agent.

(** The feedback history of an artifact of type [t] after some rejected
    cycles: one entry for each cycle, numbered from 1 in order, each about
    [t] and with a feedback text. *)
Definition wellFormedHistory (t : IRType) (history : list FeedbackEntry) : Prop :=
  List.map Spec.cycle history = List.map Z.of_nat (seq 1 (length history))
  /\ Forall (fun entry => artifactType entry = t /\ reviewerFeedback entry <> [])
            history.

(** A model call is informed when the feedback history its prompt is built
    from is that of all the cycles before its own. *)
Definition informed (e : Event) : Prop :=
  match e with
  | Call _ _ t cycle _ history =>
      cycle = Z.of_nat (length history) + 1 /\ wellFormedHistory t history
  | _ => True
  end.

(** The first call of the model that fails, from call [from] on, is call
    [c], and it fails with [message]. *)
Definition firstFailure (llm : nat -> Res Js.str) (from c : nat) (message : Js.str)
    : Prop :=
  (from <= c)%nat
  /\ llm c = Throw message
  /\ forall c', (from <= c' < c)%nat -> exists answer, llm c' = Ok answer.

(** The part of a list before the first occurrence of [t]. *)
Fixpoint before (t : IRType) (l : list IRType) : list IRType :=
  match l with
  | [] => []
  | t' :: l' => if decide (t' = t) then [] else t' :: before t l'
  end.

(** A model call of a run that starts with the artifact types [initial]
    in its context and is to produce the types [planned] sees the whole of
    what came before when its context holds, in order, the initial types
    and the planned types before its own. *)
Definition seesAllBefore (initial planned : list IRType) (e : Event) : Prop :=
  match e with
  | Call _ _ t _ context _ => mapKeys context = initial ++ before t planned
  | _ => True
  end.

End Runs.

(* ===================================================================== *)
(** ** A budget that runs out *)
(* ===================================================================== *)

Module Budget.
Import Spec Agent.

(** The state of a run after the feedback cycle of an artifact that used
    the [n] cycles of its budget: two model calls a cycle. *)
Definition exhausted (n : nat) (s : Run) : Run :=
  {| calls := calls s + 2 * n; previousArtifacts := previousArtifacts s |}.

(** The artifact made of [g], the last of the [n] generations of a
    feedback cycle that starts at call [c]: it is dated after the generate
    call of the last cycle. *)
Definition bestEffort (clock : nat -> Z) (agent : AgentType) (t : IRType)
    (n : nat) (g : Js.str) (c : nat) : SpecArtifact :=
  newArtifact agent t (cleanSpecContent g) (clock (c + 2 * (n - 1) + 1)%nat).

(** The declared artifact types of the stages from index [k] on, each with
    the agent of its stage, in the order in which a run produces them. *)
Definition declaredBy (agents : list AgentType) : list (AgentType * IRType) :=
  flat_map (fun agent => List.map (pair agent) (getOutputIRTypes agent)) agents.

Definition declaredFrom (k : nat) : list (AgentType * IRType) :=
  declaredBy (skipn k AGENT_ORDER).

(** From call [c] on the calls come in pairs, a generation that the model
    answers ([answers] gives the answer of a call by its number) and a
    review that does not approve it. *)
Definition neverApprovesFrom (llm : nat -> Res Js.str) (answers : nat -> Js.str)
    (c : nat) : Prop :=
  forall j, rejectsAt llm (c + 2 * j) (answers (c + 2 * j)%nat).

(** The artifacts of such a run from call [c] on, with [n] cycles for
    each: for every declared type the last of its generations. *)
Fixpoint bestEfforts (clock : nat -> Z) (n : nat) (answers : nat -> Js.str) (c : nat)
    (declared : list (AgentType * IRType)) : list SpecArtifact :=
  match declared with
  | [] => []
  | (agent, t) :: rest =>
      bestEffort clock agent t n (answers (c + 2 * (n - 1))%nat) c
      :: bestEfforts clock n answers (c + 2 * n) rest
  end.

End Budget.

(* ===================================================================== *)
(** ** Fenced model output *)
(* ===================================================================== *)

Module Fences.

(** A Markdown code block: the opening fence with its language tag, the
    body on lines of its own, the closing fence. *)
Definition fenced (tag body : Js.str) : Js.str :=
  Js.lit "```" ++ tag ++ [10%N] ++ body ++ [10%N] ++ Js.lit "```".

(** The language tags after which [cleanSpecContent] strips the whole
    opening fence: words that are [spec] or do not start with it. *)
Definition plainTag (tag : Js.str) : Prop :=
  Forall (fun c => Js.isWordChar c = true) tag
  /\ (tag = Js.lit "spec" \/ Js.startsWith tag (Js.lit "spec") = false).

Definition blank (ws : Js.str) : Prop :=
  Forall (fun c => Js.isWhiteSpace c = true) ws.

End Fences.

(* ===================================================================== *)
(** ** The stage table of the interface (types/orchestration.types.ts) *)
(* ===================================================================== *)

Module Tables.
Import Spec.

Inductive AgentCategory := specAgents | executionAgents.

Inductive StageStatus := pending | runningStage | completeStage | errorStage.

Record StageInfo := mkStage {
  stage : nat;
  agent : AgentType;
  name : Js.str;
  category : AgentCategory;
  outputs : list IRType;
  status : StageStatus
}.

Definition PIPELINE_STAGES : list StageInfo :=
  [ mkStage 1 product (Js.lit "Product Agent") specAgents [contract] pending;
    mkStage 2 architect (Js.lit "Architect Agent") specAgents
            [module; infrastructure; data; decisions] pending;
    mkStage 3 scrum (Js.lit "Scrum Agent") specAgents [tasks] pending;
    mkStage 4 developer (Js.lit "Developer Agent") executionAgents
            [types; events; interface; function] pending;
    mkStage 5 tester (Js.lit "Tester Agent") executionAgents [tests] pending;
    mkStage 6 devops (Js.lit "DevOps Agent") executionAgents [pipeline] pending ].

Definition AGENT_DISPLAY_NAMES (a : AgentType) : Js.str :=
  Js.lit match a with
         | product => "Product Agent"
         | architect => "Architect Agent"
         | scrum => "Scrum Agent"
         | developer => "Developer Agent"
         | tester => "Tester Agent"
         | devops => "DevOps Agent"
         end.

(** [createInitialProgress()] *)
Definition createInitialProgress : Storage.OrchestrationProgress :=
  {| Storage.state := Storage.idle;
     Storage.currentStage := 0;
     Storage.totalStages := length PIPELINE_STAGES;
     Storage.currentAgent := None;
     Storage.currentArtifact := None;
     Storage.currentFeedbackCycle := 0;
     Storage.progressMaxFeedbackCycles := 3;
     Storage.completedArtifacts := [];
     Storage.statusMessage := Js.lit "Ready to start";
     Storage.progressError := None |}.

(** The agents whose [outputs] list a type. *)
Definition producers (t : IRType) : list AgentType :=
  List.filter (fun a => bool_decide (t ∈ AGENT_OUTPUTS a)) AGENT_ORDER.

End Tables.

(* ===================================================================== *)
(** ** More of the rate limiter (llm/rate-limiter.ts) *)
(* ===================================================================== *)

Module Display.

(** [formatDuration(ms)] for a whole number of milliseconds (below 2^53):
    [Math.round(ms / 1000)] is then the quotient of [ms + 500] by 1000. *)
Definition formatDuration (ms : Z) : Js.str :=
  if ms <? 1000 then Js.ofZ ms ++ Js.lit "ms"
  else
    let seconds := (ms + 500) / 1000 in
    if seconds <? 60 then Js.ofZ seconds ++ Js.lit "s"
    else
      let minutes := seconds / 60 in
      let remainingSeconds := seconds mod 60 in
      Js.ofZ minutes ++ Js.lit "m " ++ Js.ofZ remainingSeconds ++ Js.lit "s".

(** The two forms of a duration of a second or more, as they are shown. *)
Definition shown (minutes seconds : Z) : Js.str :=
  if minutes =? 0 then Js.ofZ seconds ++ Js.lit "s"
  else Js.ofZ minutes ++ Js.lit "m " ++ Js.ofZ seconds ++ Js.lit "s".

End Display.

Module Tracker.

(** [class RateLimitTracker]: its three fields. *)
Record RateLimitTracker := mkTracker {
  lastRateLimitTime : Z;
  consecutiveRateLimits : Z;
  totalRateLimits : Z
}.

(** A new tracker. *)
Definition create : RateLimitTracker := mkTracker 0 0 0.

(** [recordRateLimit()], at the time [Date.now()] returns. *)
Definition recordRateLimit (now : Z) (t : RateLimitTracker) : RateLimitTracker :=
  {| lastRateLimitTime := now;
     consecutiveRateLimits := consecutiveRateLimits t + 1;
     totalRateLimits := totalRateLimits t + 1 |}.

Definition recordSuccess (t : RateLimitTracker) : RateLimitTracker :=
  {| lastRateLimitTime := lastRateLimitTime t;
     consecutiveRateLimits := 0;
     totalRateLimits := totalRateLimits t |}.

(** What [getStats()] returns; [None] is [Infinity]. *)
Record Stats := mkStats {
  statsLastRateLimitTime : Z;
  statsConsecutiveRateLimits : Z;
  statsTotalRateLimits : Z;
  timeSinceLastRateLimit : option Z
}.

Definition getStats (now : Z) (t : RateLimitTracker) : Stats :=
  {| statsLastRateLimitTime := lastRateLimitTime t;
     statsConsecutiveRateLimits := consecutiveRateLimits t;
     statsTotalRateLimits := totalRateLimits t;
     timeSinceLastRateLimit :=
       if lastRateLimitTime t =? 0 then None else Some (now - lastRateLimitTime t) |}.

Definition shouldBackOff (t : RateLimitTracker) : bool :=
  3 <=? consecutiveRateLimits t.

(** The calls that change a tracker, and a tracker after a list of them. *)
Inductive Recorded := RateLimit (now : Z) | Success.

Definition record (t : RateLimitTracker) (r : Recorded) : RateLimitTracker :=
  match r with
  | RateLimit now => recordRateLimit now t
  | Success => recordSuccess t
  end.

Definition after (records : list Recorded) : RateLimitTracker :=
  fold_left record records create.

Definition isRateLimit (r : Recorded) : bool :=
  match r with
  | RateLimit _ => true
  | Success => false
  end.

(** The rate limits recorded, and those recorded since the last success. *)
Definition rateLimits (records : list Recorded) : nat :=
  length (List.filter isRateLimit records).

Fixpoint leading (records : list Recorded) : nat :=
  match records with
  | RateLimit _ :: rest => S (leading rest)
  | _ => O
  end.

Definition sinceLastSuccess (records : list Recorded) : nat := leading (rev records).

(** The time of the last rate limit recorded. *)
Fixpoint firstRateLimit (records : list Recorded) : option Z :=
  match records with
  | [] => None
  | RateLimit now :: _ => Some now
  | Success :: rest => firstRateLimit rest
  end.

Definition lastRateLimit (records : list Recorded) : option Z :=
  firstRateLimit (rev records).

(** Every rate limit was recorded at a time after the epoch. *)
Definition afterEpoch (records : list Recorded) : Prop :=
  Forall (fun r => match r with
                   | RateLimit now => 0 < now
                   | Success => True
                   end) records.

End Tracker.

Module RateLimitedFetch.
Import RateLimiter.

Record RateLimitConfig := mkConfig {
  maxRetries : Z;
  baseDelayMs : Q;
  maxDelayMs : Q
}.

Definition DEFAULT_CONFIG : RateLimitConfig := mkConfig 5 1000 60000.

(** [Partial<RateLimitConfig>], and [{ ...DEFAULT_CONFIG, ...config }]. *)
Record PartialConfig := mkPartial {
  givenMaxRetries : option Z;
  givenBaseDelayMs : option Q;
  givenMaxDelayMs : option Q
}.

Definition finalConfig (config : PartialConfig) : RateLimitConfig :=
  {| maxRetries := default (maxRetries DEFAULT_CONFIG) (givenMaxRetries config);
     baseDelayMs := default (baseDelayMs DEFAULT_CONFIG) (givenBaseDelayMs config);
     maxDelayMs := default (maxDelayMs DEFAULT_CONFIG) (givenMaxDelayMs config) |}.

(** The requests of the wrapper and its two callbacks, [onRateLimitHit]
    and [onRetryScheduled], which are taken to return. *)
Inductive Event :=
| Fetch (attempt : Z)
| RateLimitHit (info : RateLimitInfo) (attempt : Z)
| RetryScheduled (delayMs : Q) (attempt : Z)
| Sleep (delayMs : Q).

(** [!retryAfterMs] on a number: zero and NaN. *)
Definition falsy (n : option Z) : bool :=
  match n with
  | Some v => v =? 0
  | None => true
  end.

(** The retry delay the wrapper settles on: the header value, and only
    when there is none (zero or NaN) a number of seconds found in the error
    message. *)
Definition extractRetryAfterMs (r : Gateway.Response) : option Z :=
  let fromHeaders := retryAfterMs (parseRateLimitHeaders (Gateway.headers r)) in
  if falsy fromHeaders then
    match Gateway.errorMessage r with
    | Some m =>
        if Js.truthy m then
          match matchSeconds m with
          | Some digits => option_map (fun n => n * 1000) (Js.parseInt digits)
          | None => fromHeaders
          end
        else fromHeaders
    | None => fromHeaders
    end
  else fromHeaders.

Section Wrapper.

Variable config : PartialConfig.
Variable fetch : nat -> Gateway.FetchResult.
Variable random : nat -> Q.

Definition F := M Gateway.Net Event.

Definition doFetch (attempt : Z) : F Gateway.Response :=
  fun s =>
    let s' := {| Gateway.fetches := S (Gateway.fetches s);
                 Gateway.randoms := Gateway.randoms s |} in
    match fetch (Gateway.fetches s) with
    | Gateway.Responds r => mkOut (Ok r) s' [Fetch attempt]
    | Gateway.Rejects e => mkOut (Throw e) s' [Fetch attempt]
    end.

(** [calculateBackoffDelay] on the delays of the configuration; it draws a
    random number only without a positive retry hint. *)
Definition backoffDelay (attempt : Z) (hint : option Q) : F Q :=
  fun s =>
    let c := finalConfig config in
    match positiveHint hint with
    | Some _ =>
        mkOut (Ok (calculateBackoffDelay attempt (baseDelayMs c) (maxDelayMs c) hint 0))
              s []
    | None =>
        mkOut (Ok (calculateBackoffDelay attempt (baseDelayMs c) (maxDelayMs c) hint
                     (random (Gateway.randoms s))))
              {| Gateway.fetches := Gateway.fetches s;
                 Gateway.randoms := S (Gateway.randoms s) |} []
    end.

(** The wait before the next attempt: the delay is computed, given to
    [onRetryScheduled] and slept. *)
Definition wait (attempt : Z) (hint : option Q) : F unit :=
  delayMs ← backoffDelay attempt hint;
  emit (RetryScheduled delayMs attempt);;
  emit (Sleep delayMs).

(** The loop [for (attempt = 1; attempt <= maxRetries; attempt++)];
    [remaining] counts the iterations left, [lastError] is the variable of
    that name. The body of the [try] ends with [return response] unless it
    goes on with [continue]; the [catch] gets what [fetch] rejects. *)
Fixpoint attempts (remaining : nat) (attempt : Z) (lastError : option Js.str)
    : F Gateway.Response :=
  match remaining with
  | O => throw (default (Js.lit "Max retries exceeded") lastError)
  | S remaining' =>
      outcome ← Eff.attempt (doFetch attempt);
      match outcome with
      | Ok response =>
          if isRateLimitError (Gateway.status response) None then
            let rateLimitInfo :=
              let info := parseRateLimitHeaders (Gateway.headers response) in
              {| isRateLimited := true;
                 retryAfterMs := retryAfterMs info;
                 requestsRemaining := requestsRemaining info;
                 requestsLimit := requestsLimit info;
                 tokensRemaining := tokensRemaining info;
                 tokensLimit := tokensLimit info |} in
            let retryAfterMs := extractRetryAfterMs response in
            emit (RateLimitHit rateLimitInfo attempt);;
            if attempt <? maxRetries (finalConfig config) then
              wait attempt (option_map inject_Z retryAfterMs);;
              attempts remaining' (attempt + 1) lastError
            else ret response
          else ret response
      | Throw error =>
          if attempt <? maxRetries (finalConfig config) then
            wait attempt None;;
            attempts remaining' (attempt + 1) (Some error)
          else attempts remaining' (attempt + 1) (Some error)
      end
  end.

(** The function [createRateLimitedFetch(config)] returns; the URL, the
    options and the provider do not bear on the control flow. *)
Definition rateLimitedFetch : F Gateway.Response :=
  attempts (Z.to_nat (maxRetries (finalConfig config))) 1 None.

End Wrapper.

(** Reading a trace: the requests sent and the sleeps. *)
Definition attemptsMade (trace : list Event) : nat :=
  length (List.filter (fun e => match e with Fetch _ => true | _ => false end) trace).

Definition sleeps (trace : list Event) : list Q :=
  flat_map (fun e => match e with Sleep d => [d] | _ => [] end) trace.

(** A request has a transient outcome when the network rejects it or the
    response is a rate limit: the outcomes the wrapper tries again after. *)
Definition transient (outcome : Gateway.FetchResult) : bool :=
  match outcome with
  | Gateway.Responds r => isRateLimitError (Gateway.status r) None
  | Gateway.Rejects _ => true
  end.

(** The state after one more request. *)
Definition sent (s : Gateway.Net) : Gateway.Net :=
  {| Gateway.fetches := S (Gateway.fetches s); Gateway.randoms := Gateway.randoms s |}.

(** What the wrapper makes of the outcome of a request when it ends on
    it. *)
Definition settled (outcome : Gateway.FetchResult) : Res Gateway.Response :=
  match outcome with
  | Gateway.Responds r => Ok r
  | Gateway.Rejects e => Throw e
  end.

End RateLimitedFetch.

(* ===================================================================== *)
(** ** More responses and networks for the examples *)
(* ===================================================================== *)

Module Cases.
Import Llm RateLimiter Gateway.

(** A network that answers the n-th request with the n-th entry of a list
    and is down afterwards. *)
Definition replies (l : list FetchResult) : nat -> FetchResult :=
  fun n => match nth_error l n with
           | Some outcome => outcome
           | None => Rejects (Js.lit "Failed to fetch")
           end.

Definition success (text : Js.str) : Response :=
  {| status := 200; statusText := Js.lit "OK"; headers := Scenario.noHeaders;
     errorMessage := None; bodyText := Some text |}.

Definition badRequest : Response :=
  {| status := 400; statusText := Js.lit "Bad Request"; headers := Scenario.noHeaders;
     errorMessage := Some (Js.lit "max_tokens: 8192 > 4096"); bodyText := None |}.

Definition retryAfter (seconds : string) : Headers :=
  mkHeaders (Some (Js.lit seconds)) None None None None.

(** A rate-limit response that names a delay in its message and another
    one in its header. *)
Definition tryAgainIn20 : Response :=
  {| status := 429; statusText := Js.lit "Too Many Requests";
     headers := retryAfter "7";
     errorMessage := Some (Js.lit "Rate limit reached. Please try again in 20 seconds.");
     bodyText := None |}.

(** A rate-limit response that asks for a long wait in its header, and
    one that names no delay at all. *)
Definition retryAfter100 : Response :=
  {| status := 429; statusText := Js.lit "Too Many Requests";
     headers := retryAfter "100";
     errorMessage := Some (Js.lit "Rate limit reached."); bodyText := None |}.

Definition tooManyRequests : Response :=
  {| status := 429; statusText := Js.lit "Too Many Requests";
     headers := Scenario.noHeaders;
     errorMessage := Some (Js.lit "Rate limit reached."); bodyText := None |}.

(** A rate-limit response that names a delay in its header only. *)
Definition retryAfter7 : Response :=
  {| status := 429; statusText := Js.lit "Too Many Requests";
     headers := retryAfter "7";
     errorMessage := Some (Js.lit "Rate limit reached."); bodyText := None |}.

(** The fetch wrapper with its default configuration, off line and on a
    network that recovers. *)
Definition defaults : RateLimitedFetch.PartialConfig :=
  RateLimitedFetch.mkPartial None None None.

Definition bothKeys : APIKeys := mkKeys (Some (Js.lit "sk-ant-1")) (Some (Js.lit "sk-2")).
Definition openaiKeyOnly : APIKeys := mkKeys (Some []) (Some (Js.lit "sk-2")).

End Cases.

(* ===================================================================== *)
(** ** The orchestrator (orchestration/orchestrator.ts) and the resume
       entry of the interface (App.tsx, hooks/useOrchestration.ts) *)
(* ===================================================================== *)

Module Orchestrator.
Import Spec Agent.

Definition agentTypeName (a : AgentType) : Js.str :=
  Js.lit match a with
         | product => "product" | architect => "architect" | scrum => "scrum"
         | developer => "developer" | tester => "tester" | devops => "devops"
         end.

Record ResumeState := mkResumeState {
  resumeArtifacts : list SpecArtifact;
  startFromStage : nat;
  resumeModuleName : Js.str
}.

(** [Partial<OrchestrationProgress>]: [None] is a field the update leaves
    out. The constructor takes them in the order of the interface: state,
    currentStage, currentAgent, currentArtifact, currentFeedbackCycle,
    maxFeedbackCycles, completedArtifacts, statusMessage, error. *)
Record Update := mkUpdate {
  newState : option Storage.OrchestrationState;
  newCurrentStage : option nat;
  newCurrentAgent : option AgentType;
  newCurrentArtifact : option IRType;
  newCurrentFeedbackCycle : option Z;
  newMaxFeedbackCycles : option Z;
  newCompletedArtifacts : option (list Js.str);
  newStatusMessage : option Js.str;
  newError : option Js.str
}.

Definition overwrite {A} (old : option A) (new : option A) : option A :=
  match new with
  | Some a => Some a
  | None => old
  end.

(** [{ ...progress, ...update }] *)
Definition spread (progress : Storage.OrchestrationProgress) (update : Update)
    : Storage.OrchestrationProgress :=
  {| Storage.state := default (Storage.state progress) (newState update);
     Storage.currentStage :=
       default (Storage.currentStage progress) (newCurrentStage update);
     Storage.totalStages := Storage.totalStages progress;
     Storage.currentAgent :=
       overwrite (Storage.currentAgent progress) (newCurrentAgent update);
     Storage.currentArtifact :=
       overwrite (Storage.currentArtifact progress) (newCurrentArtifact update);
     Storage.currentFeedbackCycle :=
       default (Storage.currentFeedbackCycle progress) (newCurrentFeedbackCycle update);
     Storage.progressMaxFeedbackCycles :=
       default (Storage.progressMaxFeedbackCycles progress) (newMaxFeedbackCycles update);
     Storage.completedArtifacts :=
       default (Storage.completedArtifacts progress) (newCompletedArtifacts update);
     Storage.statusMessage :=
       default (Storage.statusMessage progress) (newStatusMessage update);
     Storage.progressError :=
       overwrite (Storage.progressError progress) (newError update) |}.

(** [array.join(', ')] *)
Fixpoint join (texts : list Js.str) : Js.str :=
  match texts with
  | [] => []
  | [text] => text
  | text :: rest => text ++ Js.lit ", " ++ join rest
  end.

Section Orchestrators.

(** [generateZip] of utils/zip-generator.ts, which is not among the
    sources at hand: the blob it resolves to, or the error it rejects
    with. *)
Variable Blob : Type.
Variable generateZip : list (option SpecArtifact) -> Js.str -> Res Blob.

(** The module name that the private method [extractModuleName] reads off
    the prompt of a new run; its two regular expressions are the host's to
    match. *)
Variable extractModuleName : Js.str -> Js.str.

(** The fields of the orchestrator, the [localStorage] it saves to, and
    what it has told its caller through [callbacks.onError] and, as one,
    through [onArtifactsComplete] and [onZipReady]. [onProgressUpdate] is
    called with [progress] after each of its updates. *)
Record Orchestrator := mkOrchestrator {
  config : Storage.OrchestrationConfig;
  progress : Storage.OrchestrationProgress;
  artifacts : list SpecArtifact;
  moduleName : Js.str;
  localStorage : Storage.LocalStorage;
  reported : list Js.str;
  delivered : option (list (option SpecArtifact) * Blob)
}.

(** [new Orchestrator(config, callbacks, resumeState)] *)
Definition create (config : Storage.OrchestrationConfig) (resumeState : option ResumeState)
    (localStorage : Storage.LocalStorage) : Orchestrator :=
  let progress :=
    spread Tables.createInitialProgress
           (mkUpdate None None None None None (Some (Storage.maxFeedbackCycles config))
                     None None None) in
  match resumeState with
  | Some resumeState =>
      {| config := config;
         progress :=
           spread progress
                  (mkUpdate None (Some (startFromStage resumeState)) None None None None
                            (Some (List.map fileName (resumeArtifacts resumeState)))
                            None None);
         artifacts := resumeArtifacts resumeState;
         moduleName := resumeModuleName resumeState;
         localStorage := localStorage;
         reported := [];
         delivered := None |}
  | None =>
      {| config := config;
         progress := progress;
         artifacts := [];
         moduleName := extractModuleName (Storage.prompt config);
         localStorage := localStorage;
         reported := [];
         delivered := None |}
  end.

Definition updateProgress (update : Update) (o : Orchestrator) : Orchestrator :=
  {| config := config o; progress := spread (progress o) update;
     artifacts := artifacts o; moduleName := moduleName o;
     localStorage := localStorage o; reported := reported o;
     delivered := delivered o |}.

Definition persistState (o : Orchestrator) : Orchestrator :=
  {| config := config o; progress := progress o;
     artifacts := artifacts o; moduleName := moduleName o;
     localStorage := Storage.saveState (config o) (progress o) (artifacts o)
                                       (moduleName o) (localStorage o);
     reported := reported o;
     delivered := delivered o |}.

(** [this.callbacks.onError(message)] *)
Definition report (message : Js.str) (o : Orchestrator) : Orchestrator :=
  {| config := config o; progress := progress o;
     artifacts := artifacts o; moduleName := moduleName o;
     localStorage := localStorage o; reported := reported o ++ [message];
     delivered := delivered o |}.

Definition push (artifact : SpecArtifact) (o : Orchestrator) : Orchestrator :=
  {| config := config o; progress := progress o;
     artifacts := artifacts o ++ [artifact]; moduleName := moduleName o;
     localStorage := localStorage o; reported := reported o;
     delivered := delivered o |}.

Definition deliver (artifacts' : list (option SpecArtifact)) (zipBlob : Blob)
    (o : Orchestrator) : Orchestrator :=
  {| config := config o; progress := progress o;
     artifacts := artifacts o; moduleName := moduleName o;
     localStorage := localStorage o; reported := reported o;
     delivered := Some (artifacts', zipBlob) |}.

Definition showStatus (message : Js.str) : Orchestrator -> Orchestrator :=
  updateProgress (mkUpdate None None None None None None None (Some message) None).

(** The [pipelineCallbacks] of [run]. A callback that throws gives
    [None]: [onStageComplete] and [onArtifactComplete] read [fileName] off
    the artifacts they are given, which throws on [null]. *)
Definition onStageStart (stage : nat) (agent : AgentType) (o : Orchestrator)
    : Orchestrator :=
  persistState
    (updateProgress
       (mkUpdate None (Some stage) (Some agent) None None None None
                 (Some (Js.lit "Starting stage " ++ Js.ofZ (Z.of_nat stage)
                        ++ Js.lit ": " ++ agentTypeName agent))
                 None) o).

Definition onStageComplete (stage : nat) (agent : AgentType)
    (produced : list (option SpecArtifact)) (o : Orchestrator) : option Orchestrator :=
  names ← mapM (fun a : option SpecArtifact => fileName <$> a) produced;
  Some (persistState
          (updateProgress
             (mkUpdate None None None None None None
                       (Some (Storage.completedArtifacts (progress o) ++ names))
                       (Some (Js.lit "Completed stage " ++ Js.ofZ (Z.of_nat stage)
                              ++ Js.lit ": " ++ agentTypeName agent))
                       None) o)).

Definition onArtifactStart (irType : IRType) (o : Orchestrator) : Orchestrator :=
  updateProgress
    (mkUpdate None None None (Some irType) (Some 0) None None
              (Some (Js.lit "Generating " ++ irTypeName irType ++ Js.lit ".spec"))
              None) o.

Definition onArtifactComplete (artifact : option SpecArtifact) (o : Orchestrator)
    : option Orchestrator :=
  match artifact with
  | Some artifact =>
      Some (persistState
              (updateProgress
                 (mkUpdate None None None None None None None
                           (Some (Js.lit "Completed " ++ fileName artifact)) None)
                 (push artifact o)))
  | None => None
  end.

Definition onFeedbackCycle (cycle maxCycles : Z) (o : Orchestrator) : Orchestrator :=
  updateProgress
    (mkUpdate None None None None (Some cycle) (Some maxCycles) None
              (Some (Js.lit "Feedback cycle " ++ Js.ofZ cycle ++ Js.lit "/"
                     ++ Js.ofZ maxCycles))
              None) o.

Definition onError (message : Js.str) (o : Orchestrator) : Orchestrator :=
  report message
    (persistState
       (updateProgress
          (mkUpdate (Some Storage.error) None None None None None None None
                    (Some message)) o)).

(** What an event of the pipeline does to the orchestrator: the callback
    the pipeline or the agent calls there; a model call is no callback. *)
Definition handle (e : Event) (o : Orchestrator) : option Orchestrator :=
  match e with
  | StageStart stage agent => Some (onStageStart stage agent o)
  | ArtifactStart t => Some (onArtifactStart t o)
  | FeedbackCycle cycle maxCycles => Some (onFeedbackCycle cycle maxCycles o)
  | Call _ _ _ _ _ _ => Some o
  | ArtifactComplete a => onArtifactComplete a o
  | StageComplete stage agent produced => onStageComplete stage agent produced o
  | Error message => Some (onError message o)
  end.

(** The status texts that reach the orchestrator after the n-th event of
    the pipeline and before the next: the messages of [onProgress] and the
    ones [onRateLimitWait] makes while a model call waits. *)
Variable statuses : nat -> list Js.str.

Fixpoint observe (n : nat) (events : list Event) (o : Orchestrator)
    : option Orchestrator :=
  match events with
  | [] => Some o
  | e :: rest =>
      o' ← handle e o;
      observe (S n) rest (fold_left (fun o message => showStatus message o)
                                    (statuses n) o')
  end.

Variable llm : nat -> Res Js.str.
Variable clock : nat -> Z.

(** The first update of [run] after the keys are validated, and the
    pipeline [run] then creates and executes: on the persisted artifacts,
    from [progress.currentStage]. *)
Definition begin (o : Orchestrator) : Orchestrator :=
  updateProgress
    (mkUpdate (Some Storage.running) None None None None None None
              (Some (if bool_decide (0 < Storage.currentStage (progress o))%nat
                     then Js.lit "Resuming from stage "
                          ++ Js.ofZ (Z.of_nat (Storage.currentStage (progress o) + 1))
                          ++ Js.lit "..."
                     else Js.lit "Starting orchestration..."))
              None) o.

Definition pipelineOf (o : Orchestrator) (s : Run) : Out Run Event Pipeline.PipelineResult :=
  Pipeline.resume llm clock (Storage.maxFeedbackCycles (config o))
                  (Storage.currentStage (progress o)) (artifacts o) s.

(** [run()]. The result is [Throw] when the promise of [run] rejects, and
    the events are those of the pipeline. The pipeline of module [Pipeline]
    takes its callbacks to return: where one of the orchestrator's throws,
    [run] gives [None]. *)
Definition run (o : Orchestrator) (s : Run) : option (Out Orchestrator Event unit) :=
  let keyErrors :=
    Gateway.validateApiKeys (Storage.apiKeys (config o))
                            (Storage.executorModel (config o))
                            (Storage.reviewerModel (config o)) in
  if bool_decide (0 < length keyErrors)%nat then
    Some (mkOut (Ok tt)
                (report (join keyErrors)
                   (updateProgress
                      (mkUpdate (Some Storage.error) None None None None None None None
                                (Some (join keyErrors))) o))
                [])
  else
    let o := begin o in
    let pipeline := pipelineOf o s in
    o ← observe 0 (emitted pipeline) o;
    match result pipeline with
    | Throw message => Some (mkOut (Throw message) o (emitted pipeline))
    | Ok result =>
        if Pipeline.success result then
          let o := showStatus (Js.lit "Generating ZIP file...") o in
          match generateZip (Pipeline.artifacts result) (moduleName o) with
          | Throw message => Some (mkOut (Throw message) o (emitted pipeline))
          | Ok zipBlob =>
              let o :=
                updateProgress
                  (mkUpdate (Some Storage.complete) (Some (length Tables.PIPELINE_STAGES))
                            None None None None None
                            (Some (Js.lit "Generation complete!")) None) o in
              Some (mkOut (Ok tt) (deliver (Pipeline.artifacts result) zipBlob o)
                          (emitted pipeline))
          end
        else
          let message :=
            Js.orElse (default [] (Pipeline.error result)) (Js.lit "Unknown error") in
          Some (mkOut (Ok tt)
                      (report message
                         (persistState
                            (updateProgress
                               (mkUpdate (Some Storage.error) None None None None None
                                         None None (Some message)) o)))
                      (emitted pipeline))
    end.

(** What an orchestrator can leave in the store: what is there when its
    run has ended, and what is there after any number of the events of its
    pipeline, should the page go away before the run ends. *)
Definition leaves (o : Orchestrator) (s : Run) (ls : Storage.LocalStorage) : Prop :=
  (exists out, run o s = Some out /\ ls = localStorage (final out))
  \/ (Gateway.validateApiKeys (Storage.apiKeys (config o))
                              (Storage.executorModel (config o))
                              (Storage.reviewerModel (config o)) = []
      /\ exists k o',
           observe 0 (firstn k (emitted (pipelineOf (begin o) s))) (begin o) = Some o'
           /\ ls = localStorage o').

End Orchestrators.

Arguments mkOrchestrator {Blob}.
Arguments config {Blob} o.
Arguments progress {Blob} o.
Arguments artifacts {Blob} o.
Arguments moduleName {Blob} o.
Arguments localStorage {Blob} o.
Arguments reported {Blob} o.
Arguments delivered {Blob} o.
Arguments create {Blob}.
Arguments updateProgress {Blob}.
Arguments persistState {Blob}.
Arguments report {Blob}.
Arguments push {Blob}.
Arguments deliver {Blob}.
Arguments showStatus {Blob}.
Arguments onStageStart {Blob}.
Arguments onStageComplete {Blob}.
Arguments onArtifactStart {Blob}.
Arguments onArtifactComplete {Blob}.
Arguments onFeedbackCycle {Blob}.
Arguments onError {Blob}.
Arguments handle {Blob}.
Arguments observe {Blob}.
Arguments begin {Blob}.
Arguments pipelineOf {Blob}.
Arguments run {Blob}.
Arguments leaves {Blob}.

(** The interface. When the hook mounts it offers a checkpoint for resume
    if its state is [error]; after the [onError] of a run it takes the
    checkpoint there is ([useOrchestration]). *)
Definition checkPersistedState (dateNow : Z) (ls : Storage.LocalStorage)
    : option Storage.PersistedState :=
  if Storage.hasPersistedState ls then
    match Storage.loadState dateNow ls with
    | Some saved =>
        match Storage.state (Storage.progress saved) with
        | Storage.error => Some saved
        | _ => None
        end
    | None => None
    end
  else None.

Definition checkAfterError (dateNow : Z) (ls : Storage.LocalStorage)
    : option Storage.PersistedState :=
  if Storage.hasPersistedState ls then Storage.loadState dateNow ls else None.

(** [handleResumeWithKeys] of App.tsx: the configuration and the resume
    state that [startOrchestration] hands to the orchestrator. The
    persisted [maxFeedbackCycles] is a number, so that the default of
    [?? 3] is not taken. *)
Definition handleResumeWithKeys (persistedState : Storage.PersistedState)
    (apiKeys : Llm.APIKeys) : Storage.OrchestrationConfig * ResumeState :=
  ({| Storage.prompt := Storage.persistedPrompt (Storage.config persistedState);
      Storage.executorModel :=
        Storage.persistedExecutorModel (Storage.config persistedState);
      Storage.reviewerModel :=
        Storage.persistedReviewerModel (Storage.config persistedState);
      Storage.apiKeys := apiKeys;
      Storage.maxFeedbackCycles :=
        Storage.persistedMaxFeedbackCycles (Storage.config persistedState) |},
   {| resumeArtifacts := Storage.artifacts persistedState;
      startFromStage := Storage.currentStage (Storage.progress persistedState);
      resumeModuleName := Storage.moduleName persistedState |}).

(** The stores of the interface: the empty one (before the first run, and
    after [clearState]) and those that the run of an orchestrator leaves,
    an orchestrator that the interface makes, on a store of these, for a
    new run or for the resume of a checkpoint that it has loaded from a
    store of these. Every run has a network, a clock and status texts of
    its own. *)
Inductive written {Blob : Type}
    (generateZip : list (option SpecArtifact) -> Js.str -> Res Blob)
    (extractModuleName : Js.str -> Js.str) : Storage.LocalStorage -> Prop :=
| written_empty :
    written generateZip extractModuleName Storage.emptyStorage
| written_new ls config statuses llm clock s ls' :
    written generateZip extractModuleName ls ->
    leaves generateZip statuses llm clock
           (create extractModuleName config None ls) s ls' ->
    written generateZip extractModuleName ls'
| written_resumed ls loaded dateNow persistedState apiKeys statuses llm clock s ls' :
    written generateZip extractModuleName ls ->
    written generateZip extractModuleName loaded ->
    Storage.loadState dateNow loaded = Some persistedState ->
    leaves generateZip statuses llm clock
           (create extractModuleName
                   (handleResumeWithKeys persistedState apiKeys).1
                   (Some (handleResumeWithKeys persistedState apiKeys).2) ls)
           s ls' ->
    written generateZip extractModuleName ls'.

(** What the interface can make an orchestrator of: the configuration of
    a new run, or the checkpoint it has loaded from a store of these. *)
Definition startable {Blob : Type}
    (generateZip : list (option SpecArtifact) -> Js.str -> Res Blob)
    (extractModuleName : Js.str -> Js.str)
    (config : Storage.OrchestrationConfig) (resumeState : option ResumeState) : Prop :=
  resumeState = None
  \/ exists loaded dateNow persistedState apiKeys,
       written generateZip extractModuleName loaded
       /\ Storage.loadState dateNow loaded = Some persistedState
       /\ config = (handleResumeWithKeys persistedState apiKeys).1
       /\ resumeState = Some (handleResumeWithKeys persistedState apiKeys).2.

(** A checkpoint is in order for stage index [n] when its artifacts are of
    different types, all of them types of the stages before [n]. *)
Definition inOrder (n : nat) (artifacts : list SpecArtifact) : Prop :=
  NoDup (List.map irType artifacts)
  /\ Forall (fun a => irType a ∈ Pipeline.outputsBefore n) artifacts.

Definition storeInOrder (ls : Storage.LocalStorage) : Prop :=
  forall dateNow persistedState,
    Storage.loadState dateNow ls = Some persistedState ->
    inOrder (Storage.currentStage (Storage.progress persistedState))
            (Storage.artifacts persistedState).

(** Reading the trace of a run: the stages started and completed, the
    artifacts completed, the errors the pipeline reported. *)
Definition startedStages (trace : list Event) : list (nat * AgentType) :=
  flat_map (fun e => match e with
                     | StageStart stage agent => [(stage, agent)]
                     | _ => []
                     end) trace.

Definition completedStages (trace : list Event) : list nat :=
  flat_map (fun e => match e with
                     | StageComplete stage _ _ => [stage]
                     | _ => []
                     end) trace.

Definition completedIn (trace : list Event) : list SpecArtifact :=
  flat_map (fun e => match e with
                     | ArtifactComplete (Some a) => [a]
                     | _ => []
                     end) trace.

Definition errorsIn (trace : list Event) : list Js.str :=
  flat_map (fun e => match e with
                     | Error message => [message]
                     | _ => []
                     end) trace.

(** The events at which the callbacks of the orchestrator return. *)
Definition returns (e : Event) : Prop :=
  match e with
  | ArtifactComplete a => is_Some a
  | StageComplete _ _ produced => Forall is_Some produced
  | _ => True
  end.

(** Two records of progress agree when they differ at most in what the
    callbacks write without saving: the current artifact, the feedback
    cycle and its budget, and the status text. *)
Definition agree (p q : Storage.OrchestrationProgress) : Prop :=
  Storage.state p = Storage.state q
  /\ Storage.currentStage p = Storage.currentStage q
  /\ Storage.totalStages p = Storage.totalStages q
  /\ Storage.currentAgent p = Storage.currentAgent q
  /\ Storage.completedArtifacts p = Storage.completedArtifacts q
  /\ Storage.progressError p = Storage.progressError q.

(** The store after [persistState] with progress [p], and an orchestrator
    whose store holds its checkpoint. *)
Definition checkpointOf {Blob} (o : Orchestrator Blob)
    (p : Storage.OrchestrationProgress) : Storage.LocalStorage :=
  Storage.saveState (config o) p (artifacts o) (moduleName o) Storage.emptyStorage.

Definition synced {Blob} (o : Orchestrator Blob) : Prop :=
  exists p, localStorage o = checkpointOf o p /\ agree p (progress o).

End Orchestrator.

(* ===================================================================== *)
(** ** A session: a run that fails, and the resume of its checkpoint *)
(* ===================================================================== *)

Module Session.
Import Spec Agent Orchestrator.

(** A zip generator that always resolves, a module name, no status text. *)
Definition zipped : list (option SpecArtifact) -> Js.str -> Res unit := fun _ _ => Ok tt.
Definition named : Js.str -> Js.str := fun _ => Js.lit "payments".
Definition silent : nat -> list Js.str := fun _ => [].

Definition paymentsConfig : Storage.OrchestrationConfig :=
  {| Storage.prompt := Js.lit "build a payments service";
     Storage.executorModel := Llm.claude_sonnet_4_5;
     Storage.reviewerModel := Llm.chatgpt_5_2;
     Storage.apiKeys := Llm.mkKeys (Some (Js.lit "sk-ant-1")) (Some (Js.lit "sk-2"));
     Storage.maxFeedbackCycles := 3 |}.

(** The model answers four calls, so that the contract and the module
    artifact are approved, and fails on the fifth, the first generation of
    the infrastructure artifact. *)
Definition fiveCalls : nat -> Res Js.str :=
  Scenario.script [Scenario.draft 1; Scenario.approvedAnswer;
                   Scenario.draft 2; Scenario.approvedAnswer].

Definition firstRun : option (Out (Orchestrator unit) Event unit) :=
  run zipped silent fiveCalls Scenario.wallClock
      (create named paymentsConfig None Storage.emptyStorage) (mkRun 0 []).

Definition checkpoint : Storage.LocalStorage :=
  match firstRun with
  | Some out => localStorage (final out)
  | None => Storage.emptyStorage
  end.

(** The resume of that checkpoint, on a model that answers and approves. *)
Definition resumedRun : option (Out (Orchestrator unit) Event unit) :=
  match Storage.loadState 1767229200000 checkpoint with
  | Some persistedState =>
      run zipped silent Scenario.alwaysApproved Scenario.wallClock
          (create named
                  (handleResumeWithKeys persistedState (Storage.apiKeys paymentsConfig)).1
                  (Some (handleResumeWithKeys persistedState
                                              (Storage.apiKeys paymentsConfig)).2)
                  checkpoint)
          (mkRun 0 [])
  | None => None
  end.

End Session.

(* ===================================================================== *)
(** * Properties *)
(* ===================================================================== *)

(** ** Strings *)

Module JsFacts.
Import Js.

Lemma replace_at_start (s pat repl : str) :
  startsWith s pat = true -> replace s pat repl = repl ++ skipn (length pat) s.
Proof.
  intros H. destruct s; cbn [replace]; rewrite H; reflexivity.
Qed.

Lemma orElse_nonempty (a b : str) : b <> [] -> orElse a b <> [].
Proof. destruct a; simpl; [auto | discriminate]. Qed.

Lemma startsWith_head (s p : str) (c : N) :
  startsWith s (c :: p) = true -> exists s', s = c :: s' /\ startsWith s' p = true.
Proof.
  destruct s as [|d s']; simpl; [discriminate |].
  intros H. apply andb_true_iff in H as [Hc Hp].
  apply N.eqb_eq in Hc. subst d. eauto.
Qed.

End JsFacts.

(** ** The classification of the reviewer's answer *)

Module ReviewFacts.
Import Js Prompts JsFacts.

(** The two markers exclude one another: they differ at their first letter. *)
Lemma markers_exclusive (s : str) :
  startsWith s NEEDS_REVISION = true -> startsWith s APPROVED = false.
Proof.
  intros H. apply startsWith_head in H as (s' & -> & _). reflexivity.
Qed.

Lemma rejection_has_feedback (response : str) :
  approved (parseReviewResult response) = false ->
  feedback (parseReviewResult response) <> [].
Proof.
  unfold parseReviewResult.
  destruct (startsWith (trim response) APPROVED); [discriminate |].
  destruct (startsWith (trim response) NEEDS_REVISION); intros _;
    apply orElse_nonempty; discriminate.
Qed.

(** C2 (as amended). An answer whose trimmed form starts with APPROVED is
    approved whatever follows, and no other answer is. An answer that starts
    with NEEDS_REVISION is rejected with the trimmed text after the marker as
    feedback, or a fixed sentence when nothing follows the marker. Any other
    answer is rejected with its trimmed text as feedback, or a fixed sentence
    when it is blank. *)
Theorem parseReviewResult_classifies (response : str) :
  (startsWith (trim response) APPROVED = true ->
     parseReviewResult response = mkReview true [])
  /\ (startsWith (trim response) NEEDS_REVISION = true ->
        parseReviewResult response =
        mkReview false
          (orElse (trim (skipn (length NEEDS_REVISION) (trim response)))
                  noSpecificFeedback))
  /\ (startsWith (trim response) APPROVED = false ->
      startsWith (trim response) NEEDS_REVISION = false ->
        parseReviewResult response =
        mkReview false (orElse (trim response) unableToParse))
  /\ (approved (parseReviewResult response) = true <->
      startsWith (trim response) APPROVED = true).
Proof.
  unfold parseReviewResult. repeat split.
  - intros ->. reflexivity.
  - intros H. rewrite (markers_exclusive _ H), H.
    rewrite (replace_at_start _ _ _ H). reflexivity.
  - intros -> ->. reflexivity.
  - destruct (startsWith (trim response) APPROVED); [reflexivity |].
    destruct (startsWith (trim response) NEEDS_REVISION); discriminate.
  - intros ->. reflexivity.
Qed.

Lemma parseReviewResult_classifies_witness :
  parseReviewResult (lit " APPROVED, though the naming could improve ")
  = mkReview true []
  /\ parseReviewResult (lit "NEEDS_REVISION
  The events section is missing. ")
     = mkReview false (lit "The events section is missing.")
  /\ parseReviewResult (lit "Looks incomplete to me")
     = mkReview false (lit "Looks incomplete to me").
Proof.
  split; [| split].
  - exact (proj1 (parseReviewResult_classifies
                    (lit " APPROVED, though the naming could improve ")) eq_refl).
  - exact (proj1 (proj2 (parseReviewResult_classifies (lit "NEEDS_REVISION
  The events section is missing. "))) eq_refl).
  - exact (proj1 (proj2 (proj2 (parseReviewResult_classifies
                                  (lit "Looks incomplete to me")))) eq_refl eq_refl).
Defined.

(** C2 as stated fails: after a bare NEEDS_REVISION the feedback is not the
    (empty) text after the marker, and for a blank answer it is not the
    (empty) trimmed text. *)
Lemma parseReviewResult_feedback_not_trailing_text :
  (startsWith (trim (lit "NEEDS_REVISION")) NEEDS_REVISION = true
   /\ skipn (length NEEDS_REVISION) (trim (lit "NEEDS_REVISION")) = []
   /\ feedback (parseReviewResult (lit "NEEDS_REVISION")) = noSpecificFeedback
   /\ feedback (parseReviewResult (lit "NEEDS_REVISION"))
      <> skipn (length NEEDS_REVISION) (trim (lit "NEEDS_REVISION")))
  /\ (startsWith (trim (lit "  ")) APPROVED = false
      /\ startsWith (trim (lit "  ")) NEEDS_REVISION = false
      /\ feedback (parseReviewResult (lit "  ")) = unableToParse
      /\ feedback (parseReviewResult (lit "  ")) <> trim (lit "  ")).
Proof.
  repeat split; try reflexivity; vm_compute; discriminate.
Qed.

End ReviewFacts.

(** ** Backoff delays *)

Module BackoffFacts.
Import RateLimiter.
Local Open Scope Q_scope.

Lemma positiveHint_positive (h : Q) : 0 < h -> positiveHint (Some h) = Some h.
Proof.
  intros H. unfold positiveHint. destruct (Qlt_le_dec 0 h) as [_ | Hle]; [reflexivity |].
  exfalso. apply (Qlt_not_le _ _ H Hle).
Qed.

Lemma positiveHint_inv (hint : option Q) (h : Q) :
  positiveHint hint = Some h -> hint = Some h /\ 0 < h.
Proof.
  unfold positiveHint. destruct hint as [h' |]; [| discriminate].
  destruct (Qlt_le_dec 0 h'); [| discriminate].
  intros [= ->]. auto.
Qed.

Lemma exponentialDelay_nonneg (attempt : Z) (base : Q) :
  0 <= base -> 0 <= exponentialDelay attempt base.
Proof.
  intros Hb. unfold exponentialDelay.
  apply Qmult_le_0_compat; [assumption |].
  apply Qpower_0_le. discriminate.
Qed.

(** One more attempt at least doubles the exponential delay. *)
Lemma exponentialDelay_doubles (a a' : Z) (base : Q) :
  0 <= base -> (a < a')%Z ->
  2 * exponentialDelay a base <= exponentialDelay a' base.
Proof.
  intros Hb Hlt. unfold exponentialDelay.
  replace (a' - 1)%Z with ((a - 1) + (a' - a))%Z by lia.
  rewrite Qpower_plus by discriminate.
  assert (H2 : 2 <= 2 ^ (a' - a)).
  { change (2 ^ 1 <= 2 ^ (a' - a)). apply Qpower_le_compat_l; [lia | discriminate]. }
  assert (Hp : 0 <= 2 ^ (a - 1)) by (apply Qpower_0_le; discriminate).
  assert (He : 0 <= base * 2 ^ (a - 1)) by (apply Qmult_le_0_compat; assumption).
  set (p := 2 ^ (a - 1)) in *. set (q := 2 ^ (a' - a)) in *.
  assert (0 <= (base * p) * (q - 2)) by (apply Qmult_le_0_compat; lra).
  lra.
Qed.

(** The jitter keeps the delay within a fifth of the exponential delay. *)
Lemma jittered_within_fifth (attempt : Z) (base random : Q) :
  0 <= base -> 0 <= random -> random < 1 ->
  (8 # 10) * exponentialDelay attempt base
    <= exponentialDelay attempt base + jitter attempt base random
  /\ exponentialDelay attempt base + jitter attempt base random
    <= (12 # 10) * exponentialDelay attempt base.
Proof.
  intros Hb H0 H1. unfold jitter.
  pose proof (exponentialDelay_nonneg attempt base Hb) as He.
  set (e := exponentialDelay attempt base) in *.
  split; nra.
Qed.

Lemma noPositiveHint_spec (hint : option Q) :
  Doubles.noPositiveHint hint -> positiveHint hint = None.
Proof.
  intros [-> | (h & -> & Hh)]; [reflexivity |]. unfold positiveHint.
  destruct (Qlt_le_dec 0 h) as [Hlt | _]; [| reflexivity].
  exfalso. apply (Qlt_not_le _ _ Hlt Hh).
Qed.

(** C6 (as amended). For an attempt whose exponential delay
    [base * 2^(attempt-1)] is a finite double: with a hint above zero the
    delay is the hint plus half a second, capped at the maximum; with no
    hint, or one that is zero or negative, it is the exponential delay
    moved by the jitter, which is at most a fifth of it, capped at the
    maximum. The delay never exceeds the maximum. Among such attempts without
    a hint above zero a later attempt never waits less than an earlier one,
    whatever the two random draws and whichever of the two hints is absent,
    zero or negative; among attempts with hints above zero the larger hint
    never waits less. (Delays are exact rationals here.) *)
Theorem calculateBackoffDelay_capped_and_monotone
    (attempt : Z) (base max : Q) (hint : option Q) (random : Q) :
  (1 <= attempt)%Z -> 0 <= base ->
  base * 2 ^ (attempt - 1) <= Doubles.MAX_VALUE ->
  0 <= random -> random < 1 ->
  (forall h, hint = Some h -> 0 < h ->
     calculateBackoffDelay attempt base max hint random == Qmin (h + 500) max)
  /\ (Doubles.noPositiveHint hint ->
        calculateBackoffDelay attempt base max hint random
        == Qmin (base * 2 ^ (attempt - 1)
                 + base * 2 ^ (attempt - 1) * (2 # 10) * (random * 2 - 1)) max
        /\ (8 # 10) * (base * 2 ^ (attempt - 1))
           <= base * 2 ^ (attempt - 1)
              + base * 2 ^ (attempt - 1) * (2 # 10) * (random * 2 - 1)
        /\ base * 2 ^ (attempt - 1)
           + base * 2 ^ (attempt - 1) * (2 # 10) * (random * 2 - 1)
           <= (12 # 10) * (base * 2 ^ (attempt - 1)))
  /\ calculateBackoffDelay attempt base max hint random <= max
  /\ (forall attempt' hint' random',
        (attempt < attempt')%Z -> base * 2 ^ (attempt' - 1) <= Doubles.MAX_VALUE ->
        0 <= random' -> random' < 1 ->
        Doubles.noPositiveHint hint -> Doubles.noPositiveHint hint' ->
        calculateBackoffDelay attempt base max hint random
        <= calculateBackoffDelay attempt' base max hint' random')
  /\ (forall attempt' h h' random',
        hint = Some h -> 0 < h -> h <= h' ->
        calculateBackoffDelay attempt base max hint random
        <= calculateBackoffDelay attempt' base max (Some h') random').
Proof.
  intros Ha Hb _ H0 H1. repeat split.
  - intros h -> Hh. unfold calculateBackoffDelay.
    rewrite (positiveHint_positive h Hh). reflexivity.
  - unfold calculateBackoffDelay. rewrite (noPositiveHint_spec hint H). reflexivity.
  - apply (jittered_within_fifth attempt base random Hb H0 H1).
  - apply (jittered_within_fifth attempt base random Hb H0 H1).
  - unfold calculateBackoffDelay.
    destruct (positiveHint hint); apply Q.le_min_r.
  - intros attempt' hint' random' Hlt _ H0' H1' Hn Hn'. unfold calculateBackoffDelay.
    rewrite (noPositiveHint_spec hint Hn), (noPositiveHint_spec hint' Hn').
    apply Q.min_le_compat_r.
    pose proof (jittered_within_fifth attempt base random Hb H0 H1) as [_ Hup].
    pose proof (jittered_within_fifth attempt' base random' Hb H0' H1') as [Hlow _].
    pose proof (exponentialDelay_doubles attempt attempt' base Hb Hlt) as Hd.
    pose proof (exponentialDelay_nonneg attempt base Hb) as He.
    lra.
  - intros attempt' h h' random' -> Hh Hle. unfold calculateBackoffDelay.
    rewrite (positiveHint_positive h Hh).
    rewrite (positiveHint_positive h') by (eapply Qlt_le_trans; eassumption).
    apply Q.min_le_compat_r. lra.
Qed.

Lemma calculateBackoffDelay_capped_and_monotone_witness :
  calculateBackoffDelay 4 Gateway.baseDelayMs Gateway.maxDelayMs (Some 5000) (1 # 2) == 5500
  /\ calculateBackoffDelay 4 Gateway.baseDelayMs Gateway.maxDelayMs (Some 0) (1 # 2)
     == 16000
  /\ calculateBackoffDelay 3 Gateway.baseDelayMs Gateway.maxDelayMs (Some 0) (9 # 10)
     <= calculateBackoffDelay 4 Gateway.baseDelayMs Gateway.maxDelayMs None 0.
Proof.
  assert (Hb : 0 <= Gateway.baseDelayMs) by discriminate.
  assert (H0 : 0 <= 1 # 2) by discriminate.
  assert (H1 : 1 # 2 < 1) by reflexivity.
  assert (Hzero : Doubles.noPositiveHint (Some 0)).
  { right. exists 0. split; [reflexivity | discriminate]. }
  split; [| split].
  - destruct (calculateBackoffDelay_capped_and_monotone
                4 Gateway.baseDelayMs Gateway.maxDelayMs (Some 5000) (1 # 2)
                ltac:(discriminate) Hb ltac:(vm_compute; discriminate) H0 H1)
      as (Hhint & _).
    rewrite (Hhint 5000 eq_refl eq_refl). reflexivity.
  - destruct (calculateBackoffDelay_capped_and_monotone
                4 Gateway.baseDelayMs Gateway.maxDelayMs (Some 0) (1 # 2)
                ltac:(discriminate) Hb ltac:(vm_compute; discriminate) H0 H1)
      as (_ & Hexp & _).
    destruct (Hexp Hzero) as [-> _]. reflexivity.
  - apply (calculateBackoffDelay_capped_and_monotone
             3 Gateway.baseDelayMs Gateway.maxDelayMs (Some 0) (9 # 10)
             ltac:(discriminate) Hb ltac:(vm_compute; discriminate)
             ltac:(discriminate) ltac:(reflexivity));
      [reflexivity | vm_compute; discriminate | discriminate | reflexivity | exact Hzero
      | left; reflexivity].
Defined.

(** C6 as stated fails: a later attempt can wait less than an earlier one
    though no smaller hint is supplied. The first rate-limit response of a
    call asks, in its [retry-after] header, for a wait of 100 seconds, the
    second names no delay: the call sleeps 100500 ms after the first
    attempt and 4000 ms after the second, and whatever the random draw the
    delay of the second attempt is at most 4800 ms. *)
Lemma wait_shortens_after_hinted_wait :
  Waits.hintOf Cases.retryAfter100 = Some 100000
  /\ Waits.hintOf Cases.tooManyRequests = Some 0
  /\ Forall2 Qeq
       (Waits.sleeps
          (emitted (Gateway.callAnthropic
                      (Cases.replies [Gateway.Responds Cases.retryAfter100;
                                      Gateway.Responds Cases.tooManyRequests;
                                      Gateway.Responds (Cases.success (Js.lit "ok"))])
                      Scenario.noJitter Scenario.toClaude (Gateway.mkNet 0 0))))
       [100500; 4000]
  /\ (forall random random',
        0 <= random' -> random' < 1 ->
        calculateBackoffDelay 1 Gateway.baseDelayMs Gateway.maxDelayMs (Some 100000) random
        == 100500
        /\ calculateBackoffDelay 2 Gateway.baseDelayMs Gateway.maxDelayMs (Some 0) random'
           <= 4800
        /\ ~ calculateBackoffDelay 1 Gateway.baseDelayMs Gateway.maxDelayMs (Some 100000)
                                   random
             <= calculateBackoffDelay 2 Gateway.baseDelayMs Gateway.maxDelayMs (Some 0)
                                      random').
Proof.
  split; [reflexivity |]. split; [reflexivity |].
  split; [vm_compute; repeat constructor |].
  intros random random' H0 H1.
  assert (E1 : calculateBackoffDelay 1 Gateway.baseDelayMs Gateway.maxDelayMs
                                     (Some 100000) random == 100500).
  { unfold calculateBackoffDelay. rewrite (positiveHint_positive 100000) by reflexivity.
    reflexivity. }
  assert (E2 : calculateBackoffDelay 2 Gateway.baseDelayMs Gateway.maxDelayMs
                                     (Some 0) random' <= 4800).
  { unfold calculateBackoffDelay. cbn [positiveHint].
    destruct (Qlt_le_dec 0 0) as [Hlt | _]; [discriminate Hlt |].
    eapply Qle_trans; [apply Q.le_min_l |].
    pose proof (jittered_within_fifth 2 Gateway.baseDelayMs random'
                  ltac:(discriminate) H0 H1) as [_ Hup].
    eapply Qle_trans; [exact Hup |]. vm_compute. discriminate. }
  split; [exact E1 |]. split; [exact E2 |].
  intros Hle. rewrite E1 in Hle.
  assert (H : 100500 <= 4800) by (eapply Qle_trans; eassumption).
  vm_compute in H. apply H. reflexivity.
Qed.

End BackoffFacts.

(** ** The gateway *)

Module GatewayFacts.
Import Llm RateLimiter Gateway Scenario.

Section Calls.

Variable fetch : nat -> FetchResult.
Variable random : nat -> Q.

Local Abbreviation attempts := (Gateway.attempts fetch random).

(** One request and its outcome, then the rest of the computation. *)
Lemma attempts_step (p : ModelProvider) (request : LLMRequest)
    (remaining : nat) (attempt : Z) (s : Net) :
  attempts p request (S remaining) attempt s =
  (response ← doFetch fetch p attempt;
   if isRateLimitError (status response) None then
     if attempt <? maxRetries then
       delayMs ← backoffDelay random attempt
                   (option_map inject_Z (extractRetryAfterMs response));
       emit (RateLimitWait p delayMs attempt);;
       sleep delayMs;;
       attempts p request remaining (attempt + 1)
     else throw (rateLimitExceeded p attempt)
   else if negb (ok response) then
     if (status response =? 401) || (status response =? 403) then
       throw (apiError p (status response)
                (Js.orElse (default [] (errorMessage response)) (statusText response)))
     else if (500 <=? status response) && (attempt <? maxRetries) then
       delayMs ← backoffDelay random attempt None;
       sleep delayMs;;
       attempts p request remaining (attempt + 1)
     else throw (apiError p (status response)
                   (Js.orElse (default [] (errorMessage response)) (statusText response)))
   else
     text ← extractContent p response;
     mret {| content := text; responseModel := model request |}) s.
Proof. reflexivity. Qed.

(** Send the request of one iteration and look at what comes back. *)
Ltac send Hf :=
  rewrite attempts_step;
  unfold mbind, M_bind, bind, doFetch; rewrite Hf;
  cbn [result final emitted].

Lemma auth_is_not_rate_limit (st : Z) :
  isAuthStatus st = true -> isRateLimitError st None = false.
Proof.
  unfold isAuthStatus, isRateLimitError. intros H.
  apply orb_true_iff in H as [H | H]; apply Z.eqb_eq in H; subst; reflexivity.
Qed.

Lemma auth_is_not_ok (r : Response) : isAuthStatus (status r) = true -> ok r = false.
Proof.
  unfold isAuthStatus, ok. intros H.
  apply orb_true_iff in H as [H | H]; apply Z.eqb_eq in H; rewrite H; reflexivity.
Qed.

(** An auth response ends the loop at the attempt that receives it. *)
Lemma attempts_auth (p : ModelProvider) (request : LLMRequest)
    (remaining : nat) (attempt : Z) (s : Net) (r : Response) :
  fetch (fetches s) = Responds r ->
  isAuthStatus (status r) = true ->
  attempts p request (S remaining) attempt s =
  mkOut (Throw (apiError p (status r)
                  (Js.orElse (default [] (errorMessage r)) (statusText r))))
        {| fetches := S (fetches s); randoms := randoms s |}
        [Fetch p attempt].
Proof.
  intros Hf Hauth. send Hf.
  rewrite (auth_is_not_rate_limit _ Hauth), (auth_is_not_ok _ Hauth).
  unfold isAuthStatus in Hauth. cbn [negb]. rewrite Hauth.
  reflexivity.
Qed.

(** A rejected [fetch] is not caught: it ends the call. *)
Lemma attempts_rejected (p : ModelProvider) (request : LLMRequest)
    (remaining : nat) (attempt : Z) (s : Net) (message : Js.str) :
  fetch (fetches s) = Rejects message ->
  attempts p request (S remaining) attempt s =
  mkOut (Throw message) {| fetches := S (fetches s); randoms := randoms s |}
        [Fetch p attempt].
Proof.
  intros Hf. send Hf. reflexivity.
Qed.

Lemma attemptsMade_app (a b : list Event) :
  attemptsMade (a ++ b) = (attemptsMade a + attemptsMade b)%nat.
Proof. unfold attemptsMade. rewrite List.filter_app, List.length_app. reflexivity. Qed.

(** The events of a delay and a wait hold no request. *)
Lemma backoffDelay_silent (attempt : Z) (hint : option Q) (s : Net) :
  emitted (backoffDelay random attempt hint s) = []
  /\ fetches (final (backoffDelay random attempt hint s)) = fetches s
  /\ exists d, result (backoffDelay random attempt hint s) = Ok d.
Proof.
  unfold backoffDelay. destruct (positiveHint hint); cbn; eauto.
Qed.

(** One iteration either ends the call or waits and goes on with the next
    attempt; in both cases it sends exactly one request. *)
Lemma attempts_cases (p : ModelProvider) (request : LLMRequest)
    (remaining : nat) (attempt : Z) (s : Net) :
  (attemptsMade (emitted (attempts p request (S remaining) attempt s)) = 1%nat
   /\ fetches (final (attempts p request (S remaining) attempt s)) = S (fetches s))
  \/ (exists waits s',
        fetches s' = S (fetches s)
        /\ attemptsMade waits = 0%nat
        /\ result (attempts p request (S remaining) attempt s)
           = result (attempts p request remaining (attempt + 1) s')
        /\ final (attempts p request (S remaining) attempt s)
           = final (attempts p request remaining (attempt + 1) s')
        /\ emitted (attempts p request (S remaining) attempt s)
           = Fetch p attempt :: waits
             ++ emitted (attempts p request remaining (attempt + 1) s')).
Proof.
  rewrite attempts_step. unfold mbind, M_bind, bind, doFetch.
  destruct (fetch (fetches s)) as [r | message]; cbn [result final emitted];
    [| left; split; reflexivity].
  destruct (isRateLimitError (status r) None).
  - destruct (attempt <? maxRetries); [| left; split; reflexivity].
    destruct (backoffDelay_silent attempt
                (option_map inject_Z (extractRetryAfterMs r))
                {| fetches := S (fetches s); randoms := randoms s |})
      as (He & Hf & d & Hd).
    rewrite Hd, He. cbn [result final emitted sleep emit app].
    right. exists [RateLimitWait p d attempt; Sleep d]. eexists. split; [exact Hf |].
    split; [reflexivity |].
    destruct (attempts p request remaining (attempt + 1) _); repeat split.
  - destruct (negb (ok r)).
    + destruct ((status r =? 401) || (status r =? 403));
        [left; split; reflexivity |].
      destruct ((500 <=? status r) && (attempt <? maxRetries));
        [| left; split; reflexivity].
      destruct (backoffDelay_silent attempt None
                  {| fetches := S (fetches s); randoms := randoms s |})
        as (He & Hf & d & Hd).
      rewrite Hd, He. cbn [result final emitted sleep emit app].
      right. exists [Sleep d]. eexists. split; [exact Hf |].
      split; [reflexivity |].
      destruct (attempts p request remaining (attempt + 1) _); repeat split.
    + left. unfold extractContent.
      destruct p, (bodyText r); split; reflexivity.
Qed.

(** The loop sends at most as many requests as it has iterations left. *)
Lemma attempts_bounded (p : ModelProvider) (request : LLMRequest)
    (remaining : nat) :
  forall (attempt : Z) (s : Net),
    (attemptsMade (emitted (attempts p request remaining attempt s)) <= remaining)%nat
    /\ (fetches (final (attempts p request remaining attempt s))
        <= fetches s + remaining)%nat.
Proof.
  induction remaining as [| n IH]; intros attempt s.
  - cbn. lia.
  - destruct (attempts_cases p request n attempt s)
      as [[H1 H2] | (waits & s' & Hs' & Hw & _ & Hfin & Hev)].
    + rewrite H1, H2. lia.
    + rewrite Hev, Hfin.
      change (Fetch p attempt :: waits ++ ?t) with ([Fetch p attempt] ++ waits ++ t).
      rewrite !attemptsMade_app, Hw.
      destruct (IH (attempt + 1) s') as [IH1 IH2].
      change (attemptsMade [Fetch p attempt]) with 1%nat. lia.
Qed.

Lemma server_failure_branch (r : Response) :
  isRateLimitError (status r) None = false ->
  isRetryable r = true ->
  negb (ok r) = true
  /\ (status r =? 401) || (status r =? 403) = false
  /\ (500 <=? status r) = true.
Proof.
  unfold isRetryable, isServerFailure, ok. intros -> H. cbn in H.
  apply andb_true_iff in H as [H _]. rewrite H.
  apply Z.leb_le in H.
  repeat split.
  - apply negb_true_iff, andb_false_iff. right. apply Z.leb_gt. lia.
  - apply orb_false_iff. split; apply Z.eqb_neq; lia.
Qed.

(** A retryable response before the last attempt: wait, then go on. *)
Lemma attempts_retry (p : ModelProvider) (request : LLMRequest)
    (remaining : nat) (attempt : Z) (s : Net) (r : Response) :
  fetch (fetches s) = Responds r ->
  isRetryable r = true ->
  attempt < maxRetries ->
  exists waits s',
    fetches s' = S (fetches s)
    /\ attemptsMade waits = 0%nat
    /\ waits <> []
    /\ result (attempts p request (S remaining) attempt s)
       = result (attempts p request remaining (attempt + 1) s')
    /\ emitted (attempts p request (S remaining) attempt s)
       = Fetch p attempt :: waits
         ++ emitted (attempts p request remaining (attempt + 1) s').
Proof.
  intros Hf Hr Hlt. send Hf.
  apply Z.ltb_lt in Hlt.
  destruct (isRateLimitError (status r) None) eqn:Hrl.
  - rewrite Hlt.
    destruct (backoffDelay_silent attempt
                (option_map inject_Z (extractRetryAfterMs r))
                {| fetches := S (fetches s); randoms := randoms s |})
      as (He & Hfe & d & Hd).
    rewrite Hd, He. cbn [result final emitted sleep emit app].
    exists [RateLimitWait p d attempt; Sleep d]. eexists. split; [exact Hfe |].
    split; [reflexivity |]. split; [discriminate |].
    destruct (attempts p request remaining (attempt + 1) _); split; reflexivity.
  - destruct (server_failure_branch r Hrl Hr) as (-> & -> & ->).
    rewrite Hlt. cbn [andb].
    destruct (backoffDelay_silent attempt None
                {| fetches := S (fetches s); randoms := randoms s |})
      as (He & Hfe & d & Hd).
    rewrite Hd, He. cbn [result final emitted sleep emit app].
    exists [Sleep d]. eexists. split; [exact Hfe |].
    split; [reflexivity |]. split; [discriminate |].
    destruct (attempts p request remaining (attempt + 1) _); split; reflexivity.
Qed.

(** A retryable response at the last attempt ends the call. *)
Lemma attempts_last (p : ModelProvider) (request : LLMRequest)
    (remaining : nat) (s : Net) (r : Response) :
  fetch (fetches s) = Responds r ->
  isRetryable r = true ->
  attempts p request (S remaining) maxRetries s =
  mkOut (Throw (terminalError p r))
        {| fetches := S (fetches s); randoms := randoms s |}
        [Fetch p maxRetries].
Proof.
  intros Hf Hr. send Hf.
  unfold terminalError.
  destruct (isRateLimitError (status r) None) eqn:Hrl.
  - rewrite Z.ltb_irrefl. reflexivity.
  - destruct (server_failure_branch r Hrl Hr) as (-> & -> & ->).
    rewrite Z.ltb_irrefl. reflexivity.
Qed.

(** When every response is retryable, the loop runs to the last attempt
    and surfaces the error of the last response. *)
Lemma attempts_exhaust (p : ModelProvider) (request : LLMRequest) (n : nat) :
  forall (attempt : Z) (s : Net),
    attempt + Z.of_nat n = maxRetries ->
    (forall i, (i <= n)%nat ->
       exists r, fetch (fetches s + i)%nat = Responds r /\ isRetryable r = true) ->
    exists r,
      fetch (fetches s + n)%nat = Responds r
      /\ result (attempts p request (S n) attempt s) = Throw (terminalError p r)
      /\ attemptsMade (emitted (attempts p request (S n) attempt s)) = S n.
Proof.
  induction n as [| n IH]; intros attempt s Hat Hall.
  - destruct (Hall 0%nat) as (r & Hf & Hr); [lia |].
    rewrite Nat.add_0_r in Hf |- *.
    assert (attempt = maxRetries) as -> by lia.
    exists r. rewrite (attempts_last p request 0 s r Hf Hr). repeat split; assumption.
  - destruct (Hall 0%nat) as (r0 & Hf0 & Hr0); [lia |].
    rewrite Nat.add_0_r in Hf0.
    destruct (attempts_retry p request (S n) attempt s r0 Hf0 Hr0)
      as (waits & s' & Hs' & Hw & _ & Hres & Hev); [lia |].
    destruct (IH (attempt + 1) s') as (r & Hf & Hres' & Hcount); [lia | |].
    { intros i Hi. destruct (Hall (S i)) as (ri & Hfi & Hri); [lia |].
      exists ri. split; [| assumption].
      rewrite Hs'. rewrite <- Hfi. f_equal. lia. }
    exists r. split; [rewrite <- Hf; f_equal; lia |].
    split; [rewrite Hres; exact Hres' |].
    rewrite Hev.
    change (Fetch p attempt :: waits ++ ?t) with ([Fetch p attempt] ++ waits ++ t).
    rewrite !attemptsMade_app, Hw, Hcount. reflexivity.
Qed.

End Calls.

(** Without the key of the provider, [generate] rejects before any request
    is sent. *)
Lemma generate_without_key (fetch : nat -> FetchResult) (random : nat -> Q)
    (request : LLMRequest) (s : Net) :
  exists message,
    Gateway.generate fetch random (mkKeys None None) request s
    = mkOut (Throw message) s [].
Proof.
  unfold Gateway.generate. destruct (getModelProvider (model request));
    cbn; eexists; reflexivity.
Qed.

(** C7. When the provider answers a request of [callAnthropic] or
    [callOpenAI] with status 401 or 403, the call rejects with the
    provider's API error at that attempt: nothing is sent again, no delay
    is computed and no wait takes place. A call whose first response is
    such a failure makes exactly one attempt. *)
Theorem auth_failure_single_attempt
    (fetch : nat -> FetchResult) (random : nat -> Q)
    (p : ModelProvider) (request : LLMRequest) (s : Net) (r : Response) :
  fetch (fetches s) = Responds r ->
  isAuthStatus (status r) = true ->
  (forall remaining attempt,
     Gateway.attempts fetch random p request (S remaining) attempt s
     = mkOut (Throw (apiError p (status r)
                       (Js.orElse (default [] (errorMessage r)) (statusText r))))
             {| fetches := S (fetches s); randoms := randoms s |}
             [Fetch p attempt])
  /\ (getModelId p (model request) <> None ->
      let out := Gateway.callProvider fetch random p request s in
      result out = Throw (apiError p (status r)
                            (Js.orElse (default [] (errorMessage r)) (statusText r)))
      /\ emitted out = [Fetch p 1]
      /\ attemptsMade (emitted out) = 1%nat
      /\ List.filter isWait (emitted out) = []
      /\ final out = {| fetches := S (fetches s); randoms := randoms s |}).
Proof.
  intros Hf Hauth. split.
  - intros remaining attempt. apply attempts_auth; assumption.
  - intros Hm out. subst out. unfold Gateway.callProvider.
    destruct (getModelId p (model request)); [| congruence].
    change (Z.to_nat maxRetries) with 5%nat.
    rewrite (attempts_auth fetch random p request 4 1 s r Hf Hauth).
    repeat split.
Qed.

Lemma auth_failure_single_attempt_witness :
  emitted (callAnthropic (always unauthorized) noJitter toClaude (mkNet 0 0))
  = [Fetch anthropic 1]
  /\ emitted (callOpenAI (always unauthorized) noJitter toChatGpt (mkNet 0 0))
     = [Fetch openai 1].
Proof.
  split.
  - apply (proj2 (auth_failure_single_attempt (always unauthorized) noJitter
                    anthropic toClaude (mkNet 0 0) unauthorized eq_refl eq_refl)).
    discriminate.
  - apply (proj2 (auth_failure_single_attempt (always unauthorized) noJitter
                    openai toChatGpt (mkNet 0 0) unauthorized eq_refl eq_refl)).
    discriminate.
Defined.

(** C8 (as amended). A call sends at most five requests. When all five
    are answered by retryable responses, the call rejects after the fifth:
    with the rate-limit error, which names the five attempts, when the
    fifth response is a rate-limit response (429 or 529), and with the
    provider's API error (status and message, no attempt count) when it is
    a server failure (5xx). *)
Theorem retry_ceiling_and_terminal_error
    (fetch : nat -> FetchResult) (random : nat -> Q)
    (p : ModelProvider) (request : LLMRequest) (s : Net) :
  (attemptsMade (emitted (Gateway.callProvider fetch random p request s)) <= 5)%nat
  /\ (getModelId p (model request) <> None ->
      (forall i, (i < 5)%nat ->
         exists r, fetch (fetches s + i)%nat = Responds r /\ isRetryable r = true) ->
      exists r,
        fetch (fetches s + 4)%nat = Responds r
        /\ attemptsMade (emitted (Gateway.callProvider fetch random p request s)) = 5%nat
        /\ (isRateLimitError (status r) None = true ->
             result (Gateway.callProvider fetch random p request s)
             = Throw (rateLimitExceeded p 5)
             /\ namesAttemptCount (rateLimitExceeded p 5) 5 = true)
        /\ (isRateLimitError (status r) None = false ->
             result (Gateway.callProvider fetch random p request s)
             = Throw (apiError p (status r)
                        (Js.orElse (default [] (errorMessage r)) (statusText r))))).
Proof.
  unfold Gateway.callProvider. change (Z.to_nat maxRetries) with 5%nat.
  split.
  - destruct (getModelId p (model request)); [| cbn; lia].
    apply attempts_bounded.
  - intros Hm Hall. destruct (getModelId p (model request)); [| congruence].
    destruct (attempts_exhaust fetch random p request 4 1 s) as (r & Hf & Hres & Hn).
    + reflexivity.
    + intros i Hi. apply Hall. lia.
    + exists r. split; [exact Hf |]. split; [exact Hn |].
      unfold terminalError in Hres. split; intros Hrl; rewrite Hrl in Hres.
      * split; [exact Hres |]. destruct p; reflexivity.
      * exact Hres.
Qed.

Lemma retry_ceiling_and_terminal_error_witness :
  result (callAnthropic (always overloaded) noJitter toClaude (mkNet 0 0))
  = Throw (Js.lit "Anthropic rate limit exceeded after 5 attempts. Please wait and try again.")
  /\ result (callOpenAI (always unavailable) noJitter toChatGpt (mkNet 0 0))
     = Throw (Js.lit "OpenAI API error: 503 - Service Unavailable").
Proof.
  split.
  - destruct (proj2 (retry_ceiling_and_terminal_error
                       (always overloaded) noJitter anthropic toClaude (mkNet 0 0)))
      as (r & Hr & _ & Hrate & _).
    + discriminate.
    + intros i _. exists overloaded. split; reflexivity.
    + injection Hr as <-. exact (proj1 (Hrate eq_refl)).
  - destruct (proj2 (retry_ceiling_and_terminal_error
                       (always unavailable) noJitter openai toChatGpt (mkNet 0 0)))
      as (r & Hr & _ & _ & Hserver).
    + discriminate.
    + intros i _. exists unavailable. split; reflexivity.
    + injection Hr as <-. exact (Hserver eq_refl).
Defined.

(** A call whose request is rejected by the network ends with that error
    after the one attempt. *)
Lemma rejected_fetch_ends_call (fetch : nat -> FetchResult) (random : nat -> Q)
    (p : ModelProvider) (request : LLMRequest) (s : Net) (message : Js.str) :
  getModelId p (model request) <> None ->
  fetch (fetches s) = Rejects message ->
  result (Gateway.callProvider fetch random p request s) = Throw message
  /\ emitted (Gateway.callProvider fetch random p request s) = [Fetch p 1].
Proof.
  intros Hm Hf. unfold Gateway.callProvider.
  destruct (getModelId p (model request)); [| congruence].
  change (Z.to_nat maxRetries) with 5%nat.
  rewrite (attempts_rejected fetch random p request 4 1 s message Hf).
  split; reflexivity.
Qed.

(** C8 as stated fails for server failures: five responses with status
    503 exhaust the ceiling, and the error that surfaces holds the status
    and the status text, not the number of attempts. *)
Lemma server_failure_error_names_no_attempt_count :
  attemptsMade (emitted (callAnthropic (always unavailable) noJitter toClaude (mkNet 0 0)))
  = 5%nat
  /\ isRetryable unavailable = true
  /\ result (callAnthropic (always unavailable) noJitter toClaude (mkNet 0 0))
     = Throw (Js.lit "Anthropic API error: 503 - Service Unavailable")
  /\ namesAttemptCount (Js.lit "Anthropic API error: 503 - Service Unavailable") 5 = false
  /\ Js.includes (Js.lit "Anthropic API error: 503 - Service Unavailable")
                 (Js.lit "attempt") = false.
Proof. repeat split; vm_compute; reflexivity. Qed.

End GatewayFacts.

(** ** The feedback cycle *)

Module AgentFacts.
Import Spec Agent.

Lemma callsOf_app (role : Role) (a b : list Event) :
  callsOf role (a ++ b) = (callsOf role a + callsOf role b)%nat.
Proof. unfold callsOf. rewrite List.filter_app, List.length_app. reflexivity. Qed.

Lemma targets_app (a b : list Event) : targets (a ++ b) = targets a ++ targets b.
Proof. unfold targets. apply flat_map_app. Qed.

Section Cycles.

Variable llm : nat -> Res Js.str.
Variable clock : nat -> Z.
Variable maxFeedbackCycles : Z.

Local Abbreviation cycles := (Agent.cycles llm clock maxFeedbackCycles).

Local Abbreviation cycleEvents := (Agent.cycleEvents maxFeedbackCycles).
Local Abbreviation cycleArtifact := (Agent.cycleArtifact clock).
Local Abbreviation cycleEntry := (Agent.cycleEntry clock).

(** One iteration of the loop, run on the state at hand. *)
Ltac run_cycle :=
  cbn [Agent.cycles];
  unfold mbind, M_bind, bind, emit, llmGenerate, now;
  cbn [result final emitted calls previousArtifacts].

Ltac answer H :=
  rewrite H; cbn [result final emitted calls previousArtifacts].

Lemma cycles_executor_throws agent t n cycle history artifact s message :
  llm (calls s) = Throw message ->
  cycles agent t (S n) cycle history artifact s =
  mkOut (Throw message)
        {| calls := S (calls s); previousArtifacts := previousArtifacts s |}
        [FeedbackCycle cycle maxFeedbackCycles;
         Call Executor agent t cycle (previousArtifacts s) history].
Proof.
  intros H. run_cycle. answer H. reflexivity.
Qed.

Lemma cycles_reviewer_throws agent t n cycle history artifact s g message :
  llm (calls s) = Ok g ->
  llm (S (calls s)) = Throw message ->
  cycles agent t (S n) cycle history artifact s =
  mkOut (Throw message) (afterCycle s) (cycleEvents agent t cycle history s).
Proof.
  intros Hg Hr. run_cycle. answer Hg. answer Hr. reflexivity.
Qed.

Lemma cycles_approved agent t n cycle history artifact s g :
  approvesAt llm (calls s) g ->
  cycles agent t (S n) cycle history artifact s =
  mkOut (Ok {| Spec.artifact := Some (cycleArtifact agent t g s);
               cyclesUsed := cycle; approved := true;
               feedbackHistory := history |})
        (afterCycle s) (cycleEvents agent t cycle history s).
Proof.
  intros (Hg & r & Hr & Happ). run_cycle. answer Hg. answer Hr. answer Happ.
  reflexivity.
Qed.

Lemma cycles_rejected agent t n cycle history artifact s g :
  rejectsAt llm (calls s) g ->
  exists entry,
    let next := cycles agent t n (cycle + 1) (history ++ [entry])
                       (Some (cycleArtifact agent t g s)) (afterCycle s) in
    cycles agent t (S n) cycle history artifact s =
    mkOut (result next) (final next)
          (cycleEvents agent t cycle history s ++ emitted next).
Proof.
  intros (Hg & r & Hr & Happ). exists (cycleEntry t cycle g r s).
  run_cycle. answer Hg. answer Hr. answer Happ.
  fold (afterCycle s).
  destruct (Agent.cycles _ _ _ _ _ _ _ _ _ (afterCycle s)) as [[res | e] fin ev];
    reflexivity.
Qed.

(** What one cycle can do, whatever the model answers. *)
Lemma cycles_cases agent t n cycle history artifact s :
  (exists message,
     cycles agent t (S n) cycle history artifact s =
     mkOut (Throw message)
           {| calls := S (calls s); previousArtifacts := previousArtifacts s |}
           [FeedbackCycle cycle maxFeedbackCycles;
            Call Executor agent t cycle (previousArtifacts s) history])
  \/ (exists message,
        cycles agent t (S n) cycle history artifact s =
        mkOut (Throw message) (afterCycle s) (cycleEvents agent t cycle history s))
  \/ (exists g, approvesAt llm (calls s) g)
  \/ (exists g, rejectsAt llm (calls s) g).
Proof.
  destruct (llm (calls s)) as [g | message] eqn:Hg.
  - destruct (llm (S (calls s))) as [r | message] eqn:Hr.
    + destruct (Prompts.approved (Prompts.parseReviewResult r)) eqn:Happ.
      * right. right. left. exists g. split; [assumption |]. eauto.
      * right. right. right. exists g. split; [assumption |]. eauto.
    + right. left. exists message. eapply cycles_reviewer_throws; eassumption.
  - left. exists message. apply cycles_executor_throws. assumption.
Qed.

Lemma cycleEvents_about agent t cycle history s :
  Forall (cycleEvent t (previousArtifacts s)) (cycleEvents agent t cycle history s).
Proof. repeat constructor. Qed.

(** The loop makes at most as many generate calls as it has iterations
    left, never more review calls than generate calls, and leaves the
    context alone. *)
Lemma cycles_bounded agent t n :
  forall cycle history artifact s,
    let out := cycles agent t n cycle history artifact s in
    (generateCalls (emitted out) <= n)%nat
    /\ (reviewCalls (emitted out) <= generateCalls (emitted out))%nat
    /\ previousArtifacts (final out) = previousArtifacts s
    /\ (calls s <= calls (final out))%nat
    /\ Forall (cycleEvent t (previousArtifacts s)) (emitted out).
Proof.
  induction n as [| n IH]; intros cycle history artifact s.
  - cbn. repeat split; auto.
  - destruct (cycles_cases agent t n cycle history artifact s)
      as [(m & ->) | [(m & ->) | [(g & Hg) | (g & Hg)]]].
    + cbn. repeat split; try lia. repeat constructor.
    + cbn. repeat split; try lia. repeat constructor.
    + rewrite (cycles_approved agent t n cycle history artifact s g Hg).
      cbn. repeat split; try lia. repeat constructor.
    + destruct (cycles_rejected agent t n cycle history artifact s g Hg)
        as (entry & ->).
      specialize (IH (cycle + 1) (history ++ [entry])
                     (Some (cycleArtifact agent t g s)) (afterCycle s)).
      cbn zeta in IH. destruct IH as (IH1 & IH2 & IH3 & IH4 & IH5).
      cbn [emitted final]. unfold generateCalls, reviewCalls in *.
      rewrite !callsOf_app.
      change (callsOf Executor (cycleEvents agent t cycle history s)) with 1%nat.
      change (callsOf Reviewer (cycleEvents agent t cycle history s)) with 1%nat.
      repeat split; try lia.
      * rewrite IH3. reflexivity.
      * cbn in IH4. lia.
      * apply Forall_app. split; [apply cycleEvents_about | exact IH5].
Qed.

(** When the reviewer approves on cycle [k], the loop returns after [k]
    generate calls and [k] review calls with the k-th generation. *)
Lemma cycles_approve_on agent t (k : nat) :
  forall n cycle history artifact s g,
    (1 <= k <= n)%nat ->
    approvesOnCycle llm (calls s) k g ->
    let out := cycles agent t n cycle history artifact s in
    exists r a,
      result out = Ok r
      /\ approved r = true
      /\ cyclesUsed r = cycle + Z.of_nat k - 1
      /\ Spec.artifact r = Some a
      /\ irType a = t /\ content a = cleanSpecContent g /\ createdBy a = agent
      /\ generateCalls (emitted out) = k
      /\ reviewCalls (emitted out) = k
      /\ calls (final out) = (calls s + 2 * k)%nat.
Proof.
  induction k as [| k IH]; intros n cycle history artifact s g Hk Happ; [lia |].
  destruct n as [| n]; [lia |].
  destruct Happ as [Hrej Hok].
  destruct k as [| k].
  - (* approved on this cycle *)
    cbn in Hok. rewrite Nat.add_0_r in Hok.
    cbn zeta. rewrite (cycles_approved agent t n cycle history artifact s g Hok).
    eexists _, _. split; [reflexivity |]. cbn. repeat split; lia.
  - (* rejected on this cycle, approved [S k] cycles later *)
    destruct (Hrej 0%nat) as (g0 & Hg0); [lia |].
    rewrite Nat.mul_0_r, Nat.add_0_r in Hg0.
    destruct (cycles_rejected agent t n cycle history artifact s g0 Hg0)
      as (entry & Heq).
    cbn zeta in Heq |- *. rewrite Heq. clear Heq.
    destruct (IH n (cycle + 1) (history ++ [entry])
                 (Some (cycleArtifact agent t g0 s)) (afterCycle s) g)
      as (r & a & Hres & Ha & Hc & Hart & Ht & Hcont & Hby & Hgen & Hrev & Hcalls).
    + lia.
    + split.
      * intros j Hj. destruct (Hrej (S j)) as (g' & Hg'); [lia |].
        exists g'. cbn [calls afterCycle].
        replace (S (S (calls s)) + 2 * j)%nat with (calls s + 2 * S j)%nat by lia.
        exact Hg'.
      * cbn [calls afterCycle].
        replace (S (S (calls s)) + 2 * (S k - 1))%nat
          with (calls s + 2 * (S (S k) - 1))%nat by lia.
        exact Hok.
    + exists r, a. cbn [result final emitted].
      unfold generateCalls, reviewCalls in *. rewrite !callsOf_app, Hgen, Hrev.
      change (callsOf Executor (cycleEvents agent t cycle history s)) with 1%nat.
      change (callsOf Reviewer (cycleEvents agent t cycle history s)) with 1%nat.
      repeat split; try assumption; try lia.
      rewrite Hcalls. cbn [calls afterCycle]. lia.
Qed.

(** When the reviewer rejects all the generations the budget allows, the
    loop returns the last of them, not approved. *)
Lemma cycles_exhausted agent t (n : nat) :
  forall cycle history artifact s g,
    (1 <= n)%nat ->
    rejectsAllCycles llm (calls s) n g ->
    let out := cycles agent t n cycle history artifact s in
    exists r a,
      result out = Ok r
      /\ approved r = false
      /\ cyclesUsed r = maxFeedbackCycles
      /\ Spec.artifact r = Some a
      /\ irType a = t /\ content a = cleanSpecContent g /\ createdBy a = agent
      /\ length (feedbackHistory r) = (length history + n)%nat
      /\ generateCalls (emitted out) = n
      /\ reviewCalls (emitted out) = n
      /\ calls (final out) = (calls s + 2 * n)%nat.
Proof.
  induction n as [| n IH]; intros cycle history artifact s g Hn [Hrej Hlast]; [lia |].
  destruct n as [| n].
  - (* the last cycle of the budget *)
    cbn in Hlast. rewrite Nat.add_0_r in Hlast.
    destruct (cycles_rejected agent t 0 cycle history artifact s g Hlast)
      as (entry & Heq).
    cbn zeta in Heq |- *. rewrite Heq. clear Heq.
    eexists _, _. split; [reflexivity |]. cbn. rewrite List.length_app. cbn.
    repeat split; lia.
  - destruct (Hrej 0%nat) as (g0 & Hg0); [lia |].
    rewrite Nat.mul_0_r, Nat.add_0_r in Hg0.
    destruct (cycles_rejected agent t (S n) cycle history artifact s g0 Hg0)
      as (entry & Heq).
    cbn zeta in Heq |- *. rewrite Heq. clear Heq.
    destruct (IH (cycle + 1) (history ++ [entry])
                 (Some (cycleArtifact agent t g0 s)) (afterCycle s) g)
      as (r & a & Hres & Ha & Hc & Hart & Ht & Hcont & Hby & Hlen & Hgen & Hrev & Hcalls).
    + lia.
    + split.
      * intros j Hj. destruct (Hrej (S j)) as (g' & Hg'); [lia |].
        exists g'. cbn [calls afterCycle].
        replace (S (S (calls s)) + 2 * j)%nat with (calls s + 2 * S j)%nat by lia.
        exact Hg'.
      * cbn [calls afterCycle].
        replace (S (S (calls s)) + 2 * (S n - 1))%nat
          with (calls s + 2 * (S (S n) - 1))%nat by lia.
        exact Hlast.
    + exists r, a. cbn [result final emitted].
      unfold generateCalls, reviewCalls in *. rewrite !callsOf_app, Hgen, Hrev.
      change (callsOf Executor (cycleEvents agent t cycle history s)) with 1%nat.
      change (callsOf Reviewer (cycleEvents agent t cycle history s)) with 1%nat.
      rewrite Hlen, length_app. cbn [length].
      repeat split; try assumption; try lia.
      rewrite Hcalls. cbn [calls afterCycle]. lia.
Qed.

(** A result of the loop carries an artifact as soon as one cycle ran;
    without any cycle it carries what was there at the start. *)
Lemma cycles_artifact agent t n :
  forall cycle history artifact s r,
    result (cycles agent t n cycle history artifact s) = Ok r ->
    ((1 <= n)%nat -> exists a, Spec.artifact r = Some a /\ irType a = t)
    /\ (n = 0%nat -> Spec.artifact r = artifact).
Proof.
  induction n as [| n IH]; intros cycle history artifact s r Hres.
  - cbn in Hres. injection Hres as <-. split; [lia | reflexivity].
  - split; [intros _ | discriminate].
    destruct (cycles_cases agent t n cycle history artifact s)
      as [(m & Heq) | [(m & Heq) | [(g & Hg) | (g & Hg)]]].
    + rewrite Heq in Hres. discriminate.
    + rewrite Heq in Hres. discriminate.
    + rewrite (cycles_approved agent t n cycle history artifact s g Hg) in Hres.
      injection Hres as <-. eexists. split; reflexivity.
    + destruct (cycles_rejected agent t n cycle history artifact s g Hg)
        as (entry & Heq).
      cbn zeta in Heq. rewrite Heq in Hres. cbn [result] in Hres.
      destruct (IH _ _ _ _ _ Hres) as [Hpos Hzero].
      destruct n as [| n].
      * exists (cycleArtifact agent t g s). split; [auto | reflexivity].
      * apply Hpos. lia.
Qed.

End Cycles.

(** C3. With a budget of at least one cycle, the engine makes at most
    [maxFeedbackCycles] generate calls and never more review calls than
    generate calls. When the reviewer approves on cycle [k], the engine
    returns after exactly [k] generate calls and [k] review calls, with
    [cyclesUsed = k] and the normalized k-th generation as content. *)
Theorem feedback_cycle_bounded_and_exact
    (llm : nat -> Res Js.str) (clock : nat -> Z) (maxFeedbackCycles : Z)
    (agent : AgentType) (t : IRType) (s : Run) :
  1 <= maxFeedbackCycles ->
  let out := generateWithFeedbackCycle llm clock maxFeedbackCycles agent t s in
  (Z.of_nat (generateCalls (emitted out)) <= maxFeedbackCycles
   /\ (reviewCalls (emitted out) <= generateCalls (emitted out))%nat)
  /\ forall (k : nat) (g : Js.str),
       (1 <= k)%nat -> Z.of_nat k <= maxFeedbackCycles ->
       approvesOnCycle llm (calls s) k g ->
       exists r a,
         result out = Ok r
         /\ approved r = true
         /\ cyclesUsed r = Z.of_nat k
         /\ Spec.artifact r = Some a
         /\ irType a = t
         /\ content a = cleanSpecContent g
         /\ generateCalls (emitted out) = k
         /\ reviewCalls (emitted out) = k.
Proof.
  intros Hmax out. subst out. unfold generateWithFeedbackCycle. split.
  - destruct (cycles_bounded llm clock maxFeedbackCycles agent t
                (Z.to_nat maxFeedbackCycles) 1 [] None s) as (Hgen & Hrev & _).
    split; [lia | exact Hrev].
  - intros k g Hk Hle Happ.
    destruct (cycles_approve_on llm clock maxFeedbackCycles agent t k
                (Z.to_nat maxFeedbackCycles) 1 [] None s g)
      as (r & a & Hres & Ha & Hc & Hart & Ht & Hcont & _ & Hgen & Hrev & _);
      [lia | exact Happ |].
    exists r, a. repeat split; try assumption. lia.
Qed.

Lemma feedback_cycle_bounded_and_exact_witness :
  exists r a,
    result (generateWithFeedbackCycle Scenario.thirdTimeLucky Scenario.wallClock 3
              architect data (mkRun 0 [])) = Ok r
    /\ approved r = true
    /\ cyclesUsed r = 3
    /\ Spec.artifact r = Some a
    /\ irType a = data
    /\ content a = Js.lit "ir::data v3"
    /\ generateCalls (emitted (generateWithFeedbackCycle Scenario.thirdTimeLucky
                                 Scenario.wallClock 3 architect data (mkRun 0 []))) = 3%nat
    /\ reviewCalls (emitted (generateWithFeedbackCycle Scenario.thirdTimeLucky
                               Scenario.wallClock 3 architect data (mkRun 0 []))) = 3%nat.
Proof.
  apply (proj2 (feedback_cycle_bounded_and_exact Scenario.thirdTimeLucky
                  Scenario.wallClock 3 architect data (mkRun 0 []) ltac:(lia))
               3%nat (Scenario.draft 3)); [lia | lia |].
  split.
  - intros j Hj. destruct j as [| [| j]]; [| | cbn in Hj; lia].
    + exists (Scenario.draft 1). split; [reflexivity |].
      exists Scenario.needsRevision. split; reflexivity.
    + exists (Scenario.draft 2). split; [reflexivity |].
      exists Scenario.needsRevision. split; reflexivity.
  - split; [reflexivity |]. exists Scenario.approvedAnswer. split; reflexivity.
Defined.

(** C10. With a budget of at least one cycle, a result the engine returns
    carries an artifact. With a budget of zero or less the loop body never
    runs: the engine makes no call and returns, as a success, a result
    whose artifact is [null], with [cyclesUsed] equal to the budget. *)
Theorem feedback_cycle_needs_positive_budget
    (llm : nat -> Res Js.str) (clock : nat -> Z) (maxFeedbackCycles : Z)
    (agent : AgentType) (t : IRType) (s : Run) :
  (1 <= maxFeedbackCycles ->
   forall r,
     result (generateWithFeedbackCycle llm clock maxFeedbackCycles agent t s) = Ok r ->
     exists a, Spec.artifact r = Some a /\ irType a = t)
  /\ (maxFeedbackCycles <= 0 ->
      generateWithFeedbackCycle llm clock maxFeedbackCycles agent t s
      = mkOut (Ok {| Spec.artifact := None; cyclesUsed := maxFeedbackCycles;
                     approved := false; feedbackHistory := [] |}) s []).
Proof.
  unfold generateWithFeedbackCycle. split.
  - intros Hmax r Hres.
    apply (cycles_artifact llm clock maxFeedbackCycles agent t _ _ _ _ _ _ Hres). lia.
  - intros Hmax. replace (Z.to_nat maxFeedbackCycles) with 0%nat by lia. reflexivity.
Qed.

Lemma feedback_cycle_needs_positive_budget_witness :
  (exists a,
     Spec.artifact {| Spec.artifact := Some (newArtifact scrum tasks (Js.lit "ir::data v0")
                                               (Scenario.wallClock 1));
                      cyclesUsed := 1; approved := true; feedbackHistory := [] |}
     = Some a /\ irType a = tasks)
  /\ generateWithFeedbackCycle Scenario.alwaysApproved Scenario.wallClock 0
       scrum tasks (mkRun 0 [])
     = mkOut (Ok {| Spec.artifact := None; cyclesUsed := 0;
                    approved := false; feedbackHistory := [] |}) (mkRun 0 []) [].
Proof.
  split.
  - apply (proj1 (feedback_cycle_needs_positive_budget Scenario.alwaysApproved
                    Scenario.wallClock 1 scrum tasks (mkRun 0 [])) ltac:(lia)).
    reflexivity.
  - apply (proj2 (feedback_cycle_needs_positive_budget Scenario.alwaysApproved
                    Scenario.wallClock 0 scrum tasks (mkRun 0 [])) ltac:(lia)).
Defined.

End AgentFacts.

(** ** Stages and the pipeline *)

Module PipelineFacts.
Import Spec Agent Pipeline AgentFacts.

(** *** The artifact map *)

Lemma mapKeys_mapSet (k : IRType) (v : option SpecArtifact) (m : ArtifactMap) :
  mapKeys (mapSet k v m)
  = if decide (k ∈ mapKeys m) then mapKeys m else mapKeys m ++ [k].
Proof.
  unfold mapKeys. induction m as [| [k' v'] m IH]; cbn.
  - destruct (decide (k ∈ [])) as [H | _]; [inversion H | reflexivity].
  - destruct (decide (k = k')) as [-> | Hne]; cbn.
    + destruct (decide (k' ∈ k' :: List.map fst m)) as [_ | H]; [reflexivity |].
      exfalso. apply H. constructor.
    + rewrite IH.
      destruct (decide (k ∈ List.map fst m)) as [Hin | Hnin];
        destruct (decide (k ∈ k' :: List.map fst m)) as [Hin' | Hnin'];
        try reflexivity.
      * exfalso. apply Hnin'. constructor. exact Hin.
      * exfalso. apply elem_of_cons in Hin' as [-> | Hin']; [congruence | auto].
Qed.

Lemma mapKeys_mapSet_new (k : IRType) (v : option SpecArtifact) (m : ArtifactMap) :
  k ∉ mapKeys m -> mapKeys (mapSet k v m) = mapKeys m ++ [k].
Proof.
  intros H. rewrite mapKeys_mapSet. destruct (decide (k ∈ mapKeys m)); [contradiction | reflexivity].
Qed.

Lemma mapKeys_mapSet_old (k : IRType) (v : option SpecArtifact) (m : ArtifactMap) :
  k ∈ mapKeys m -> mapKeys (mapSet k v m) = mapKeys m.
Proof.
  intros H. rewrite mapKeys_mapSet. destruct (decide (k ∈ mapKeys m)); [reflexivity | contradiction].
Qed.

Lemma mapSet_NoDup (k : IRType) (v : option SpecArtifact) (m : ArtifactMap) :
  NoDup (mapKeys m) -> NoDup (mapKeys (mapSet k v m)).
Proof.
  intros H. rewrite mapKeys_mapSet. destruct (decide (k ∈ mapKeys m)); [exact H |].
  apply NoDup_app. split; [exact H |]. split.
  - intros x Hx Hk. apply list_elem_of_singleton in Hk. subst. contradiction.
  - apply NoDup_singleton.
Qed.

Lemma mapSet_consistent (a : SpecArtifact) (m : ArtifactMap) :
  consistent m -> consistent (mapSet (irType a) (Some a) m).
Proof.
  unfold consistent. induction m as [| [k v] m IH]; intros H; cbn.
  - repeat constructor. exists a. auto.
  - inversion H as [| ? ? Hkv Hm]; subst.
    destruct (decide (irType a = k)) as [<- | Hne].
    + constructor; [exists a; auto | exact Hm].
    + constructor; [exact Hkv | apply IH; exact Hm].
Qed.

Lemma consistent_types (m : ArtifactMap) :
  consistent m -> typesOf (mapValues m) = mapKeys m.
Proof.
  unfold consistent. induction m as [| [k v] m IH]; intros H; [reflexivity |].
  inversion H as [| ? ? (a & Hv & Hk) Hm]; subst. cbn in Hv, Hk. subst.
  cbn. f_equal. apply IH. exact Hm.
Qed.

(** The map the orchestrator rebuilds from a list of persisted artifacts. *)
Lemma previousArtifactsOf_spec (persisted : list SpecArtifact) :
  NoDup (mapKeys (previousArtifactsOf persisted))
  /\ consistent (previousArtifactsOf persisted)
  /\ (forall t, t ∈ mapKeys (previousArtifactsOf persisted) ->
                t ∈ List.map irType persisted).
Proof.
  unfold previousArtifactsOf.
  assert (G : forall m,
             NoDup (mapKeys m) -> consistent m ->
             NoDup (mapKeys (fold_left (fun m a => mapSet (irType a) (Some a) m) persisted m))
             /\ consistent (fold_left (fun m a => mapSet (irType a) (Some a) m) persisted m)
             /\ (forall t,
                   t ∈ mapKeys (fold_left (fun m a => mapSet (irType a) (Some a) m) persisted m) ->
                   t ∈ mapKeys m \/ t ∈ List.map irType persisted)).
  { induction persisted as [| a l IH]; intros m Hnd Hc; cbn [fold_left].
    - repeat split; auto.
    - destruct (IH (mapSet (irType a) (Some a) m)) as (H1 & H2 & H3).
      + apply mapSet_NoDup. exact Hnd.
      + apply mapSet_consistent. exact Hc.
      + repeat split; [exact H1 | exact H2 |].
        intros t Ht. destruct (H3 t Ht) as [Hm | Hl].
        * rewrite mapKeys_mapSet in Hm.
          destruct (decide (irType a ∈ mapKeys m)); [left; exact Hm |].
          apply elem_of_app in Hm as [Hm | Hm]; [left; exact Hm |].
          apply list_elem_of_singleton in Hm. subst. right. cbn. constructor.
        * right. cbn. constructor. exact Hl. }
  destruct (G []) as (H1 & H2 & H3); [constructor | constructor |].
  repeat split; [exact H1 | exact H2 |].
  intros t Ht. destruct (H3 t Ht) as [H | H]; [inversion H | exact H].
Qed.

(** *** Lists of artifacts *)

Lemma typesOf_app (a b : list (option SpecArtifact)) :
  typesOf (a ++ b) = typesOf a ++ typesOf b.
Proof. unfold typesOf. apply flat_map_app. Qed.

Lemma typesOf_firstn (k : nat) (l : list (option SpecArtifact)) :
  typesOf (firstn k l) `sublist_of` typesOf l.
Proof.
  rewrite <- (firstn_skipn k l) at 2. rewrite typesOf_app.
  apply sublist_inserts_r. reflexivity.
Qed.

Lemma typed_sublist (tys : list IRType) (news : list (option SpecArtifact)) :
  Forall2 typed tys news -> typesOf news `sublist_of` tys.
Proof.
  induction 1 as [| t v tys news Hv _ IH]; [constructor |].
  destruct v as [a |]; cbn.
  - rewrite (Hv a eq_refl). apply sublist_skip. exact IH.
  - apply sublist_cons. exact IH.
Qed.

Lemma typed_types (tys : list IRType) (news : list (option SpecArtifact)) :
  Forall2 typed tys news -> Forall is_Some news -> typesOf news = tys.
Proof.
  induction 1 as [| t v tys news Hv _ IH]; intros Hsome; [reflexivity |].
  inversion Hsome as [| ? ? [a ->] Hrest]; subst. cbn.
  rewrite (Hv a eq_refl). f_equal. apply IH. exact Hrest.
Qed.

(** The list that [collect] leaves: what was there, then the produced
    artifacts up to the first [null], included. *)
Lemma collect_list (produced : list (option SpecArtifact)) :
  forall all m,
    exists k,
      (collect produced all m).1.1 = all ++ firstn k produced
      /\ ((collect produced all m).2 = true -> firstn k produced = produced).
Proof.
  induction produced as [| [a |] rest IH]; intros all m; cbn [collect].
  - exists 0%nat. cbn. rewrite app_nil_r. auto.
  - destruct (IH (all ++ [Some a]) (mapSet (irType a) (Some a) m)) as (k & Hk & Hc).
    exists (S k). cbn [firstn]. split.
    + rewrite Hk, <- app_assoc. reflexivity.
    + intros H. f_equal. auto.
  - exists 1%nat. cbn. split; [reflexivity | discriminate].
Qed.

Lemma collect_complete (produced : list (option SpecArtifact)) :
  Forall is_Some produced ->
  forall all m, (collect produced all m).1.1 = all ++ produced
                /\ (collect produced all m).2 = true.
Proof.
  induction 1 as [| v rest [a ->] _ IH]; intros all m; cbn [collect].
  - cbn. rewrite app_nil_r. auto.
  - destruct (IH (all ++ [Some a]) (mapSet (irType a) (Some a) m)) as [H1 H2].
    rewrite H1, H2, <- app_assoc. auto.
Qed.

(** Setting again the types that are filed already moves no key. *)
Lemma collect_keys (produced : list (option SpecArtifact)) :
  forall all m,
    (forall t, t ∈ typesOf produced -> t ∈ mapKeys m) ->
    mapKeys (collect produced all m).1.2 = mapKeys m.
Proof.
  induction produced as [| [a |] rest IH]; intros all m Hin; cbn [collect];
    try reflexivity.
  assert (Ha : irType a ∈ mapKeys m) by (apply Hin; cbn; constructor).
  rewrite IH.
  - apply mapKeys_mapSet_old. exact Ha.
  - intros t Ht. rewrite (mapKeys_mapSet_old _ _ _ Ha). apply Hin. cbn.
    constructor. exact Ht.
Qed.

(** *** One stage *)

Section Stages.

Variable llm : nat -> Res Js.str.
Variable clock : nat -> Z.
Variable maxFeedbackCycles : Z.

Local Abbreviation engine := (generateWithFeedbackCycle llm clock maxFeedbackCycles).
Local Abbreviation produce := (Agent.produce llm clock maxFeedbackCycles).
Local Abbreviation stages := (Pipeline.stages llm clock maxFeedbackCycles).

Lemma produce_failed agent t rest made s message :
  result (engine agent t s) = Throw message ->
  produce agent (t :: rest) made s =
  mkOut (Ok {| Spec.artifacts := made; Spec.success := false;
               Spec.error := Some message |})
        (final (engine agent t s))
        (ArtifactStart t :: emitted (engine agent t s)).
Proof.
  intros H. cbn [Agent.produce].
  unfold mbind, M_bind, bind, emit, attempt. cbn [result final emitted].
  rewrite H. cbn [result final emitted]. rewrite app_nil_r. reflexivity.
Qed.

Lemma produce_next agent t rest made s r :
  result (engine agent t s) = Ok r ->
  let next := produce agent rest (made ++ [Spec.artifact r])
                      (filed t (Spec.artifact r) (final (engine agent t s))) in
  produce agent (t :: rest) made s =
  mkOut (result next) (final next)
        (ArtifactStart t :: emitted (engine agent t s)
         ++ ArtifactComplete (Spec.artifact r) :: emitted next).
Proof.
  intros H next. subst next. cbn [Agent.produce].
  unfold mbind, M_bind, bind, emit, attempt, setPrevious, modify.
  cbn [result final emitted].
  rewrite H. cbn [result final emitted]. fold (filed t (Spec.artifact r)).
  destruct (Agent.produce _ _ _ _ _ _ _) as [[res | e] fin ev];
    cbn [result final emitted]; rewrite ?app_nil_r; reflexivity.
Qed.

(** The engine leaves the context alone, and its calls are about its
    artifact type. *)
Lemma engine_spec agent t s :
  previousArtifacts (final (engine agent t s)) = previousArtifacts s
  /\ (calls s <= calls (final (engine agent t s)))%nat
  /\ Forall (cycleEvent t (previousArtifacts s)) (emitted (engine agent t s)).
Proof.
  destruct (cycles_bounded llm clock maxFeedbackCycles agent t
              (Z.to_nat maxFeedbackCycles) 1 [] None s) as (_ & _ & H1 & H2 & H3).
  auto.
Qed.

Lemma cycleEvents_targets t context (trace : list Event) :
  Forall (cycleEvent t context) trace -> Forall (fun t' => t' = t) (targets trace).
Proof.
  induction 1 as [| e trace He _ IH]; [constructor |].
  destruct e as [| | | role agent t' c ctx h | | |]; cbn in *; try exact IH; try contradiction.
  destruct He as [-> _]. destruct role; [constructor; auto | exact IH].
Qed.

Lemma cycleEvents_fresh t context (trace : list Event) :
  t ∉ mapKeys context ->
  Forall (cycleEvent t context) trace -> Forall freshCall trace.
Proof.
  intros Hfresh. induction 1 as [| e trace He _ IH]; constructor; [| exact IH].
  destruct e; cbn in *; try exact I; try contradiction.
  destruct He as [-> ->]. exact Hfresh.
Qed.

(** What [execute] returns: the artifacts made so far followed by one
    entry for each type it got through, each filed under its type. *)
Lemma produce_spec agent irTypes :
  forall made s,
    exists ar news,
      result (produce agent irTypes made s) = Ok ar
      /\ Spec.artifacts ar = made ++ news
      /\ Forall2 typed (firstn (length news) irTypes) news
      /\ (length news <= length irTypes)%nat
      /\ (Spec.success ar = true -> length news = length irTypes)
      /\ (1 <= maxFeedbackCycles -> Forall is_Some news)
      /\ Forall (fun t => t ∈ irTypes) (targets (emitted (produce agent irTypes made s))).
Proof.
  induction irTypes as [| t rest IH]; intros made s.
  - exists {| Spec.artifacts := made; Spec.success := true; Spec.error := None |}, [].
    cbn. rewrite app_nil_r. repeat split; auto; constructor.
  - destruct (engine_spec agent t s) as (_ & _ & Hev).
    apply cycleEvents_targets in Hev.
    destruct (result (engine agent t s)) as [r | message] eqn:Hres.
    + pose proof (produce_next agent t rest made s r Hres) as Heq.
      cbn zeta in Heq. rewrite Heq. clear Heq. cbn [result final emitted].
      destruct (IH (made ++ [Spec.artifact r])
                   (filed t (Spec.artifact r) (final (engine agent t s))))
        as (ar & news & Hr & Harts & Htyped & Hlen & Hsucc & Hsome & Htargets).
      exists ar, (Spec.artifact r :: news).
      split; [exact Hr |].
      split; [rewrite Harts, <- app_assoc; reflexivity |].
      split.
      { cbn. constructor; [| exact Htyped].
        intros a Ha.
        unfold generateWithFeedbackCycle in Hres.
        destruct (Z.to_nat maxFeedbackCycles) as [| n] eqn:Hn.
        - cbn in Hres. injection Hres as <-. discriminate.
        - destruct (cycles_artifact llm clock maxFeedbackCycles agent t (S n)
                      _ _ _ _ _ Hres) as [Hpos _].
          destruct Hpos as (a' & Ha' & Ht); [lia |]. congruence. }
      split; [cbn; lia |].
      split; [intros Hs; cbn; f_equal; auto |].
      split.
      { intros Hmax. constructor; [| auto].
        unfold generateWithFeedbackCycle in Hres.
        destruct (cycles_artifact llm clock maxFeedbackCycles agent t _
                    _ _ _ _ _ Hres) as [Hpos _].
        destruct Hpos as (a' & Ha' & _); [lia |]. rewrite Ha'. eexists; reflexivity. }
      change (ArtifactStart t :: ?x ++ ArtifactComplete ?a :: ?y)
        with ([ArtifactStart t] ++ x ++ [ArtifactComplete a] ++ y).
      rewrite !targets_app. cbn [targets flat_map app].
      apply Forall_app. split.
      * eapply Forall_impl; [exact Hev |]. intros ? ->. constructor.
      * eapply Forall_impl; [exact Htargets |]. intros ? ?. constructor. assumption.
    + rewrite (produce_failed agent t rest made s message Hres).
      eexists _, []. cbn [result final emitted length firstn].
      split; [reflexivity |]. cbn [Spec.artifacts Spec.success].
      rewrite app_nil_r. repeat split; try constructor; try discriminate; try (cbn; lia).
      change (ArtifactStart t :: ?x) with ([ArtifactStart t] ++ x).
      rewrite targets_app. cbn [targets flat_map app].
      eapply Forall_impl; [exact Hev |]. intros ? ->. constructor.
Qed.

(** On types that are new to the context and differ from one another,
    every call of the stage is fresh, and a stage that succeeds has filed
    each of its types, in order. *)
Lemma produce_fresh agent irTypes :
  forall made s,
    NoDup (mapKeys (previousArtifacts s) ++ irTypes) ->
    Forall freshCall (emitted (produce agent irTypes made s))
    /\ (forall ar,
          result (produce agent irTypes made s) = Ok ar ->
          Spec.success ar = true ->
          mapKeys (previousArtifacts (final (produce agent irTypes made s)))
          = mapKeys (previousArtifacts s) ++ irTypes).
Proof.
  induction irTypes as [| t rest IH]; intros made s Hnd.
  - cbn. split; [constructor |]. intros _ _ _. rewrite app_nil_r. reflexivity.
  - assert (Hfresh : t ∉ mapKeys (previousArtifacts s)).
    { apply NoDup_app in Hnd as (_ & Hdisj & _).
      intros Hin. apply (Hdisj t Hin). constructor. }
    destruct (engine_spec agent t s) as (Hmap & _ & Hev).
    apply (cycleEvents_fresh _ _ _ Hfresh) in Hev.
    destruct (result (engine agent t s)) as [r | message] eqn:Hres.
    + pose proof (produce_next agent t rest made s r Hres) as Heq.
      cbn zeta in Heq. rewrite Heq. clear Heq. cbn [result final emitted].
      assert (Hkeys : mapKeys (previousArtifacts
                                 (filed t (Spec.artifact r) (final (engine agent t s))))
                      = mapKeys (previousArtifacts s) ++ [t]).
      { cbn [filed previousArtifacts]. rewrite Hmap.
        apply mapKeys_mapSet_new. exact Hfresh. }
      destruct (IH (made ++ [Spec.artifact r])
                   (filed t (Spec.artifact r) (final (engine agent t s))))
        as (Hf & Hk).
      { rewrite Hkeys, <- app_assoc. exact Hnd. }
      split.
      * constructor; [exact I |]. apply Forall_app. split; [exact Hev |].
        constructor; [exact I | exact Hf].
      * intros ar Har Hs. rewrite (Hk ar Har Hs), Hkeys, <- app_assoc. reflexivity.
    + rewrite (produce_failed agent t rest made s message Hres).
      cbn [result final emitted]. split.
      * constructor; [exact I | exact Hev].
      * intros ar [= <-]. discriminate.
Qed.

(** The first thing a cycle does is to call the executor. *)
Lemma engine_first_call agent t s :
  1 <= maxFeedbackCycles ->
  exists rest,
    emitted (engine agent t s)
    = FeedbackCycle 1 maxFeedbackCycles
      :: Call Executor agent t 1 (previousArtifacts s) [] :: rest.
Proof.
  intros Hmax. unfold generateWithFeedbackCycle.
  destruct (Z.to_nat maxFeedbackCycles) as [| n] eqn:Hn; [lia |].
  destruct (cycles_cases llm clock maxFeedbackCycles agent t n 1 [] None s)
    as [(m & ->) | [(m & ->) | [(g & Hg) | (g & Hg)]]].
  - eexists. reflexivity.
  - eexists. reflexivity.
  - rewrite (cycles_approved llm clock maxFeedbackCycles agent t n 1 [] None s g Hg).
    eexists. reflexivity.
  - destruct (cycles_rejected llm clock maxFeedbackCycles agent t n 1 [] None s g Hg)
      as (entry & ->).
    eexists. reflexivity.
Qed.

Lemma produce_first_target agent t rest made s :
  1 <= maxFeedbackCycles ->
  hd_error (targets (emitted (produce agent (t :: rest) made s))) = Some t.
Proof.
  intros Hmax. destruct (engine_first_call agent t s Hmax) as (tail & Hev).
  destruct (result (engine agent t s)) as [r | message] eqn:Hres.
  - pose proof (produce_next agent t rest made s r Hres) as Heq.
    cbn zeta in Heq. rewrite Heq. cbn [emitted]. rewrite Hev. reflexivity.
  - rewrite (produce_failed agent t rest made s message Hres).
    cbn [emitted]. rewrite Hev. reflexivity.
Qed.

(** When the model always responds, the loop returns, whatever the
    reviewer says. *)
Lemma cycles_returns agent t n :
  alwaysResponds llm ->
  forall cycle history artifact s,
    exists r,
      result (Agent.cycles llm clock maxFeedbackCycles agent t n cycle history artifact s)
      = Ok r.
Proof.
  intros Hllm. induction n as [| n IH]; intros cycle history artifact s.
  - eexists. reflexivity.
  - destruct (Hllm (calls s)) as (g & Hg). destruct (Hllm (S (calls s))) as (r & Hr).
    destruct (Prompts.approved (Prompts.parseReviewResult r)) eqn:Happ.
    + rewrite (cycles_approved llm clock maxFeedbackCycles agent t n cycle history
                 artifact s g); [eexists; reflexivity |].
      split; [exact Hg |]. eauto.
    + destruct (cycles_rejected llm clock maxFeedbackCycles agent t n cycle history
                  artifact s g) as (entry & ->).
      { split; [exact Hg |]. eauto. }
      cbn [result]. apply IH.
Qed.

Lemma produce_succeeds agent irTypes :
  alwaysResponds llm ->
  forall made s ar,
    result (produce agent irTypes made s) = Ok ar -> Spec.success ar = true.
Proof.
  intros Hllm. induction irTypes as [| t rest IH]; intros made s ar Har.
  - cbn in Har. injection Har as <-. reflexivity.
  - destruct (cycles_returns agent t (Z.to_nat maxFeedbackCycles) Hllm 1 [] None s)
      as (r & Hr).
    pose proof (produce_next agent t rest made s r Hr) as Heq.
    cbn zeta in Heq. rewrite Heq in Har. cbn [result] in Har.
    apply (IH _ _ _ Har).
Qed.

(** *** The loop over the stages *)

Local Abbreviation execute := (Agent.execute llm clock maxFeedbackCycles).

Lemma stages_agent_failed agent rest i all s ar :
  result (execute agent s) = Ok ar ->
  Spec.success ar = false ->
  stages (agent :: rest) i all s =
  mkOut (Ok {| success := false; artifacts := all; error := Spec.error ar |})
        (final (execute agent s))
        (StageStart (i + 1) agent :: emitted (execute agent s)
         ++ [Error (Js.orElse (default [] (Spec.error ar))
                              (Js.lit "Agent execution failed"))]).
Proof.
  intros Har Hs. cbn [Pipeline.stages].
  unfold mbind, M_bind, bind, emit, attempt. cbn [result final emitted].
  rewrite Har. cbn [result final emitted]. rewrite Hs. cbn [negb result final emitted].
  rewrite !app_nil_r. reflexivity.
Qed.

Lemma stages_null_artifact agent rest i all s ar :
  result (execute agent s) = Ok ar ->
  Spec.success ar = true ->
  (collect (Spec.artifacts ar) all (previousArtifacts (final (execute agent s)))).2 = false ->
  stages (agent :: rest) i all s =
  mkOut (Ok {| success := false;
               artifacts := (collect (Spec.artifacts ar) all
                               (previousArtifacts (final (execute agent s)))).1.1;
               error := Some nullIrTypeError |})
        (collected (Spec.artifacts ar) all (final (execute agent s)))
        (StageStart (i + 1) agent :: emitted (execute agent s)
         ++ [Error nullIrTypeError]).
Proof.
  intros Har Hs Hc. cbn [Pipeline.stages].
  unfold mbind, M_bind, bind, emit, get, modify, attempt. cbn [result final emitted].
  rewrite Har. cbn [result final emitted]. rewrite Hs. cbn [negb result final emitted].
  unfold collected.
  destruct (collect _ _ _) as [[all' m] completed]. cbn in Hc. subst completed.
  cbn [result final emitted fst snd]. rewrite !app_nil_r. reflexivity.
Qed.

Lemma stages_next agent rest i all s ar :
  result (execute agent s) = Ok ar ->
  Spec.success ar = true ->
  (collect (Spec.artifacts ar) all (previousArtifacts (final (execute agent s)))).2 = true ->
  let next := stages rest (S i)
                     (collect (Spec.artifacts ar) all
                        (previousArtifacts (final (execute agent s)))).1.1
                     (collected (Spec.artifacts ar) all (final (execute agent s))) in
  stages (agent :: rest) i all s =
  mkOut (result next) (final next)
        (StageStart (i + 1) agent :: emitted (execute agent s)
         ++ StageComplete (i + 1) agent (Spec.artifacts ar) :: emitted next).
Proof.
  intros Har Hs Hc next. subst next. cbn [Pipeline.stages].
  unfold mbind, M_bind, bind, emit, get, modify, attempt. cbn [result final emitted].
  rewrite Har. cbn [result final emitted]. rewrite Hs. cbn [negb result final emitted].
  unfold collected.
  destruct (collect _ _ _) as [[all' m] completed]. cbn in Hc. subst completed.
  cbn [result final emitted fst snd].
  destruct (Pipeline.stages _ _ _ _ _ _ _) as [[res | e] fin ev];
    cbn [result final emitted]; rewrite ?app_nil_r; reflexivity.
Qed.

(** What a stage returns, ready for the three cases of the loop. *)
Lemma execute_spec agent s :
  exists ar,
    result (execute agent s) = Ok ar
    /\ (Spec.success ar = true -> Forall2 typed (getOutputIRTypes agent) (Spec.artifacts ar))
    /\ (1 <= maxFeedbackCycles -> Forall is_Some (Spec.artifacts ar))
    /\ Forall (fun t => t ∈ getOutputIRTypes agent) (targets (emitted (execute agent s))).
Proof.
  unfold Agent.execute.
  destruct (produce_spec agent (getOutputIRTypes agent) [] s)
    as (ar & news & Har & Harts & Htyped & _ & Hsucc & Hsome & Htargets).
  cbn [app] in Harts. rewrite <- Harts in *.
  exists ar. repeat split; try assumption.
  intros Hs. rewrite (Hsucc Hs), firstn_all in Htyped. exact Htyped.
Qed.

Lemma targets_stage (i : nat) agent (a b : list Event) :
  targets (StageStart i agent :: a ++ b) = targets a ++ targets b.
Proof. cbn [targets flat_map app]. apply targets_app. Qed.

(** The loop over the stages never rejects. What it returns is the list it
    started from followed by artifacts of the declared types of its stages,
    in their order; its generate calls are about these types only. *)
Lemma stages_spec agents :
  forall i all s,
    exists pr extra,
      result (stages agents i all s) = Ok pr
      /\ artifacts pr = all ++ extra
      /\ typesOf extra `sublist_of` flat_map getOutputIRTypes agents
      /\ Forall (fun t => t ∈ flat_map getOutputIRTypes agents)
                (targets (emitted (stages agents i all s))).
Proof.
  induction agents as [| agent rest IH]; intros i all s.
  - eexists _, []. cbn. rewrite app_nil_r. repeat split; constructor.
  - destruct (execute_spec agent s) as (ar & Har & Htyped & _ & Htargets).
    assert (Hleft : Forall (fun t => t ∈ flat_map getOutputIRTypes (agent :: rest))
                           (targets (emitted (execute agent s)))).
    { eapply Forall_impl; [exact Htargets |]. intros t Ht. cbn.
      apply elem_of_app. left. exact Ht. }
    destruct (Spec.success ar) eqn:Hs.
    + specialize (Htyped eq_refl). apply typed_sublist in Htyped.
      destruct (collect_list (Spec.artifacts ar) all
                  (previousArtifacts (final (execute agent s)))) as (k & Hk & Hall).
      destruct (collect (Spec.artifacts ar) all
                  (previousArtifacts (final (execute agent s)))).2 eqn:Hc.
      * pose proof (stages_next agent rest i all s ar Har Hs Hc) as Heq.
        cbn zeta in Heq. rewrite Heq. clear Heq. cbn [result final emitted].
        destruct (IH (S i)
                     (collect (Spec.artifacts ar) all
                        (previousArtifacts (final (execute agent s)))).1.1
                     (collected (Spec.artifacts ar) all (final (execute agent s))))
          as (pr & extra & Hpr & Harts & Hsub & Htg).
        exists pr, (Spec.artifacts ar ++ extra).
        split; [exact Hpr |].
        split; [rewrite Harts, Hk, (Hall eq_refl), <- app_assoc; reflexivity |].
        split; [rewrite typesOf_app; cbn; apply sublist_app; assumption |].
        change (StageComplete ?j ?a ?p :: ?y) with ([StageComplete j a p] ++ y).
        rewrite targets_stage, targets_app. cbn [targets flat_map app].
        apply Forall_app. split; [exact Hleft |].
        eapply Forall_impl; [exact Htg |]. intros t Ht. cbn.
        apply elem_of_app. right. exact Ht.
      * rewrite (stages_null_artifact agent rest i all s ar Har Hs Hc).
        cbn [result final emitted].
        eexists _, (firstn k (Spec.artifacts ar)).
        split; [reflexivity |]. cbn [artifacts].
        split; [exact Hk |].
        split.
        { cbn. apply sublist_inserts_r.
          etransitivity; [apply typesOf_firstn | exact Htyped]. }
        rewrite targets_stage. cbn [targets flat_map app]. rewrite app_nil_r.
        exact Hleft.
    + rewrite (stages_agent_failed agent rest i all s ar Har Hs).
      cbn [result final emitted]. eexists _, [].
      split; [reflexivity |]. cbn [artifacts]. rewrite app_nil_r.
      split; [reflexivity |].
      split; [apply sublist_nil_l |].
      rewrite targets_stage. cbn [targets flat_map app]. rewrite app_nil_r.
      exact Hleft.
Qed.

(** From a context whose types are new to the stages ahead, every call of
    the loop is fresh. *)
Lemma stages_fresh agents :
  forall i all s,
    NoDup (mapKeys (previousArtifacts s) ++ flat_map getOutputIRTypes agents) ->
    Forall freshCall (emitted (stages agents i all s)).
Proof.
  induction agents as [| agent rest IH]; intros i all s Hnd; [constructor |].
  cbn [flat_map] in Hnd. rewrite app_assoc in Hnd.
  assert (Hnd1 : NoDup (mapKeys (previousArtifacts s) ++ getOutputIRTypes agent)).
  { apply NoDup_app in Hnd as (H & _ & _). exact H. }
  destruct (produce_fresh agent (getOutputIRTypes agent) [] s Hnd1) as (Hfresh & Hkeys).
  fold (execute agent s) in Hfresh, Hkeys.
  destruct (execute_spec agent s) as (ar & Har & Htyped & _ & _).
  destruct (Spec.success ar) eqn:Hs.
  - specialize (Htyped eq_refl). apply typed_sublist in Htyped.
    specialize (Hkeys ar Har Hs).
    destruct (collect (Spec.artifacts ar) all
                (previousArtifacts (final (execute agent s)))).2 eqn:Hc.
    + pose proof (stages_next agent rest i all s ar Har Hs Hc) as Heq.
      cbn zeta in Heq. rewrite Heq. clear Heq. cbn [emitted].
      constructor; [exact I |]. apply Forall_app. split; [exact Hfresh |].
      constructor; [exact I |]. apply IH.
      cbn [collected previousArtifacts]. rewrite collect_keys.
      * rewrite Hkeys. exact Hnd.
      * intros t Ht. rewrite Hkeys. apply elem_of_app. right.
        eapply elem_of_sublist; eassumption.
    + rewrite (stages_null_artifact agent rest i all s ar Har Hs Hc). cbn [emitted].
      constructor; [exact I |]. apply Forall_app. split; [exact Hfresh |].
      repeat constructor.
  - rewrite (stages_agent_failed agent rest i all s ar Har Hs). cbn [emitted].
    constructor; [exact I |]. apply Forall_app. split; [exact Hfresh |].
    repeat constructor.
Qed.

(** When the model always responds and the budget is positive, the loop
    completes every stage, whatever the reviewer says. *)
Lemma stages_total agents :
  alwaysResponds llm -> 1 <= maxFeedbackCycles ->
  forall i all s,
    exists pr news,
      result (stages agents i all s) = Ok pr
      /\ success pr = true
      /\ error pr = None
      /\ artifacts pr = all ++ news
      /\ Forall is_Some news
      /\ typesOf news = flat_map getOutputIRTypes agents.
Proof.
  intros Hllm Hmax. induction agents as [| agent rest IH]; intros i all s.
  - eexists _, []. cbn. rewrite app_nil_r. repeat split; constructor.
  - destruct (execute_spec agent s) as (ar & Har & Htyped & Hsome & _).
    pose proof (produce_succeeds agent (getOutputIRTypes agent) Hllm [] s ar Har) as Hs.
    specialize (Htyped Hs). specialize (Hsome Hmax).
    destruct (collect_complete (Spec.artifacts ar) Hsome all
                (previousArtifacts (final (execute agent s)))) as [Hall Hc].
    pose proof (stages_next agent rest i all s ar Har Hs Hc) as Heq.
    cbn zeta in Heq. rewrite Heq. clear Heq. cbn [result].
    destruct (IH (S i)
                 (collect (Spec.artifacts ar) all
                    (previousArtifacts (final (execute agent s)))).1.1
                 (collected (Spec.artifacts ar) all (final (execute agent s))))
      as (pr & news & Hpr & Hok & Herr & Harts & Hsn & Hty).
    exists pr, (Spec.artifacts ar ++ news).
    split; [exact Hpr |]. split; [exact Hok |]. split; [exact Herr |].
    split; [rewrite Harts, Hall, <- app_assoc; reflexivity |].
    split; [apply Forall_app; auto |].
    rewrite typesOf_app, Hty, (typed_types _ _ Htyped Hsome). reflexivity.
Qed.

(** The first generate call of the loop is about the first declared type
    of its first stage. *)
Lemma stages_first_target agent rest i all s t ts :
  1 <= maxFeedbackCycles ->
  getOutputIRTypes agent = t :: ts ->
  hd_error (targets (emitted (stages (agent :: rest) i all s))) = Some t.
Proof.
  intros Hmax Hout.
  assert (Hhd : exists tl, targets (emitted (execute agent s)) = t :: tl).
  { pose proof (produce_first_target agent t ts [] s Hmax) as H.
    unfold Agent.execute. rewrite Hout.
    destruct (targets _) as [| t' tl]; [discriminate |].
    injection H as ->. eauto. }
  destruct Hhd as (tl & Hhd).
  destruct (execute_spec agent s) as (ar & Har & _).
  destruct (Spec.success ar) eqn:Hs.
  - destruct (collect (Spec.artifacts ar) all
                (previousArtifacts (final (execute agent s)))).2 eqn:Hc.
    + pose proof (stages_next agent rest i all s ar Har Hs Hc) as Heq.
      cbn zeta in Heq. rewrite Heq. cbn [emitted].
      rewrite targets_stage, Hhd. reflexivity.
    + rewrite (stages_null_artifact agent rest i all s ar Har Hs Hc). cbn [emitted].
      rewrite targets_stage, Hhd. reflexivity.
  - rewrite (stages_agent_failed agent rest i all s ar Har Hs). cbn [emitted].
    rewrite targets_stage, Hhd. reflexivity.
Qed.

End Stages.

End PipelineFacts.

(** ** Resuming, and the artifact types of a run *)

Module ResumeFacts.
Import Spec Agent Pipeline AgentFacts PipelineFacts.

Lemma outputs_distinct : NoDup (flat_map getOutputIRTypes AGENT_ORDER).
Proof. apply (bool_decide_unpack _). vm_compute. exact I. Qed.

Lemma getOutputIRTypes_AGENT_OUTPUTS (agent : AgentType) :
  getOutputIRTypes agent = AGENT_OUTPUTS agent.
Proof. destruct agent; reflexivity. Qed.

Lemma outputs_split (n : nat) :
  outputsBefore n ++ outputsFrom n = flat_map getOutputIRTypes AGENT_ORDER.
Proof.
  unfold outputsBefore, outputsFrom. rewrite <- flat_map_app, firstn_skipn. reflexivity.
Qed.

(** A type of an earlier stage is no type of a later one. *)
Lemma outputs_disjoint (n : nat) (t : IRType) :
  t ∈ outputsBefore n -> t ∉ outputsFrom n.
Proof.
  pose proof outputs_distinct as H. rewrite <- (outputs_split n) in H.
  apply NoDup_app in H as (_ & Hdisj & _). apply Hdisj.
Qed.

Section Runs.

Variable llm : nat -> Res Js.str.
Variable clock : nat -> Z.
Variable maxFeedbackCycles : Z.

Local Abbreviation execute := (Pipeline.execute llm clock maxFeedbackCycles).
Local Abbreviation resume := (Pipeline.resume llm clock maxFeedbackCycles).

(** [execute] is the loop over the stages from [startFromStage] on, run
    on a copy of the existing artifacts. *)
Lemma execute_stages (startFromStage : nat) (existing : option ArtifactMap) (s : Run) :
  execute startFromStage existing s =
  Pipeline.stages llm clock maxFeedbackCycles
    (skipn startFromStage AGENT_ORDER) startFromStage
    (mapValues (default [] existing))
    {| calls := calls s; previousArtifacts := default [] existing |}.
Proof.
  unfold Pipeline.execute, mbind, M_bind, bind, modify. cbn [result final emitted].
  destruct (Pipeline.stages _ _ _ _ _ _ _) as [[pr | e] fin ev]; reflexivity.
Qed.

Lemma resume_stages (n : nat) (persisted : list SpecArtifact) (s : Run) :
  resume n persisted s =
  Pipeline.stages llm clock maxFeedbackCycles (skipn n AGENT_ORDER) n
    (mapValues (previousArtifactsOf persisted))
    {| calls := calls s; previousArtifacts := previousArtifactsOf persisted |}.
Proof. unfold Pipeline.resume. rewrite execute_stages. reflexivity. Qed.

(** The generate calls of a resumed run are about types of the stages from
    the resume index on. *)
Lemma resume_targets (n : nat) (persisted : list SpecArtifact) (s : Run) :
  Forall (fun t => t ∈ outputsFrom n) (targets (emitted (resume n persisted s))).
Proof.
  rewrite resume_stages.
  destruct (stages_spec llm clock maxFeedbackCycles (skipn n AGENT_ORDER) n
              (mapValues (previousArtifactsOf persisted))
              {| calls := calls s; previousArtifacts := previousArtifactsOf persisted |})
    as (pr & extra & _ & _ & _ & H).
  exact H.
Qed.

Lemma resume_first_target (n : nat) (persisted : list SpecArtifact) (s : Run)
    (agent : AgentType) :
  1 <= maxFeedbackCycles ->
  nth_error AGENT_ORDER n = Some agent ->
  hd_error (targets (emitted (resume n persisted s))) = hd_error (getOutputIRTypes agent).
Proof.
  intros Hmax Hn. rewrite resume_stages.
  assert (Hskip : skipn n AGENT_ORDER = agent :: skipn (S n) AGENT_ORDER).
  { do 6 (destruct n as [| n]; [injection Hn as <-; reflexivity |]). destruct n; discriminate. }
  rewrite Hskip.
  destruct (getOutputIRTypes agent) as [| t ts] eqn:Hout; [destruct agent; discriminate |].
  cbn [hd_error].
  apply (stages_first_target llm clock maxFeedbackCycles agent _ n _ _ t ts Hmax Hout).
Qed.

(** When the persisted artifacts belong to stages before the resume index,
    the context and the list the run starts from hold each type once, and
    none of them is a type of the stages ahead. *)
Lemma resume_point_distinct (n : nat) (persisted : list SpecArtifact) :
  (forall a, a ∈ persisted -> irType a ∈ outputsBefore n) ->
  NoDup (mapKeys (previousArtifactsOf persisted) ++ outputsFrom n)
  /\ typesOf (mapValues (previousArtifactsOf persisted))
     = mapKeys (previousArtifactsOf persisted).
Proof.
  intros Hearlier.
  destruct (previousArtifactsOf_spec persisted) as (Hnd & Hcons & Hkeys).
  split; [| apply consistent_types; exact Hcons].
  apply NoDup_app. split; [exact Hnd |]. split.
  - intros t Ht. apply outputs_disjoint.
    specialize (Hkeys t Ht). apply list_elem_of_fmap in Hkeys as (a & -> & Ha).
    apply Hearlier. exact Ha.
  - pose proof outputs_distinct as H. rewrite <- (outputs_split n) in H.
    apply NoDup_app in H as (_ & _ & H). exact H.
Qed.

End Runs.

(** [Pipeline.execute] on its own, whatever it is handed: started at stage
    index [n] it issues generate calls for declared types of the stages
    from [n] on only; with a positive cycle budget its first generate call
    is about the first declared type of stage [n]. So it issues no generate
    call for an artifact of an earlier stage. *)
Lemma execute_targets_from_stage_index
    (llm : nat -> Res Js.str) (clock : nat -> Z) (maxFeedbackCycles : Z)
    (n : nat) (persisted : list SpecArtifact) (s : Run) :
  Forall (fun t => t ∈ outputsFrom n)
         (targets (emitted (resume llm clock maxFeedbackCycles n persisted s)))
  /\ (1 <= maxFeedbackCycles ->
      forall agent, nth_error AGENT_ORDER n = Some agent ->
        hd_error (targets (emitted (resume llm clock maxFeedbackCycles n persisted s)))
        = hd_error (getOutputIRTypes agent))
  /\ (forall a, a ∈ persisted -> irType a ∈ outputsBefore n ->
        irType a ∉ targets (emitted (resume llm clock maxFeedbackCycles n persisted s))).
Proof.
  split; [apply resume_targets |].
  split; [intros Hmax agent Hn; apply resume_first_target; assumption |].
  intros a _ Hbefore Hin.
  pose proof (resume_targets llm clock maxFeedbackCycles n persisted s) as H.
  rewrite Forall_forall in H.
  apply (outputs_disjoint n (irType a) Hbefore). apply H. exact Hin.
Qed.

Example execute_targets_from_stage_index_at_architect :
  hd_error (targets (emitted Scenario.resumedAtArchitect)) = Some module
  /\ contract ∉ targets (emitted Scenario.resumedAtArchitect).
Proof.
  split.
  - exact (proj1 (proj2 (execute_targets_from_stage_index
                           Scenario.alwaysApproved Scenario.wallClock 3 1
                           [Scenario.persistedContract; Scenario.persistedModule]
                           (mkRun 0 [])))
                 ltac:(lia) architect eq_refl).
  - apply (proj2 (proj2 (execute_targets_from_stage_index
                           Scenario.alwaysApproved Scenario.wallClock 3 1
                           [Scenario.persistedContract; Scenario.persistedModule]
                           (mkRun 0 [])))
                 Scenario.persistedContract).
    + constructor.
    + constructor.
Defined.

(** [Pipeline.execute] does not look at what it is handed: started at the
    architect stage with a module artifact among the existing ones, which
    no checkpoint of the orchestrator holds at that index (see
    [OrchestratorFacts.written_inOrder]), its first generate call is for the
    module artifact. *)
Remark execute_does_not_check_existing :
  List.map irType [Scenario.persistedContract; Scenario.persistedModule]
  = [contract; module]
  /\ targets (emitted Scenario.resumedAtArchitect)
     = [module; infrastructure; data; decisions; tasks;
        types; events; interface; function; tests; pipeline]
  /\ firstMissing 1 [Scenario.persistedContract; Scenario.persistedModule]
     = Some infrastructure
  /\ hd_error (targets (emitted Scenario.resumedAtArchitect))
     <> firstMissing 1 [Scenario.persistedContract; Scenario.persistedModule].
Proof. repeat split; vm_compute; congruence. Qed.

(** [Pipeline.execute] started from artifacts of stages before its start
    index (none, for a fresh run): no call is about a type that the context
    already holds, and the artifact list it ends with holds no type twice. *)
Lemma execute_types_unique
    (llm : nat -> Res Js.str) (clock : nat -> Z) (maxFeedbackCycles : Z)
    (n : nat) (persisted : list SpecArtifact) (s : Run) :
  (forall a, a ∈ persisted -> irType a ∈ outputsBefore n) ->
  Forall freshCall (emitted (resume llm clock maxFeedbackCycles n persisted s))
  /\ NoDup (typesOf (finalArtifacts (resume llm clock maxFeedbackCycles n persisted s))).
Proof.
  intros Hearlier.
  destruct (resume_point_distinct n persisted Hearlier) as (Hnd & Htypes).
  unfold finalArtifacts. rewrite resume_stages.
  split.
  - apply stages_fresh. exact Hnd.
  - destruct (stages_spec llm clock maxFeedbackCycles (skipn n AGENT_ORDER) n
                (mapValues (previousArtifactsOf persisted))
                {| calls := calls s; previousArtifacts := previousArtifactsOf persisted |})
      as (pr & extra & -> & -> & Hsub & _).
    rewrite typesOf_app, Htypes.
    eapply sublist_NoDup; [exact Hnd |].
    apply sublist_app; [reflexivity | exact Hsub].
Qed.

Example execute_types_unique_at_architect :
  NoDup (typesOf (finalArtifacts
                    (resume Scenario.neverApproved Scenario.wallClock 3 1
                            [Scenario.persistedContract] (mkRun 0 []))))
  /\ NoDup (typesOf (finalArtifacts
                       (resume Scenario.thirdTimeLucky Scenario.wallClock 3 0 []
                               (mkRun 0 [])))).
Proof.
  split.
  - apply (execute_types_unique Scenario.neverApproved Scenario.wallClock 3 1
             [Scenario.persistedContract] (mkRun 0 [])).
    intros a Ha. apply list_elem_of_singleton in Ha. subst a. constructor.
  - apply (execute_types_unique Scenario.thirdTimeLucky Scenario.wallClock 3 0 []
             (mkRun 0 [])).
    intros a Ha. inversion Ha.
Defined.

(** The condition of [execute_types_unique] is needed: started at the
    architect stage with a module artifact among the existing ones, the
    fourth event is the generate call for the module artifact, made while
    the context holds one, and the list at the end holds two artifacts of
    type module. *)
Remark execute_needs_earlier_artifacts :
  (exists context,
     nth_error (emitted Scenario.resumedAtArchitect) 3
     = Some (Call Executor architect module 1 context [])
     /\ module ∈ mapKeys context)
  /\ typesOf (finalArtifacts Scenario.resumedAtArchitect)
     = [contract; module; module; infrastructure; data; decisions; tasks;
        types; events; interface; function; tests; pipeline]
  /\ ~ NoDup (typesOf (finalArtifacts Scenario.resumedAtArchitect)).
Proof.
  split; [| split].
  - eexists. split; [vm_compute; reflexivity |]. cbn. right. left.
  - vm_compute. reflexivity.
  - intros H. apply (bool_decide_pack _) in H. vm_compute in H. exact H.
Qed.

End ResumeFacts.

(** ** A budget that runs out *)

Module BudgetFacts.
Import Spec Agent Pipeline Budget AgentFacts PipelineFacts ResumeFacts.

Section Exhaustion.

Variable llm : nat -> Res Js.str.
Variable clock : nat -> Z.
Variable maxFeedbackCycles : Z.

Local Abbreviation cycles := (Agent.cycles llm clock maxFeedbackCycles).
Local Abbreviation engine := (generateWithFeedbackCycle llm clock maxFeedbackCycles).
Local Abbreviation produce := (Agent.produce llm clock maxFeedbackCycles).
Local Abbreviation execute := (Agent.execute llm clock maxFeedbackCycles).
Local Abbreviation stages := (Pipeline.stages llm clock maxFeedbackCycles).

(** The loop on a reviewer that rejects all the generations left: what it
    returns and where it leaves the run. *)
Lemma cycles_exhausted_exact agent t (n : nat) :
  forall cycle history artifact s g,
    (1 <= n)%nat ->
    rejectsAllCycles llm (calls s) n g ->
    exists history',
      result (cycles agent t n cycle history artifact s)
      = Ok {| Spec.artifact := Some (bestEffort clock agent t n g (calls s));
              cyclesUsed := maxFeedbackCycles; approved := false;
              feedbackHistory := history' |}
      /\ length history' = (length history + n)%nat
      /\ final (cycles agent t n cycle history artifact s) = exhausted n s.
Proof.
  induction n as [| n IH]; intros cycle history artifact s g Hn [Hrej Hlast]; [lia |].
  destruct n as [| n].
  - cbn in Hlast. rewrite Nat.add_0_r in Hlast.
    destruct (cycles_rejected llm clock maxFeedbackCycles agent t 0 cycle history
                artifact s g Hlast) as (entry & Heq).
    cbn zeta in Heq. rewrite Heq. clear Heq. cbn [Agent.cycles result final ret].
    exists (history ++ [entry]). unfold ret, M_ret, Eff.ret. cbn [result final].
    split; [| split].
    + unfold bestEffort, cycleArtifact.
      replace (calls s + 2 * (1 - 1) + 1)%nat with (S (calls s)) by lia. reflexivity.
    + rewrite length_app. reflexivity.
    + unfold exhausted, afterCycle. f_equal. lia.
  - destruct (Hrej 0%nat) as (g0 & Hg0); [lia |].
    rewrite Nat.mul_0_r, Nat.add_0_r in Hg0.
    destruct (cycles_rejected llm clock maxFeedbackCycles agent t (S n) cycle history
                artifact s g0 Hg0) as (entry & Heq).
    cbn zeta in Heq. rewrite Heq. clear Heq. cbn [result final].
    destruct (IH (cycle + 1) (history ++ [entry])
                 (Some (cycleArtifact clock agent t g0 s)) (afterCycle s) g)
      as (history' & Hres & Hlen & Hfin).
    + lia.
    + split.
      * intros j Hj. destruct (Hrej (S j)) as (g' & Hg'); [lia |].
        exists g'. cbn [calls afterCycle].
        replace (S (S (calls s)) + 2 * j)%nat with (calls s + 2 * S j)%nat by lia.
        exact Hg'.
      * cbn [calls afterCycle].
        replace (S (S (calls s)) + 2 * (S n - 1))%nat
          with (calls s + 2 * (S (S n) - 1))%nat by lia.
        exact Hlast.
    + exists history'. rewrite Hres, Hfin, Hlen. split; [| split].
      * unfold bestEffort. cbn [calls afterCycle].
        replace (S (S (calls s)) + 2 * (S n - 1) + 1)%nat
          with (calls s + 2 * (S (S n) - 1) + 1)%nat by lia.
        reflexivity.
      * rewrite length_app. cbn. lia.
      * unfold exhausted. cbn [calls afterCycle previousArtifacts]. f_equal. lia.
Qed.

Lemma engine_exhausted agent t s g :
  1 <= maxFeedbackCycles ->
  rejectsAllCycles llm (calls s) (Z.to_nat maxFeedbackCycles) g ->
  exists history,
    result (engine agent t s)
    = Ok {| Spec.artifact :=
              Some (bestEffort clock agent t (Z.to_nat maxFeedbackCycles) g (calls s));
            cyclesUsed := maxFeedbackCycles; approved := false;
            feedbackHistory := history |}
    /\ length history = Z.to_nat maxFeedbackCycles
    /\ final (engine agent t s) = exhausted (Z.to_nat maxFeedbackCycles) s.
Proof.
  intros Hmax Hrej. unfold generateWithFeedbackCycle.
  destruct (cycles_exhausted_exact agent t (Z.to_nat maxFeedbackCycles) 1 [] None s g)
    as (history & H1 & H2 & H3); [lia | exact Hrej |].
  exists history. auto.
Qed.

(** The stage files the artifact and goes on with the types that are
    left. *)
Lemma produce_exhausted agent t rest made s g :
  1 <= maxFeedbackCycles ->
  rejectsAllCycles llm (calls s) (Z.to_nat maxFeedbackCycles) g ->
  let best := bestEffort clock agent t (Z.to_nat maxFeedbackCycles) g (calls s) in
  let next := produce agent rest (made ++ [Some best])
                      (filed t (Some best) (exhausted (Z.to_nat maxFeedbackCycles) s)) in
  produce agent (t :: rest) made s
  = mkOut (result next) (final next)
          (ArtifactStart t :: emitted (engine agent t s)
           ++ ArtifactComplete (Some best) :: emitted next).
Proof.
  intros Hmax Hrej.
  destruct (engine_exhausted agent t s g Hmax Hrej) as (history & Hres & _ & Hfin).
  pose proof (produce_next llm clock maxFeedbackCycles agent t rest made s _ Hres) as Heq.
  cbn zeta in Heq |- *. cbn [Spec.artifact] in Heq. rewrite Hfin in Heq. exact Heq.
Qed.

(** The pipeline takes the artifacts of a stage that has not failed and
    goes on with the next stage. *)
Lemma stages_continue agent rest i all s ar :
  1 <= maxFeedbackCycles ->
  result (execute agent s) = Ok ar ->
  Spec.success ar = true ->
  let next := stages rest (S i) (all ++ Spec.artifacts ar)
                     (collected (Spec.artifacts ar) all (final (execute agent s))) in
  stages (agent :: rest) i all s
  = mkOut (result next) (final next)
          (StageStart (i + 1) agent :: emitted (execute agent s)
           ++ StageComplete (i + 1) agent (Spec.artifacts ar) :: emitted next).
Proof.
  intros Hmax Hr Hsucc.
  destruct (execute_spec llm clock maxFeedbackCycles agent s) as (ar' & Hr' & _ & Hsome & _).
  rewrite Hr in Hr'. injection Hr' as <-. specialize (Hsome Hmax).
  destruct (collect_complete (Spec.artifacts ar) Hsome all
              (previousArtifacts (final (execute agent s)))) as [Hall Hdone].
  pose proof (stages_next llm clock maxFeedbackCycles agent rest i all s ar Hr Hsucc Hdone)
    as Heq.
  cbn zeta in Heq |- *. rewrite Hall in Heq. exact Heq.
Qed.

Lemma neverApprovesFrom_later (answers : nat -> Js.str) (c m : nat) :
  neverApprovesFrom llm answers c -> neverApprovesFrom llm answers (c + 2 * m).
Proof.
  intros H j. replace (c + 2 * m + 2 * j)%nat with (c + 2 * (m + j))%nat by lia. apply H.
Qed.

Lemma neverApprovesFrom_exhausts (answers : nat -> Js.str) (c n : nat) :
  (1 <= n)%nat ->
  neverApprovesFrom llm answers c ->
  rejectsAllCycles llm c n (answers (c + 2 * (n - 1))%nat).
Proof.
  intros Hn H. split; [| apply H].
  intros j _. exists (answers (c + 2 * j)%nat). apply H.
Qed.

Lemma bestEfforts_app (answers : nat -> Js.str) (n : nat)
    (l1 l2 : list (AgentType * IRType)) :
  forall c,
    bestEfforts clock n answers c (l1 ++ l2)
    = bestEfforts clock n answers c l1
      ++ bestEfforts clock n answers (c + 2 * n * length l1) l2.
Proof.
  induction l1 as [| [agent t] l1 IH]; intros c.
  - cbn. rewrite Nat.mul_0_r, Nat.add_0_r. reflexivity.
  - cbn [app bestEfforts length]. rewrite IH. do 3 f_equal. lia.
Qed.

(** A stage on a reviewer that never approves. *)
Lemma produce_never_approved (answers : nat -> Js.str) agent types :
  1 <= maxFeedbackCycles ->
  forall made s,
    neverApprovesFrom llm answers (calls s) ->
    let n := Z.to_nat maxFeedbackCycles in
    let out := produce agent types made s in
    result out
    = Ok {| Spec.artifacts :=
              made ++ List.map Some (bestEfforts clock n answers (calls s)
                                                 (List.map (pair agent) types));
            Spec.success := true; Spec.error := None |}
    /\ calls (final out) = (calls s + 2 * n * length types)%nat
    /\ generateCalls (emitted out) = (n * length types)%nat
    /\ reviewCalls (emitted out) = (n * length types)%nat.
Proof.
  intros Hmax. induction types as [| t rest IH]; intros made s Hnever; cbv zeta.
  - cbn. rewrite app_nil_r, Nat.mul_0_r, Nat.add_0_r. repeat split; lia.
  - set (n := Z.to_nat maxFeedbackCycles) in *.
    assert (Hn : (1 <= n)%nat) by (unfold n; lia).
    pose proof (neverApprovesFrom_exhausts answers (calls s) n Hn Hnever) as Hrej.
    pose proof (produce_exhausted agent t rest made s _ Hmax Hrej) as Heq.
    cbn zeta in Heq. fold n in Heq. rewrite Heq. clear Heq.
    cbn [result final emitted].
    destruct (cycles_exhausted llm clock maxFeedbackCycles agent t n 1 [] None s _
                Hn Hrej) as (r & a & _ & _ & _ & _ & _ & _ & _ & _ & Hgen & Hrev & _).
    change (generateCalls (emitted (engine agent t s)) = n) in Hgen.
    change (reviewCalls (emitted (engine agent t s)) = n) in Hrev.
    set (best := bestEffort clock agent t n (answers (calls s + 2 * (n - 1))%nat)
                            (calls s)) in *.
    destruct (IH (made ++ [Some best]) (filed t (Some best) (exhausted n s)))
      as (Hres & Hcalls & Hg & Hr).
    { cbn [calls filed exhausted]. apply neverApprovesFrom_later. exact Hnever. }
    cbv zeta in Hres, Hcalls, Hg, Hr. fold n in Hres, Hcalls, Hg, Hr.
    rewrite Hres, Hcalls. cbn [calls filed exhausted List.map bestEfforts length].
    fold best. rewrite <- app_assoc. cbn [app].
    split; [reflexivity |]. split; [lia |].
    change (ArtifactStart t :: ?x ++ ArtifactComplete ?v :: ?y)
      with ([ArtifactStart t] ++ x ++ [ArtifactComplete v] ++ y).
    unfold generateCalls, reviewCalls in *. rewrite !callsOf_app, Hgen, Hrev, Hg, Hr.
    cbn [callsOf List.filter isCall length]. split; lia.
Qed.

(** The stages on a reviewer that never approves. *)
Lemma stages_never_approved (answers : nat -> Js.str) agents :
  1 <= maxFeedbackCycles ->
  forall i all s,
    neverApprovesFrom llm answers (calls s) ->
    let n := Z.to_nat maxFeedbackCycles in
    let out := stages agents i all s in
    result out
    = Ok {| success := true;
            artifacts :=
              all ++ List.map Some (bestEfforts clock n answers (calls s)
                                                (declaredBy agents));
            error := None |}
    /\ calls (final out) = (calls s + 2 * n * length (declaredBy agents))%nat
    /\ generateCalls (emitted out) = (n * length (declaredBy agents))%nat
    /\ reviewCalls (emitted out) = (n * length (declaredBy agents))%nat.
Proof.
  intros Hmax. induction agents as [| agent rest IH]; intros i all s Hnever; cbv zeta.
  - cbn. rewrite app_nil_r, Nat.mul_0_r, Nat.add_0_r. repeat split; lia.
  - set (n := Z.to_nat maxFeedbackCycles) in *.
    destruct (produce_never_approved answers agent (getOutputIRTypes agent) Hmax [] s
                Hnever) as (Hres & Hcalls & Hg & Hr).
    cbv zeta in Hres, Hcalls, Hg, Hr. fold n in Hres, Hcalls, Hg, Hr.
    fold (execute agent s) in Hres, Hcalls, Hg, Hr. cbn [app] in Hres.
    pose proof (stages_continue agent rest i all s _ Hmax Hres eq_refl) as Heq.
    cbn zeta in Heq. cbn [Spec.artifacts] in Heq. rewrite Heq. clear Heq.
    cbn [result final emitted].
    match goal with
    | |- context [stages rest (S i) ?all' ?s'] =>
        destruct (IH (S i) all' s') as (Hres' & Hcalls' & Hg' & Hr')
    end.
    { cbn [calls collected]. rewrite Hcalls, <- Nat.mul_assoc.
      apply neverApprovesFrom_later. exact Hnever. }
    cbv zeta in Hres', Hcalls', Hg', Hr'. fold n in Hres', Hcalls', Hg', Hr'.
    cbn [calls collected] in Hres', Hcalls'. rewrite Hcalls in Hres', Hcalls'.
    rewrite Hres', Hcalls'.
    unfold declaredBy. cbn [flat_map]. fold (declaredBy rest).
    rewrite bestEfforts_app, length_app, !length_map, List.map_app, <- app_assoc.
    split; [reflexivity |]. split; [lia |].
    change (StageStart ?k agent :: ?x ++ StageComplete ?m agent ?p :: ?y)
      with ([StageStart k agent] ++ x ++ [StageComplete m agent p] ++ y).
    unfold generateCalls, reviewCalls in *. rewrite !callsOf_app, Hg, Hr, Hg', Hr'.
    cbn [callsOf List.filter isCall length]. split; lia.
Qed.

End Exhaustion.

(** C4. With a budget of at least one cycle, an artifact whose
    generations the reviewer rejects one and all does not end anything.
    The engine returns the last generation, cleaned, as the artifact, not
    approved, with [cyclesUsed] equal to the budget, after as many
    generate and review calls. The stage announces that artifact as
    complete, files it in its list and in the context, and goes on with
    its next type from the next call. The pipeline takes the artifacts of
    every stage that has not failed and goes on with the next stage. So a
    run whose reviewer never approves anything succeeds: it makes the
    budget's number of generate and of review calls for each declared type
    and ends with, for each of them in order, its last generation. And
    whatever the reviewer answers, a run whose model answers every call
    succeeds with one artifact for each declared type. *)
Theorem budget_exhaustion_is_not_fatal
    (llm : nat -> Res Js.str) (clock : nat -> Z) (maxFeedbackCycles : Z) :
  1 <= maxFeedbackCycles ->
  let n := Z.to_nat maxFeedbackCycles in
  (forall agent t s g,
     rejectsAllCycles llm (calls s) n g ->
     let engine := generateWithFeedbackCycle llm clock maxFeedbackCycles agent t s in
     let best := bestEffort clock agent t n g (calls s) in
     (exists history,
        result engine
        = Ok {| Spec.artifact := Some best; cyclesUsed := maxFeedbackCycles;
                approved := false; feedbackHistory := history |}
        /\ length history = n)
     /\ final engine = exhausted n s
     /\ generateCalls (emitted engine) = n
     /\ reviewCalls (emitted engine) = n
     /\ forall rest made,
          let next :=
            Agent.produce llm clock maxFeedbackCycles agent rest (made ++ [Some best])
                          (filed t (Some best) (exhausted n s)) in
          Agent.produce llm clock maxFeedbackCycles agent (t :: rest) made s
          = mkOut (result next) (final next)
                  (ArtifactStart t :: emitted engine
                   ++ ArtifactComplete (Some best) :: emitted next))
  /\ (forall agent rest i all s ar,
        result (Agent.execute llm clock maxFeedbackCycles agent s) = Ok ar ->
        Spec.success ar = true ->
        let next :=
          Pipeline.stages llm clock maxFeedbackCycles rest (S i)
                          (all ++ Spec.artifacts ar)
                          (collected (Spec.artifacts ar) all
                             (final (Agent.execute llm clock maxFeedbackCycles agent s))) in
        Pipeline.stages llm clock maxFeedbackCycles (agent :: rest) i all s
        = mkOut (result next) (final next)
                (StageStart (i + 1) agent
                 :: emitted (Agent.execute llm clock maxFeedbackCycles agent s)
                 ++ StageComplete (i + 1) agent (Spec.artifacts ar) :: emitted next))
  /\ (forall answers startFromStage existing s,
        neverApprovesFrom llm answers (calls s) ->
        let out :=
          Pipeline.execute llm clock maxFeedbackCycles startFromStage existing s in
        result out
        = Ok {| success := true;
                artifacts :=
                  mapValues (default [] existing)
                  ++ List.map Some (bestEfforts clock n answers (calls s)
                                                (declaredFrom startFromStage));
                error := None |}
        /\ calls (final out)
           = (calls s + 2 * n * length (declaredFrom startFromStage))%nat
        /\ generateCalls (emitted out) = (n * length (declaredFrom startFromStage))%nat
        /\ reviewCalls (emitted out) = (n * length (declaredFrom startFromStage))%nat)
  /\ (alwaysResponds llm ->
      forall startFromStage existing s,
        exists pr news,
          result (Pipeline.execute llm clock maxFeedbackCycles startFromStage existing s)
          = Ok pr
          /\ success pr = true
          /\ artifacts pr = mapValues (default [] existing) ++ news
          /\ Forall is_Some news
          /\ typesOf news = outputsFrom startFromStage).
Proof.
  intros Hmax n. split; [| split; [| split]].
  - intros agent t s g Hrej engine best.
    destruct (engine_exhausted llm clock maxFeedbackCycles agent t s g Hmax Hrej)
      as (history & Hres & Hlen & Hfin).
    destruct (cycles_exhausted llm clock maxFeedbackCycles agent t n 1 [] None s g)
      as (r & a & _ & _ & _ & _ & _ & _ & _ & _ & Hgen & Hrev & _);
      [unfold n; lia | exact Hrej |].
    split; [exists history; split; assumption |].
    split; [exact Hfin |]. split; [exact Hgen |]. split; [exact Hrev |].
    intros rest made.
    apply (produce_exhausted llm clock maxFeedbackCycles agent t rest made s g Hmax Hrej).
  - intros agent rest i all s ar Hr Hsucc.
    apply (stages_continue llm clock maxFeedbackCycles agent rest i all s ar Hmax Hr Hsucc).
  - intros answers startFromStage existing s Hnever out. unfold out.
    rewrite execute_stages.
    apply (stages_never_approved llm clock maxFeedbackCycles answers
             (skipn startFromStage AGENT_ORDER) Hmax startFromStage
             (mapValues (default [] existing))
             {| calls := calls s; previousArtifacts := default [] existing |}).
    exact Hnever.
  - intros Hllm startFromStage existing s. rewrite execute_stages.
    destruct (stages_total llm clock maxFeedbackCycles
                (skipn startFromStage AGENT_ORDER) Hllm Hmax startFromStage
                (mapValues (default [] existing))
                {| calls := calls s; previousArtifacts := default [] existing |})
      as (pr & news & Hpr & Hok & _ & Harts & Hsome & Hty).
    exists pr, news. repeat split; assumption.
Qed.

Lemma neverApproved_rejects :
  neverApprovesFrom Scenario.neverApproved (fun c => Scenario.draft (Z.of_nat c)) 0.
Proof.
  intros j. cbn [Nat.add]. unfold rejectsAt, Scenario.neverApproved.
  assert (He : Nat.even (2 * j) = true).
  { rewrite Nat.even_mul. reflexivity. }
  assert (Ho : Nat.even (S (2 * j)) = false).
  { rewrite Nat.even_succ, <- Nat.negb_even, He. reflexivity. }
  rewrite He, Ho. split; [reflexivity |].
  exists Scenario.needsRevision. split; reflexivity.
Qed.

Lemma budget_exhaustion_is_not_fatal_witness :
  result (Pipeline.execute Scenario.neverApproved Scenario.wallClock 3 0 None (mkRun 0 []))
  = Ok {| success := true;
          artifacts :=
            List.map Some (bestEfforts Scenario.wallClock 3
                                       (fun c => Scenario.draft (Z.of_nat c)) 0
                                       (declaredFrom 0));
          error := None |}
  /\ calls (final (Pipeline.execute Scenario.neverApproved Scenario.wallClock 3 0 None
                     (mkRun 0 []))) = 72%nat
  /\ List.map content (bestEfforts Scenario.wallClock 3
                                   (fun c => Scenario.draft (Z.of_nat c)) 0
                                   (declaredFrom 0))
     = List.map (fun k => Js.lit "ir::data v" ++ Js.ofZ k)
                [4; 10; 16; 22; 28; 34; 40; 46; 52; 58; 64; 70].
Proof.
  destruct (proj1 (proj2 (proj2 (budget_exhaustion_is_not_fatal
                                   Scenario.neverApproved Scenario.wallClock 3
                                   ltac:(lia))))
              (fun c => Scenario.draft (Z.of_nat c)) 0%nat None (mkRun 0 [])
              neverApproved_rejects) as (H1 & H2 & _).
  split; [exact H1 |]. split; [exact H2 |]. vm_compute. reflexivity.
Defined.

End BudgetFacts.

(** ** Checkpoints *)

Module StorageFacts.
Import Spec Storage.

Lemma restoreDate_artifactToJSON (a : SpecArtifact) : restoreDate (artifactToJSON a) = a.
Proof. destruct a. reflexivity. Qed.

Lemma restore_all (artifacts : list SpecArtifact) :
  List.map restoreDate (List.map artifactToJSON artifacts) = artifacts.
Proof.
  induction artifacts as [| a l IH]; [reflexivity |].
  cbn [List.map]. rewrite restoreDate_artifactToJSON, IH. reflexivity.
Qed.

(** A checkpoint saved under a module name that is not empty loads back
    as it was saved, whatever the store held before. *)
Lemma load_after_save (config : OrchestrationConfig) (progress : OrchestrationProgress)
    (artifacts : list SpecArtifact) (moduleName : Js.str) (ls : LocalStorage) (now : Z) :
  moduleName <> [] ->
  loadState now (saveState config progress artifacts moduleName ls)
  = Some {| Storage.config :=
              {| persistedPrompt := prompt config;
                 persistedExecutorModel := executorModel config;
                 persistedReviewerModel := reviewerModel config;
                 persistedMaxFeedbackCycles := maxFeedbackCycles config |};
            Storage.progress := progress;
            Storage.artifacts := artifacts;
            Storage.moduleName := moduleName;
            timestamp := now |}.
Proof.
  intros Hname. unfold loadState, saveState. cbn.
  destruct moduleName as [| c name]; [congruence |]. cbn.
  rewrite restore_all. reflexivity.
Qed.

(** What is saved does not depend on the API keys of the configuration. *)
Lemma saved_state_ignores_keys (config : OrchestrationConfig) (keys : Llm.APIKeys)
    (progress : OrchestrationProgress) (artifacts : list SpecArtifact)
    (moduleName : Js.str) (ls : LocalStorage) :
  saveState {| prompt := prompt config; executorModel := executorModel config;
               reviewerModel := reviewerModel config; apiKeys := keys;
               maxFeedbackCycles := maxFeedbackCycles config |}
            progress artifacts moduleName ls
  = saveState config progress artifacts moduleName ls.
Proof. reflexivity. Qed.

(** Saving twice is saving once. *)
Lemma save_idempotent (config : OrchestrationConfig) (progress : OrchestrationProgress)
    (artifacts : list SpecArtifact) (moduleName : Js.str) (ls : LocalStorage) :
  saveState config progress artifacts moduleName
    (saveState config progress artifacts moduleName ls)
  = saveState config progress artifacts moduleName ls.
Proof. reflexivity. Qed.

(** C5, at the input on which the code departs from it. A checkpoint saved
    under the empty module name is in the store, and [hasPersistedState]
    reports it, but [loadState] returns [null] for it: its test
    [!moduleName] takes the empty name for a missing key. *)
Theorem checkpoint_with_empty_module_name_is_lost
    (config : OrchestrationConfig) (progress : OrchestrationProgress)
    (artifacts : list SpecArtifact) (ls : LocalStorage) (now : Z) :
  MODULE_NAME (saveState config progress artifacts [] ls) = Some []
  /\ hasPersistedState (saveState config progress artifacts [] ls) = true
  /\ loadState now (saveState config progress artifacts [] ls) = None.
Proof. repeat split. Qed.

Example anonymous_checkpoint_is_lost :
  loadState 1767225700000
    (saveState Scenario.anonymousConfig Scenario.interruptedProgress
               [Scenario.persistedContract] [] emptyStorage) = None.
Proof. reflexivity. Qed.

End StorageFacts.

(** ** Provider calls: how a call ends *)

Module CallFacts.
Import Llm RateLimiter Gateway Waits Scenario Cases GatewayFacts.

Lemma sleeps_app (a b : list Event) : sleeps (a ++ b) = sleeps a ++ sleeps b.
Proof. unfold sleeps. apply flat_map_app. Qed.

Lemma ok_is_not_rate_limit (r : Response) :
  ok r = true -> isRateLimitError (status r) None = false.
Proof.
  unfold ok, isRateLimitError. intros H.
  apply andb_true_iff in H as [_ H]. apply Z.leb_le in H.
  destruct (status r =? 429) eqn:E1; [apply Z.eqb_eq in E1; lia |].
  destruct (status r =? 529) eqn:E2; [apply Z.eqb_eq in E2; lia |].
  reflexivity.
Qed.

Section Calls.

Variable fetch : nat -> FetchResult.
Variable random : nat -> Q.

Local Abbreviation attempts := (Gateway.attempts fetch random).

Ltac send Hf :=
  rewrite attempts_step;
  unfold mbind, M_bind, bind, doFetch; rewrite Hf;
  cbn [result final emitted].

(** A retryable response before the last attempt, in full: the delay is
    computed, announced in the rate-limit branch, slept, and the loop goes
    on with the next attempt. *)
Lemma retry_step (p : ModelProvider) (request : LLMRequest)
    (remaining : nat) (attempt : Z) (s : Net) (r : Response) :
  fetch (fetches s) = Responds r ->
  isRetryable r = true ->
  attempt < maxRetries ->
  exists d s',
    backoffDelay random attempt (hintOf r) (sent s) = mkOut (Ok d) s' []
    /\ fetches s' = S (fetches s)
    /\ attempts p request (S remaining) attempt s =
       mkOut (result (attempts p request remaining (attempt + 1) s'))
             (final (attempts p request remaining (attempt + 1) s'))
             (Fetch p attempt :: waitEvents p r attempt d
              ++ emitted (attempts p request remaining (attempt + 1) s')).
Proof.
  intros Hf Hr Hlt. send Hf. apply Z.ltb_lt in Hlt.
  unfold hintOf, waitEvents. fold (sent s).
  destruct (isRateLimitError (status r) None) eqn:Hrl.
  - rewrite Hlt.
    assert (Hb : exists d s', backoffDelay random attempt
                   (option_map inject_Z (extractRetryAfterMs r)) (sent s)
                 = mkOut (Ok d) s' [] /\ fetches s' = S (fetches s)).
    { unfold backoffDelay. destruct (positiveHint _); eexists _, _; split; reflexivity. }
    destruct Hb as (d & s' & Hb & Hs'). exists d, s'. rewrite Hb.
    split; [reflexivity |]. split; [exact Hs' |].
    cbn [result final emitted sleep emit app].
    destruct (Gateway.attempts _ _ _ _ _ _ _) as [res fin ev]; reflexivity.
  - destruct (server_failure_branch r Hrl Hr) as (-> & -> & ->).
    rewrite Hlt. cbn [andb].
    assert (Hb : exists d s', backoffDelay random attempt None (sent s)
                 = mkOut (Ok d) s' [] /\ fetches s' = S (fetches s)).
    { unfold backoffDelay. cbn. eexists _, _; split; reflexivity. }
    destruct Hb as (d & s' & Hb & Hs'). exists d, s'. rewrite Hb.
    split; [reflexivity |]. split; [exact Hs' |].
    cbn [result final emitted sleep emit app].
    destruct (Gateway.attempts _ _ _ _ _ _ _) as [res fin ev]; reflexivity.
Qed.

Lemma waitEvents_one_sleep (p : ModelProvider) (r : Response) (attempt : Z) (d : Q) :
  attemptsMade (waitEvents p r attempt d) = 0%nat
  /\ sleeps (waitEvents p r attempt d) = [d].
Proof. unfold waitEvents. destruct (isRateLimitError _ _); split; reflexivity. Qed.

(** Through [k] retryable responses the loop sends [k] requests, sleeps
    [k] times and stands at attempt [attempt + k]. *)
Lemma through_retries (p : ModelProvider) (request : LLMRequest) (k : nat) :
  forall (remaining : nat) (attempt : Z) (s : Net),
    attempt + Z.of_nat k <= maxRetries ->
    retryableFrom fetch (fetches s) k ->
    exists prefix s',
      fetches s' = (fetches s + k)%nat
      /\ attemptsMade prefix = k
      /\ length (sleeps prefix) = k
      /\ attempts p request (k + remaining) attempt s =
         mkOut (result (attempts p request remaining (attempt + Z.of_nat k) s'))
               (final (attempts p request remaining (attempt + Z.of_nat k) s'))
               (prefix ++ emitted (attempts p request remaining (attempt + Z.of_nat k) s')).
Proof.
  induction k as [| k IH]; intros remaining attempt s Hle Hall.
  - exists [], s. rewrite Nat.add_0_r, Z.add_0_r. cbn [Nat.add app].
    repeat split. destruct (Gateway.attempts _ _ _ _ _ _ _); reflexivity.
  - destruct (Hall 0%nat) as (r & Hf & Hr); [lia |]. rewrite Nat.add_0_r in Hf.
    destruct (retry_step p request (k + remaining) attempt s r Hf Hr)
      as (d & s1 & _ & Hs1 & Heq); [lia |].
    destruct (IH remaining (attempt + 1) s1) as (prefix & s' & Hs' & Hn & Hsl & Hnext).
    { lia. }
    { intros i Hi. destruct (Hall (S i)) as (ri & Hfi & Hri); [lia |].
      exists ri. split; [| exact Hri]. rewrite Hs1, <- Hfi. f_equal. lia. }
    exists (Fetch p attempt :: waitEvents p r attempt d ++ prefix), s'.
    destruct (waitEvents_one_sleep p r attempt d) as [Hw0 Hw1].
    split; [lia |].
    split.
    { change (Fetch p attempt :: ?x ++ prefix) with ([Fetch p attempt] ++ x ++ prefix).
      rewrite !attemptsMade_app, Hw0, Hn. reflexivity. }
    split.
    { change (Fetch p attempt :: ?x ++ prefix) with ([Fetch p attempt] ++ x ++ prefix).
      rewrite !sleeps_app, Hw1, !length_app, Hsl. reflexivity. }
    cbn [Nat.add]. rewrite Heq, Hnext. cbn [result final emitted].
    replace (attempt + 1 + Z.of_nat k) with (attempt + Z.of_nat (S k)) by lia.
    cbn [app]. rewrite app_assoc. reflexivity.
Qed.

(** A success response with a body text ends the loop with that text. *)
Lemma attempts_success (p : ModelProvider) (request : LLMRequest)
    (remaining : nat) (attempt : Z) (s : Net) (r : Response) (text : Js.str) :
  fetch (fetches s) = Responds r ->
  ok r = true ->
  bodyText r = Some text ->
  attempts p request (S remaining) attempt s =
  mkOut (Ok {| content := text; responseModel := model request |}) (sent s)
        [Fetch p attempt].
Proof.
  intros Hf Hok Hbody. send Hf.
  rewrite (ok_is_not_rate_limit r Hok), Hok. cbn [negb].
  unfold extractContent. rewrite Hbody. destruct p; reflexivity.
Qed.

(** A failure response that is neither a rate limit nor a server failure
    ends the loop with the provider's API error. *)
Lemma attempts_final_failure (p : ModelProvider) (request : LLMRequest)
    (remaining : nat) (attempt : Z) (s : Net) (r : Response) :
  fetch (fetches s) = Responds r ->
  isFinalFailure r = true ->
  attempts p request (S remaining) attempt s =
  mkOut (Throw (apiError p (status r)
                  (Js.orElse (default [] (errorMessage r)) (statusText r))))
        (sent s) [Fetch p attempt].
Proof.
  intros Hf Hfin. send Hf.
  unfold isFinalFailure, isRetryable, isServerFailure in Hfin.
  apply andb_true_iff in Hfin as [Hnok Hnr].
  apply negb_true_iff, orb_false_iff in Hnr as [Hrl Hsf].
  rewrite Hrl in Hsf |- *. cbn [negb] in Hsf. rewrite andb_true_r in Hsf.
  rewrite Hnok, Hsf. cbn [andb].
  destruct ((status r =? 401) || (status r =? 403)); reflexivity.
Qed.

(** One iteration ends the loop after its request, or its response is
    retryable and it is not the last attempt. *)
Lemma attempts_ends_or_retries (p : ModelProvider) (request : LLMRequest)
    (remaining : nat) (attempt : Z) (s : Net) :
  emitted (attempts p request (S remaining) attempt s) = [Fetch p attempt]
  \/ exists r, fetch (fetches s) = Responds r
               /\ isRetryable r = true /\ attempt < maxRetries.
Proof.
  rewrite attempts_step. unfold mbind, M_bind, bind, doFetch.
  destruct (fetch (fetches s)) as [r | message] eqn:Hf; cbn [result final emitted];
    [| left; reflexivity].
  unfold isRetryable, isServerFailure.
  destruct (isRateLimitError (status r) None) eqn:Hrl.
  - destruct (attempt <? maxRetries) eqn:Hlt; [| left; reflexivity].
    right. exists r. apply Z.ltb_lt in Hlt.
    split; [reflexivity |]. rewrite Hrl. split; [reflexivity | exact Hlt].
  - destruct (negb (ok r)).
    + destruct ((status r =? 401) || (status r =? 403)); [left; reflexivity |].
      destruct (500 <=? status r) eqn:H5; cbn [andb]; [| left; reflexivity].
      destruct (attempt <? maxRetries) eqn:Hlt; [| left; reflexivity].
      right. exists r. apply Z.ltb_lt in Hlt.
      split; [reflexivity |]. rewrite Hrl, H5. split; [reflexivity | exact Hlt].
    + left. unfold extractContent. destruct p, (bodyText r); reflexivity.
Qed.

End Calls.

(** X1. A call of [callAnthropic] or [callOpenAI] whose first [k] requests
    ([k] at most four) are answered by retryable responses (429, 529 or
    5xx) and whose next request is answered by a success response with a
    body text returns that text, under the model of the request, after
    [k + 1] requests and [k] sleeps. *)
Theorem call_recovers_after_retries
    (fetch : nat -> FetchResult) (random : nat -> Q)
    (p : ModelProvider) (request : LLMRequest) (s : Net)
    (k : nat) (r : Response) (text : Js.str) :
  getModelId p (model request) <> None ->
  (k <= 4)%nat ->
  retryableFrom fetch (fetches s) k ->
  fetch (fetches s + k)%nat = Responds r ->
  ok r = true ->
  bodyText r = Some text ->
  let out := Gateway.callProvider fetch random p request s in
  result out = Ok {| content := text; responseModel := model request |}
  /\ attemptsMade (emitted out) = S k
  /\ length (sleeps (emitted out)) = k
  /\ fetches (final out) = (fetches s + S k)%nat.
Proof.
  intros Hm Hk Hall Hf Hok Hbody out. subst out. unfold Gateway.callProvider.
  destruct (getModelId p (model request)); [| congruence].
  change (Z.to_nat maxRetries) with 5%nat.
  replace 5%nat with (k + S (4 - k))%nat by lia.
  destruct (through_retries fetch random p request k (S (4 - k)) 1 s)
    as (prefix & s' & Hs' & Hn & Hsl & ->); [unfold maxRetries; lia | exact Hall |].
  rewrite <- Hs' in Hf.
  rewrite (attempts_success fetch random p request _ _ s' r text Hf Hok Hbody).
  cbn [result final emitted sent fetches].
  rewrite attemptsMade_app, sleeps_app, length_app, Hn, Hsl, Hs'. cbn.
  repeat split; lia.
Qed.


Lemma two_retryable :
  retryableFrom (replies [Responds overloaded; Responds unavailable;
                          Responds (success (Js.lit "ir::contract"))]) 0 2.
Proof.
  intros i Hi. destruct i as [| [| i]]; [exists overloaded | exists unavailable | lia];
    split; reflexivity.
Qed.

Lemma call_recovers_after_retries_witness :
  result (callAnthropic (replies [Responds overloaded; Responds unavailable;
                                  Responds (success (Js.lit "ir::contract"))])
                        noJitter toClaude (mkNet 0 0))
  = Ok {| content := Js.lit "ir::contract"; responseModel := claude_opus_4_5 |}
  /\ attemptsMade (emitted (callAnthropic
                              (replies [Responds overloaded; Responds unavailable;
                                        Responds (success (Js.lit "ir::contract"))])
                              noJitter toClaude (mkNet 0 0))) = 3%nat
  /\ length (sleeps (emitted (callAnthropic
                                (replies [Responds overloaded; Responds unavailable;
                                          Responds (success (Js.lit "ir::contract"))])
                                noJitter toClaude (mkNet 0 0)))) = 2%nat
  /\ fetches (final (callAnthropic
                       (replies [Responds overloaded; Responds unavailable;
                                 Responds (success (Js.lit "ir::contract"))])
                       noJitter toClaude (mkNet 0 0))) = 3%nat.
Proof.
  apply (call_recovers_after_retries
           (replies [Responds overloaded; Responds unavailable;
                     Responds (success (Js.lit "ir::contract"))])
           noJitter anthropic toClaude (mkNet 0 0) 2
           (success (Js.lit "ir::contract")) (Js.lit "ir::contract")).
  - discriminate.
  - lia.
  - exact two_retryable.
  - reflexivity.
  - reflexivity.
  - reflexivity.
Defined.

(** X2. A failure response that is neither a rate limit (429, 529) nor a
    server failure (5xx), such as 400, 404 or 422, ends the call at the
    attempt that receives it, first or later: the call rejects with the
    provider's API error, made of the status and of the message of the
    error body or, without one, of the status text, and nothing is sent
    again. *)
Theorem client_error_ends_call
    (fetch : nat -> FetchResult) (random : nat -> Q)
    (p : ModelProvider) (request : LLMRequest) (s : Net)
    (k : nat) (r : Response) :
  getModelId p (model request) <> None ->
  (k <= 4)%nat ->
  retryableFrom fetch (fetches s) k ->
  fetch (fetches s + k)%nat = Responds r ->
  isFinalFailure r = true ->
  let out := Gateway.callProvider fetch random p request s in
  result out = Throw (apiError p (status r)
                        (Js.orElse (default [] (errorMessage r)) (statusText r)))
  /\ attemptsMade (emitted out) = S k
  /\ length (sleeps (emitted out)) = k.
Proof.
  intros Hm Hk Hall Hf Hfin out. subst out. unfold Gateway.callProvider.
  destruct (getModelId p (model request)); [| congruence].
  change (Z.to_nat maxRetries) with 5%nat.
  replace 5%nat with (k + S (4 - k))%nat by lia.
  destruct (through_retries fetch random p request k (S (4 - k)) 1 s)
    as (prefix & s' & Hs' & Hn & Hsl & ->); [unfold maxRetries; lia | exact Hall |].
  rewrite <- Hs' in Hf.
  rewrite (attempts_final_failure fetch random p request _ _ s' r Hf Hfin).
  cbn [result final emitted].
  rewrite attemptsMade_app, sleeps_app, length_app, Hn, Hsl. cbn.
  repeat split; lia.
Qed.

Lemma none_retryable (fetch : nat -> FetchResult) (n : nat) : retryableFrom fetch n 0.
Proof. intros i Hi. lia. Qed.

Lemma client_error_ends_call_witness :
  result (callOpenAI (always badRequest) noJitter toChatGpt (mkNet 0 0))
  = Throw (Js.lit "OpenAI API error: 400 - max_tokens: 8192 > 4096")
  /\ attemptsMade (emitted (callOpenAI (always badRequest) noJitter toChatGpt
                              (mkNet 0 0))) = 1%nat
  /\ length (sleeps (emitted (callOpenAI (always badRequest) noJitter toChatGpt
                                (mkNet 0 0)))) = 0%nat.
Proof.
  apply (client_error_ends_call (always badRequest) noJitter openai toChatGpt
           (mkNet 0 0) 0 badRequest).
  - discriminate.
  - lia.
  - apply none_retryable.
  - reflexivity.
  - reflexivity.
Defined.

(** X3. A request that the network rejects ([fetch] itself fails) ends the
    call with that error at the attempt that sends it, first or later: the
    retry loop does not catch it, whatever number of attempts is left. *)
Theorem transport_failure_ends_call
    (fetch : nat -> FetchResult) (random : nat -> Q)
    (p : ModelProvider) (request : LLMRequest) (s : Net)
    (k : nat) (message : Js.str) :
  getModelId p (model request) <> None ->
  (k <= 4)%nat ->
  retryableFrom fetch (fetches s) k ->
  fetch (fetches s + k)%nat = Rejects message ->
  let out := Gateway.callProvider fetch random p request s in
  result out = Throw message
  /\ attemptsMade (emitted out) = S k
  /\ length (sleeps (emitted out)) = k.
Proof.
  intros Hm Hk Hall Hf out. subst out. unfold Gateway.callProvider.
  destruct (getModelId p (model request)); [| congruence].
  change (Z.to_nat maxRetries) with 5%nat.
  replace 5%nat with (k + S (4 - k))%nat by lia.
  destruct (through_retries fetch random p request k (S (4 - k)) 1 s)
    as (prefix & s' & Hs' & Hn & Hsl & ->); [unfold maxRetries; lia | exact Hall |].
  rewrite <- Hs' in Hf.
  rewrite (attempts_rejected fetch random p request _ _ s' message Hf).
  cbn [result final emitted].
  rewrite attemptsMade_app, sleeps_app, length_app, Hn, Hsl. cbn.
  repeat split; lia.
Qed.

Lemma one_retryable : retryableFrom (replies [Responds overloaded]) 0 1.
Proof.
  intros i Hi. destruct i as [| i]; [exists overloaded | lia]; split; reflexivity.
Qed.

Lemma transport_failure_ends_call_witness :
  result (callAnthropic (replies [Responds overloaded]) noJitter toClaude (mkNet 0 0))
  = Throw (Js.lit "Failed to fetch")
  /\ attemptsMade (emitted (callAnthropic (replies [Responds overloaded]) noJitter
                              toClaude (mkNet 0 0))) = 2%nat
  /\ length (sleeps (emitted (callAnthropic (replies [Responds overloaded]) noJitter
                                toClaude (mkNet 0 0)))) = 1%nat.
Proof.
  apply (transport_failure_ends_call (replies [Responds overloaded]) noJitter
           anthropic toClaude (mkNet 0 0) 1 (Js.lit "Failed to fetch")).
  - discriminate.
  - lia.
  - exact one_retryable.
  - reflexivity.
Defined.

End CallFacts.

Module WaitFacts.
Import Llm RateLimiter Gateway Waits Scenario GatewayFacts BackoffFacts CallFacts.

(** Every retry delay the code extracts is a whole number of seconds. *)
Lemma extractRetryAfterMs_whole_seconds (r : Response) (ms : Z) :
  extractRetryAfterMs r = Some ms -> exists n, ms = n * 1000.
Proof.
  unfold extractRetryAfterMs, parseRateLimitHeaders. cbn [retryAfterMs].
  assert (Hh : forall ms,
             match retry_after (headers r) with
             | Some v => if Js.truthy v
                         then option_map (fun n => n * 1000) (Js.parseInt v)
                         else Some 0
             | None => Some 0
             end = Some ms -> exists n, ms = n * 1000).
  { intros ms'. destruct (retry_after (headers r)) as [v |].
    - destruct (Js.truthy v).
      + destruct (Js.parseInt v) as [n |]; [| discriminate].
        intros [= <-]. eauto.
      + intros [= <-]. exists 0. reflexivity.
    - intros [= <-]. exists 0. reflexivity. }
  destruct (errorMessage r) as [m |]; [| apply Hh].
  destruct (Js.truthy m); [| apply Hh].
  destruct (matchSeconds m) as [digits |]; [| apply Hh].
  destruct (Js.parseInt digits) as [n |]; [| discriminate].
  intros [= <-]. eauto.
Qed.

Local Open Scope Q_scope.

Lemma hintOf_at_least_a_second (r : Response) (h : Q) :
  positiveHint (hintOf r) = Some h -> 1000 <= h.
Proof.
  intros H. apply positiveHint_inv in H as [Hh Hpos].
  unfold hintOf in Hh. destruct (isRateLimitError (status r) None); [| discriminate].
  destruct (extractRetryAfterMs r) as [ms |] eqn:Hms; [| discriminate].
  injection Hh as <-.
  destruct (extractRetryAfterMs_whole_seconds r ms Hms) as (n & ->).
  change 1000 with (inject_Z 1000). rewrite <- Zle_Qle.
  change 0 with (inject_Z 0) in Hpos. rewrite <- Zlt_Qlt in Hpos. lia.
Qed.

(** A delay is at most the maximum; from the first attempt on, and with
    random numbers in [0, 1), it is at least a second and a half. *)
Lemma backoffDelay_bounds (random : nat -> Q) (attempt : Z) (r : Response)
    (s s' : Net) (d : Q) :
  backoffDelay random attempt (hintOf r) s = mkOut (Ok d) s' [] ->
  d <= maxDelayMs
  /\ ((1 <= attempt)%Z -> unitRandom random -> 1500 <= d).
Proof.
  unfold backoffDelay, calculateBackoffDelay.
  destruct (positiveHint (hintOf r)) as [h |] eqn:Hh; intros [= <- _].
  - split; [apply Q.le_min_r |]. intros _ _.
    apply hintOf_at_least_a_second in Hh.
    apply Q.min_glb; [lra | unfold maxDelayMs; lra].
  - split; [apply Q.le_min_r |]. intros Ha Hrnd.
    destruct (Hrnd (randoms s)) as [H0 H1].
    assert (Hb : 0 <= baseDelayMs) by (unfold baseDelayMs; lra).
    pose proof (jittered_within_fifth attempt baseDelayMs (random (randoms s)) Hb H0 H1)
      as [Hlow _].
    assert (Hp : 1 <= 2 ^ (attempt - 1)).
    { change 1 with (2 ^ 0). apply Qpower_le_compat_l; [lia | lra]. }
    assert (He : 2000 <= exponentialDelay attempt baseDelayMs).
    { unfold exponentialDelay, baseDelayMs. set (q := 2 ^ (attempt - 1)) in *. lra. }
    apply Q.min_glb; [lra | unfold maxDelayMs; lra].
Qed.

Lemma totalSleep_bound (l : list Q) (m : Q) :
  Forall (fun d => d <= m) l ->
  fold_right Qplus 0 l <= inject_Z (Z.of_nat (length l)) * m.
Proof.
  induction 1 as [| d l Hd _ IH]; cbn [fold_right length].
  - change (inject_Z (Z.of_nat 0)) with 0. lra.
  - rewrite Nat2Z.inj_succ. unfold Z.succ. rewrite inject_Z_plus.
    change (inject_Z 1) with 1. lra.
Qed.

Section Calls.

Variable fetch : nat -> FetchResult.
Variable random : nat -> Q.

Local Abbreviation attempts := (Gateway.attempts fetch random).

(** From attempt [maxRetries + 1 - remaining] on, the loop sleeps fewer
    times than it has iterations left, each time within the bounds. *)
Lemma attempts_sleeps (p : ModelProvider) (request : LLMRequest) (remaining : nat) :
  forall (attempt : Z) (s : Net),
    (1 <= attempt)%Z ->
    (attempt + Z.of_nat remaining = maxRetries + 1)%Z ->
    (length (sleeps (emitted (attempts p request remaining attempt s)))
     <= remaining - 1)%nat
    /\ Forall (fun d => d <= maxDelayMs)
              (sleeps (emitted (attempts p request remaining attempt s)))
    /\ (unitRandom random ->
        Forall (fun d => 1500 <= d)
               (sleeps (emitted (attempts p request remaining attempt s)))).
Proof.
  induction remaining as [| n IH]; intros attempt s Ha Hinv.
  - cbn. repeat split; auto.
  - destruct (attempts_ends_or_retries fetch random p request n attempt s)
      as [-> | (r & Hf & Hr & Hlt)].
    + cbn. repeat split; auto with arith.
    + destruct (retry_step fetch random p request n attempt s r Hf Hr Hlt)
        as (d & s' & Hd & _ & ->).
      destruct (backoffDelay_bounds random attempt r (sent s) s' d Hd) as [Hmax Hmin].
      destruct (waitEvents_one_sleep p r attempt d) as [_ Hw].
      destruct (IH (attempt + 1)%Z s') as (IH1 & IH2 & IH3); [lia | lia |].
      cbn [emitted].
      change (Fetch p attempt :: ?x ++ ?y) with ([Fetch p attempt] ++ x ++ y).
      rewrite !sleeps_app, Hw. cbn [sleeps flat_map app length].
      destruct n as [| n]; [exfalso; unfold maxRetries in *; lia |].
      repeat split.
      * cbn in IH1 |- *. lia.
      * constructor; assumption.
      * intros Hrnd. constructor; auto.
Qed.

End Calls.

(** X4. Whatever the provider answers, a call sleeps at most four times,
    never longer than two minutes at a time and so never longer than eight
    minutes in all; with random numbers in [0, 1) every sleep lasts at
    least a second and a half. (Delays are exact rationals here.) *)
Theorem waits_are_few_and_bounded
    (fetch : nat -> FetchResult) (random : nat -> Q)
    (p : ModelProvider) (request : LLMRequest) (s : Net) :
  let trace := emitted (Gateway.callProvider fetch random p request s) in
  (length (sleeps trace) <= 4)%nat
  /\ Forall (fun d => d <= 120000) (sleeps trace)
  /\ totalSleep trace <= 480000
  /\ (unitRandom random -> Forall (fun d => 1500 <= d) (sleeps trace)).
Proof.
  intros trace. subst trace. unfold Gateway.callProvider.
  destruct (getModelId p (model request)).
  - change (Z.to_nat maxRetries) with 5%nat.
    destruct (attempts_sleeps fetch random p request 5 1 s) as (H1 & H2 & H3);
      [lia | reflexivity |].
    split; [exact H1 |]. split; [exact H2 |]. split; [| exact H3].
    unfold totalSleep.
    pose proof (totalSleep_bound _ _ H2) as Hsum. unfold maxDelayMs in Hsum.
    assert (Hlen : inject_Z (Z.of_nat (length (sleeps (emitted
                     (Gateway.attempts fetch random p request 5 1 s))))) <= 4).
    { change 4 with (inject_Z 4). rewrite <- Zle_Qle. lia. }
    nra.
  - cbn. repeat split; auto. unfold totalSleep. cbn. lra.
Qed.

Lemma noJitter_unit : unitRandom noJitter.
Proof. intros i. unfold noJitter. split; lra. Qed.

Lemma waits_are_few_and_bounded_witness :
  Forall2 Qeq
    (sleeps (emitted (callAnthropic (always overloaded) noJitter toClaude (mkNet 0 0))))
    [2000; 4000; 8000; 16000]
  /\ Forall (fun d => 1500 <= d)
            (sleeps (emitted (callAnthropic (always overloaded) noJitter toClaude
                                (mkNet 0 0)))).
Proof.
  split.
  - vm_compute. repeat constructor.
  - apply (waits_are_few_and_bounded (always overloaded) noJitter anthropic toClaude
             (mkNet 0 0)).
    exact noJitter_unit.
Defined.

End WaitFacts.

(** ** The retry hint of a rate-limit response *)

Module HintFacts.
Import Llm RateLimiter Gateway Waits Scenario Cases GatewayFacts BackoffFacts CallFacts.

Lemma takeWhile_app_stop (p : N -> bool) (a b : Js.str) :
  Forall (fun c => p c = true) a ->
  hd_error (List.map p b) <> Some true ->
  Js.takeWhile p (a ++ b) = a /\ Js.dropWhile p (a ++ b) = b.
Proof.
  intros Ha Hb. induction Ha as [| c a Hc _ IH]; cbn [app Js.takeWhile Js.dropWhile].
  - destruct b as [| c b]; [split; reflexivity |].
    cbn in Hb |- *. destruct (p c); [congruence | split; reflexivity].
  - rewrite Hc. destruct IH as [-> ->]. split; reflexivity.
Qed.

Lemma whitespace_is_no_digit (c : N) : Js.isWhiteSpace c = true -> Js.isDigit c = false.
Proof.
  unfold Js.isWhiteSpace, Js.isDigit. intros H.
  apply andb_false_iff.
  destruct (Z.leb_spec 48 (Z.of_N c)); [| left; reflexivity].
  destruct (Z.leb_spec (Z.of_N c) 57); [| right; reflexivity].
  exfalso. revert H.
  repeat match goal with
         | |- context [(?a <=? ?b)] => destruct (Z.leb_spec a b); try lia
         | |- context [(?a =? ?b)] => destruct (Z.eqb_spec a b); try lia
         end; cbn; discriminate.
Qed.

(** Lower-casing leaves digits and white space in place. *)
Lemma toLowerChar_s (c : N) :
  Js.toLowerChar c = 115%N -> Js.isDigit c = false /\ Js.isWhiteSpace c = false.
Proof.
  unfold Js.toLowerChar.
  destruct ((65 <=? Z.of_N c) && (Z.of_N c <=? 90)) eqn:Hu.
  - intros H. assert (c = 83%N) as -> by lia. split; reflexivity.
  - intros ->. split; reflexivity.
Qed.

Lemma startsWith_app (p x : Js.str) : Js.startsWith (p ++ x) p = true.
Proof.
  induction p as [| c p IH]; [destruct x; reflexivity |].
  cbn [app Js.startsWith]. rewrite N.eqb_refl. exact IH.
Qed.

(** In a message that reads, after a text without digits, a number, white
    space or none, and the word [second] in any case, the pattern
    [(\d+)\s*seconds?] captures that number. *)
Lemma matchSeconds_finds (pre ds ws word rest : Js.str) :
  Forall (fun c => Js.isDigit c = false) pre ->
  ds <> [] ->
  Forall (fun c => Js.isDigit c = true) ds ->
  Forall (fun c => Js.isWhiteSpace c = true) ws ->
  Js.toLowerCase word = Js.lit "second" ->
  matchSeconds (pre ++ ds ++ ws ++ word ++ rest) = Some ds.
Proof.
  intros Hpre Hne Hds Hws Hword.
  destruct word as [| w word]; [discriminate |].
  assert (Hw : Js.toLowerChar w = 115%N) by (injection Hword; auto).
  destruct (toLowerChar_s w Hw) as [Hwd Hww].
  assert (Hhere : secondsHere (ds ++ ws ++ (w :: word) ++ rest) = Some ds).
  { unfold secondsHere.
    destruct (takeWhile_app_stop Js.isDigit ds (ws ++ (w :: word) ++ rest) Hds)
      as [-> ->].
    { destruct Hws as [| c ws Hc _]; cbn; [rewrite Hwd; discriminate |].
      rewrite (whitespace_is_no_digit c Hc). discriminate. }
    destruct ds as [| d ds']; [congruence |].
    destruct (takeWhile_app_stop Js.isWhiteSpace ws ((w :: word) ++ rest) Hws)
      as [_ ->].
    { cbn. rewrite Hww. discriminate. }
    unfold Js.toLowerCase. rewrite List.map_app.
    fold (Js.toLowerCase (w :: word)). rewrite Hword.
    rewrite startsWith_app. reflexivity. }
  induction Hpre as [| c pre Hc _ IH].
  - cbn [app]. destruct ds as [| d ds']; [congruence |].
    cbn [app matchSeconds] in Hhere |- *. rewrite Hhere. reflexivity.
  - cbn [app matchSeconds]. unfold secondsHere at 1. cbn [Js.takeWhile].
    rewrite Hc. exact IH.
Qed.

(** [parseInt] of a run of digits is its decimal value. *)
Lemma parseInt_digits (ds : Js.str) :
  ds <> [] -> Forall (fun c => Js.isDigit c = true) ds ->
  Js.parseInt ds = Some (Js.digitsValue ds).
Proof.
  intros Hne Hds. unfold Js.parseInt, Js.trimStart.
  destruct ds as [| d ds']; [congruence |].
  assert (Hd : Js.isDigit d = true) by (inversion Hds; assumption).
  assert (Hnw : Js.isWhiteSpace d = false).
  { destruct (Js.isWhiteSpace d) eqn:E; [| reflexivity].
    apply whitespace_is_no_digit in E. congruence. }
  cbn [Js.dropWhile]. rewrite Hnw.
  assert (d <> 45%N /\ d <> 43%N) as [H45 H43].
  { split; intros ->; discriminate. }
  destruct (takeWhile_app_stop Js.isDigit (d :: ds') [] Hds) as [Htake _];
    [cbn; discriminate |].
  rewrite app_nil_r in Htake.
  destruct d as [| q]; [discriminate |].
  repeat (destruct q as [q | q |]; try congruence; try (rewrite Htake; reflexivity)).
Qed.


(** A rate-limit response with a positive retry delay: the first wait of
    the call is that delay plus half a second, capped, and it is announced
    before it is slept. *)
Lemma hinted_wait (fetch : nat -> FetchResult) (random : nat -> Q)
    (p : ModelProvider) (request : LLMRequest) (s : Net) (r : Response) (ms : Z) :
  getModelId p (model request) <> None ->
  fetch (fetches s) = Responds r ->
  isRateLimitError (status r) None = true ->
  extractRetryAfterMs r = Some ms ->
  0 < ms ->
  exists rest,
    emitted (Gateway.callProvider fetch random p request s)
    = Fetch p 1
      :: RateLimitWait p (Qmin (inject_Z ms + 500) maxDelayMs) 1
      :: Sleep (Qmin (inject_Z ms + 500) maxDelayMs) :: rest.
Proof.
  intros Hm Hf Hrl Hms Hpos. unfold Gateway.callProvider.
  destruct (getModelId p (model request)); [| congruence].
  change (Z.to_nat maxRetries) with 5%nat.
  assert (Hr : isRetryable r = true) by (unfold isRetryable; rewrite Hrl; reflexivity).
  destruct (retry_step fetch random p request 4 1 s r Hf Hr) as (d & s' & Hd & _ & ->);
    [reflexivity |].
  cbn [emitted]. unfold waitEvents. rewrite Hrl.
  assert (d = Qmin (inject_Z ms + 500) maxDelayMs) as ->.
  { unfold backoffDelay, hintOf in Hd. rewrite Hrl, Hms in Hd. cbn [option_map] in Hd.
    rewrite positiveHint_positive in Hd.
    - unfold calculateBackoffDelay in Hd. rewrite positiveHint_positive in Hd.
      + injection Hd as <- _. reflexivity.
      + change 0%Q with (inject_Z 0). rewrite <- Zlt_Qlt. exact Hpos.
    - change 0%Q with (inject_Z 0). rewrite <- Zlt_Qlt. exact Hpos. }
  eexists. reflexivity.
Qed.

Lemma truthy_app (a b : Js.str) : b <> [] -> Js.truthy (a ++ b) = true.
Proof. destruct a, b; cbn; congruence. Qed.

(** X5. When the error message of a rate-limit response reads, after a
    text without digits, a number N > 0, optional white space and the word
    "second" in any case, the call announces and sleeps a first wait of
    N seconds plus half a second, capped at two minutes, whatever the
    [Retry-After] header of the response says and whatever the random
    number is. *)
Theorem message_seconds_set_the_wait
    (fetch : nat -> FetchResult) (random : nat -> Q)
    (p : ModelProvider) (request : LLMRequest) (s : Net) (r : Response)
    (pre ds ws word rest : Js.str) :
  getModelId p (model request) <> None ->
  fetch (fetches s) = Responds r ->
  isRateLimitError (status r) None = true ->
  errorMessage r = Some (pre ++ ds ++ ws ++ word ++ rest) ->
  Forall (fun c => Js.isDigit c = false) pre ->
  ds <> [] ->
  Forall (fun c => Js.isDigit c = true) ds ->
  Forall (fun c => Js.isWhiteSpace c = true) ws ->
  Js.toLowerCase word = Js.lit "second" ->
  0 < Js.digitsValue ds ->
  exists events,
    emitted (Gateway.callProvider fetch random p request s)
    = Fetch p 1
      :: RateLimitWait p (Qmin (inject_Z (Js.digitsValue ds * 1000) + 500) 120000) 1
      :: Sleep (Qmin (inject_Z (Js.digitsValue ds * 1000) + 500) 120000) :: events.
Proof.
  intros Hm Hf Hrl Hmsg Hpre Hne Hds Hws Hword Hpos.
  apply (hinted_wait fetch random p request s r _ Hm Hf Hrl); [| lia].
  unfold extractRetryAfterMs. rewrite Hmsg.
  rewrite truthy_app by (destruct ds; [congruence | discriminate]).
  rewrite (matchSeconds_finds pre ds ws word rest Hpre Hne Hds Hws Hword).
  rewrite (parseInt_digits ds Hne Hds). reflexivity.
Qed.

Lemma message_seconds_set_the_wait_witness :
  exists events,
    emitted (callOpenAI (always tryAgainIn20) noJitter toChatGpt (mkNet 0 0))
    = Fetch openai 1 :: RateLimitWait openai (Qmin (inject_Z (20 * 1000) + 500) 120000) 1
      :: Sleep (Qmin (inject_Z (20 * 1000) + 500) 120000) :: events.
Proof.
  apply (message_seconds_set_the_wait (always tryAgainIn20) noJitter openai toChatGpt
           (mkNet 0 0) tryAgainIn20
           (Js.lit "Rate limit reached. Please try again in ") (Js.lit "20")
           (Js.lit " ") (Js.lit "second") (Js.lit "s.")).
  - discriminate.
  - reflexivity.
  - reflexivity.
  - reflexivity.
  - repeat constructor.
  - discriminate.
  - repeat constructor.
  - repeat constructor.
  - reflexivity.
  - reflexivity.
Defined.

(** X6. When the error message of a rate-limit response holds no number
    of seconds and its [Retry-After] header holds a number N > 0, the call
    announces and sleeps a first wait of N seconds plus half a second,
    capped at two minutes. *)
Theorem retry_after_header_sets_the_wait
    (fetch : nat -> FetchResult) (random : nat -> Q)
    (p : ModelProvider) (request : LLMRequest) (s : Net) (r : Response)
    (v : Js.str) (n : Z) :
  getModelId p (model request) <> None ->
  fetch (fetches s) = Responds r ->
  isRateLimitError (status r) None = true ->
  noSecondsInMessage r ->
  retry_after (headers r) = Some v ->
  Js.parseInt v = Some n ->
  0 < n ->
  exists events,
    emitted (Gateway.callProvider fetch random p request s)
    = Fetch p 1
      :: RateLimitWait p (Qmin (inject_Z (n * 1000) + 500) 120000) 1
      :: Sleep (Qmin (inject_Z (n * 1000) + 500) 120000) :: events.
Proof.
  intros Hm Hf Hrl Hno Hv Hn Hpos.
  apply (hinted_wait fetch random p request s r _ Hm Hf Hrl); [| lia].
  assert (Hh : retryAfterMs (parseRateLimitHeaders (headers r)) = Some (n * 1000)).
  { unfold parseRateLimitHeaders. cbn [retryAfterMs]. rewrite Hv.
    destruct v as [| c v]; [discriminate |]. cbn [Js.truthy]. rewrite Hn. reflexivity. }
  unfold extractRetryAfterMs. rewrite Hh.
  destruct (errorMessage r) as [m |] eqn:Hmsg; [| reflexivity].
  rewrite (Hno m Hmsg). destruct (Js.truthy m); reflexivity.
Qed.

Lemma retryAfter7_has_no_seconds : noSecondsInMessage retryAfter7.
Proof. intros m [= <-]. reflexivity. Qed.

Lemma retry_after_header_sets_the_wait_witness :
  exists events,
    emitted (callAnthropic (always retryAfter7) noJitter toClaude (mkNet 0 0))
    = Fetch anthropic 1
      :: RateLimitWait anthropic (Qmin (inject_Z (7 * 1000) + 500) 120000) 1
      :: Sleep (Qmin (inject_Z (7 * 1000) + 500) 120000) :: events.
Proof.
  apply (retry_after_header_sets_the_wait (always retryAfter7) noJitter anthropic
           toClaude (mkNet 0 0) retryAfter7 (Js.lit "7") 7).
  - discriminate.
  - reflexivity.
  - reflexivity.
  - exact retryAfter7_has_no_seconds.
  - reflexivity.
  - reflexivity.
  - reflexivity.
Defined.

End HintFacts.

(** ** Keys and providers *)

Module KeyFacts.
Import Llm RateLimiter Gateway Waits Scenario Cases GatewayFacts CallFacts.

(** Every model is routed to a provider that knows it. *)
Lemma provider_supports_model (m : ModelType) : getModelId (getModelProvider m) m <> None.
Proof. destruct m; discriminate. Qed.

Lemma call_sends_a_request (fetch : nat -> FetchResult) (random : nat -> Q)
    (p : ModelProvider) (request : LLMRequest) (s : Net) :
  getModelId p (model request) <> None ->
  (1 <= attemptsMade (emitted (Gateway.callProvider fetch random p request s)))%nat.
Proof.
  intros Hm. unfold Gateway.callProvider.
  destruct (getModelId p (model request)); [| congruence].
  change (Z.to_nat maxRetries) with 5%nat.
  destruct (attempts_cases fetch random p request 4 1 s)
    as [[H _] | (waits & s' & _ & _ & _ & _ & ->)]; [lia |].
  cbn. lia.
Qed.

Lemma validateApiKeys_spec (apiKeys : APIKeys) (executorModel reviewerModel : ModelType) :
  validateApiKeys apiKeys executorModel reviewerModel = []
  <-> keyTruthy (keyFor apiKeys (getModelProvider executorModel)) = true
      /\ keyTruthy (keyFor apiKeys (getModelProvider reviewerModel)) = true.
Proof.
  unfold validateApiKeys.
  destruct (getModelProvider executorModel), (getModelProvider reviewerModel);
    cbn [keyFor bool_decide decide_rel]; cbn;
    destruct (keyTruthy (anthropicKey apiKeys)), (keyTruthy (openaiKey apiKeys));
    cbn; split; try tauto; try discriminate; intros [? ?]; discriminate.
Qed.

(** X7. Without a key for the provider of the requested model (the key is
    absent or the empty string), [generate] rejects with the message that
    names the provider, sends no request and leaves the network as it was,
    whether or not the key of the other provider is there. *)
Theorem generate_without_key_sends_nothing
    (fetch : nat -> FetchResult) (random : nat -> Q)
    (apiKeys : APIKeys) (request : LLMRequest) (s : Net) :
  keyTruthy (keyFor apiKeys (getModelProvider (model request))) = false ->
  Gateway.generate fetch random apiKeys request s
  = mkOut (Throw (keyRequired (getModelProvider (model request)))) s [].
Proof.
  unfold Gateway.generate. destruct (getModelProvider (model request));
    cbn [keyFor keyRequired]; intros ->; reflexivity.
Qed.

Lemma generate_without_key_sends_nothing_witness :
  Gateway.generate (always (success (Js.lit "ir::contract"))) noJitter openaiKeyOnly
                   toClaude (mkNet 0 0)
  = mkOut (Throw (Js.lit "Anthropic API key is required for Claude models"))
          (mkNet 0 0) [].
Proof.
  apply (generate_without_key_sends_nothing
           (always (success (Js.lit "ir::contract"))) noJitter openaiKeyOnly toClaude
           (mkNet 0 0)).
  reflexivity.
Defined.

(** X8. When [validateApiKeys] reports no error for an executor model and a
    reviewer model, a [generate] request for either model is handed to the
    provider of that model, which supports it, and at least one request is
    sent: it is never rejected for a missing key or an unsupported model. *)
Theorem validated_keys_reach_the_provider
    (fetch : nat -> FetchResult) (random : nat -> Q)
    (apiKeys : APIKeys) (executorModel reviewerModel : ModelType)
    (request : LLMRequest) (s : Net) :
  validateApiKeys apiKeys executorModel reviewerModel = [] ->
  model request = executorModel \/ model request = reviewerModel ->
  Gateway.generate fetch random apiKeys request s
  = Gateway.callProvider fetch random (getModelProvider (model request)) request s
  /\ getModelId (getModelProvider (model request)) (model request) <> None
  /\ (1 <= attemptsMade (emitted (Gateway.generate fetch random apiKeys request s)))%nat.
Proof.
  intros Hv Hmodel. apply validateApiKeys_spec in Hv as [He Hr].
  assert (Hk : keyTruthy (keyFor apiKeys (getModelProvider (model request))) = true).
  { destruct Hmodel as [-> | ->]; assumption. }
  assert (Hg : Gateway.generate fetch random apiKeys request s
               = Gateway.callProvider fetch random (getModelProvider (model request))
                   request s).
  { unfold Gateway.generate.
    destruct (getModelProvider (model request)); cbn [keyFor] in Hk; rewrite Hk;
      reflexivity. }
  split; [exact Hg |]. split; [apply provider_supports_model |].
  rewrite Hg. apply call_sends_a_request, provider_supports_model.
Qed.

Lemma validated_keys_reach_the_provider_witness :
  Gateway.generate (always unauthorized) noJitter bothKeys toChatGpt (mkNet 0 0)
  = callOpenAI (always unauthorized) noJitter toChatGpt (mkNet 0 0)
  /\ (1 <= attemptsMade (emitted (Gateway.generate (always unauthorized) noJitter bothKeys
                                    toChatGpt (mkNet 0 0))))%nat.
Proof.
  destruct (validated_keys_reach_the_provider (always unauthorized) noJitter bothKeys
              claude_sonnet_4_5 chatgpt_5_2 toChatGpt (mkNet 0 0) eq_refl
              (or_intror eq_refl)) as (H1 & _ & H3).
  split; [exact H1 | exact H3].
Defined.

End KeyFacts.

(** ** Runs: what the model is asked and what a failure does *)

Module RunFacts.
Import Spec Agent Pipeline Runs AgentFacts PipelineFacts ResumeFacts ReviewFacts.

Lemma wellFormedHistory_nil (t : IRType) : wellFormedHistory t [].
Proof. split; [reflexivity | constructor]. Qed.

Lemma wellFormedHistory_snoc (t : IRType) (history : list FeedbackEntry)
    (entry : FeedbackEntry) :
  wellFormedHistory t history ->
  Spec.cycle entry = Z.of_nat (length history) + 1 ->
  artifactType entry = t ->
  reviewerFeedback entry <> [] ->
  wellFormedHistory t (history ++ [entry]).
Proof.
  intros [Hc Hf] Hcycle Ht Hfb. split.
  - rewrite List.map_app, Hc, length_app, seq_app, List.map_app. cbn.
    rewrite Hcycle. do 2 f_equal. lia.
  - apply Forall_app. split; [exact Hf |]. constructor; [auto | constructor].
Qed.

Section Cycles.

Variable llm : nat -> Res Js.str.
Variable clock : nat -> Z.
Variable maxFeedbackCycles : Z.

Local Abbreviation cycles := (Agent.cycles llm clock maxFeedbackCycles).

(** The loop keeps the history in step with the cycle counter. *)
Lemma cycles_informed agent t n :
  forall cycle history artifact s,
    cycle = Z.of_nat (length history) + 1 ->
    wellFormedHistory t history ->
    let out := cycles agent t n cycle history artifact s in
    Forall informed (emitted out)
    /\ forall r, result out = Ok r ->
         wellFormedHistory t (feedbackHistory r)
         /\ (approved r = true ->
             Z.of_nat (length (feedbackHistory r)) = cyclesUsed r - 1)
         /\ (approved r = false ->
             length (feedbackHistory r) = (length history + n)%nat).
Proof.
  induction n as [| n IH]; intros cycle history artifact s Hcycle Hwf.
  - cbn. split; [constructor |]. intros r [= <-]. cbn.
    split; [exact Hwf |]. split; [discriminate | intros _; lia].
  - assert (Hev : Forall informed (Agent.cycleEvents maxFeedbackCycles agent t cycle
                                     history s)).
    { unfold Agent.cycleEvents.
      constructor; [exact I |]. constructor; [split; assumption |].
      constructor; [split; assumption | constructor]. }
    destruct (cycles_cases llm clock maxFeedbackCycles agent t n cycle history artifact s)
      as [(m & ->) | [(m & ->) | [(g & Hg) | (g & Hg)]]].
    + cbn [result emitted]. split; [| discriminate].
      constructor; [exact I |]. constructor; [split; assumption | constructor].
    + cbn [result emitted]. split; [exact Hev | discriminate].
    + rewrite (cycles_approved llm clock maxFeedbackCycles agent t n cycle history
                 artifact s g Hg).
      cbn [result emitted]. split; [exact Hev |]. intros r [= <-].
      cbn [feedbackHistory approved cyclesUsed].
      split; [exact Hwf |]. split; [intros _; lia | discriminate].
    + pose proof Hg as (Hgen & rv & Hrv & Hrej).
      assert (Heq : cycles agent t (S n) cycle history artifact s
                    = let next := cycles agent t n (cycle + 1)
                                    (history ++ [Agent.cycleEntry clock t cycle g rv s])
                                    (Some (Agent.cycleArtifact clock agent t g s))
                                    (afterCycle s) in
                      mkOut (result next) (final next)
                            (Agent.cycleEvents maxFeedbackCycles agent t cycle history s
                             ++ emitted next)).
      { cbn [Agent.cycles].
        unfold mbind, M_bind, bind, emit, llmGenerate, now.
        cbn [result final emitted calls previousArtifacts].
        rewrite Hgen. cbn [result final emitted calls previousArtifacts].
        rewrite Hrv. cbn [result final emitted calls previousArtifacts].
        rewrite Hrej. cbn [result final emitted calls previousArtifacts].
        fold (afterCycle s).
        destruct (Agent.cycles _ _ _ _ _ _ _ _ _ (afterCycle s)) as [[res | e] fin ev];
          reflexivity. }
      cbn zeta in Heq |- *. rewrite Heq. clear Heq. cbn [result final emitted].
      destruct (IH (cycle + 1) (history ++ [Agent.cycleEntry clock t cycle g rv s])
                   (Some (Agent.cycleArtifact clock agent t g s)) (afterCycle s))
        as [IHev IHres].
      { rewrite length_app. cbn. lia. }
      { apply wellFormedHistory_snoc; try assumption; try reflexivity.
        cbn. apply rejection_has_feedback. exact Hrej. }
      split; [apply Forall_app; split; assumption |].
      intros r Hr. destruct (IHres r Hr) as (H1 & H2 & H3).
      split; [exact H1 |]. split; [exact H2 |].
      intros Hna. rewrite (H3 Hna), length_app. cbn. lia.
Qed.

(** The loop counts its calls: the call counter moves by one for each
    generate and each review call; a loop that returns after at least one
    iteration has made a generate call, and as many review calls. *)
Lemma cycles_count agent t n :
  forall cycle history artifact s,
    let out := cycles agent t n cycle history artifact s in
    calls (final out)
    = (calls s + generateCalls (emitted out) + reviewCalls (emitted out))%nat
    /\ (generateCalls (emitted out) <= n)%nat
    /\ (reviewCalls (emitted out) <= generateCalls (emitted out))%nat
    /\ (forall r, result out = Ok r -> (1 <= n)%nat ->
          (1 <= generateCalls (emitted out))%nat
          /\ reviewCalls (emitted out) = generateCalls (emitted out)).
Proof.
  induction n as [| n IH]; intros cycle history artifact s.
  - cbn. repeat split; try lia.
  - destruct (cycles_cases llm clock maxFeedbackCycles agent t n cycle history artifact s)
      as [(m & ->) | [(m & ->) | [(g & Hg) | (g & Hg)]]].
    + cbn. repeat split; try lia; discriminate.
    + cbn. repeat split; try lia; discriminate.
    + rewrite (cycles_approved llm clock maxFeedbackCycles agent t n cycle history
                 artifact s g Hg).
      cbn. repeat split; lia.
    + destruct (cycles_rejected llm clock maxFeedbackCycles agent t n cycle history
                  artifact s g Hg) as (entry & Heq).
      cbn zeta in Heq |- *. rewrite Heq. clear Heq. cbn [result final emitted].
      specialize (IH (cycle + 1) (history ++ [entry])
                     (Some (Agent.cycleArtifact clock agent t g s)) (afterCycle s)).
      cbn zeta in IH. destruct IH as (IH1 & IH2 & IH3 & IH4).
      unfold generateCalls, reviewCalls in *. rewrite !callsOf_app.
      change (callsOf Executor (Agent.cycleEvents maxFeedbackCycles agent t cycle
                                  history s)) with 1%nat.
      change (callsOf Reviewer (Agent.cycleEvents maxFeedbackCycles agent t cycle
                                  history s)) with 1%nat.
      cbn [calls afterCycle] in IH1.
      split; [lia |]. split; [lia |]. split; [lia |].
      intros r Hr _. split; [lia |].
      destruct n as [| n].
      * cbn. reflexivity.
      * destruct (IH4 r Hr) as [_ Hrv]; lia.
Qed.

Lemma firstFailure_later (from from' c : nat) (message : Js.str) :
  firstFailure llm from c message -> (from <= from' <= c)%nat ->
  firstFailure llm from' c message.
Proof.
  intros (_ & Hc & Hok) Hle. split; [lia |]. split; [exact Hc |].
  intros c' Hc'. apply Hok. lia.
Qed.

(** When call [c] is the first call that fails, the loop either is through
    before it comes to call [c] or is ended by the failure of call [c]. *)
Lemma cycles_first_failure agent t (c : nat) (message : Js.str) n :
  forall cycle history artifact s,
    firstFailure llm (calls s) c message ->
    let out := cycles agent t n cycle history artifact s in
    (exists r, result out = Ok r /\ (calls (final out) <= c)%nat)
    \/ (result out = Throw message /\ calls (final out) = S c).
Proof.
  induction n as [| n IH]; intros cycle history artifact s Hff.
  - left. eexists. split; [reflexivity |]. cbn. destruct Hff. assumption.
  - destruct Hff as (Hle & Hc & Hok).
    destruct (Nat.eq_dec (calls s) c) as [Heq | Hne].
    + right. rewrite <- Heq in Hc.
      rewrite (cycles_executor_throws llm clock maxFeedbackCycles agent t n cycle history
                 artifact s message Hc).
      cbn. split; [reflexivity | lia].
    + destruct (Hok (calls s)) as (g & Hg); [lia |].
      destruct (Nat.eq_dec (S (calls s)) c) as [Heq | Hne'].
      * right. rewrite <- Heq in Hc.
        rewrite (cycles_reviewer_throws llm clock maxFeedbackCycles agent t n cycle
                   history artifact s g message Hg Hc).
        cbn. split; [reflexivity | lia].
      * destruct (Hok (S (calls s))) as (rv & Hrv); [lia |].
        destruct (Prompts.approved (Prompts.parseReviewResult rv)) eqn:Happ.
        -- left.
           rewrite (cycles_approved llm clock maxFeedbackCycles agent t n cycle history
                      artifact s g); [| split; [exact Hg | eauto]].
           eexists. split; [reflexivity |]. cbn. lia.
        -- destruct (cycles_rejected llm clock maxFeedbackCycles agent t n cycle history
                       artifact s g) as (entry & Heq); [split; [exact Hg | eauto] |].
           cbn zeta in Heq |- *. rewrite Heq. cbn [result final].
           apply IH. split; [cbn; lia |]. split; [exact Hc |].
           intros c' Hc'. apply Hok. cbn in Hc'. lia.
Qed.

End Cycles.

Lemma callsOf_callback (role : Role) (e : Event) (l : list Event) :
  isCall role e = false -> callsOf role (e :: l) = callsOf role l.
Proof. intros H. unfold callsOf. cbn [List.filter]. rewrite H. reflexivity. Qed.

(** Count the calls of a trace made of callbacks and of the traces of
    feedback cycles, stages and runs. *)
Ltac count_calls :=
  unfold generateCalls, reviewCalls in *;
  repeat first
    [ rewrite callsOf_app
    | rewrite callsOf_callback by reflexivity
    | change (callsOf ?role []) with 0%nat ].

Section Stages.

Variable llm : nat -> Res Js.str.
Variable clock : nat -> Z.
Variable maxFeedbackCycles : Z.

Local Abbreviation engine := (generateWithFeedbackCycle llm clock maxFeedbackCycles).
Local Abbreviation produce := (Agent.produce llm clock maxFeedbackCycles).
Local Abbreviation execute := (Agent.execute llm clock maxFeedbackCycles).
Local Abbreviation stages := (Pipeline.stages llm clock maxFeedbackCycles).

(** A property of events that holds of the callbacks and of the events
    of every feedback cycle holds of the events of a stage and of a run. *)
Lemma produce_events (P : Event -> Prop) agent irTypes :
  (forall t, P (ArtifactStart t)) ->
  (forall a, P (ArtifactComplete a)) ->
  (forall t s, Forall P (emitted (engine agent t s))) ->
  forall made s, Forall P (emitted (produce agent irTypes made s)).
Proof.
  intros Hstart Hdone Hengine.
  induction irTypes as [| t rest IH]; intros made s; [constructor |].
  destruct (result (engine agent t s)) as [r | message] eqn:Hres.
  - pose proof (produce_next llm clock maxFeedbackCycles agent t rest made s r Hres)
      as Heq.
    cbn zeta in Heq. rewrite Heq. cbn [emitted].
    constructor; [apply Hstart |]. apply Forall_app. split; [apply Hengine |].
    constructor; [apply Hdone | apply IH].
  - rewrite (produce_failed llm clock maxFeedbackCycles agent t rest made s message Hres).
    cbn [emitted]. constructor; [apply Hstart | apply Hengine].
Qed.

Lemma stages_shape agent rest i all s :
  exists ar,
    result (execute agent s) = Ok ar
    /\ ((exists message,
           stages (agent :: rest) i all s
           = mkOut (Ok {| success := false; artifacts := all;
                          error := Spec.error ar |})
                   (final (execute agent s))
                   (StageStart (i + 1) agent :: emitted (execute agent s)
                    ++ [Error message])
           /\ Spec.success ar = false)
        \/ (exists all' s',
              stages (agent :: rest) i all s
              = mkOut (Ok {| success := false; artifacts := all';
                             error := Some nullIrTypeError |})
                      s'
                      (StageStart (i + 1) agent :: emitted (execute agent s)
                       ++ [Error nullIrTypeError])
              /\ Spec.success ar = true
              /\ calls s' = calls (final (execute agent s))
              /\ ~ Forall is_Some (Spec.artifacts ar))
        \/ (exists all' s',
              stages (agent :: rest) i all s
              = mkOut (result (stages rest (S i) all' s'))
                      (final (stages rest (S i) all' s'))
                      (StageStart (i + 1) agent :: emitted (execute agent s)
                       ++ StageComplete (i + 1) agent (Spec.artifacts ar)
                          :: emitted (stages rest (S i) all' s'))
              /\ Spec.success ar = true
              /\ calls s' = calls (final (execute agent s))
              /\ all' = (collect (Spec.artifacts ar) all
                           (previousArtifacts (final (execute agent s)))).1.1
              /\ previousArtifacts s'
                 = (collect (Spec.artifacts ar) all
                      (previousArtifacts (final (execute agent s)))).1.2)).
Proof.
  destruct (execute_spec llm clock maxFeedbackCycles agent s) as (ar & Har & _).
  exists ar. split; [exact Har |].
  destruct (Spec.success ar) eqn:Hs.
  - destruct (collect (Spec.artifacts ar) all
                (previousArtifacts (final (execute agent s)))).2 eqn:Hc.
    + right. right. eexists _, _.
      pose proof (stages_next llm clock maxFeedbackCycles agent rest i all s ar Har Hs Hc)
        as Heq.
      cbn zeta in Heq. split; [exact Heq |]. repeat split.
    + right. left. eexists _, _.
      split; [exact (stages_null_artifact llm clock maxFeedbackCycles agent rest i all s
                       ar Har Hs Hc) |].
      split; [reflexivity |]. split; [reflexivity |]. intros Hsome.
      destruct (collect_complete (Spec.artifacts ar) Hsome all
                  (previousArtifacts (final (execute agent s)))) as [_ Hc'].
      congruence.
  - left. eexists. split; [| reflexivity].
    exact (stages_agent_failed llm clock maxFeedbackCycles agent rest i all s ar Har Hs).
Qed.

Lemma stages_events (P : Event -> Prop) :
  (forall i agent, P (StageStart i agent)) ->
  (forall i agent produced, P (StageComplete i agent produced)) ->
  (forall message, P (Error message)) ->
  (forall t, P (ArtifactStart t)) ->
  (forall a, P (ArtifactComplete a)) ->
  (forall agent t s, Forall P (emitted (engine agent t s))) ->
  forall agents i all s, Forall P (emitted (stages agents i all s)).
Proof.
  intros Hss Hsc Herr Hstart Hdone Hengine.
  induction agents as [| agent rest IH]; intros i all s; [constructor |].
  assert (Hex : Forall P (emitted (execute agent s))).
  { apply produce_events; auto. }
  destruct (stages_shape agent rest i all s)
    as (ar & _ & [(m & -> & _) | [(a' & s' & -> & _) | (a' & s' & -> & _)]]);
    cbn [emitted]; constructor; try apply Hss; apply Forall_app; split; try exact Hex.
  - constructor; [apply Herr | constructor].
  - constructor; [apply Herr | constructor].
  - constructor; [apply Hsc | apply IH].
Qed.

(** The calls of a stage: the counter moves by one for each call; there
    are at most [n] generate calls for each declared type, never more
    review calls than generate calls; a stage that succeeds on a positive
    budget has made at least one generate call for each type, and as many
    review calls. *)
Lemma produce_count agent irTypes :
  forall made s,
    let out := produce agent irTypes made s in
    calls (final out)
    = (calls s + generateCalls (emitted out) + reviewCalls (emitted out))%nat
    /\ (generateCalls (emitted out)
        <= Z.to_nat maxFeedbackCycles * length irTypes)%nat
    /\ (reviewCalls (emitted out) <= generateCalls (emitted out))%nat
    /\ (forall ar, result out = Ok ar -> Spec.success ar = true ->
          1 <= maxFeedbackCycles ->
          (length irTypes <= generateCalls (emitted out))%nat
          /\ reviewCalls (emitted out) = generateCalls (emitted out)).
Proof.
  induction irTypes as [| t rest IH]; intros made s.
  - cbn. repeat split; lia.
  - destruct (cycles_count llm clock maxFeedbackCycles agent t
                (Z.to_nat maxFeedbackCycles) 1 [] None s) as (E1 & E2 & E3 & E4).
    fold (engine agent t s) in E1, E2, E3, E4.
    destruct (result (engine agent t s)) as [r | message] eqn:Hres.
    + pose proof (produce_next llm clock maxFeedbackCycles agent t rest made s r Hres)
        as Heq.
      cbn zeta in Heq |- *. rewrite Heq. clear Heq. cbn [result final emitted].
      specialize (IH (made ++ [Spec.artifact r])
                     (filed t (Spec.artifact r) (final (engine agent t s)))).
      cbn zeta in IH. destruct IH as (I1 & I2 & I3 & I4).
      cbn [filed calls] in I1.
      count_calls.
      cbn [length]. split; [lia |]. split; [lia |]. split; [lia |].
      intros ar Har Hs Hmax. destruct (I4 ar Har Hs Hmax) as [I5 I6].
      destruct (E4 r eq_refl) as [E5 E6]; [lia |]. lia.
    + rewrite (produce_failed llm clock maxFeedbackCycles agent t rest made s message
                 Hres).
      cbn [result final emitted].
      count_calls.
      cbn [length]. split; [lia |]. split; [lia |]. split; [lia |].
      intros ar [= <-]. discriminate.
Qed.

Lemma stages_count agents :
  forall i all s,
    let out := stages agents i all s in
    calls (final out)
    = (calls s + generateCalls (emitted out) + reviewCalls (emitted out))%nat
    /\ (generateCalls (emitted out)
        <= Z.to_nat maxFeedbackCycles * length (flat_map getOutputIRTypes agents))%nat
    /\ (reviewCalls (emitted out) <= generateCalls (emitted out))%nat
    /\ (forall pr, result out = Ok pr -> success pr = true ->
          1 <= maxFeedbackCycles ->
          (length (flat_map getOutputIRTypes agents) <= generateCalls (emitted out))%nat
          /\ reviewCalls (emitted out) = generateCalls (emitted out)).
Proof.
  induction agents as [| agent rest IH]; intros i all s.
  - cbn. repeat split; lia.
  - destruct (produce_count agent (getOutputIRTypes agent) [] s) as (E1 & E2 & E3 & E4).
    fold (execute agent s) in E1, E2, E3, E4.
    cbn [flat_map]. rewrite length_app.
    destruct (stages_shape agent rest i all s)
      as (ar & Har & [(m & -> & Hs) | [(a' & s' & -> & Hs & Hcalls & _)
                                      | (a' & s' & -> & Hs & Hcalls & _)]]);
      cbn [result final emitted]; count_calls.
    + split; [lia |]. split; [lia |]. split; [lia |].
      intros pr [= <-]. discriminate.
    + split; [lia |]. split; [lia |]. split; [lia |].
      intros pr [= <-]. discriminate.
    + specialize (IH (S i) a' s'). cbn zeta in IH. destruct IH as (I1 & I2 & I3 & I4).
      split; [lia |]. split; [lia |]. split; [lia |].
      intros pr Hpr Hok Hmax. destruct (I4 pr Hpr Hok Hmax) as [I5 I6].
      destruct (E4 ar Har Hs Hmax) as [E5 E6]. lia.
Qed.

(** The same for a stage: it succeeds before call [c] is made, or fails
    with the error of call [c] right after it. *)
Lemma produce_first_failure agent (c : nat) (message : Js.str) irTypes :
  forall made s,
    firstFailure llm (calls s) c message ->
    let out := produce agent irTypes made s in
    exists ar,
      result out = Ok ar
      /\ ((Spec.success ar = true /\ (calls (final out) <= c)%nat)
          \/ (Spec.success ar = false /\ Spec.error ar = Some message
              /\ calls (final out) = S c)).
Proof.
  induction irTypes as [| t rest IH]; intros made s Hff.
  - eexists. split; [reflexivity |]. left. cbn. destruct Hff. auto.
  - destruct (cycles_first_failure llm clock maxFeedbackCycles agent t c message
                (Z.to_nat maxFeedbackCycles) 1 [] None s Hff)
      as [(r & Hr & Hle) | (Hthrow & Hcalls)];
      fold (engine agent t s) in *.
    + pose proof (produce_next llm clock maxFeedbackCycles agent t rest made s r Hr)
        as Heq.
      cbn zeta in Heq |- *. rewrite Heq. clear Heq. cbn [result final].
      apply IH. cbn [filed calls].
      destruct (engine_spec llm clock maxFeedbackCycles agent t s) as (_ & Hmono & _).
      apply (firstFailure_later llm (calls s)); [exact Hff | lia].
    + rewrite (produce_failed llm clock maxFeedbackCycles agent t rest made s message
                 Hthrow).
      cbn [result final]. eexists. split; [reflexivity |]. right. cbn. auto.
Qed.

Lemma execute_calls_grow agent s : (calls s <= calls (final (execute agent s)))%nat.
Proof.
  destruct (produce_count agent (getOutputIRTypes agent) [] s) as (H & _).
  fold (execute agent s) in H. lia.
Qed.

Lemma stages_first_failure (c : nat) (message : Js.str) agents :
  1 <= maxFeedbackCycles ->
  forall i all s,
    firstFailure llm (calls s) c message ->
    let out := stages agents i all s in
    exists pr,
      result out = Ok pr
      /\ ((success pr = true /\ error pr = None /\ (calls (final out) <= c)%nat)
          \/ (success pr = false /\ error pr = Some message
              /\ calls (final out) = S c)).
Proof.
  intros Hmax. induction agents as [| agent rest IH]; intros i all s Hff.
  - eexists. split; [reflexivity |]. left. cbn. destruct Hff. auto.
  - destruct (produce_first_failure agent c message (getOutputIRTypes agent) [] s Hff)
      as (ar0 & Har0 & Hcases).
    fold (execute agent s) in Har0, Hcases.
    destruct (execute_spec llm clock maxFeedbackCycles agent s) as (ar1 & Har1 & _ & Hsome & _).
    specialize (Hsome Hmax).
    destruct (stages_shape agent rest i all s)
      as (ar & Har & [(m & -> & Hs) | [(a' & s' & -> & Hs & _ & Hnull)
                                      | (a' & s' & -> & Hs & Hcalls & _)]]);
      cbn [result final].
    + assert (ar0 = ar) as -> by congruence.
      eexists. split; [reflexivity |]. right. cbn.
      destruct Hcases as [[Hs' _] | (_ & Herr & Hc)]; [congruence | auto].
    + exfalso. apply Hnull. assert (ar1 = ar) as -> by congruence. exact Hsome.
    + assert (ar0 = ar) as -> by congruence.
      destruct Hcases as [[_ Hle] | (Hs' & _)]; [| congruence].
      apply IH. rewrite Hcalls.
      apply (firstFailure_later llm (calls s)); [exact Hff |].
      pose proof (execute_calls_grow agent s). lia.
Qed.

Lemma before_app (t : IRType) (done rest : list IRType) :
  t ∉ done -> before t (done ++ t :: rest) = done.
Proof.
  induction done as [| t' done IH]; intros Hnin; cbn [app before].
  - destruct (decide (t = t)); [reflexivity | congruence].
  - destruct (decide (t' = t)) as [-> | _].
    + exfalso. apply Hnin. constructor.
    + f_equal. apply IH. intros Hin. apply Hnin. constructor. exact Hin.
Qed.

Lemma cycleEvents_see (initial planned : list IRType) t context (trace : list Event) :
  mapKeys context = initial ++ before t planned ->
  Forall (cycleEvent t context) trace ->
  Forall (seesAllBefore initial planned) trace.
Proof.
  intros Hkeys. induction 1 as [| e trace He _ IH]; constructor; [| exact IH].
  destruct e; cbn in *; try exact I; try contradiction.
  destruct He as [-> ->]. exact Hkeys.
Qed.

(** A stage that is to produce [irTypes] after the types [done], with the
    types [later] to come: each of its calls sees the initial types and the
    planned types before its own. *)
Lemma produce_sees (initial : list IRType) agent irTypes :
  forall done later made s,
    NoDup (initial ++ done ++ irTypes ++ later) ->
    mapKeys (previousArtifacts s) = initial ++ done ->
    Forall (seesAllBefore initial (done ++ irTypes ++ later))
           (emitted (produce agent irTypes made s)).
Proof.
  induction irTypes as [| t rest IH]; intros done later made s Hnd Hkeys;
    [constructor |].
  assert (Hnin : t ∉ done).
  { apply NoDup_app in Hnd as (_ & _ & Hnd). apply NoDup_app in Hnd as (_ & Hdisj & _).
    intros Hin. apply (Hdisj t Hin). constructor. }
  assert (Hfresh : t ∉ mapKeys (previousArtifacts s)).
  { rewrite Hkeys. intros Hin. apply elem_of_app in Hin as [Hin | Hin]; [| auto].
    apply NoDup_app in Hnd as (_ & Hdisj & _). apply (Hdisj t Hin).
    apply elem_of_app. right. constructor. }
  destruct (engine_spec llm clock maxFeedbackCycles agent t s) as (Hmap & _ & Hev).
  apply (cycleEvents_see initial (done ++ (t :: rest) ++ later)) in Hev;
    [| cbn [app]; rewrite (before_app t done _ Hnin); exact Hkeys].
  destruct (result (engine agent t s)) as [r | message] eqn:Hres.
  - pose proof (produce_next llm clock maxFeedbackCycles agent t rest made s r Hres)
      as Heq.
    cbn zeta in Heq. rewrite Heq. clear Heq. cbn [emitted].
    constructor; [exact I |]. apply Forall_app. split; [exact Hev |].
    constructor; [exact I |].
    replace (done ++ (t :: rest) ++ later) with ((done ++ [t]) ++ rest ++ later)
      by (rewrite <- app_assoc; reflexivity).
    apply IH.
    + rewrite <- app_assoc. exact Hnd.
    + cbn [filed previousArtifacts]. rewrite Hmap.
      rewrite (mapKeys_mapSet_new _ _ _ Hfresh), Hkeys, <- app_assoc. reflexivity.
  - rewrite (produce_failed llm clock maxFeedbackCycles agent t rest made s message Hres).
    cbn [emitted]. constructor; [exact I | exact Hev].
Qed.

Lemma stages_see (initial : list IRType) agents :
  forall done i all s,
    NoDup (initial ++ done ++ flat_map getOutputIRTypes agents) ->
    mapKeys (previousArtifacts s) = initial ++ done ->
    Forall (seesAllBefore initial (done ++ flat_map getOutputIRTypes agents))
           (emitted (stages agents i all s)).
Proof.
  induction agents as [| agent rest IH]; intros done i all s Hnd Hkeys; [constructor |].
  cbn [flat_map] in Hnd |- *.
  pose proof (produce_sees initial agent (getOutputIRTypes agent) done
                (flat_map getOutputIRTypes rest) [] s Hnd Hkeys) as Hex.
  fold (execute agent s) in Hex.
  assert (Hnd1 : NoDup (mapKeys (previousArtifacts s) ++ getOutputIRTypes agent)).
  { rewrite Hkeys, <- app_assoc. rewrite !app_assoc in Hnd.
    apply NoDup_app in Hnd as (Hnd & _ & _). rewrite <- app_assoc in Hnd. exact Hnd. }
  destruct (produce_fresh llm clock maxFeedbackCycles agent (getOutputIRTypes agent) [] s
              Hnd1) as (_ & Hdone).
  fold (execute agent s) in Hdone.
  destruct (execute_spec llm clock maxFeedbackCycles agent s) as (ar1 & Har1 & Htyped & _).
  destruct (stages_shape agent rest i all s)
    as (ar & Har & [(m & -> & _) | [(a' & s' & -> & _) | (a' & s' & -> & Hs & _ & _ & Hprev)]]);
    cbn [emitted]; constructor; try exact I; apply Forall_app; split; try exact Hex.
  - repeat constructor.
  - repeat constructor.
  - constructor; [exact I |].
    assert (ar1 = ar) as -> by congruence.
    specialize (Htyped Hs). apply typed_sublist in Htyped.
    specialize (Hdone ar Har Hs).
    rewrite app_assoc. apply IH.
    + rewrite <- app_assoc. exact Hnd.
    + rewrite Hprev, collect_keys.
      * rewrite Hdone, Hkeys, <- app_assoc. reflexivity.
      * intros t Ht. rewrite Hdone. apply elem_of_app. right.
        eapply elem_of_sublist; eassumption.
Qed.

End Stages.

(** X9. In every run, each call of the model in cycle [c] of an artifact,
    generate or review, is given the feedback of the cycles before it:
    [c - 1] entries, numbered from 1 in order, each about the type of that
    artifact and with a feedback text that is not empty. A feedback cycle
    that returns hands such a history back: one entry less than
    [cyclesUsed] when the artifact is approved, one entry for each cycle of
    the budget when it is not. *)
Theorem feedback_history_tracks_cycles
    (llm : nat -> Res Js.str) (clock : nat -> Z) (maxFeedbackCycles : Z) :
  (forall startFromStage existing s,
     Forall informed
            (emitted (Pipeline.execute llm clock maxFeedbackCycles
                        startFromStage existing s)))
  /\ (forall agent t s r,
        result (generateWithFeedbackCycle llm clock maxFeedbackCycles agent t s) = Ok r ->
        wellFormedHistory t (feedbackHistory r)
        /\ (approved r = true ->
            Z.of_nat (length (feedbackHistory r)) = cyclesUsed r - 1)
        /\ (approved r = false ->
            length (feedbackHistory r) = Z.to_nat maxFeedbackCycles)).
Proof.
  assert (Hengine : forall agent t s,
             Forall informed
                    (emitted (generateWithFeedbackCycle llm clock maxFeedbackCycles
                                agent t s))
             /\ forall r,
                  result (generateWithFeedbackCycle llm clock maxFeedbackCycles
                            agent t s) = Ok r ->
                  wellFormedHistory t (feedbackHistory r)
                  /\ (approved r = true ->
                      Z.of_nat (length (feedbackHistory r)) = cyclesUsed r - 1)
                  /\ (approved r = false ->
                      length (feedbackHistory r) = (0 + Z.to_nat maxFeedbackCycles)%nat)).
  { intros agent t s. unfold generateWithFeedbackCycle.
    apply (cycles_informed llm clock maxFeedbackCycles agent t
             (Z.to_nat maxFeedbackCycles) 1 [] None s);
      [reflexivity | apply wellFormedHistory_nil]. }
  split.
  - intros startFromStage existing s. rewrite execute_stages.
    apply stages_events; try (intros; exact I).
    intros agent t s'. apply Hengine.
  - intros agent t s r Hr. apply (proj2 (Hengine agent t s) r Hr).
Qed.


Lemma feedback_history_tracks_cycles_witness :
  exists r,
    result (generateWithFeedbackCycle Scenario.thirdTimeLucky Scenario.wallClock 3
              architect data (mkRun 0 [])) = Ok r
    /\ wellFormedHistory data (feedbackHistory r)
    /\ Z.of_nat (length (feedbackHistory r)) = cyclesUsed r - 1.
Proof.
  eexists. split; [vm_compute; reflexivity |].
  destruct (proj2 (feedback_history_tracks_cycles Scenario.thirdTimeLucky
                     Scenario.wallClock 3)
                  architect data (mkRun 0 []) _ ltac:(vm_compute; reflexivity))
    as (Hwf & Happroved & _).
  split; [exact Hwf | apply Happroved; reflexivity].
Defined.

(** X10. A run makes at most [maxFeedbackCycles] generate calls for each
    declared type of the stages it runs (twelve types for a run from the
    first stage), never more review calls than generate calls, and its call
    counter moves by one for each of them. A run that succeeds on a positive
    budget has made at least one generate call for each of these types, and
    as many review calls as generate calls. *)
Theorem run_cost_is_bounded
    (llm : nat -> Res Js.str) (clock : nat -> Z) (maxFeedbackCycles : Z)
    (startFromStage : nat) (existing : option ArtifactMap) (s : Run) :
  let out := Pipeline.execute llm clock maxFeedbackCycles startFromStage existing s in
  (generateCalls (emitted out)
   <= Z.to_nat maxFeedbackCycles * length (outputsFrom startFromStage))%nat
  /\ (reviewCalls (emitted out) <= generateCalls (emitted out))%nat
  /\ calls (final out)
     = (calls s + generateCalls (emitted out) + reviewCalls (emitted out))%nat
  /\ (forall pr, result out = Ok pr -> success pr = true -> 1 <= maxFeedbackCycles ->
        (length (outputsFrom startFromStage) <= generateCalls (emitted out))%nat
        /\ reviewCalls (emitted out) = generateCalls (emitted out)).
Proof.
  intros out. subst out. rewrite execute_stages.
  destruct (stages_count llm clock maxFeedbackCycles (skipn startFromStage AGENT_ORDER)
              startFromStage (mapValues (default [] existing))
              {| calls := calls s; previousArtifacts := default [] existing |})
    as (H1 & H2 & H3 & H4).
  cbn [calls] in H1. unfold outputsFrom. auto.
Qed.

Lemma run_cost_is_bounded_witness :
  (generateCalls (emitted (Pipeline.execute Scenario.neverApproved Scenario.wallClock 3
                             0 None (mkRun 0 []))) <= 36)%nat
  /\ (12 <= generateCalls (emitted (Pipeline.execute Scenario.neverApproved
                                      Scenario.wallClock 3 0 None (mkRun 0 []))))%nat
  /\ reviewCalls (emitted (Pipeline.execute Scenario.neverApproved Scenario.wallClock 3
                             0 None (mkRun 0 [])))
     = generateCalls (emitted (Pipeline.execute Scenario.neverApproved
                                 Scenario.wallClock 3 0 None (mkRun 0 []))).
Proof.
  destruct (run_cost_is_bounded Scenario.neverApproved Scenario.wallClock 3 0 None
              (mkRun 0 [])) as (Hmost & _ & _ & H).
  destruct (H {| success := true;
                 artifacts := finalArtifacts
                                (Pipeline.execute Scenario.neverApproved
                                   Scenario.wallClock 3 0 None (mkRun 0 []));
                 error := None |}) as [Hleast Hsame].
  - vm_compute. reflexivity.
  - reflexivity.
  - lia.
  - split; [exact Hmost |]. split; [exact Hleast | exact Hsame].
Defined.


(** X11. On a positive budget a run never rejects, and the first call of
    the model that fails ends it: when call [c] is the first to fail, the
    run either succeeds without coming to call [c], or returns
    [success = false] with the error message of call [c] and has made no
    call after it. *)
Theorem first_model_failure_ends_run
    (llm : nat -> Res Js.str) (clock : nat -> Z) (maxFeedbackCycles : Z)
    (startFromStage : nat) (existing : option ArtifactMap) (s : Run)
    (c : nat) (message : Js.str) :
  1 <= maxFeedbackCycles ->
  firstFailure llm (calls s) c message ->
  let out := Pipeline.execute llm clock maxFeedbackCycles startFromStage existing s in
  exists pr,
    result out = Ok pr
    /\ ((success pr = true /\ error pr = None /\ (calls (final out) <= c)%nat)
        \/ (success pr = false /\ error pr = Some message
            /\ calls (final out) = S c)).
Proof.
  intros Hmax Hff out. subst out. rewrite execute_stages.
  apply stages_first_failure; assumption.
Qed.


Lemma script_fails_at_its_end :
  firstFailure (Scenario.script [Scenario.draft 1; Scenario.approvedAnswer;
                                 Scenario.draft 2]) 0 3 (Js.lit "Failed to fetch").
Proof.
  split; [lia |]. split; [reflexivity |].
  intros c' Hc'. destruct c' as [| [| [| c']]]; [| | | lia]; eexists; reflexivity.
Qed.

Lemma first_model_failure_ends_run_witness :
  exists pr,
    result (Pipeline.execute (Scenario.script [Scenario.draft 1; Scenario.approvedAnswer;
                                               Scenario.draft 2])
              Scenario.wallClock 3 0 None (mkRun 0 [])) = Ok pr
    /\ ((success pr = true /\ error pr = None
         /\ (calls (final (Pipeline.execute
                             (Scenario.script [Scenario.draft 1; Scenario.approvedAnswer;
                                               Scenario.draft 2])
                             Scenario.wallClock 3 0 None (mkRun 0 []))) <= 3)%nat)
        \/ (success pr = false /\ error pr = Some (Js.lit "Failed to fetch")
            /\ calls (final (Pipeline.execute
                               (Scenario.script [Scenario.draft 1; Scenario.approvedAnswer;
                                                 Scenario.draft 2])
                               Scenario.wallClock 3 0 None (mkRun 0 []))) = 4%nat)).
Proof.
  apply (first_model_failure_ends_run
           (Scenario.script [Scenario.draft 1; Scenario.approvedAnswer; Scenario.draft 2])
           Scenario.wallClock 3 0 None (mkRun 0 []) 3 (Js.lit "Failed to fetch")).
  - lia.
  - exact script_fails_at_its_end.
Defined.

(** X12. In a run that starts from persisted artifacts of stages before
    its start index (none, for a run from the first stage), every call of
    the model about an artifact type is made with a context that holds, in
    order, the persisted types and then exactly the declared types that
    come before that type in the order of the stages: each artifact is
    generated and reviewed in the sight of all the artifacts before it. *)
Theorem every_call_sees_all_earlier_artifacts
    (llm : nat -> Res Js.str) (clock : nat -> Z) (maxFeedbackCycles : Z)
    (n : nat) (persisted : list SpecArtifact) (s : Run) :
  (forall a, a ∈ persisted -> irType a ∈ outputsBefore n) ->
  Forall (seesAllBefore (mapKeys (previousArtifactsOf persisted)) (outputsFrom n))
         (emitted (resume llm clock maxFeedbackCycles n persisted s)).
Proof.
  intros Hearlier.
  destruct (resume_point_distinct n persisted Hearlier) as (Hnd & _).
  rewrite resume_stages.
  apply (stages_see llm clock maxFeedbackCycles
           (mapKeys (previousArtifactsOf persisted)) (skipn n AGENT_ORDER) []).
  - exact Hnd.
  - cbn. rewrite app_nil_r. reflexivity.
Qed.

Lemma every_call_sees_all_earlier_artifacts_witness :
  Forall (seesAllBefore [contract]
            [module; infrastructure; data; decisions; tasks; types; events; interface;
             function; tests; pipeline])
         (emitted (resume Scenario.neverApproved Scenario.wallClock 2 1
                     [Scenario.persistedContract] (mkRun 0 []))).
Proof.
  apply (every_call_sees_all_earlier_artifacts Scenario.neverApproved
           Scenario.wallClock 2 1 [Scenario.persistedContract] (mkRun 0 [])).
  intros a Ha. apply list_elem_of_singleton in Ha. subst a. constructor.
Defined.

End RunFacts.

(** ** Model output: fences and white space *)

Module CleanFacts.
Import Js Agent Fences HintFacts.

Lemma dropWhile_spec (p : N -> bool) (s : str) :
  exists a, s = a ++ dropWhile p s
            /\ Forall (fun c => p c = true) a
            /\ hd_error (List.map p (dropWhile p s)) <> Some true.
Proof.
  induction s as [| c s (a & Hs & Ha & Hhd)]; cbn [dropWhile].
  - exists []. repeat split; [constructor | discriminate].
  - destruct (p c) eqn:Hc.
    + exists (c :: a). split; [cbn; f_equal; exact Hs |].
      split; [constructor; assumption | exact Hhd].
    + exists []. split; [reflexivity |]. split; [constructor |].
      cbn. rewrite Hc. discriminate.
Qed.

Lemma dropWhile_stop (p : N -> bool) (s : str) :
  hd_error (List.map p s) <> Some true -> dropWhile p s = s.
Proof.
  destruct s as [| c s]; [reflexivity |]. cbn. destruct (p c); congruence.
Qed.

Lemma dropWhile_all (p : N -> bool) (a b : str) :
  Forall (fun c => p c = true) a -> dropWhile p (a ++ b) = dropWhile p b.
Proof.
  induction 1 as [| c a Hc _ IH]; [reflexivity |]. cbn [app dropWhile]. rewrite Hc. exact IH.
Qed.

(** [trim] on a text framed by white space: what is left is the text,
    when it starts and ends with something else. *)
Lemma trim_framed (ws1 ws2 x : str) :
  Forall (fun c => isWhiteSpace c = true) ws1 ->
  Forall (fun c => isWhiteSpace c = true) ws2 ->
  hd_error (List.map isWhiteSpace x) <> Some true ->
  hd_error (List.map isWhiteSpace (rev x)) <> Some true ->
  trim (ws1 ++ x ++ ws2) = x.
Proof.
  intros H1 H2 Hhd Hlast. unfold trim, trimStart, trimEnd.
  rewrite (dropWhile_all _ ws1 _ H1).
  destruct x as [| c x].
  - cbn [app]. rewrite <- (app_nil_r ws2) at 1. rewrite (dropWhile_all _ ws2 [] H2).
    reflexivity.
  - rewrite (dropWhile_stop _ ((c :: x) ++ ws2)).
    + rewrite rev_app_distr, dropWhile_all by (apply Forall_rev; exact H2).
      rewrite (dropWhile_stop _ _ Hlast). apply rev_involutive.
    + cbn in Hhd |- *. exact Hhd.
Qed.

(** [trim] leaves a text that neither starts nor ends with white space. *)
Lemma trim_ends (s : str) :
  hd_error (List.map isWhiteSpace (trim s)) <> Some true
  /\ hd_error (List.map isWhiteSpace (rev (trim s))) <> Some true.
Proof.
  unfold trim, trimStart, trimEnd. rewrite rev_involutive.
  destruct (dropWhile_spec isWhiteSpace s) as (a & _ & _ & Hhd).
  set (x := dropWhile isWhiteSpace s) in *.
  destruct (dropWhile_spec isWhiteSpace (rev x)) as (b & Hx & Hb & Hhd').
  split; [| exact Hhd'].
  set (y := dropWhile isWhiteSpace (rev x)) in *.
  assert (Hrev : x = rev y ++ rev b).
  { rewrite <- rev_app_distr, <- Hx, rev_involutive. reflexivity. }
  destruct (rev y) as [| c z] eqn:Hy; [cbn; discriminate |].
  rewrite Hrev in Hhd. cbn in Hhd |- *. exact Hhd.
Qed.

Lemma trim_idempotent (s : str) : trim (trim s) = trim s.
Proof.
  destruct (trim_ends s) as [H1 H2].
  rewrite <- (app_nil_r (trim s)) at 1.
  apply (trim_framed [] [] (trim s)); auto.
Qed.

Lemma length_dropWhile (p : N -> bool) (s : str) : (length (dropWhile p s) <= length s)%nat.
Proof.
  induction s as [| c s IH]; cbn; [lia |]. destruct (p c); cbn; lia.
Qed.

Lemma length_trim (s : str) : (length (trim s) <= length s)%nat.
Proof.
  unfold trim, trimStart, trimEnd. rewrite length_rev.
  etransitivity; [apply length_dropWhile |]. rewrite length_rev. apply length_dropWhile.
Qed.

Lemma length_dropOptNewline (s : str) : (length (dropOptNewline s) <= length s)%nat.
Proof.
  destruct s as [| c s]; [cbn; lia |].
  unfold dropOptNewline. destruct c as [| p]; [cbn; lia |].
  do 4 (destruct p as [p | p |]; try (cbn; lia)).
Qed.

Lemma length_dropLast (n : nat) (s : str) : (length (dropLast n s) <= length s)%nat.
Proof. unfold dropLast. rewrite length_firstn. lia. Qed.

Lemma length_cleanSpecContent (content : str) :
  (length (cleanSpecContent content) <= length content)%nat.
Proof.
  unfold cleanSpecContent. cbv zeta.
  pose proof (length_trim content) as H0.
  set (c0 := trim content) in *.
  assert (H1 : (length (if startsWith c0 (lit "```spec") then stripSpecFence c0
                        else if startsWith c0 (lit "```") then stripOpeningFence c0
                        else c0) <= length c0)%nat).
  { destruct (startsWith c0 (lit "```spec")).
    - unfold stripSpecFence. etransitivity; [apply length_dropOptNewline |].
      rewrite length_skipn. lia.
    - destruct (startsWith c0 (lit "```")); [| lia].
      unfold stripOpeningFence. etransitivity; [apply length_dropOptNewline |].
      etransitivity; [apply length_dropWhile |]. rewrite length_skipn. lia. }
  set (c1 := if startsWith c0 (lit "```spec") then _ else _) in *.
  assert (H2 : (length (if endsWith c1 (lit "```") then stripClosingFence c1 else c1)
                <= length c1)%nat).
  { destruct (endsWith c1 (lit "```")); [| lia].
    unfold stripClosingFence.
    destruct (endsWith (dropLast 3 c1) [10%N]).
    - etransitivity; [apply length_dropLast |]. apply length_dropLast.
    - apply length_dropLast. }
  etransitivity; [apply length_trim |].
  etransitivity; [exact H2 |]. etransitivity; [exact H1 | exact H0].
Qed.

Lemma startsWith_nil_l (p : str) : p <> [] -> startsWith [] p = false.
Proof. destruct p; [congruence | reflexivity]. Qed.

(** A pattern without line feed is found at the start of a word followed
    by a line feed only when it is found at the start of the word. *)
Lemma startsWith_before_newline (tag rest p : str) :
  Forall (fun c => c <> 10%N) p ->
  startsWith (tag ++ 10%N :: rest) p = startsWith tag p.
Proof.
  intros Hp. revert tag. induction Hp as [| c p Hc _ IH]; intros tag.
  - destruct tag; reflexivity.
  - destruct tag as [| d tag]; cbn [app startsWith].
    + destruct (N.eqb_spec c 10); [congruence | reflexivity].
    + rewrite IH. reflexivity.
Qed.

Lemma startsWith_app_both (a s p : str) : startsWith (a ++ s) (a ++ p) = startsWith s p.
Proof.
  induction a as [| c a IH]; [reflexivity |].
  cbn [app startsWith]. rewrite N.eqb_refl. exact IH.
Qed.

Lemma startsWith_longer (s p q : str) :
  startsWith s p = false -> startsWith s (p ++ q) = false.
Proof.
  revert s. induction p as [| c p IH]; intros s; [destruct s; discriminate |].
  destruct s as [| d s]; [reflexivity |]. cbn [app startsWith].
  destruct (N.eqb c d); [apply IH | reflexivity].
Qed.

Lemma endsWith_app (s p : str) : endsWith (s ++ p) p = true.
Proof. unfold endsWith. rewrite rev_app_distr. apply startsWith_app. Qed.

Lemma dropLast_app (s p : str) : dropLast (length p) (s ++ p) = s.
Proof.
  unfold dropLast. rewrite length_app, Nat.add_sub.
  rewrite firstn_app, Nat.sub_diag, firstn_all. cbn. apply app_nil_r.
Qed.

Lemma wordChar_is_no_newline (tag : str) :
  Forall (fun c => isWordChar c = true) tag ->
  forall rest, dropWhile isWordChar (tag ++ 10%N :: rest) = 10%N :: rest.
Proof.
  intros Htag rest. rewrite (dropWhile_all _ tag _ Htag). reflexivity.
Qed.

(** What the closing steps make of a body followed by a line feed and the
    closing fence. *)
Lemma closing_fence_stripped (body : str) :
  (if endsWith (body ++ [10%N] ++ lit "```") (lit "```")
   then stripClosingFence (body ++ [10%N] ++ lit "```")
   else body ++ [10%N] ++ lit "```") = body.
Proof.
  rewrite app_assoc, endsWith_app. unfold stripClosingFence.
  change 3%nat with (length (lit "```")). rewrite dropLast_app.
  rewrite endsWith_app.
  change 1%nat with (length [10%N]). apply dropLast_app.
Qed.

(** X13. A model answer that is a Markdown code block (three backticks
    with a language tag that is a word, [spec] itself or one that does not
    start with [spec], possibly none; a line feed; the body; a line feed;
    three backticks), with or without white space around it, is cleaned to
    the trimmed body. *)
Theorem cleanSpecContent_unwraps_fence (ws1 ws2 tag body : str) :
  blank ws1 -> blank ws2 -> plainTag tag ->
  cleanSpecContent (ws1 ++ fenced tag body ++ ws2) = trim body.
Proof.
  intros H1 H2 [Hword Htag]. unfold cleanSpecContent. cbv zeta.
  rewrite (trim_framed ws1 ws2 (fenced tag body) H1 H2).
  2: { cbn. discriminate. }
  2: { unfold fenced. rewrite !rev_app_distr. cbn. discriminate. }
  assert (Hopen : (if startsWith (fenced tag body) (lit "```spec")
                   then stripSpecFence (fenced tag body)
                   else if startsWith (fenced tag body) (lit "```")
                        then stripOpeningFence (fenced tag body)
                        else fenced tag body)
                  = body ++ [10%N] ++ lit "```").
  { unfold fenced.
    change (lit "```spec") with (lit "```" ++ lit "spec").
    rewrite startsWith_app_both.
    change (tag ++ [10%N] ++ ?x) with (tag ++ 10%N :: x).
    rewrite startsWith_before_newline by (repeat constructor; discriminate).
    destruct Htag as [-> | Hno].
    - reflexivity.
    - rewrite Hno, startsWith_app. unfold stripOpeningFence.
      change (skipn 3 (lit "```" ++ ?x)) with x.
      rewrite (wordChar_is_no_newline tag Hword). reflexivity. }
  rewrite Hopen, closing_fence_stripped. reflexivity.
Qed.

Lemma cleanSpecContent_unwraps_fence_witness :
  cleanSpecContent ([10%N] ++ fenced (lit "json") (lit "ir::tasks { } ") ++ lit "  ")
  = lit "ir::tasks { }".
Proof.
  apply (cleanSpecContent_unwraps_fence [10%N] (lit "  ") (lit "json")
           (lit "ir::tasks { } ")).
  - repeat constructor.
  - unfold blank. cbn. repeat constructor.
  - split; [cbn; repeat constructor | right; reflexivity].
Defined.

(** X14. What [cleanSpecContent] returns has no white space at either end
    and is never longer than the answer it was given; for an answer whose
    trimmed form neither starts nor ends with three backticks it is the
    trimmed answer. *)
Theorem cleanSpecContent_trims_and_shrinks (content : str) :
  trim (cleanSpecContent content) = cleanSpecContent content
  /\ (length (cleanSpecContent content) <= length content)%nat
  /\ (startsWith (trim content) (lit "```") = false ->
      endsWith (trim content) (lit "```") = false ->
      cleanSpecContent content = trim content).
Proof.
  split; [apply trim_idempotent |]. split; [apply length_cleanSpecContent |].
  intros Hs He. unfold cleanSpecContent. cbv zeta.
  assert (Hspec : startsWith (trim content) (lit "```spec") = false).
  { change (lit "```spec") with (lit "```" ++ lit "spec").
    apply startsWith_longer. exact Hs. }
  rewrite Hspec, Hs, He. apply trim_idempotent.
Qed.

Lemma cleanSpecContent_trims_and_shrinks_witness :
  cleanSpecContent (lit "  ir::contract { uses: `id` }  ")
  = lit "ir::contract { uses: `id` }".
Proof.
  exact (proj2 (proj2 (cleanSpecContent_trims_and_shrinks
                         (lit "  ir::contract { uses: `id` }  ")))
               eq_refl eq_refl).
Defined.

End CleanFacts.

(** ** The tables of stages, agents and artifact types *)

Module TableFacts.
Import Spec Agent Tables.

(** X15. The stage table of the interface, the order of the agents and the
    table of their outputs agree: [PIPELINE_STAGES] lists the agents of
    [AGENT_ORDER], in order, as the stages 1 to 6 ([createInitialProgress]
    counts its [totalStages] on it), each with the outputs [AGENT_OUTPUTS]
    gives its agent, which are what the agent returns from
    [getOutputIRTypes], and with its display name. Every artifact type is
    an output of exactly one agent, and of that agent once. *)
Theorem stage_tables_agree :
  List.map agent PIPELINE_STAGES = AGENT_ORDER
  /\ List.map stage PIPELINE_STAGES = seq 1 (length AGENT_ORDER)
  /\ Storage.totalStages createInitialProgress = length AGENT_ORDER
  /\ Forall (fun info => outputs info = AGENT_OUTPUTS (agent info)
                         /\ outputs info = getOutputIRTypes (agent info)
                         /\ name info = AGENT_DISPLAY_NAMES (agent info))
            PIPELINE_STAGES
  /\ (forall t : IRType, exists a, producers t = [a])
  /\ (forall a, Forall (fun t => producers t = [a]) (AGENT_OUTPUTS a))
  /\ NoDup (flat_map AGENT_OUTPUTS AGENT_ORDER).
Proof.
  split; [reflexivity |]. split; [reflexivity |]. split; [reflexivity |].
  split; [repeat constructor |].
  split; [intros t; destruct t; eexists; reflexivity |].
  split.
  - intros a. destruct a; repeat constructor.
  - apply (bool_decide_unpack _). vm_compute. exact I.
Qed.

(** X16. Two different artifact types never share a file path or a file
    name: [getIRTypeFilePath] gives them different paths, and the
    artifacts the feedback cycle makes of them have different file names,
    whatever the agents, the contents and the dates. *)
Theorem artifact_files_are_distinct (t t' : IRType) :
  t <> t' ->
  getIRTypeFilePath t <> getIRTypeFilePath t'
  /\ (forall agent agent' content content' created created',
        fileName (newArtifact agent t content created)
        <> fileName (newArtifact agent' t' content' created')).
Proof.
  intros Hne. split.
  - destruct t, t'; try congruence; vm_compute; discriminate.
  - intros agent agent' content content' created created'.
    destruct t, t'; try congruence; vm_compute; discriminate.
Qed.

Lemma artifact_files_are_distinct_witness :
  getIRTypeFilePath interface <> getIRTypeFilePath function
  /\ (forall agent agent' content content' created created',
        fileName (newArtifact agent interface content created)
        <> fileName (newArtifact agent' function content' created')).
Proof.
  apply (artifact_files_are_distinct interface function). discriminate.
Defined.

End TableFacts.

(** ** The rate limiter: durations, the tracker, the fetch wrapper *)

Module DisplayFacts.
Import Display.

(** X17. For a whole number of milliseconds, [formatDuration] shows a
    duration under a second as it is, in milliseconds, and any other
    rounded to the nearest second (a half second up): as seconds, under
    59.5 s, and else as minutes and seconds under 60; what is shown is
    within half a second of the duration. *)
Theorem formatDuration_rounds_to_seconds (ms : Z) :
  (ms < 1000 -> formatDuration ms = Js.ofZ ms ++ Js.lit "ms")
  /\ (1000 <= ms ->
      exists minutes seconds,
        formatDuration ms = shown minutes seconds
        /\ 0 <= minutes /\ 0 <= seconds < 60
        /\ (minutes = 0 <-> ms < 59500)
        /\ ms - 500 <= 1000 * (60 * minutes + seconds) <= ms + 500).
Proof.
  unfold formatDuration. split.
  - intros H. apply Z.ltb_lt in H. rewrite H. reflexivity.
  - intros H. destruct (ms <? 1000) eqn:E; [apply Z.ltb_lt in E; lia |]. clear E.
    cbv zeta. set (total := (ms + 500) / 1000).
    assert (Htotal : 1000 * total <= ms + 500 < 1000 * total + 1000).
    { unfold total. pose proof (Z.div_mod (ms + 500) 1000 ltac:(lia)).
      pose proof (Z.mod_pos_bound (ms + 500) 1000 ltac:(lia)). lia. }
    destruct (total <? 60) eqn:E.
    + apply Z.ltb_lt in E. exists 0, total. unfold shown. cbn [Z.eqb].
      split; [reflexivity |]. repeat split; try lia.
    + apply Z.ltb_ge in E. exists (total / 60), (total mod 60).
      pose proof (Z.div_mod total 60 ltac:(lia)).
      pose proof (Z.mod_pos_bound total 60 ltac:(lia)).
      assert (1 <= total / 60) by (apply Z.div_le_lower_bound; lia).
      unfold shown. destruct (total / 60 =? 0) eqn:E0; [apply Z.eqb_eq in E0; lia |].
      split; [reflexivity |]. repeat split; try lia.
Qed.

Lemma formatDuration_rounds_to_seconds_witness :
  formatDuration 999 = Js.lit "999ms"
  /\ exists minutes seconds,
       formatDuration 59500 = shown minutes seconds
       /\ 0 <= minutes /\ 0 <= seconds < 60
       /\ (minutes = 0 <-> 59500 < 59500)
       /\ 59500 - 500 <= 1000 * (60 * minutes + seconds) <= 59500 + 500.
Proof.
  split.
  - exact (proj1 (formatDuration_rounds_to_seconds 999) ltac:(lia)).
  - exact (proj2 (formatDuration_rounds_to_seconds 59500) ltac:(lia)).
Defined.

End DisplayFacts.

Module TrackerFacts.
Import Tracker.

Lemma after_snoc (records : list Recorded) (r : Recorded) :
  after (records ++ [r]) = record (after records) r.
Proof. unfold after. rewrite fold_left_app. reflexivity. Qed.

Lemma rateLimits_snoc (records : list Recorded) (r : Recorded) :
  rateLimits (records ++ [r])
  = (rateLimits records + if isRateLimit r then 1 else 0)%nat.
Proof.
  unfold rateLimits. rewrite List.filter_app, length_app. cbn.
  destruct (isRateLimit r); reflexivity.
Qed.

Lemma sinceLastSuccess_snoc (records : list Recorded) (r : Recorded) :
  sinceLastSuccess (records ++ [r])
  = if isRateLimit r then S (sinceLastSuccess records) else 0%nat.
Proof.
  unfold sinceLastSuccess. rewrite rev_app_distr. destruct r; reflexivity.
Qed.

(** X18. After any sequence of [recordRateLimit] and [recordSuccess] calls
    on a new tracker, [totalRateLimits] is the number of rate limits
    recorded and [consecutiveRateLimits] the number recorded since the last
    success, so never more than the total; [shouldBackOff] holds exactly
    when the last three calls or more were rate limits; and, with times
    after the epoch, [getStats] reports the time since the last rate
    limit recorded, and an infinite time when none was. *)
Theorem tracker_counts_rate_limits (records : list Recorded) :
  totalRateLimits (after records) = Z.of_nat (rateLimits records)
  /\ consecutiveRateLimits (after records) = Z.of_nat (sinceLastSuccess records)
  /\ 0 <= consecutiveRateLimits (after records) <= totalRateLimits (after records)
  /\ (shouldBackOff (after records) = true <-> (3 <= sinceLastSuccess records)%nat)
  /\ (afterEpoch records ->
      forall now,
        timeSinceLastRateLimit (getStats now (after records))
        = option_map (fun at_ => now - at_) (lastRateLimit records)).
Proof.
  assert (H : totalRateLimits (after records) = Z.of_nat (rateLimits records)
              /\ consecutiveRateLimits (after records)
                 = Z.of_nat (sinceLastSuccess records)
              /\ (sinceLastSuccess records <= rateLimits records)%nat).
  { induction records as [| r records (IH1 & IH2 & IH3)] using rev_ind.
    - repeat split. cbn. lia.
    - rewrite after_snoc, rateLimits_snoc, sinceLastSuccess_snoc.
      destruct r as [now |]; cbn [record recordRateLimit recordSuccess isRateLimit
                                  totalRateLimits consecutiveRateLimits].
      + rewrite IH1, IH2. repeat split; lia.
      + rewrite IH1. repeat split; lia. }
  destruct H as (H1 & H2 & H3). split; [exact H1 |]. split; [exact H2 |].
  split; [lia |]. split; [unfold shouldBackOff; rewrite H2, Z.leb_le; lia |].
  intros Hepoch now.
  assert (Hlast : match lastRateLimit records with
                  | Some at_ => lastRateLimitTime (after records) = at_ /\ 0 < at_
                  | None => lastRateLimitTime (after records) = 0
                  end).
  { clear H1 H2 H3. induction records as [| r records IH] using rev_ind.
    - reflexivity.
    - apply Forall_app in Hepoch as [Hepoch Hr]. specialize (IH Hepoch).
      rewrite after_snoc. unfold lastRateLimit in *. rewrite rev_app_distr.
      destruct r as [at_ |]; cbn [rev app firstRateLimit record recordRateLimit
                                  recordSuccess lastRateLimitTime].
      + split; [reflexivity |]. inversion Hr; assumption.
      + exact IH. }
  unfold getStats. cbn [timeSinceLastRateLimit].
  destruct (lastRateLimit records) as [at_ |].
  - destruct Hlast as [-> Hpos].
    destruct (at_ =? 0) eqn:E; [apply Z.eqb_eq in E; lia | reflexivity].
  - rewrite Hlast. reflexivity.
Qed.

Lemma tracker_counts_rate_limits_witness :
  timeSinceLastRateLimit
    (getStats 1767225609000
       (after [RateLimit 1767225600000; RateLimit 1767225604000; Success]))
  = Some (1767225609000 - 1767225604000).
Proof.
  refine (proj2 (proj2 (proj2 (proj2
            (tracker_counts_rate_limits
               [RateLimit 1767225600000; RateLimit 1767225604000; Success])))) _
            1767225609000).
  repeat constructor.
Defined.

End TrackerFacts.

Module WrapperFacts.
Import RateLimiter RateLimitedFetch.
Import Gateway (Net, fetches, randoms, FetchResult, Responds, Rejects, Response, status).
Import Cases (replies, defaults).

Lemma wrapper_attemptsMade_app (a b : list Event) :
  attemptsMade (a ++ b) = (attemptsMade a + attemptsMade b)%nat.
Proof. unfold attemptsMade. rewrite List.filter_app, length_app. reflexivity. Qed.

Lemma wrapper_sleeps_app (a b : list Event) : sleeps (a ++ b) = sleeps a ++ sleeps b.
Proof. unfold sleeps. apply flat_map_app. Qed.

Section Wrapper.

Variable config : PartialConfig.
Variable fetch : nat -> FetchResult.
Variable random : nat -> Q.

Local Abbreviation attempts := (RateLimitedFetch.attempts config fetch random).
Local Abbreviation wait := (RateLimitedFetch.wait config random).
Local Abbreviation limit := (maxRetries (finalConfig config)).

(** A wait returns, sends nothing and sleeps once. *)
Lemma wait_spec (attempt : Z) (hint : option Q) (s : Net) :
  exists d s',
    wait attempt hint s = mkOut (Ok tt) s' [RetryScheduled d attempt; Sleep d]
    /\ fetches s' = fetches s.
Proof.
  unfold RateLimitedFetch.wait, mbind, M_bind, bind, backoffDelay, emit.
  destruct (positiveHint hint); cbn; eexists _, _; split; reflexivity.
Qed.

(** One iteration: it ends the loop with the outcome of its request, or
    the outcome is transient and the loop goes on. *)
Lemma wrapper_attempts_cases (remaining : nat) (attempt : Z) (lastError : option Js.str)
    (s : Net) :
  (exists events,
     attempts (S remaining) attempt lastError s
     = mkOut (settled (fetch (fetches s))) (sent s) (Fetch attempt :: events)
     /\ attemptsMade events = 0%nat /\ sleeps events = []
     /\ (transient (fetch (fetches s)) = true -> ~ attempt < limit)
     /\ exists r, fetch (fetches s) = Responds r)
  \/ (exists events d s' lastError',
        attempts (S remaining) attempt lastError s
        = mkOut (result (attempts remaining (attempt + 1) lastError' s'))
                (final (attempts remaining (attempt + 1) lastError' s'))
                (Fetch attempt :: events
                 ++ emitted (attempts remaining (attempt + 1) lastError' s'))
        /\ transient (fetch (fetches s)) = true
        /\ attempt < limit
        /\ fetches s' = S (fetches s)
        /\ attemptsMade events = 0%nat /\ sleeps events = [d])
  \/ (exists e,
        fetch (fetches s) = Rejects e
        /\ ~ attempt < limit
        /\ attempts (S remaining) attempt lastError s
           = mkOut (result (attempts remaining (attempt + 1) (Some e) (sent s)))
                   (final (attempts remaining (attempt + 1) (Some e) (sent s)))
                   (Fetch attempt
                    :: emitted (attempts remaining (attempt + 1) (Some e) (sent s)))).
Proof.
  cbn [RateLimitedFetch.attempts].
  unfold mbind, M_bind, bind, Eff.attempt, doFetch. fold (sent s).
  destruct (fetch (fetches s)) as [r | e] eqn:Hf; cbn [result final emitted transient settled].
  - destruct (isRateLimitError (status r) None) eqn:Hrl.
    + unfold emit. cbn [result final emitted].
      destruct (attempt <? limit) eqn:Hlt.
      * right. left. apply Z.ltb_lt in Hlt.
        destruct (wait_spec attempt (option_map inject_Z (extractRetryAfterMs r)) (sent s))
          as (d & s' & Hw & Hs').
        rewrite Hw. cbn [result final emitted].
        match goal with
        | |- context [RateLimitHit ?info attempt] =>
            exists [RateLimitHit info attempt; RetryScheduled d attempt; Sleep d],
                   d, s', lastError
        end.
        split.
        { destruct (RateLimitedFetch.attempts _ _ _ _ _ _ _) as [res fin ev].
          cbn [result final emitted app]. reflexivity. }
        split; [reflexivity |]. split; [exact Hlt |]. split; [exact Hs' |].
        split; reflexivity.
      * left. apply Z.ltb_ge in Hlt.
        match goal with
        | |- context [RateLimitHit ?info attempt] => exists [RateLimitHit info attempt]
        end.
        split; [reflexivity |]. split; [reflexivity |]. split; [reflexivity |].
        split; [lia | eauto].
    + left. exists []. split; [reflexivity |]. split; [reflexivity |].
      split; [reflexivity |]. split; [discriminate | eauto].
  - destruct (attempt <? limit) eqn:Hlt.
    + right. left. apply Z.ltb_lt in Hlt.
      destruct (wait_spec attempt None (sent s)) as (d & s' & Hw & Hs').
      rewrite Hw. cbn [result final emitted].
      exists [RetryScheduled d attempt; Sleep d], d, s', (Some e).
      split.
      { destruct (RateLimitedFetch.attempts _ _ _ _ _ _ _) as [res fin ev].
        cbn [result final emitted app]. reflexivity. }
      split; [reflexivity |]. split; [exact Hlt |]. split; [exact Hs' |].
      split; reflexivity.
    + right. right. apply Z.ltb_ge in Hlt. exists e.
      split; [reflexivity |]. split; [lia |].
      destruct (RateLimitedFetch.attempts _ _ _ _ _ _ _) as [res fin ev]. reflexivity.
Qed.

(** The loop from attempt [limit + 1 - remaining] on: it makes between one
    request and [remaining], sleeps between any two of them and settles on
    the outcome of the last; it throws only after the last attempt. *)
Lemma attempts_settle (remaining : nat) :
  forall (attempt : Z) (lastError : option Js.str) (s : Net),
    attempt + Z.of_nat remaining = limit + 1 ->
    (1 <= remaining)%nat ->
    let out := attempts remaining attempt lastError s in
    (1 <= attemptsMade (emitted out) <= remaining)%nat
    /\ fetches (final out) = (fetches s + attemptsMade (emitted out))%nat
    /\ length (sleeps (emitted out)) = (attemptsMade (emitted out) - 1)%nat
    /\ result out = settled (fetch (fetches (final out) - 1))
    /\ (forall e, result out = Throw e -> attemptsMade (emitted out) = remaining).
Proof.
  induction remaining as [| n IH]; intros attempt lastError s Hinv Hpos; [lia |].
  destruct (wrapper_attempts_cases n attempt lastError s)
    as [(events & -> & Hn & Hsl & Hlast & r & Hr)
       | [(events & d & s' & lastError' & -> & Htr & Hlt & Hs' & Hn & Hsl)
         | (e & Hf & Hlast & ->)]];
    cbn [result final emitted].
  - change (Fetch attempt :: events) with ([Fetch attempt] ++ events).
    rewrite wrapper_attemptsMade_app, wrapper_sleeps_app, Hn, Hsl. cbn [sent fetches].
    replace (S (fetches s) - 1)%nat with (fetches s) by lia.
    change (attemptsMade [Fetch attempt]) with 1%nat. cbn [sleeps flat_map app length].
    split; [lia |]. split; [lia |]. split; [reflexivity |]. split; [reflexivity |].
    intros e He. rewrite Hr in He. discriminate.
  - destruct n as [| n]; [lia |].
    specialize (IH (attempt + 1) lastError' s' ltac:(lia) ltac:(lia)).
    cbn zeta in IH. destruct IH as (I1 & I2 & I3 & I4 & I5).
    change (Fetch attempt :: events ++ ?x) with ([Fetch attempt] ++ events ++ x).
    rewrite !wrapper_attemptsMade_app, !wrapper_sleeps_app, Hn, Hsl.
    change (attemptsMade [Fetch attempt]) with 1%nat.
    cbn [sleeps flat_map app length]. rewrite I3.
    split; [lia |]. split; [lia |]. split; [lia |]. split; [exact I4 |].
    intros e He. rewrite (I5 e He). reflexivity.
  - assert (n = 0%nat) as -> by lia.
    cbn [RateLimitedFetch.attempts throw result final emitted default sent fetches].
    replace (S (fetches s) - 1)%nat with (fetches s) by lia. rewrite Hf.
    cbn. repeat split; lia.
Qed.

(** Through [k] transient outcomes before the last attempt. *)
Lemma through_transient (k : nat) :
  forall (remaining : nat) (attempt : Z) (lastError : option Js.str) (s : Net),
    attempt + Z.of_nat k <= limit ->
    (forall i, (i < k)%nat -> transient (fetch (fetches s + i)%nat) = true) ->
    exists prefix s' lastError',
      fetches s' = (fetches s + k)%nat
      /\ attemptsMade prefix = k
      /\ length (sleeps prefix) = k
      /\ attempts (k + remaining) attempt lastError s
         = mkOut (result (attempts remaining (attempt + Z.of_nat k) lastError' s'))
                 (final (attempts remaining (attempt + Z.of_nat k) lastError' s'))
                 (prefix
                  ++ emitted (attempts remaining (attempt + Z.of_nat k) lastError' s')).
Proof.
  induction k as [| k IH]; intros remaining attempt lastError s Hle Hall.
  - exists [], s, lastError. rewrite Nat.add_0_r, Z.add_0_r. cbn [Nat.add app].
    repeat split. destruct (RateLimitedFetch.attempts _ _ _ _ _ _ _); reflexivity.
  - pose proof (Hall 0%nat ltac:(lia)) as Htr. rewrite Nat.add_0_r in Htr.
    cbn [Nat.add].
    destruct (wrapper_attempts_cases (k + remaining) attempt lastError s)
      as [(events & _ & _ & _ & Hlast & _)
         | [(events & d & s1 & lastError1 & -> & _ & Hlt & Hs1 & Hn & Hsl)
           | (e & _ & Hlast & _)]];
      [exfalso; apply (Hlast Htr); lia | | exfalso; apply Hlast; lia].
    destruct (IH remaining (attempt + 1) lastError1 s1)
      as (prefix & s' & lastError' & Hs' & Hpn & Hpsl & ->).
    { lia. }
    { intros i Hi. rewrite Hs1. replace (S (fetches s) + i)%nat
        with (fetches s + S i)%nat by lia. apply Hall. lia. }
    exists (Fetch attempt :: events ++ prefix), s', lastError'.
    split; [lia |].
    split.
    { change (Fetch attempt :: ?x ++ prefix) with ([Fetch attempt] ++ x ++ prefix).
      rewrite !wrapper_attemptsMade_app, Hn, Hpn. reflexivity. }
    split.
    { change (Fetch attempt :: ?x ++ prefix) with ([Fetch attempt] ++ x ++ prefix).
      rewrite !wrapper_sleeps_app, Hsl, !length_app, Hpsl. reflexivity. }
    cbn [result final emitted].
    replace (attempt + 1 + Z.of_nat k) with (attempt + Z.of_nat (S k)) by lia.
    cbn [app]. rewrite app_assoc. reflexivity.
Qed.

End Wrapper.

(** X19. The fetch wrapper that [createRateLimitedFetch] returns, with a
    retry limit of one or more, sends at least one request and at most the
    limit, sleeps once between any two requests, and settles on the
    outcome of the last request it sent: it returns that response, be it a
    rate-limit response at the last attempt, or rejects with that network
    error, which it does after the last attempt only. With a limit of zero
    or less it sends nothing and rejects with "Max retries exceeded". *)
Theorem rateLimitedFetch_settles_on_last_request
    (config : PartialConfig) (fetch : nat -> FetchResult) (random : nat -> Q) (s : Net) :
  let out := rateLimitedFetch config fetch random s in
  let limit := maxRetries (finalConfig config) in
  (limit <= 0 -> out = mkOut (Throw (Js.lit "Max retries exceeded")) s [])
  /\ (1 <= limit ->
      (1 <= Z.of_nat (attemptsMade (emitted out)) <= limit)
      /\ fetches (final out) = (fetches s + attemptsMade (emitted out))%nat
      /\ length (sleeps (emitted out)) = (attemptsMade (emitted out) - 1)%nat
      /\ result out = settled (fetch (fetches (final out) - 1)%nat)
      /\ (forall e, result out = Throw e ->
            Z.of_nat (attemptsMade (emitted out)) = limit)).
Proof.
  intros out limit. subst out limit. unfold rateLimitedFetch. split.
  - intros H. replace (Z.to_nat _) with 0%nat by lia. reflexivity.
  - intros H.
    destruct (attempts_settle config fetch random
                (Z.to_nat (maxRetries (finalConfig config))) 1 None s)
      as (H1 & H2 & H3 & H4 & H5); [lia | lia |].
    split; [lia |]. split; [exact H2 |]. split; [exact H3 |]. split; [exact H4 |].
    intros e He. rewrite (H5 e He). lia.
Qed.

Lemma rateLimitedFetch_settles_on_last_request_witness :
  (1 <= Z.of_nat (attemptsMade
                    (emitted (rateLimitedFetch defaults (replies []) Scenario.noJitter
                                (Gateway.mkNet 0 0)))) <= 5)
  /\ fetches (final (rateLimitedFetch defaults (replies []) Scenario.noJitter
                       (Gateway.mkNet 0 0)))
     = (0 + attemptsMade (emitted (rateLimitedFetch defaults (replies [])
                                     Scenario.noJitter (Gateway.mkNet 0 0))))%nat
  /\ length (sleeps (emitted (rateLimitedFetch defaults (replies []) Scenario.noJitter
                                (Gateway.mkNet 0 0))))
     = (attemptsMade (emitted (rateLimitedFetch defaults (replies []) Scenario.noJitter
                                 (Gateway.mkNet 0 0))) - 1)%nat
  /\ result (rateLimitedFetch defaults (replies []) Scenario.noJitter (Gateway.mkNet 0 0))
     = settled (replies []
                  (fetches (final (rateLimitedFetch defaults (replies [])
                                     Scenario.noJitter (Gateway.mkNet 0 0))) - 1)%nat)
  /\ (forall e,
        result (rateLimitedFetch defaults (replies []) Scenario.noJitter
                  (Gateway.mkNet 0 0)) = Throw e ->
        Z.of_nat (attemptsMade
                    (emitted (rateLimitedFetch defaults (replies []) Scenario.noJitter
                                (Gateway.mkNet 0 0)))) = 5).
Proof.
  apply (proj2 (rateLimitedFetch_settles_on_last_request defaults (replies [])
                  Scenario.noJitter (Gateway.mkNet 0 0))).
  cbn. lia.
Defined.

(** X20. The wrapper tries again after network errors and after rate-limit
    responses alike: when its first [k] requests ([k] below the limit) end
    in either way and the next one gets a response that is not a rate
    limit, it returns this response, whatever its status (a 401 or a 503
    as well as a 200), after [k + 1] requests and [k] sleeps. *)
Theorem rateLimitedFetch_retries_transient_outcomes
    (config : PartialConfig) (fetch : nat -> FetchResult) (random : nat -> Q) (s : Net)
    (k : nat) (r : Response) :
  Z.of_nat k < maxRetries (finalConfig config) ->
  (forall i, (i < k)%nat -> transient (fetch (fetches s + i)%nat) = true) ->
  fetch (fetches s + k)%nat = Responds r ->
  isRateLimitError (status r) None = false ->
  let out := rateLimitedFetch config fetch random s in
  result out = Ok r
  /\ attemptsMade (emitted out) = S k
  /\ length (sleeps (emitted out)) = k.
Proof.
  intros Hk Hall Hf Hrl out. subst out. unfold rateLimitedFetch.
  replace (Z.to_nat (maxRetries (finalConfig config)))
    with (k + S (Z.to_nat (maxRetries (finalConfig config)) - S k))%nat by lia.
  destruct (through_transient config fetch random k
              (S (Z.to_nat (maxRetries (finalConfig config)) - S k)) 1 None s)
    as (prefix & s' & lastError' & Hs' & Hn & Hsl & ->); [lia | exact Hall |].
  rewrite <- Hs' in Hf.
  destruct (wrapper_attempts_cases config fetch random
              (Z.to_nat (maxRetries (finalConfig config)) - S k)
              (1 + Z.of_nat k) lastError' s')
    as [(events & -> & Hen & Hesl & _)
       | [(events & d & s1 & l1 & _ & Htr & _) | (e & He & _)]].
  - rewrite Hf. cbn [result final emitted settled].
    change (Fetch ?a :: events) with ([Fetch a] ++ events).
    rewrite !wrapper_attemptsMade_app, !wrapper_sleeps_app, !length_app, Hn, Hsl, Hen, Hesl. cbn.
    repeat split; lia.
  - rewrite Hf in Htr. cbn in Htr. congruence.
  - congruence.
Qed.

Lemma rateLimitedFetch_retries_transient_outcomes_witness :
  result (rateLimitedFetch defaults
            (replies [Rejects (Js.lit "Failed to fetch"); Responds Scenario.overloaded;
                      Responds Scenario.unavailable])
            Scenario.noJitter (Gateway.mkNet 0 0)) = Ok Scenario.unavailable
  /\ attemptsMade
       (emitted (rateLimitedFetch defaults
                   (replies [Rejects (Js.lit "Failed to fetch");
                             Responds Scenario.overloaded; Responds Scenario.unavailable])
                   Scenario.noJitter (Gateway.mkNet 0 0))) = 3%nat
  /\ length
       (sleeps
          (emitted (rateLimitedFetch defaults
                      (replies [Rejects (Js.lit "Failed to fetch");
                                Responds Scenario.overloaded;
                                Responds Scenario.unavailable])
                      Scenario.noJitter (Gateway.mkNet 0 0)))) = 2%nat.
Proof.
  apply (rateLimitedFetch_retries_transient_outcomes defaults
           (replies [Rejects (Js.lit "Failed to fetch"); Responds Scenario.overloaded;
                     Responds Scenario.unavailable])
           Scenario.noJitter (Gateway.mkNet 0 0) 2 Scenario.unavailable).
  - cbn. lia.
  - intros i Hi. destruct i as [| [| i]]; [reflexivity | reflexivity | lia].
  - reflexivity.
  - reflexivity.
Defined.

End WrapperFacts.

(** ** The orchestrator: checkpoints, reports and the resume of a run *)

Module OrchestratorFacts.
Import Spec Agent Orchestrator.
Import AgentFacts PipelineFacts ResumeFacts RunFacts StorageFacts KeyFacts.

Lemma List_last_cons {A} (x : A) (l : list A) (d : A) :
  List.last (x :: l) d = List.last l x.
Proof.
  revert x d. induction l as [| y l IH]; intros x d; [reflexivity |].
  change (List.last (x :: y :: l) d) with (List.last (y :: l) d).
  rewrite !IH. reflexivity.
Qed.

Lemma mapM_fileName (produced : list (option SpecArtifact)) :
  Forall is_Some produced ->
  exists names, mapM (fun a : option SpecArtifact => fileName <$> a) produced = Some names.
Proof.
  induction 1 as [| a l [a' ->] _ [names IH]]; [exists []; reflexivity |].
  exists (fileName a' :: names). cbn. rewrite IH. reflexivity.
Qed.

Section Observing.

Context {Blob : Type}.
Variable statuses : nat -> list Js.str.

Local Abbreviation Orch := (Orchestrator Blob).

(** Status texts change the status text. *)
Lemma showStatus_all (messages : list Js.str) (o : Orch) :
  let o' := fold_left (fun o message => showStatus message o) messages o in
  config o' = config o /\ moduleName o' = moduleName o
  /\ artifacts o' = artifacts o /\ reported o' = reported o
  /\ delivered o' = delivered o /\ localStorage o' = localStorage o
  /\ agree (progress o') (progress o).
Proof.
  revert o. induction messages as [| m l IH]; intros o.
  - cbn. repeat split.
  - cbn [fold_left]. destruct (IH (showStatus m o)) as (H1 & H2 & H3 & H4 & H5 & H6 & H7).
    cbv zeta. rewrite H1, H2, H3, H4, H5, H6.
    repeat split; try apply H7.
Qed.

Lemma agree_trans (p q r : Storage.OrchestrationProgress) :
  agree p q -> agree q r -> agree p r.
Proof.
  intros (A1 & A2 & A3 & A4 & A5 & A6) (B1 & B2 & B3 & B4 & B5 & B6).
  repeat split; congruence.
Qed.

Lemma agree_refl (p : Storage.OrchestrationProgress) : agree p p.
Proof. repeat split. Qed.

Lemma synced_persistState (o : Orch) : synced (persistState o).
Proof. exists (progress o). split; [reflexivity | apply agree_refl]. Qed.

(** A change that leaves alone what a checkpoint holds keeps the
    orchestrator and its store in step. *)
Lemma synced_quiet (o o' : Orch) :
  synced o ->
  config o' = config o -> moduleName o' = moduleName o ->
  artifacts o' = artifacts o -> localStorage o' = localStorage o ->
  agree (progress o') (progress o) ->
  synced o'.
Proof.
  intros (p & Hls & Hp) Hc Hm Ha Hl Hagree. exists p. split.
  - unfold checkpointOf. rewrite Hl, Hc, Hm, Ha. exact Hls.
  - eapply agree_trans; [exact Hp |].
    destruct Hagree as (A1 & A2 & A3 & A4 & A5 & A6). repeat split; congruence.
Qed.

Lemma last_app_default {A} (l1 l2 : list A) (d : A) :
  List.last (l1 ++ l2) d = List.last l2 (List.last l1 d).
Proof.
  revert d. induction l1 as [| x l1 IH]; intros d; [reflexivity |].
  rewrite <- app_comm_cons, !List_last_cons. apply IH.
Qed.

(** One callback that returns. *)
Lemma handle_spec (e : Event) (o o' : Orch) :
  handle e o = Some o' ->
  config o' = config o /\ moduleName o' = moduleName o
  /\ delivered o' = delivered o
  /\ artifacts o' = artifacts o ++ completedIn [e]
  /\ reported o' = reported o ++ errorsIn [e]
  /\ Storage.currentStage (progress o')
     = List.last (List.map fst (startedStages [e])) (Storage.currentStage (progress o))
  /\ Storage.state (progress o')
     = match errorsIn [e] with
       | [] => Storage.state (progress o)
       | _ :: _ => Storage.error
       end
  /\ (localStorage o' = localStorage o \/ synced o')
  /\ (synced o \/ (exists stage agent, e = StageStart stage agent) -> synced o').
Proof.
  destruct e as [stage agent | t | cycle maxCycles | role agent t cycle context history
                 | a | stage agent produced | message]; cbn [handle].
  - intros [= <-]. cbn. rewrite ?app_nil_r.
    repeat split; [right | intros _]; apply synced_persistState.
  - intros [= <-]. cbn. rewrite ?app_nil_r.
    repeat split; [left; reflexivity |]. intros [Hs | (? & ? & [=])].
    eapply synced_quiet; [exact Hs | reflexivity .. |]. repeat split.
  - intros [= <-]. cbn. rewrite ?app_nil_r.
    repeat split; [left; reflexivity |]. intros [Hs | (? & ? & [=])].
    eapply synced_quiet; [exact Hs | reflexivity .. |]. repeat split.
  - intros [= <-]. cbn. rewrite ?app_nil_r.
    repeat split; [left; reflexivity |]. intros [Hs | (? & ? & [=])]. exact Hs.
  - destruct a as [a |]; [| discriminate]. intros [= <-]. cbn. rewrite ?app_nil_r.
    assert (Hs : synced
                   (persistState
                      (updateProgress
                         (mkUpdate None None None None None None None
                                   (Some (Js.lit "Completed " ++ fileName a)) None)
                         (push a o)))) by apply synced_persistState.
    repeat split; [right | intros _]; exact Hs.
  - unfold onStageComplete.
    destruct (mapM (fun a : option SpecArtifact => fileName <$> a) produced)
      as [names |]; [| discriminate].
    cbn [mbind option_bind]. intros [= <-]. cbn. rewrite ?app_nil_r.
    assert (Hs : synced
                   (persistState
                      (updateProgress
                         (mkUpdate None None None None None None
                                   (Some (Storage.completedArtifacts (progress o) ++ names))
                                   (Some (Js.lit "Completed stage "
                                          ++ Js.ofZ (Z.of_nat stage)
                                          ++ Js.lit ": " ++ agentTypeName agent))
                                   None) o))) by apply synced_persistState.
    repeat split; [right | intros _]; exact Hs.
  - intros [= <-]. cbn. rewrite ?app_nil_r.
    assert (Hs : synced (onError message o)).
    { eapply synced_quiet;
        [apply (synced_persistState
                  (updateProgress
                     (mkUpdate (Some Storage.error) None None None None None None None
                               (Some message)) o))
        | reflexivity .. |]. repeat split. }
    repeat split; [right | intros _]; exact Hs.
Qed.

Lemma handle_returns (e : Event) (o : Orch) : returns e -> is_Some (handle e o).
Proof.
  destruct e as [| | | | a | stage agent produced |]; cbn [handle returns]; try (eexists; reflexivity).
  - intros [a' ->]. eexists; reflexivity.
  - intros H. destruct (mapM_fileName produced H) as [names Hnames].
    unfold onStageComplete. rewrite Hnames. eexists; reflexivity.
Qed.

(** What a trace of callbacks that return leaves of the orchestrator. *)
Lemma observe_spec (trace : list Event) :
  forall n (o o' : Orch),
    observe statuses n trace o = Some o' ->
    config o' = config o /\ moduleName o' = moduleName o
    /\ delivered o' = delivered o
    /\ artifacts o' = artifacts o ++ completedIn trace
    /\ reported o' = reported o ++ errorsIn trace
    /\ Storage.currentStage (progress o')
       = List.last (List.map fst (startedStages trace)) (Storage.currentStage (progress o))
    /\ Storage.state (progress o')
       = match errorsIn trace with
         | [] => Storage.state (progress o)
         | _ :: _ => Storage.error
         end
    /\ (localStorage o' = localStorage o \/ synced o')
    /\ (synced o \/ (exists stage agent rest, trace = StageStart stage agent :: rest) ->
        synced o').
Proof.
  induction trace as [| e rest IH]; intros n o o'.
  - intros [= <-]. cbn. rewrite !app_nil_r. repeat split; [left; reflexivity |].
    intros [Hs | (? & ? & ? & [=])]. exact Hs.
  - cbn [observe]. destruct (handle e o) as [o1 |] eqn:H1; [| discriminate].
    cbn [mbind option_bind]. intros H3.
    destruct (handle_spec e o o1 H1) as (C1 & M1 & D1 & A1 & R1 & S1 & T1 & L1 & Y1).
    pose proof (showStatus_all (statuses n) o1) as H2. cbv zeta in H2.
    set (o2 := fold_left (fun o message => showStatus message o) (statuses n) o1) in *.
    destruct H2 as (C2 & M2 & A2 & R2 & D2 & L2 & G2).
    destruct (IH (S n) o2 o' H3) as (C3 & M3 & D3 & A3 & R3 & S3 & T3 & L3 & Y3).
    assert (Hquiet : synced o1 -> synced o2).
    { intros Hs. eapply synced_quiet; [exact Hs | assumption ..]. }
    split; [congruence |]. split; [congruence |]. split; [congruence |].
    change (e :: rest) with ([e] ++ rest).
    rewrite (flat_map_app _ [e] rest : completedIn ([e] ++ rest) = _).
    rewrite (flat_map_app _ [e] rest : errorsIn ([e] ++ rest) = _).
    rewrite (flat_map_app _ [e] rest : startedStages ([e] ++ rest) = _).
    fold (completedIn [e]) (completedIn rest) (errorsIn [e]) (errorsIn rest)
         (startedStages [e]) (startedStages rest).
    rewrite List.map_app, last_app_default.
    split; [rewrite A3, A2, A1, <- app_assoc; reflexivity |].
    split; [rewrite R3, R2, R1, <- app_assoc; reflexivity |].
    split.
    { rewrite S3. f_equal. destruct G2 as (_ & G2 & _). rewrite G2. exact S1. }
    split.
    { rewrite T3. destruct G2 as (G2 & _). rewrite G2, T1.
      destruct (errorsIn rest); [rewrite app_nil_r; reflexivity |].
      destruct (errorsIn [e]); reflexivity. }
    split.
    { destruct L3 as [L3 | L3]; [| right; exact L3].
      destruct L1 as [L1 | L1]; [left; congruence |].
      right. apply Y3. left. apply Hquiet. exact L1. }
    intros Hs. apply Y3. left. apply Hquiet. apply Y1.
    destruct Hs as [Hs | (stage & agent & rest' & [= -> _])]; [left; exact Hs |].
    right. eauto.
Qed.

Lemma observe_returns (trace : list Event) :
  Forall returns trace ->
  forall n (o : Orch), is_Some (observe statuses n trace o).
Proof.
  induction 1 as [| e rest He _ IH]; intros n o; [eexists; reflexivity |].
  cbn [observe]. destruct (handle_returns e o He) as [o1 ->]. apply IH.
Qed.

End Observing.

Lemma startedStages_app (l1 l2 : list Event) :
  startedStages (l1 ++ l2) = startedStages l1 ++ startedStages l2.
Proof. apply flat_map_app. Qed.

Lemma completedStages_app (l1 l2 : list Event) :
  completedStages (l1 ++ l2) = completedStages l1 ++ completedStages l2.
Proof. apply flat_map_app. Qed.

Lemma completedIn_app (l1 l2 : list Event) :
  completedIn (l1 ++ l2) = completedIn l1 ++ completedIn l2.
Proof. apply flat_map_app. Qed.

Lemma errorsIn_app (l1 l2 : list Event) :
  errorsIn (l1 ++ l2) = errorsIn l1 ++ errorsIn l2.
Proof. apply flat_map_app. Qed.

(** The events of a feedback cycle are no callbacks of a stage or of an
    artifact. *)
Lemma cycleEvents_quiet t context (trace : list Event) :
  Forall (cycleEvent t context) trace ->
  Forall returns trace /\ startedStages trace = [] /\ completedStages trace = []
  /\ errorsIn trace = [] /\ completedIn trace = [].
Proof.
  induction 1 as [| e l He _ (I1 & I2 & I3 & I4 & I5)]; [repeat split; constructor |].
  destruct e; cbn in He; try contradiction.
  - split; [constructor; [exact I | exact I1] |]. repeat split; assumption.
  - split; [constructor; [exact I | exact I1] |]. repeat split; assumption.
Qed.

Lemma last_seq (n j : nat) : List.last (seq (n + 1) j) n = (n + j)%nat.
Proof.
  revert n. induction j as [| j IH]; intros n; [cbn; lia |].
  cbn [seq]. rewrite List_last_cons.
  replace (S (n + 1)) with ((n + 1) + 1)%nat by lia. rewrite IH. lia.
Qed.

Section Prefixes.

Variable llm : nat -> Res Js.str.
Variable clock : nat -> Z.
Variable maxFeedbackCycles : Z.

Local Abbreviation engine := (generateWithFeedbackCycle llm clock maxFeedbackCycles).
Local Abbreviation produce := (Agent.produce llm clock maxFeedbackCycles).
Local Abbreviation execute := (Agent.execute llm clock maxFeedbackCycles).
Local Abbreviation stages := (Pipeline.stages llm clock maxFeedbackCycles).

(** However far an agent has come, it has started no stage and completed
    artifacts of its own types only, each at most once. *)
Lemma produce_prefix agent irTypes :
  forall made s k,
    startedStages (firstn k (emitted (produce agent irTypes made s))) = []
    /\ List.map irType (completedIn (firstn k (emitted (produce agent irTypes made s))))
       `sublist_of` irTypes.
Proof.
  induction irTypes as [| t rest IH]; intros made s k.
  - cbn. rewrite firstn_nil. split; [reflexivity | constructor].
  - destruct (engine_spec llm clock maxFeedbackCycles agent t s) as (_ & _ & Hev).
    assert (Hquiet : forall k', startedStages (firstn k' (emitted (engine agent t s))) = []
                                /\ completedIn (firstn k' (emitted (engine agent t s))) = []).
    { intros k'. apply (Forall_take _ k') in Hev.
      apply cycleEvents_quiet in Hev as (_ & E2 & _ & _ & E5). auto. }
    destruct k as [| k]; [cbn; split; [reflexivity | apply sublist_nil_l] |].
    destruct (result (engine agent t s)) as [r | message] eqn:Hres.
    + pose proof (produce_next llm clock maxFeedbackCycles agent t rest made s r Hres)
        as Heq.
      cbn zeta in Heq. rewrite Heq. clear Heq. cbn [emitted firstn].
      rewrite firstn_app.
      change (ArtifactStart t :: ?x ++ ?y) with ([ArtifactStart t] ++ x ++ y).
      rewrite !startedStages_app, !completedIn_app.
      destruct (Hquiet k) as [-> ->]. cbn [startedStages completedIn flat_map app].
      destruct (k - length (emitted (engine agent t s)))%nat as [| k'];
        [cbn; split; [reflexivity | apply sublist_nil_l] |].
      cbn [firstn].
      change (ArtifactComplete ?v :: ?y) with ([ArtifactComplete v] ++ y).
      rewrite startedStages_app, completedIn_app.
      destruct (IH (made ++ [Spec.artifact r])
                   (filed t (Spec.artifact r) (final (engine agent t s))) k') as [I1 I2].
      rewrite I1. split; [reflexivity |].
      rewrite List.map_app.
      destruct (Spec.artifact r) as [a |] eqn:Ha.
      * assert (Ht : irType a = t).
        { unfold generateWithFeedbackCycle in Hres.
          destruct (Z.to_nat maxFeedbackCycles) as [| n] eqn:Hn.
          - cbn in Hres. injection Hres as <-. discriminate.
          - destruct (cycles_artifact llm clock maxFeedbackCycles agent t (S n)
                        _ _ _ _ _ Hres) as [Hpos _].
            destruct Hpos as (a' & Ha' & Ht); [lia |]. congruence. }
        cbn. rewrite Ht. apply sublist_skip. exact I2.
      * cbn. apply sublist_cons. exact I2.
    + rewrite (produce_failed llm clock maxFeedbackCycles agent t rest made s message Hres).
      cbn [emitted firstn].
      change (ArtifactStart t :: ?x) with ([ArtifactStart t] ++ x).
      rewrite !startedStages_app, !completedIn_app.
      destruct (Hquiet k) as [-> ->]. cbn. split; [reflexivity | apply sublist_nil_l].
Qed.

(** However far the stages have come, the stages they have started are
    numbered in order from the first, and the artifacts completed are of
    types of the stages started, each at most once. *)
Lemma stages_prefix agents :
  forall i all s k,
    exists j,
      (j <= length agents)%nat
      /\ List.map fst (startedStages (firstn k (emitted (stages agents i all s))))
         = seq (i + 1) j
      /\ List.map irType (completedIn (firstn k (emitted (stages agents i all s))))
         `sublist_of` flat_map getOutputIRTypes (firstn j agents).
Proof.
  induction agents as [| agent rest IH]; intros i all s k.
  - exists 0%nat. cbn. rewrite firstn_nil. repeat split; [lia | constructor].
  - destruct k as [| k].
    { exists 0%nat. cbn. repeat split; [lia | constructor]. }
    pose proof (fun k' => produce_prefix agent (getOutputIRTypes agent) [] s k') as Hex.
    fold (execute agent s) in Hex.
    assert (Hone : forall tail,
               startedStages tail = [] -> completedIn tail = [] ->
               exists j,
                 (j <= length (agent :: rest))%nat
                 /\ List.map fst
                      (startedStages
                         (firstn (S k) (StageStart (i + 1) agent
                                        :: emitted (execute agent s) ++ tail)))
                    = seq (i + 1) j
                 /\ List.map irType
                      (completedIn
                         (firstn (S k) (StageStart (i + 1) agent
                                        :: emitted (execute agent s) ++ tail)))
                    `sublist_of` flat_map getOutputIRTypes (firstn j (agent :: rest))).
    { intros tail T1 T2. exists 1%nat. cbn [firstn]. rewrite firstn_app.
      change (StageStart ?n agent :: ?x ++ ?y) with ([StageStart n agent] ++ x ++ y).
      rewrite !startedStages_app, !completedIn_app.
      destruct (Hex k) as [-> H2].
      assert (E1 : startedStages (firstn (k - length (emitted (execute agent s))) tail) = []
                   /\ completedIn (firstn (k - length (emitted (execute agent s))) tail)
                      = []).
      { revert T1 T2. generalize (k - length (emitted (execute agent s)))%nat.
        intros m. revert m. induction tail as [| e tail IHt]; intros m T1 T2;
          [rewrite firstn_nil; auto |].
        destruct m as [| m]; [auto |]. cbn [firstn].
        change (e :: tail) with ([e] ++ tail) in T1, T2.
        rewrite startedStages_app in T1. rewrite completedIn_app in T2.
        apply app_eq_nil in T1 as [T1 T1']. apply app_eq_nil in T2 as [T2 T2'].
        change (e :: ?x) with ([e] ++ x).
        rewrite startedStages_app, completedIn_app, T1, T2.
        apply IHt; assumption. }
      destruct E1 as [-> ->]. cbn. rewrite !app_nil_r.
      repeat split; [lia | exact H2]. }
    destruct (stages_shape llm clock maxFeedbackCycles agent rest i all s)
      as (ar & _ & [(m & -> & _) | [(a' & s' & -> & _) | (a' & s' & -> & _)]]);
      cbn [emitted].
    + apply Hone; reflexivity.
    + apply Hone; reflexivity.
    + cbn [firstn]. rewrite firstn_app.
      destruct (k - length (emitted (execute agent s)))%nat as [| k'] eqn:Hk.
      * destruct (Hone [] eq_refl eq_refl) as (j & J1 & J2 & J3).
        cbn [firstn] in J2, J3. rewrite firstn_app, Hk, firstn_nil in J2, J3.
        cbn [firstn]. exists j. auto.
      * cbn [firstn].
        change (StageStart ?n agent :: ?x ++ StageComplete ?m agent ?p :: ?y)
          with ([StageStart n agent] ++ x ++ [StageComplete m agent p] ++ y).
        rewrite !startedStages_app, !completedIn_app.
        destruct (Hex k) as [-> H2].
        destruct (IH (S i) a' s' k') as (j & J1 & J2 & J3).
        exists (S j). cbn [startedStages completedIn flat_map app List.map fst seq].
        rewrite J2. replace (S i + 1)%nat with (S (i + 1)) by lia.
        split; [cbn; lia |]. split; [reflexivity |].
        rewrite List.map_app. cbn [firstn flat_map].
        apply sublist_app; assumption.
Qed.

End Prefixes.

(** The types of the first [n + j] stages are those of the first [n] and
    those of the [j] stages that follow. *)
Lemma outputsBefore_add (n j : nat) :
  Pipeline.outputsBefore (n + j)
  = Pipeline.outputsBefore n ++ flat_map getOutputIRTypes (firstn j (skipn n AGENT_ORDER)).
Proof.
  unfold Pipeline.outputsBefore. rewrite <- flat_map_app. f_equal.
  rewrite firstn_skipn_comm.
  rewrite <- (firstn_skipn n (firstn (n + j) AGENT_ORDER)) at 1.
  rewrite firstn_firstn. f_equal. f_equal. lia.
Qed.

Lemma outputsBefore_distinct (n : nat) : NoDup (Pipeline.outputsBefore n).
Proof.
  pose proof outputs_distinct as H. rewrite <- (outputs_split n) in H.
  apply NoDup_app in H as (H & _). exact H.
Qed.

(** A checkpoint in order stays in order when artifacts of the stages
    that follow are added and the stage index moves past them. *)
Lemma inOrder_grows (n j : nat) (persisted completed : list SpecArtifact) :
  inOrder n persisted ->
  List.map irType completed
    `sublist_of` flat_map getOutputIRTypes (firstn j (skipn n AGENT_ORDER)) ->
  inOrder (n + j) (persisted ++ completed).
Proof.
  intros [Hnd Hall] Hsub.
  pose proof (outputsBefore_distinct (n + j)) as Hdist.
  rewrite outputsBefore_add in Hdist.
  apply NoDup_app in Hdist as (_ & Hdisj & Hmid).
  split.
  - rewrite List.map_app. apply NoDup_app. split; [exact Hnd |]. split.
    + intros t Ht Ht'. apply (Hdisj t).
      * apply list_elem_of_fmap in Ht as (a & -> & Ha).
        rewrite Forall_forall in Hall. apply Hall. exact Ha.
      * eapply elem_of_sublist; eassumption.
    + eapply sublist_NoDup; eassumption.
  - rewrite outputsBefore_add. apply Forall_app. split.
    + eapply Forall_impl; [exact Hall |]. intros a Ha. apply elem_of_app. left. exact Ha.
    + apply Forall_forall. intros a Ha. apply elem_of_app. right.
      eapply elem_of_sublist; [| exact Hsub].
      apply list_elem_of_fmap. eauto.
Qed.

Section Traces.

Variable llm : nat -> Res Js.str.
Variable clock : nat -> Z.
Variable maxFeedbackCycles : Z.
Hypothesis positive : 1 <= maxFeedbackCycles.

Local Abbreviation engine := (generateWithFeedbackCycle llm clock maxFeedbackCycles).
Local Abbreviation produce := (Agent.produce llm clock maxFeedbackCycles).
Local Abbreviation execute := (Agent.execute llm clock maxFeedbackCycles).
Local Abbreviation stages := (Pipeline.stages llm clock maxFeedbackCycles).

(** The trace of an agent: its artifacts are the ones it has announced as
    complete, none of them [null], and it holds no event of a stage. *)
Lemma produce_trace agent irTypes :
  forall made s,
    exists ar,
      result (produce agent irTypes made s) = Ok ar
      /\ Spec.artifacts ar
         = made ++ List.map Some (completedIn (emitted (produce agent irTypes made s)))
      /\ Forall returns (emitted (produce agent irTypes made s))
      /\ startedStages (emitted (produce agent irTypes made s)) = []
      /\ completedStages (emitted (produce agent irTypes made s)) = []
      /\ errorsIn (emitted (produce agent irTypes made s)) = []
      /\ (Spec.success ar = false -> exists e, Spec.error ar = Some e).
Proof.
  induction irTypes as [| t rest IH]; intros made s.
  - eexists. split; [reflexivity |]. cbn. rewrite app_nil_r. repeat split;
      [constructor | discriminate].
  - destruct (engine_spec llm clock maxFeedbackCycles agent t s) as (_ & _ & Hev).
    apply cycleEvents_quiet in Hev as (E1 & E2 & E3 & E4 & E5).
    destruct (result (engine agent t s)) as [r | message] eqn:Hres.
    + pose proof (produce_next llm clock maxFeedbackCycles agent t rest made s r Hres)
        as Heq.
      cbn zeta in Heq. rewrite Heq. clear Heq. cbn [result final emitted].
      destruct (IH (made ++ [Spec.artifact r])
                   (filed t (Spec.artifact r) (final (engine agent t s))))
        as (ar & Hr & Harts & I1 & I2 & I3 & I4 & I5).
      assert (Hsome : exists a, Spec.artifact r = Some a).
      { unfold generateWithFeedbackCycle in Hres.
        destruct (cycles_artifact llm clock maxFeedbackCycles agent t _ _ _ _ _ _ Hres)
          as [Hpos _].
        destruct Hpos as (a & Ha & _); [lia | eauto]. }
      destruct Hsome as [a Ha]. rewrite Ha in *.
      exists ar. split; [exact Hr |].
      change (ArtifactStart t :: ?x ++ ArtifactComplete ?a :: ?y)
        with ([ArtifactStart t] ++ x ++ [ArtifactComplete a] ++ y).
      rewrite !completedIn_app, !startedStages_app, !completedStages_app, !errorsIn_app.
      rewrite E2, E3, E4, E5, I2, I3, I4.
      split.
      { rewrite Harts. cbn. rewrite <- app_assoc. reflexivity. }
      split; [| repeat split; exact I5].
      constructor; [exact I |]. apply Forall_app. split; [exact E1 |].
      constructor; [cbn; eauto | exact I1].
    + rewrite (produce_failed llm clock maxFeedbackCycles agent t rest made s message Hres).
      eexists. cbn [result final emitted]. split; [reflexivity |].
      change (ArtifactStart t :: ?x) with ([ArtifactStart t] ++ x).
      rewrite !completedIn_app, !startedStages_app, !completedStages_app, !errorsIn_app.
      rewrite E2, E3, E4, E5. cbn. rewrite app_nil_r.
      repeat split; [constructor; [exact I | exact E1] | eauto].
Qed.

(** The trace of the stages: a run that succeeds starts and completes
    every stage and reports no error; a run that fails ends in the stage
    it started last, with one error reported. *)
Lemma stages_trace agents :
  forall i all s,
    exists pr,
      result (stages agents i all s) = Ok pr
      /\ Forall returns (emitted (stages agents i all s))
      /\ match agents with
         | [] => emitted (stages agents i all s) = []
         | agent :: _ =>
             exists rest, emitted (stages agents i all s) = StageStart (i + 1) agent :: rest
         end
      /\ ((Pipeline.success pr = true
           /\ Pipeline.artifacts pr
              = all ++ List.map Some (completedIn (emitted (stages agents i all s)))
           /\ errorsIn (emitted (stages agents i all s)) = []
           /\ startedStages (emitted (stages agents i all s))
              = combine (seq (i + 1) (length agents)) agents
           /\ completedStages (emitted (stages agents i all s))
              = seq (i + 1) (length agents))
          \/ (Pipeline.success pr = false
              /\ exists k agent e,
                   nth_error agents k = Some agent
                   /\ startedStages (emitted (stages agents i all s))
                      = combine (seq (i + 1) (S k)) (firstn (S k) agents)
                   /\ completedStages (emitted (stages agents i all s)) = seq (i + 1) k
                   /\ Pipeline.error pr = Some e
                   /\ errorsIn (emitted (stages agents i all s))
                      = [Js.orElse e (Js.lit "Agent execution failed")])).
Proof.
  induction agents as [| agent rest IH]; intros i all s.
  - eexists. split; [reflexivity |]. split; [constructor |]. split; [reflexivity |].
    left. cbn. rewrite app_nil_r. repeat split.
  - destruct (produce_trace agent (getOutputIRTypes agent) [] s)
      as (ar & Hr & Harts & P1 & P2 & P3 & P4 & P5).
    fold (execute agent s) in *. cbn [app] in Harts.
    destruct (Spec.success ar) eqn:Hsucc.
    + assert (Hsome : Forall is_Some (Spec.artifacts ar)).
      { rewrite Harts. generalize (completedIn (emitted (execute agent s))).
        intros l. induction l; constructor; eauto. }
      destruct (collect_complete (Spec.artifacts ar) Hsome all
                  (previousArtifacts (final (execute agent s)))) as [Hall Hdone].
      pose proof (stages_next llm clock maxFeedbackCycles agent rest i all s ar
                    Hr Hsucc Hdone) as Heq.
      cbn zeta in Heq. rewrite Heq. clear Heq. cbn [result final emitted].
      rewrite Hall.
      destruct (IH (S i) (all ++ Spec.artifacts ar)
                   (Pipeline.collected (Spec.artifacts ar) all (final (execute agent s))))
        as (pr & Hpr & R1 & _ & Hcases).
      exists pr. split; [exact Hpr |].
      split; [| split; [eauto |]]; [| revert Hcases];
      change (StageStart ?n agent :: ?x ++ StageComplete ?m agent ?p :: ?y)
        with ([StageStart n agent] ++ x ++ [StageComplete m agent p] ++ y).
      { constructor; [exact I |]. apply Forall_app. split; [exact P1 |].
        constructor; [exact Hsome | exact R1]. }
      rewrite !completedIn_app, !startedStages_app, !completedStages_app, !errorsIn_app.
      rewrite P2, P3, P4. intros Hcases.
      destruct Hcases as [(S1 & S2 & S3 & S4 & S5) | (S1 & k & agent' & e & F1 & F2 & F3 & F4 & F5)].
      * left. rewrite S2, S3, S4, S5, Harts. cbn. rewrite List.map_app, <- app_assoc.
        repeat split. exact S1.
      * right. split; [exact S1 |]. exists (S k), agent', e.
        rewrite F2, F3, F5. repeat split; assumption.
    + destruct (P5 eq_refl) as [e He].
      rewrite (stages_agent_failed llm clock maxFeedbackCycles agent rest i all s ar
                 Hr Hsucc).
      cbn [result final emitted]. eexists. split; [reflexivity |].
      split.
      { constructor; [exact I |]. apply Forall_app. split; [exact P1 |].
        constructor; [exact I | constructor]. }
      split; [eauto |].
      change (StageStart ?n agent :: ?x ++ [Error ?m])
        with ([StageStart n agent] ++ x ++ [Error m]).
      rewrite !startedStages_app, !completedStages_app, !errorsIn_app.
      rewrite P2, P3, P4.
      right. split; [reflexivity |]. exists 0%nat, agent, e. rewrite He.
      repeat split.
Qed.

End Traces.

(** The stage a run started last. *)
Lemma last_started (agents : list AgentType) :
  forall i k agent,
    nth_error agents k = Some agent ->
    last (combine (seq (i + 1) (S k)) (firstn (S k) agents)) = Some ((i + k + 1)%nat, agent).
Proof.
  induction agents as [| a agents IH]; intros i k agent Hk; [destruct k; discriminate |].
  destruct k as [| k].
  - injection Hk as ->. cbn. rewrite Nat.add_0_r. reflexivity.
  - cbn [nth_error] in Hk. specialize (IH (S i) k agent Hk).
    change (combine (seq (i + 1) (S (S k))) (firstn (S (S k)) (a :: agents)))
      with (((i + 1)%nat, a) :: combine (seq (S (i + 1)) (S k)) (firstn (S k) agents)).
    replace (S (i + 1)) with (S i + 1)%nat by lia.
    rewrite last_cons, IH.
    replace (i + S k + 1)%nat with (S i + k + 1)%nat by lia. reflexivity.
Qed.

Lemma started_numbers (agents : list AgentType) :
  forall i k agent,
    nth_error agents k = Some agent ->
    List.map fst (combine (seq i (S k)) (firstn (S k) agents)) = seq i (S k).
Proof.
  induction agents as [| a agents IH]; intros i k agent Hk; [destruct k; discriminate |].
  destruct k as [| k]; [reflexivity |].
  cbn [nth_error] in Hk. specialize (IH (S i) k agent Hk).
  change (combine (seq i (S (S k))) (firstn (S (S k)) (a :: agents)))
    with ((i, a) :: combine (seq (S i) (S k)) (firstn (S k) agents)).
  cbn [List.map fst]. rewrite IH. reflexivity.
Qed.

(** The types of a stage are types of the stages before the next. *)
Lemma outputs_before_next (n : nat) (agent : AgentType) (t : IRType) :
  nth_error AGENT_ORDER n = Some agent ->
  t ∈ getOutputIRTypes agent -> t ∈ Pipeline.outputsBefore (S n).
Proof.
  intros Hn Ht. unfold Pipeline.outputsBefore.
  do 6 (destruct n as [| n];
        [injection Hn as <-; cbn [firstn AGENT_ORDER flat_map];
         rewrite ?elem_of_app; tauto |]).
  destruct n; discriminate.
Qed.

Section Sessions.

Context {Blob : Type}.
Variable generateZip : list (option SpecArtifact) -> Js.str -> Res Blob.
Variable extractModuleName : Js.str -> Js.str.

Local Abbreviation Orch := (Orchestrator Blob).

(** What a store that is in step with the orchestrator loads as. *)
Lemma synced_loads (o : Orch) (dateNow : Z) (saved : Storage.PersistedState) :
  synced o ->
  Storage.loadState dateNow (localStorage o) = Some saved ->
  Storage.currentStage (Storage.progress saved) = Storage.currentStage (progress o)
  /\ Storage.state (Storage.progress saved) = Storage.state (progress o)
  /\ Storage.artifacts saved = artifacts o
  /\ Storage.moduleName saved = moduleName o
  /\ Storage.persistedMaxFeedbackCycles (Storage.config saved)
     = Storage.maxFeedbackCycles (config o).
Proof.
  intros (p & Hls & Hp) Hload. rewrite Hls in Hload.
  unfold checkpointOf, Storage.loadState, Storage.saveState in Hload. cbn in Hload.
  destruct (moduleName o) as [| c name] eqn:Hname; [discriminate |]. cbn in Hload.
  injection Hload as <-. cbn. rewrite restore_all.
  destruct Hp as (A1 & A2 & _). auto.
Qed.

(** However far the pipeline of an orchestrator has come, the
    orchestrator holds a checkpoint in order when it started from one. *)
Lemma observed_inOrder statuses llm clock (o o1 : Orch) (s : Run) (k : nat) :
  inOrder (Storage.currentStage (progress o)) (artifacts o) ->
  observe statuses 0 (firstn k (emitted (pipelineOf llm clock (begin o) s))) (begin o)
  = Some o1 ->
  inOrder (Storage.currentStage (progress o1)) (artifacts o1).
Proof.
  intros Hin Hobs.
  destruct (observe_spec statuses _ _ _ _ Hobs) as (_ & _ & _ & HA & _ & HS & _).
  unfold pipelineOf in HA, HS. cbn [begin updateProgress config progress artifacts] in HA, HS.
  change (Storage.currentStage
            (spread (progress o)
                    (mkUpdate (Some Storage.running) None None None None None None
                              (Some _) None)))
    with (Storage.currentStage (progress o)) in HA, HS.
  change (Storage.maxFeedbackCycles (config o)) with (Storage.maxFeedbackCycles (config o))
    in HA.
  rewrite resume_stages in HA, HS.
  match type of HA with
  | context [Pipeline.stages ?l ?c ?m ?agents ?i ?all ?s'] =>
      destruct (stages_prefix l c m agents i all s' k) as (j & _ & J2 & J3)
  end.
  rewrite J2, last_seq in HS. rewrite HA, HS.
  apply inOrder_grows; assumption.
Qed.

Lemma saved_inOrder (o : Orch) (p : Storage.OrchestrationProgress) (ls : Storage.LocalStorage) :
  inOrder (Storage.currentStage p) (artifacts o) ->
  storeInOrder (Storage.saveState (config o) p (artifacts o) (moduleName o) ls).
Proof.
  intros Hin dateNow saved Hload.
  unfold Storage.loadState, Storage.saveState in Hload. cbn in Hload.
  destruct (moduleName o) as [| c name]; [discriminate |]. cbn in Hload.
  injection Hload as <-. cbn. rewrite restore_all. exact Hin.
Qed.

Lemma observed_store statuses llm clock (o o1 : Orch) (s : Run) (k : nat) :
  storeInOrder (localStorage o) ->
  inOrder (Storage.currentStage (progress o)) (artifacts o) ->
  observe statuses 0 (firstn k (emitted (pipelineOf llm clock (begin o) s))) (begin o)
  = Some o1 ->
  storeInOrder (localStorage o1).
Proof.
  intros Hstore Hin Hobs.
  pose proof (observed_inOrder statuses llm clock o o1 s k Hin Hobs) as Hin1.
  destruct (observe_spec statuses _ _ _ _ Hobs) as (_ & _ & _ & _ & _ & _ & _ & [HL | HL] & _).
  - rewrite HL. exact Hstore.
  - intros dateNow saved Hload.
    destruct (synced_loads o1 dateNow saved HL Hload) as (-> & _ & -> & _).
    exact Hin1.
Qed.

(** The four ways in which [run] ends. *)
Lemma run_cases statuses llm clock (o : Orch) (s : Run) (out : Out Orch Event unit) :
  Orchestrator.run generateZip statuses llm clock o s = Some out ->
  (Gateway.validateApiKeys (Storage.apiKeys (config o))
                           (Storage.executorModel (config o))
                           (Storage.reviewerModel (config o)) <> []
   /\ emitted out = [] /\ localStorage (final out) = localStorage o
   /\ artifacts (final out) = artifacts o /\ delivered (final out) = delivered o)
  \/ (Gateway.validateApiKeys (Storage.apiKeys (config o))
                              (Storage.executorModel (config o))
                              (Storage.reviewerModel (config o)) = []
      /\ emitted out = emitted (pipelineOf llm clock (begin o) s)
      /\ exists o1,
           observe statuses 0 (emitted (pipelineOf llm clock (begin o) s)) (begin o)
           = Some o1
           /\ artifacts (final out) = artifacts o1
           /\ ((localStorage (final out) = localStorage o1
                /\ (delivered (final out) = delivered o1
                    \/ exists pr zipBlob,
                         result (pipelineOf llm clock (begin o) s) = Ok pr
                         /\ Pipeline.success pr = true
                         /\ delivered (final out)
                            = Some (Pipeline.artifacts pr, zipBlob)))
               \/ (exists p,
                     localStorage (final out)
                     = Storage.saveState (config o1) p (artifacts o1) (moduleName o1)
                                         (localStorage o1)
                     /\ Storage.currentStage p = Storage.currentStage (progress o1)
                     /\ Storage.state p = Storage.error
                     /\ delivered (final out) = delivered o1
                     /\ exists pr,
                          result (pipelineOf llm clock (begin o) s) = Ok pr
                          /\ Pipeline.success pr = false))).
Proof.
  unfold Orchestrator.run. cbv zeta.
  destruct (Gateway.validateApiKeys _ _ _) as [| e errors] eqn:Hkeys.
  - cbn [length bool_decide]. rewrite bool_decide_eq_false_2 by (cbn; lia).
    destruct (observe statuses 0 _ (begin o)) as [o1 |] eqn:Hobs; [| discriminate].
    cbn [mbind option_bind]. intros Hrun. right. split; [reflexivity |].
    destruct (result (pipelineOf llm clock (begin o) s)) as [pr | message] eqn:Hres.
    + destruct (Pipeline.success pr) eqn:Hsucc.
      * destruct (generateZip _ _) as [zipBlob | message].
        -- injection Hrun as <-. cbn [emitted final]. split; [reflexivity |].
           exists o1. split; [reflexivity |]. split; [reflexivity |]. left.
           split; [reflexivity |]. right. exists pr, zipBlob. auto.
        -- injection Hrun as <-. cbn [emitted final]. split; [reflexivity |].
           exists o1. split; [reflexivity |]. split; [reflexivity |]. left.
           split; [reflexivity |]. left. reflexivity.
      * injection Hrun as <-. cbn [emitted final]. split; [reflexivity |].
        exists o1. split; [reflexivity |]. split; [reflexivity |]. right.
        eexists. split; [reflexivity |]. split; [reflexivity |]. split; [reflexivity |].
        split; [reflexivity |]. exists pr. auto.
    + injection Hrun as <-. cbn [emitted final]. split; [reflexivity |].
      exists o1. split; [reflexivity |]. split; [reflexivity |]. left.
      split; [reflexivity |]. left. reflexivity.
  - rewrite bool_decide_eq_true_2 by (cbn; lia). intros [= <-]. left.
    split; [discriminate |]. repeat split.
Qed.

(** A run leaves a checkpoint in order when it started from one. *)
Lemma leaves_inOrder statuses llm clock (o : Orch) (s : Run) (ls : Storage.LocalStorage) :
  storeInOrder (localStorage o) ->
  inOrder (Storage.currentStage (progress o)) (artifacts o) ->
  leaves generateZip statuses llm clock o s ls ->
  storeInOrder ls.
Proof.
  intros Hstore Hin [(out & Hrun & ->) | (_ & k & o1 & Hobs & ->)].
  - destruct (run_cases statuses llm clock o s out Hrun)
      as [(_ & _ & -> & _) | (_ & _ & o1 & Hobs & _ & Hcases)]; [exact Hstore |].
    rewrite <- (firstn_all (emitted (pipelineOf llm clock (begin o) s))) in Hobs.
    destruct Hcases as [(-> & _) | (p & -> & Hp & _)].
    + eapply observed_store; eassumption.
    + apply saved_inOrder. rewrite Hp. eapply observed_inOrder; eassumption.
  - eapply observed_store; eassumption.
Qed.

Lemma inOrder_nil (n : nat) : inOrder n [].
Proof. split; constructor. Qed.

(** Every store of the interface holds a checkpoint in order. *)
Lemma written_inOrder (ls : Storage.LocalStorage) :
  written generateZip extractModuleName ls -> storeInOrder ls.
Proof.
  induction 1 as [| ls config statuses llm clock s ls' _ IH Hleaves
                  | ls loaded dateNow saved apiKeys statuses llm clock s ls'
                       _ IH _ IHloaded Hload Hleaves].
  - intros dateNow saved Hload. discriminate.
  - eapply leaves_inOrder; [| | exact Hleaves]; [exact IH | apply inOrder_nil].
  - eapply leaves_inOrder; [| | exact Hleaves]; [exact IH |].
    exact (IHloaded dateNow saved Hload).
Qed.

(** An orchestrator that the interface makes starts from a checkpoint in
    order. *)
Lemma startable_inOrder config resumeState (ls : Storage.LocalStorage) :
  startable generateZip extractModuleName config resumeState ->
  inOrder (Storage.currentStage
             (progress (create (Blob := Blob) extractModuleName config resumeState ls)))
          (artifacts (create (Blob := Blob) extractModuleName config resumeState ls)).
Proof.
  intros [-> | (loaded & dateNow & saved & apiKeys & Hw & Hload & -> & ->)].
  - apply inOrder_nil.
  - exact (written_inOrder loaded Hw dateNow saved Hload).
Qed.

(** With a budget of one cycle or more the callbacks return, and so does
    [run]. *)
Lemma run_returns statuses llm clock (o : Orch) (s : Run) :
  1 <= Storage.maxFeedbackCycles (config o) ->
  is_Some (Orchestrator.run generateZip statuses llm clock o s).
Proof.
  intros Hmax. unfold Orchestrator.run. cbv zeta.
  destruct (bool_decide _); [eexists; reflexivity |].
  assert (Hret : Forall returns (emitted (pipelineOf llm clock (begin o) s))).
  { unfold pipelineOf. rewrite resume_stages.
    match goal with
    | |- context [Pipeline.stages ?l ?c ?m ?agents ?i ?all ?s'] =>
        destruct (stages_trace l c m Hmax agents i all s') as (pr & _ & H & _)
    end.
    exact H. }
  destruct (observe_returns statuses _ Hret 0%nat (begin o)) as [o1 ->].
  cbn [mbind option_bind].
  destruct (result _) as [pr | message]; [| eexists; reflexivity].
  destruct (Pipeline.success pr); [| eexists; reflexivity].
  destruct (generateZip _ _); eexists; reflexivity.
Qed.

(** [run] with valid keys, as its definition reads once the pipeline
    has run. *)
Lemma run_ends statuses llm clock (o : Orch) (s : Run) (out : Out Orch Event unit) :
  Gateway.validateApiKeys (Storage.apiKeys (config o))
                          (Storage.executorModel (config o))
                          (Storage.reviewerModel (config o)) = [] ->
  Orchestrator.run generateZip statuses llm clock o s = Some out ->
  exists o1,
    observe statuses 0 (emitted (pipelineOf llm clock (begin o) s)) (begin o) = Some o1
    /\ emitted out = emitted (pipelineOf llm clock (begin o) s)
    /\ match result (pipelineOf llm clock (begin o) s) with
       | Throw message => result out = Throw message /\ final out = o1
       | Ok pr =>
           if Pipeline.success pr then
             match generateZip (Pipeline.artifacts pr) (moduleName o1) with
             | Throw message =>
                 result out = Throw message
                 /\ final out = showStatus (Js.lit "Generating ZIP file...") o1
             | Ok zipBlob =>
                 result out = Ok tt
                 /\ final out
                    = deliver (Pipeline.artifacts pr) zipBlob
                        (updateProgress
                           (mkUpdate (Some Storage.complete)
                                     (Some (length Tables.PIPELINE_STAGES))
                                     None None None None None
                                     (Some (Js.lit "Generation complete!")) None)
                           (showStatus (Js.lit "Generating ZIP file...") o1))
             end
           else
             result out = Ok tt
             /\ final out
                = report (Js.orElse (default [] (Pipeline.error pr))
                                    (Js.lit "Unknown error"))
                    (persistState
                       (updateProgress
                          (mkUpdate (Some Storage.error) None None None None None
                                    None None
                                    (Some (Js.orElse (default [] (Pipeline.error pr))
                                                     (Js.lit "Unknown error"))))
                          o1))
       end.
Proof.
  intros Hkeys. unfold Orchestrator.run. cbv zeta. rewrite Hkeys.
  cbn [length]. rewrite bool_decide_eq_false_2 by (cbn; lia).
  destruct (observe statuses 0 _ (begin o)) as [o1 |]; [| discriminate].
  cbn [mbind option_bind]. intros Hrun. exists o1. split; [reflexivity |].
  destruct (result (pipelineOf llm clock (begin o) s)) as [pr | message].
  - destruct (Pipeline.success pr).
    + change (moduleName (showStatus (Js.lit "Generating ZIP file...") o1))
        with (moduleName o1) in Hrun.
      destruct (generateZip _ _); injection Hrun as <-; repeat split.
    + injection Hrun as <-. repeat split.
  - injection Hrun as <-. repeat split.
Qed.

End Sessions.

Lemma length_targets (trace : list Event) : length (targets trace) = generateCalls trace.
Proof.
  induction trace as [| e trace IH]; [reflexivity |].
  destruct e as [| | | [|] ? ? ? ? ? | | |]; cbn; try exact IH.
  unfold generateCalls, callsOf in IH. cbn. f_equal. exact IH.
Qed.

(** Without a budget no generate call is made. *)
Lemma no_budget_no_target llm clock maxFeedbackCycles n persisted s :
  maxFeedbackCycles < 1 ->
  targets (emitted (Pipeline.resume llm clock maxFeedbackCycles n persisted s)) = [].
Proof.
  intros Hmax. apply length_zero_iff_nil. rewrite length_targets, resume_stages.
  match goal with
  | |- context [Pipeline.stages ?l ?c ?m ?agents ?i ?all ?s'] =>
      destruct (stages_count l c m agents i all s') as (_ & H & _)
  end.
  cbv zeta in H. replace (Z.to_nat maxFeedbackCycles) with 0%nat in H by lia.
  cbn in H. lia.
Qed.

(** In a checkpoint in order no type of the stage it names is there: the
    first type that is missing is the first type of the stage. *)
Lemma firstMissing_inOrder (n : nat) (persisted : list SpecArtifact) :
  inOrder n persisted ->
  Pipeline.firstMissing n persisted
  = match nth_error AGENT_ORDER n with
    | Some agent => hd_error (getOutputIRTypes agent)
    | None => None
    end.
Proof.
  intros [_ Hall]. unfold Pipeline.firstMissing.
  destruct (nth_error AGENT_ORDER n) as [agent |] eqn:Hn; [| reflexivity].
  assert (Hfrom : forall t, t ∈ getOutputIRTypes agent -> t ∈ Pipeline.outputsFrom n).
  { intros t Ht. unfold Pipeline.outputsFrom.
    assert (Hskip : skipn n AGENT_ORDER = agent :: skipn (S n) AGENT_ORDER).
    { do 6 (destruct n as [| n]; [injection Hn as <-; reflexivity |]).
      destruct n; discriminate. }
    rewrite Hskip. cbn [flat_map]. apply elem_of_app. left. exact Ht. }
  f_equal. induction (getOutputIRTypes agent) as [| t ts IH]; [reflexivity |].
  cbn [List.filter].
  rewrite bool_decide_eq_false_2.
  - cbn [negb]. f_equal. apply IH. intros t' Ht'. apply Hfrom. right. exact Ht'.
  - intros Hin. apply list_elem_of_fmap in Hin as (a & -> & Ha).
    rewrite Forall_forall in Hall.
    apply (outputs_disjoint n (irType a) (Hall a Ha)). apply Hfrom. left.
Qed.


Lemma checkpoint_written : written Session.zipped Session.named Session.checkpoint.
Proof.
  unfold Session.checkpoint.
  destruct Session.firstRun as [out |] eqn:Hrun; [| apply written_empty].
  eapply (written_new Session.zipped Session.named Storage.emptyStorage
            Session.paymentsConfig Session.silent Session.fiveCalls Scenario.wallClock
            (mkRun 0 [])); [apply written_empty |].
  left. exists out. split; [exact Hrun | reflexivity].
Defined.




Lemma nth_error_before (n : nat) (agent : AgentType) :
  nth_error AGENT_ORDER n = Some agent -> (n < length AGENT_ORDER)%nat.
Proof. intros H. apply nth_error_Some. congruence. Qed.

(** A run that ends in the state [error], with valid keys and a budget
    of a cycle or more. *)
Lemma failed_run_spec {Blob : Type}
    (generateZip : list (option SpecArtifact) -> Js.str -> Res Blob)
    (statuses : nat -> list Js.str) (llm : nat -> Res Js.str) (clock : nat -> Z)
    (o : Orchestrator Blob) (s : Run) (dateNow : Z) :
  Gateway.validateApiKeys (Storage.apiKeys (config o))
                          (Storage.executorModel (config o))
                          (Storage.reviewerModel (config o)) = [] ->
  1 <= Storage.maxFeedbackCycles (config o) ->
  exists out,
    run generateZip statuses llm clock o s = Some out
    /\ (Storage.state (progress (final out)) = Storage.error ->
        result out = Ok tt
        /\ exists stage agent e,
             last (startedStages (emitted out)) = Some (stage, agent)
             /\ (Storage.currentStage (progress o) < stage)%nat
             /\ nth_error AGENT_ORDER (stage - 1) = Some agent
             /\ (stage ∉ completedStages (emitted out))
             /\ Storage.currentStage (progress (final out)) = stage
             /\ Storage.progressError (progress (final out))
                = Some (Js.orElse e (Js.lit "Unknown error"))
             /\ reported (final out)
                = reported o ++ [Js.orElse e (Js.lit "Agent execution failed");
                                 Js.orElse e (Js.lit "Unknown error")]
             /\ artifacts (final out) = artifacts o ++ completedIn (emitted out)
             /\ (moduleName o <> [] ->
                 let saved :=
                   {| Storage.config :=
                        {| Storage.persistedPrompt := Storage.prompt (config o);
                           Storage.persistedExecutorModel :=
                             Storage.executorModel (config o);
                           Storage.persistedReviewerModel :=
                             Storage.reviewerModel (config o);
                           Storage.persistedMaxFeedbackCycles :=
                             Storage.maxFeedbackCycles (config o) |};
                      Storage.progress := progress (final out);
                      Storage.artifacts := artifacts (final out);
                      Storage.moduleName := moduleName o;
                      Storage.timestamp := dateNow |} in
                 checkAfterError dateNow (localStorage (final out)) = Some saved
                 /\ checkPersistedState dateNow (localStorage (final out)) = Some saved)).
Proof.
  intros Hkeys Hmax.
  destruct (run_returns generateZip statuses llm clock o s Hmax) as [out Hrun].
  exists out. split; [exact Hrun |]. intros Hstate.
  destruct (run_ends generateZip statuses llm clock o s out Hkeys Hrun)
    as (o1 & Hobs & Hev & Hend).
  destruct (observe_spec statuses _ _ _ _ Hobs) as (C1 & M1 & _ & A1 & R1 & S1 & T1 & _).
  rewrite Hev. unfold pipelineOf in *.
  change (Storage.currentStage (progress (begin o))) with (Storage.currentStage (progress o))
    in *.
  change (Storage.maxFeedbackCycles (config (begin o)))
    with (Storage.maxFeedbackCycles (config o)) in *.
  change (artifacts (begin o)) with (artifacts o) in *.
  change (reported (begin o)) with (reported o) in *.
  change (config (begin o)) with (config o) in *.
  change (moduleName (begin o)) with (moduleName o) in *.
  change (Storage.state (progress (begin o))) with Storage.running in *.
  rewrite resume_stages in *.
  set (n := Storage.currentStage (progress o)) in *.
  match type of Hend with
  | context [Pipeline.stages ?l ?c ?m ?agents ?i ?all ?s'] =>
      destruct (stages_trace l c m Hmax agents i all s')
        as (pr & Hpr & _ & _ & Hshape);
      set (trace := emitted (Pipeline.stages l c m agents i all s')) in *
  end.
  rewrite Hpr in Hend.
  destruct Hshape as [(Hsucc & _ & Herr & _) | (Hsucc & k & agent & e & Hk & Hst & Hcs & He & Herr)];
    rewrite Hsucc in Hend.
  { exfalso. rewrite Herr in T1.
    destruct (generateZip _ _); destruct Hend as [_ Hfin]; rewrite Hfin in Hstate;
      cbn in Hstate; [discriminate |]. rewrite T1 in Hstate. discriminate. }
  destruct Hend as [Hres Hfin]. split; [exact Hres |].
  rewrite nth_error_skipn in Hk.
  exists (n + k + 1)%nat, agent, e.
  split; [rewrite Hst; apply last_started; rewrite nth_error_skipn; exact Hk |].
  split; [lia |].
  split; [replace (n + k + 1 - 1)%nat with (n + k)%nat by lia; exact Hk |].
  split; [rewrite Hcs; intros Hin; apply elem_of_seq in Hin; lia |].
  rewrite Hfin, He. cbn [default].
  cbn [report persistState updateProgress progress artifacts reported localStorage
       spread newCurrentStage newError Storage.currentStage Storage.progressError overwrite
       default].
  assert (Hnum : List.map fst (startedStages trace) = seq (n + 1) (S k)).
  { rewrite Hst. apply (started_numbers _ _ _ agent). rewrite nth_error_skipn. exact Hk. }
  split; [rewrite S1, Hnum, last_seq; lia |].
  split; [reflexivity |].
  split; [rewrite R1, Herr, <- app_assoc; reflexivity |].
  split; [exact A1 |].
  intros Hname. cbv zeta.
  unfold checkAfterError, checkPersistedState.
  cbn [Storage.hasPersistedState Storage.saveState Storage.CONFIG Storage.PROGRESS].
  cbn [updateProgress config moduleName].
  rewrite (load_after_save _ _ _ _ _ dateNow) by (rewrite M1; exact Hname).
  cbn [Storage.progress Storage.state spread newState default].
  rewrite C1, M1. split; reflexivity.
Qed.


(** X21. A run with valid keys and a budget of a cycle or more returns.
    When it ends in the state [error], its promise has resolved and its
    pipeline has failed in the stage it started last: the progress names
    that stage by its number, which counts from 1; the error is reported
    to the caller twice, by the pipeline's [onError] and by [run] itself;
    the orchestrator holds the artifacts it had and those the pipeline
    announced as complete, those of the failed stage among them; and
    unless the module name is empty the store holds this very state, which
    the interface loads after the error, and offers when it mounts. *)
Theorem failed_run_leaves_its_checkpoint {Blob : Type}
    (generateZip : list (option SpecArtifact) -> Js.str -> Res Blob)
    (statuses : nat -> list Js.str) (llm : nat -> Res Js.str) (clock : nat -> Z)
    (o : Orchestrator Blob) (s : Run) (dateNow : Z) :
  Gateway.validateApiKeys (Storage.apiKeys (config o))
                          (Storage.executorModel (config o))
                          (Storage.reviewerModel (config o)) = [] ->
  1 <= Storage.maxFeedbackCycles (config o) ->
  exists out,
    run generateZip statuses llm clock o s = Some out
    /\ (Storage.state (progress (final out)) = Storage.error ->
        result out = Ok tt
        /\ exists stage agent e,
             last (startedStages (emitted out)) = Some (stage, agent)
             /\ (Storage.currentStage (progress o) < stage)%nat
             /\ nth_error AGENT_ORDER (stage - 1) = Some agent
             /\ (stage ∉ completedStages (emitted out))
             /\ Storage.currentStage (progress (final out)) = stage
             /\ Storage.progressError (progress (final out))
                = Some (Js.orElse e (Js.lit "Unknown error"))
             /\ reported (final out)
                = reported o ++ [Js.orElse e (Js.lit "Agent execution failed");
                                 Js.orElse e (Js.lit "Unknown error")]
             /\ artifacts (final out) = artifacts o ++ completedIn (emitted out)
             /\ (moduleName o <> [] ->
                 let saved :=
                   {| Storage.config :=
                        {| Storage.persistedPrompt := Storage.prompt (config o);
                           Storage.persistedExecutorModel :=
                             Storage.executorModel (config o);
                           Storage.persistedReviewerModel :=
                             Storage.reviewerModel (config o);
                           Storage.persistedMaxFeedbackCycles :=
                             Storage.maxFeedbackCycles (config o) |};
                      Storage.progress := progress (final out);
                      Storage.artifacts := artifacts (final out);
                      Storage.moduleName := moduleName o;
                      Storage.timestamp := dateNow |} in
                 checkAfterError dateNow (localStorage (final out)) = Some saved
                 /\ checkPersistedState dateNow (localStorage (final out)) = Some saved)).
Proof. apply failed_run_spec. Qed.

Lemma failed_run_leaves_its_checkpoint_witness :
  match Session.firstRun with
  | Some out =>
      last (startedStages (emitted out)) = Some (2%nat, architect)
      /\ Storage.currentStage (progress (final out)) = 2%nat
      /\ reported (final out) = [Js.lit "Failed to fetch"; Js.lit "Failed to fetch"]
      /\ List.map irType (artifacts (final out)) = [contract; module]
      /\ checkPersistedState 1767229200000 (localStorage (final out))
         = Storage.loadState 1767229200000 Session.checkpoint
  | None => False
  end.
Proof.
  destruct (failed_run_leaves_its_checkpoint
              Session.zipped Session.silent Session.fiveCalls Scenario.wallClock
              (create Session.named Session.paymentsConfig None Storage.emptyStorage)
              (mkRun 0 []) 1767229200000 eq_refl ltac:(cbn; lia))
    as (out & Hrun & Hfailed).
  unfold Session.checkpoint.
  change Session.firstRun
    with (run Session.zipped Session.silent Session.fiveCalls Scenario.wallClock
              (create Session.named Session.paymentsConfig None Storage.emptyStorage)
              (mkRun 0 [])).
  rewrite Hrun.
  assert (Hstate : Storage.state (progress (final out)) = Storage.error).
  { vm_compute in Hrun. injection Hrun as <-. reflexivity. }
  destruct (Hfailed Hstate) as (_ & stage & agent & e & H1 & _ & _ & _ & H5 & _ & H7 & H8 & H9).
  assert (Hlast : last (startedStages (emitted out)) = Some (2%nat, architect)).
  { vm_compute in Hrun. injection Hrun as <-. reflexivity. }
  rewrite Hlast in H1. injection H1 as <- <-.
  split; [exact Hlast |]. split; [exact H5 |].
  split; [vm_compute in Hrun; injection Hrun as <-; reflexivity |].
  split; [vm_compute in Hrun; injection Hrun as <-; reflexivity |].
  destruct H9 as [Hafter Hmount]; [discriminate |].
  rewrite Hmount. unfold checkAfterError in Hafter.
  destruct (Storage.hasPersistedState (localStorage (final out)));
    [symmetry; exact Hafter | discriminate].
Defined.

(** X22. The resume of the checkpoint of a failed run starts after the
    stage that failed. When a run with valid keys, a budget of a cycle or
    more and a module name that is not empty ends in the state [error],
    the checkpoint that the interface loads after the error names the
    stage that failed by its number, and an orchestrator resumed from it,
    whatever the keys, the model and the store then are, starts stages of
    higher numbers only and issues no generate call for any declared type
    of the stage that failed. *)
Theorem resume_skips_the_failed_stage {Blob : Type}
    (generateZip : list (option SpecArtifact) -> Js.str -> Res Blob)
    (extractModuleName : Js.str -> Js.str)
    (statuses : nat -> list Js.str) (llm : nat -> Res Js.str) (clock : nat -> Z)
    (o : Orchestrator Blob) (s : Run) (dateNow : Z) :
  Gateway.validateApiKeys (Storage.apiKeys (config o))
                          (Storage.executorModel (config o))
                          (Storage.reviewerModel (config o)) = [] ->
  1 <= Storage.maxFeedbackCycles (config o) ->
  moduleName o <> [] ->
  exists out,
    run generateZip statuses llm clock o s = Some out
    /\ (Storage.state (progress (final out)) = Storage.error ->
        exists persistedState stage agent,
          checkAfterError dateNow (localStorage (final out)) = Some persistedState
          /\ last (startedStages (emitted out)) = Some (stage, agent)
          /\ (stage ∉ completedStages (emitted out))
          /\ Storage.currentStage (Storage.progress persistedState) = stage
          /\ Storage.artifacts persistedState = artifacts o ++ completedIn (emitted out)
          /\ forall apiKeys statuses' llm' clock' ls' s' out',
               run generateZip statuses' llm' clock'
                   (create extractModuleName
                           (handleResumeWithKeys persistedState apiKeys).1
                           (Some (handleResumeWithKeys persistedState apiKeys).2) ls')
                   s' = Some out' ->
               Forall (fun started => (stage < started.1)%nat)
                      (startedStages (emitted out'))
               /\ Forall (fun t => t ∉ getOutputIRTypes agent) (targets (emitted out'))).
Proof.
  intros Hkeys Hmax Hname.
  destruct (failed_run_spec generateZip statuses llm clock o s dateNow Hkeys Hmax)
    as (out & Hrun & Hfailed).
  exists out. split; [exact Hrun |]. intros Hstate.
  destruct (Hfailed Hstate)
    as (_ & stage & agent & e & H1 & H2 & H3 & H4 & H5 & _ & _ & H8 & H9).
  destruct (H9 Hname) as [Hafter _]. cbv zeta in Hafter.
  eexists _, stage, agent. split; [exact Hafter |].
  split; [exact H1 |]. split; [exact H4 |].
  cbn [Storage.progress Storage.artifacts].
  split; [exact H5 |]. split; [exact H8 |].
  intros apiKeys statuses' llm' clock' ls' s' out' Hrun'.
  destruct (run_cases generateZip statuses' llm' clock' _ s' out' Hrun')
    as [(_ & -> & _) | (_ & -> & _)]; [split; constructor |].
  unfold pipelineOf.
  cbn [handleResumeWithKeys fst snd create begin updateProgress config progress artifacts
       startFromStage resumeArtifacts Storage.progress Storage.artifacts Storage.config
       Storage.maxFeedbackCycles Storage.persistedMaxFeedbackCycles].
  match goal with
  | |- context [Pipeline.resume ?l ?c ?m ?n ?p ?s0] =>
      change n with (Storage.currentStage (progress (final out)));
      pose proof (resume_targets l c m (Storage.currentStage (progress (final out))) p s0)
        as Htargets;
      set (resumed := Pipeline.resume l c m (Storage.currentStage (progress (final out)))
                                      p s0) in *
  end.
  rewrite H5 in *. split.
  - subst resumed. rewrite resume_stages.
    match goal with
    | |- context [Pipeline.stages ?l ?c ?m ?agents ?i ?all ?s0] =>
        destruct (stages_prefix l c m agents i all s0
                    (length (emitted (Pipeline.stages l c m agents i all s0))))
          as (j & _ & J2 & _);
        rewrite firstn_all in J2
    end.
    apply Forall_forall. intros started Hin.
    rewrite H5 in J2, Hin.
    assert (Hfst : started.1 ∈ seq (stage + 1) j).
    { rewrite <- J2. apply list_elem_of_fmap. exists started.
      split; [reflexivity | exact Hin]. }
    apply elem_of_seq in Hfst. lia.
  - eapply Forall_impl; [exact Htargets |]. intros t Ht Hin.
    apply (outputs_disjoint stage t); [| exact Ht].
    replace stage with (S (stage - 1)) by lia.
    eapply outputs_before_next; eassumption.
Qed.

Lemma resume_skips_the_failed_stage_witness :
  match Session.resumedRun with
  | Some out' =>
      Forall (fun started => (2 < started.1)%nat) (startedStages (emitted out'))
      /\ Forall (fun t => t ∉ getOutputIRTypes architect) (targets (emitted out'))
  | None => False
  end.
Proof.
  destruct (resume_skips_the_failed_stage
              Session.zipped Session.named Session.silent Session.fiveCalls
              Scenario.wallClock
              (create Session.named Session.paymentsConfig None Storage.emptyStorage)
              (mkRun 0 []) 1767229200000 eq_refl ltac:(cbn; lia) ltac:(discriminate))
    as (out & Hrun & Hfailed).
  assert (Hstate : Storage.state (progress (final out)) = Storage.error).
  { vm_compute in Hrun. injection Hrun as <-. reflexivity. }
  destruct (Hfailed Hstate) as (saved & stage & agent & Hafter & Hlast & _ & _ & _ & Hall).
  assert (Hlast' : last (startedStages (emitted out)) = Some (2%nat, architect)).
  { vm_compute in Hrun. injection Hrun as <-. reflexivity. }
  rewrite Hlast' in Hlast. injection Hlast as <- <-.
  unfold Session.resumedRun, Session.checkpoint.
  change Session.firstRun
    with (run Session.zipped Session.silent Session.fiveCalls Scenario.wallClock
              (create Session.named Session.paymentsConfig None Storage.emptyStorage)
              (mkRun 0 [])).
  rewrite Hrun.
  assert (Hload : Storage.loadState 1767229200000 (localStorage (final out)) = Some saved).
  { unfold checkAfterError in Hafter.
    destruct (Storage.hasPersistedState (localStorage (final out)));
      [exact Hafter | discriminate]. }
  cbv iota. rewrite Hload.
  destruct (run Session.zipped Session.silent Scenario.alwaysApproved _ _ _)
    as [out' |] eqn:Hrun'.
  - exact (Hall _ _ _ _ _ _ out' Hrun').
  - assert (Hbudget : Storage.persistedMaxFeedbackCycles (Storage.config saved) = 3).
    { vm_compute in Hrun. injection Hrun as <-. vm_compute in Hload.
      injection Hload as <-. reflexivity. }
    destruct (run_returns Session.zipped Session.silent Scenario.alwaysApproved
                Scenario.wallClock
                (create Session.named
                        (handleResumeWithKeys saved (Storage.apiKeys Session.paymentsConfig)).1
                        (Some (handleResumeWithKeys saved
                                 (Storage.apiKeys Session.paymentsConfig)).2)
                        (localStorage (final out))) (mkRun 0 [])) as [out' Hout].
    + cbn. rewrite Hbudget. lia.
    + rewrite Hout in Hrun'. discriminate.
Defined.

(** X23. A run for whose executor or reviewer model the key is missing or
    empty ends at once: its promise resolves, no stage starts and no model
    call is made, the store and the artifacts are what they were, the
    progress is in the state [error] with the messages of
    [validateApiKeys], joined, as its error, and the caller is told that
    error once. *)
Theorem run_without_keys_ends_at_once {Blob : Type}
    (generateZip : list (option SpecArtifact) -> Js.str -> Res Blob)
    (statuses : nat -> list Js.str) (llm : nat -> Res Js.str) (clock : nat -> Z)
    (o : Orchestrator Blob) (s : Run) :
  Gateway.keyTruthy
    (Waits.keyFor (Storage.apiKeys (config o))
                  (Llm.getModelProvider (Storage.executorModel (config o)))) = false
  \/ Gateway.keyTruthy
       (Waits.keyFor (Storage.apiKeys (config o))
                     (Llm.getModelProvider (Storage.reviewerModel (config o)))) = false ->
  let keyErrors :=
    Gateway.validateApiKeys (Storage.apiKeys (config o))
                            (Storage.executorModel (config o))
                            (Storage.reviewerModel (config o)) in
  exists out,
    run generateZip statuses llm clock o s = Some out
    /\ keyErrors <> []
    /\ result out = Ok tt
    /\ emitted out = []
    /\ localStorage (final out) = localStorage o
    /\ artifacts (final out) = artifacts o
    /\ delivered (final out) = delivered o
    /\ reported (final out) = reported o ++ [join keyErrors]
    /\ Storage.state (progress (final out)) = Storage.error
    /\ Storage.progressError (progress (final out)) = Some (join keyErrors)
    /\ Storage.currentStage (progress (final out)) = Storage.currentStage (progress o).
Proof.
  intros Hmissing keyErrors.
  assert (Hne : keyErrors <> []).
  { intros Hnil. apply validateApiKeys_spec in Hnil as [He Hr].
    destruct Hmissing as [H | H]; congruence. }
  unfold run. cbv zeta. fold keyErrors.
  destruct keyErrors as [| e errors] eqn:Hk; [contradiction |].
  rewrite bool_decide_eq_true_2 by (cbn; lia).
  eexists. split; [reflexivity |]. cbn. repeat split. discriminate.
Qed.

Lemma run_without_keys_ends_at_once_witness :
  exists out,
    run Session.zipped Session.silent Scenario.alwaysApproved Scenario.wallClock
        (create Session.named
                {| Storage.prompt := Storage.prompt Session.paymentsConfig;
                   Storage.executorModel := Llm.claude_sonnet_4_5;
                   Storage.reviewerModel := Llm.chatgpt_5_2;
                   Storage.apiKeys := Cases.openaiKeyOnly;
                   Storage.maxFeedbackCycles := 3 |}
                None Storage.emptyStorage) (mkRun 0 []) = Some out
    /\ emitted out = []
    /\ reported (final out) = [Js.lit "Anthropic API key is required for Claude models"]
    /\ localStorage (final out) = Storage.emptyStorage.
Proof.
  destruct (run_without_keys_ends_at_once
              Session.zipped Session.silent Scenario.alwaysApproved Scenario.wallClock
              (create Session.named
                      {| Storage.prompt := Storage.prompt Session.paymentsConfig;
                         Storage.executorModel := Llm.claude_sonnet_4_5;
                         Storage.reviewerModel := Llm.chatgpt_5_2;
                         Storage.apiKeys := Cases.openaiKeyOnly;
                         Storage.maxFeedbackCycles := 3 |}
                      None Storage.emptyStorage) (mkRun 0 []))
    as (out & H1 & _ & _ & H4 & H5 & _ & _ & H8 & _).
  - left. reflexivity.
  - exists out. split; [exact H1 |]. split; [exact H4 |]. split; [exact H8 | exact H5].
Defined.

Lemma started_all (agents : list AgentType) (i : nat) :
  List.map fst (combine (seq i (length agents)) agents) = seq i (length agents).
Proof.
  revert i. induction agents as [| a agents IH]; intros i; [reflexivity |].
  cbn. rewrite IH. reflexivity.
Qed.

(** X24. A run with valid keys and a budget of a cycle or more that
    delivers has completed every stage from its start index on and has
    reported no error: its promise resolves, the progress is [complete] at
    stage 6, the zip is the one made of the delivered artifacts, which are
    the persisted ones, a single one of each type, and then those that
    the pipeline announced as complete, in order; the orchestrator holds
    the persisted and the completed ones. The checkpoint in the store is
    not brought to [complete]: when the run has run a stage, and the
    module name is not empty, it loads as a checkpoint in the state
    [running] at stage 6 with all these artifacts, which the interface
    does not offer when it mounts. *)
Theorem completed_run_delivers_its_artifacts {Blob : Type}
    (generateZip : list (option SpecArtifact) -> Js.str -> Res Blob)
    (statuses : nat -> list Js.str) (llm : nat -> Res Js.str) (clock : nat -> Z)
    (o : Orchestrator Blob) (s : Run) (dateNow : Z) :
  Gateway.validateApiKeys (Storage.apiKeys (config o))
                          (Storage.executorModel (config o))
                          (Storage.reviewerModel (config o)) = [] ->
  1 <= Storage.maxFeedbackCycles (config o) ->
  delivered o = None ->
  exists out,
    run generateZip statuses llm clock o s = Some out
    /\ forall delivered' zipBlob,
         delivered (final out) = Some (delivered', zipBlob) ->
         let n := Storage.currentStage (progress o) in
         result out = Ok tt
         /\ Storage.state (progress (final out)) = Storage.complete
         /\ Storage.currentStage (progress (final out)) = 6%nat
         /\ reported (final out) = reported o
         /\ generateZip delivered' (moduleName o) = Ok zipBlob
         /\ delivered'
            = mapValues (Pipeline.previousArtifactsOf (artifacts o))
              ++ List.map Some (completedIn (emitted out))
         /\ artifacts (final out) = artifacts o ++ completedIn (emitted out)
         /\ completedStages (emitted out) = seq (n + 1) (length AGENT_ORDER - n)
         /\ ((n < length AGENT_ORDER)%nat -> moduleName o <> [] ->
             exists persistedState,
               Storage.loadState dateNow (localStorage (final out)) = Some persistedState
               /\ Storage.state (Storage.progress persistedState) = Storage.running
               /\ Storage.currentStage (Storage.progress persistedState) = 6%nat
               /\ Storage.artifacts persistedState = artifacts (final out)
               /\ checkPersistedState dateNow (localStorage (final out)) = None).
Proof.
  intros Hkeys Hmax Hnone.
  destruct (run_returns generateZip statuses llm clock o s Hmax) as [out Hrun].
  exists out. split; [exact Hrun |]. intros delivered' zipBlob Hdel n.
  destruct (run_ends generateZip statuses llm clock o s out Hkeys Hrun)
    as (o1 & Hobs & Hev & Hend).
  destruct (observe_spec statuses _ _ _ _ Hobs)
    as (C1 & M1 & D1 & A1 & R1 & S1 & T1 & _ & Y1).
  rewrite Hev. unfold pipelineOf in *.
  change (Storage.currentStage (progress (begin o))) with n in *.
  change (Storage.maxFeedbackCycles (config (begin o)))
    with (Storage.maxFeedbackCycles (config o)) in *.
  change (artifacts (begin o)) with (artifacts o) in *.
  change (reported (begin o)) with (reported o) in *.
  change (config (begin o)) with (config o) in *.
  change (moduleName (begin o)) with (moduleName o) in *.
  change (delivered (begin o)) with (delivered o) in *.
  change (Storage.state (progress (begin o))) with Storage.running in *.
  rewrite resume_stages in *.
  match type of Hend with
  | context [Pipeline.stages ?l ?c ?m ?agents ?i ?all ?s'] =>
      destruct (stages_trace l c m Hmax agents i all s')
        as (pr & Hpr & _ & Hhead & Hshape);
      set (trace := emitted (Pipeline.stages l c m agents i all s')) in *
  end.
  rewrite Hpr in Hend.
  destruct Hshape as [(Hsucc & Harts & Herr & Hst & Hcs) | (Hsucc & _)];
    rewrite Hsucc in Hend.
  2: { destruct Hend as [_ Hfin]. rewrite Hfin in Hdel. cbn in Hdel.
       rewrite D1, Hnone in Hdel. discriminate. }
  rewrite M1 in Hend.
  destruct (generateZip (Pipeline.artifacts pr) (moduleName o)) as [blob | message] eqn:Hzip.
  2: { destruct Hend as [_ Hfin]. rewrite Hfin in Hdel. cbn in Hdel.
       rewrite D1, Hnone in Hdel. discriminate. }
  destruct Hend as [Hres Hfin]. rewrite Hfin in Hdel |- *. cbn in Hdel.
  injection Hdel as <- <-.
  rewrite length_skipn in Hcs, Hst.
  split; [exact Hres |]. split; [reflexivity |]. split; [reflexivity |].
  split; [cbn; rewrite R1, Herr, app_nil_r; reflexivity |].
  split; [exact Hzip |]. split; [exact Harts |]. split; [exact A1 |].
  split; [exact Hcs |].
  intros Hn Hname. cbn [deliver updateProgress localStorage artifacts showStatus].
  assert (Hsynced : synced o1).
  { apply Y1. right.
    destruct (skipn n AGENT_ORDER) as [| agent rest] eqn:Hskip.
    - apply (f_equal (@length _)) in Hskip. rewrite length_skipn in Hskip.
      cbn [length AGENT_ORDER] in Hskip, Hn. lia.
    - destruct Hhead as [rest' Hrest]. eauto. }
  assert (Hload : exists saved,
             Storage.loadState dateNow (localStorage o1) = Some saved).
  { destruct Hsynced as (p & -> & _). unfold checkpointOf.
    rewrite (load_after_save _ _ _ _ _ dateNow) by (rewrite M1; exact Hname). eauto. }
  destruct Hload as [saved Hload].
  destruct (synced_loads o1 dateNow saved Hsynced Hload) as (L1 & L2 & L3 & _).
  assert (Hnum : List.map fst (startedStages trace) = seq (n + 1) (length AGENT_ORDER - n)).
  { rewrite Hst. rewrite <- (length_skipn n AGENT_ORDER) at 1 2. apply started_all. }
  exists saved. split; [exact Hload |].
  split; [rewrite L2, T1, Herr; reflexivity |].
  split; [rewrite L1, S1, Hnum, last_seq; cbn [length AGENT_ORDER] in *; lia |].
  split; [exact L3 |].
  unfold checkPersistedState. rewrite Hload, L2, T1, Herr.
  destruct (Storage.hasPersistedState (localStorage o1)); reflexivity.
Qed.

Lemma completed_run_delivers_its_artifacts_witness :
  exists out,
    run Session.zipped Session.silent Scenario.alwaysApproved Scenario.wallClock
        (create Session.named Session.paymentsConfig None Storage.emptyStorage)
        (mkRun 0 []) = Some out
    /\ Storage.state (progress (final out)) = Storage.complete
    /\ completedStages (emitted out) = [1; 2; 3; 4; 5; 6]%nat
    /\ checkPersistedState 1767229200000 (localStorage (final out)) = None.
Proof.
  destruct (completed_run_delivers_its_artifacts
              Session.zipped Session.silent Scenario.alwaysApproved Scenario.wallClock
              (create Session.named Session.paymentsConfig None Storage.emptyStorage)
              (mkRun 0 []) 1767229200000 eq_refl ltac:(cbn; lia) eq_refl)
    as (out & Hrun & Hall).
  exists out. split; [exact Hrun |].
  assert (Hd : exists arts, delivered (final out) = Some (arts, tt)).
  { vm_compute in Hrun. injection Hrun as <-. eexists. reflexivity. }
  destruct Hd as [arts Hd].
  destruct (Hall arts tt Hd) as (_ & Hst & _ & _ & _ & _ & _ & Hstages & Hck).
  split; [exact Hst |]. split; [exact Hstages |].
  destruct Hck as (saved & _ & _ & _ & _ & Hnone); [cbn; lia | discriminate |].
  exact Hnone.
Defined.

End OrchestratorFacts.
